(* ===== verification/_CoqProject ===== *)
-Q . S2P
Prelude.v
GtidInterval.v
Uuid.v
SidMap.v
GtidSet.v
NumText.v
Bytes.v
GtidCodec.v
GtidText.v
GtidState.v
GtidSpec.v
GtidSystem.v
GtidWait.v
Decimal.v
DecimalArith.v
DecimalSub.v
DecimalMul.v
DecimalDigits.v
DecimalBin.v
DecimalStore.v
DecimalInt.v
DecimalRound.v
DecimalRounding.v
DecimalText.v
DecimalShift.v
DecimalShifting.v
DecimalParse.v
DecimalDiv.v
DecimalDivision.v
MyTime.v
MyDecimal.v
MyDecimalSpec.v
SqlTime.v
Calendar.v
TimePacked.v
SqlTimeSpec.v
