(* ===== verification/Prelude.v ===== *)
(** * Verification of core components of the MySQL 5.7 server

    Three groups of components of the server are modelled and proved correct: the
    global transaction identifiers (GTIDs) that replication is built on, the
    fixed-point decimal arithmetic behind the SQL type DECIMAL, and the dates and
    times behind the types DATE, TIME, DATETIME and TIMESTAMP.  File names below are
    relative to [src/].

    ** Global transaction identifiers

    A transaction of a replicated server is named by a source identifier (SID,
    the UUID of the server it came from) and a group number (GNO).  Internally a
    SID is a small number, its SIDNO.  The parts, from the bottom:

    - [Uuid]: [binary_log::Uuid] ([libbinlogevents/src/uuid.cpp]): text and bytes
      of a SID.
    - [SidMap]: [Sid_map] ([sql/rpl_gtid_sid_map.cc]): SID to SIDNO and back, and
      the SIDNOs in the order of their SIDs.
    - [GtidInterval]: the interval list a set keeps per SIDNO: [Interval],
      [Interval_iterator], the free list of nodes, [add_gno_interval],
      [remove_gno_interval] and the comparisons of two lists
      ([sql/rpl_gtid_set.cc], [sql/rpl_gtid.h]).
    - [GtidSet]: [Gtid_set] (same files): the array of lists, with addition and
      removal of single GTIDs and of whole sets, over one [Sid_map] or two
      different ones, comparison, inclusion, intersection, and [Gtid_iterator].
    - [GtidCodec]: the binary form ([encode], [add_gtid_encoding]).
    - [GtidText]: the text form of sets ([add_gtid_text], [is_valid], [to_string],
      [get_string_length]) and of single GTIDs ([sql/rpl_gtid_misc.cc]).
    - [NumText]: [strings/int2str.c], [strings/longlong2str.c],
      [strings/my_strtoll10.c] and the C library's [strtoll], which the text form
      uses.
    - [Bytes]: little-endian stores and loads ([include/byte_order_generic.h],
      [include/my_byteorder.h]) and length-encoded integers
      ([sql-common/pack.c]).
    - [GtidState]: [Owned_gtids] ([sql/rpl_gtid_owned.cc]), [Gtid_state]
      ([sql/rpl_gtid_state.cc]) and SET GTID_NEXT with the statement checks
      ([sql/rpl_gtid_execution.cc]): who owns a GTID, what is executed, automatic
      GTIDs, commit, group commit and rollback, [wait_for_gtid_set], the bookkeeping
      of log rotation.
    - [GtidSpec]: the text of GTID_NEXT ([sql/rpl_gtid_specification.cc]).
    - [GtidSystem]: all interleavings of the above over the sessions of a server,
      as the step relation [gtid_step] with the reachable states [gtid_reachable]
      and the infinite runs [gtid_run].  Group Replication may specify the GTID of a
      transaction ([MYSQL_BIN_LOG::assign_automatic_gtids_to_flush_group] in
      [sql/binlog.cc] passes it on); the steps have the specified GTIDs that are free
      when they are taken ([specified_ok]), which the server itself does not check.
    - [GtidWait]: [wait_for_gtid_set] against everything that may happen while it
      waits: each look at the executed set sees the commits since the last one, and
      after a wait the set may be another one.

    What is proved.  A sequence of operations on sets refines the same sequence on
    mathematical sets of pairs, keeps the lists sorted, disjoint and not adjacent,
    and loses no node of the free list ([run_ops_refines] and the lemmas per
    operation); queries decide what they promise; text and binary forms round
    trip, the recognisers accept exactly what the parsers accept, and parsers keep
    the invariants on every input, errors included.  In every reachable state a
    GTID has at most one owner and no executed GTID is owned; a group commit
    executes exactly its GTIDs, each once; a session that waits for a GTID waits
    exactly while another one owns it, and gets on in every run in which the owners
    end their transactions and the others stop taking the GTID; automatic GTIDs are
    the least free ones; waiting for a set succeeds only when the set in force is
    executed, and ends once its waits fail or end with the set executed.  A
    specified GTID that another session owns gets a second owner, whose commit then
    uses an uninitialised search state ([specified_gtid_second_owner]).
    The places where the code does something else are proved too, as statements
    about a concrete run ([equals_misses_last_sidno], [add_gtid_encoding_overrun],
    [add_gtid_text_empty_chunk], [remove_gtid_set_distinct_overrun]).

    ** Fixed-point decimals ([strings/decimal.c], [include/decimal.h])

    A [decimal_t] is an array of words of nine decimal digits with the number of
    digits before and after the point and a sign.

    - [Decimal]: the representation, sizes, extreme values, leading and trailing
      zeroes; what a decimal means ([dec_Q], a rational number) and when it is
      well-formed ([dec_wf]).
    - [DecimalArith], [DecimalSub]: [decimal_add], [decimal_sub], [decimal_cmp]
      with [do_add] and [do_sub].
    - [DecimalMul]: [decimal_mul].
    - [DecimalDiv], [DecimalDivision]: [decimal_div] and [decimal_mod] with [do_div_mod],
      the words of the quotient and what they mean.
    - [DecimalDigits]: the digits without leading zeroes, which the formats share.
    - [DecimalBin], [DecimalStore]: the format of DECIMAL columns, [decimal2bin]
      and [bin2decimal].
    - [DecimalInt]: conversions from and to 64-bit integers.
    - [DecimalRound], [DecimalRounding]: [decimal_round] in its five modes, on the
      words and as rounding of rational numbers.
    - [DecimalText]: [decimal2string].
    - [DecimalShift], [DecimalShifting]: [decimal_shift], on the digits in the buffer
      and as multiplication by a power of ten.
    - [DecimalParse]: [internal_str2dec].
    - [MyDecimal], [MyDecimalSpec]: [my_decimal] of the SQL layer
      ([sql/my_decimal.h], [sql/my_decimal.cc]): the operations above on arrays of nine
      words, with the conditions the server pushes for their errors, and the
      numbers that dates and times become.

    What is proved.  Sum, difference and product are exact in a buffer that is
    large enough, whatever the buffer held before; what is stored when the buffer
    is too small; the quotient is the true one cut to the digits of the result, and the
    remainder is exact; the comparison is that of the rational numbers; stored decimals
    compare byte by byte like the numbers and read back as the same number;
    conversions to integers round towards zero, saturate and report what they
    lose; rounding in place or into another decimal gives the number its mode asks
    for, towards zero and half up at every scale, up and down at the boundaries of
    words, when there is room for it; a shift multiplies by a power of ten, rounded
    to the words there are, when rounding leaves the first digit in its place; the text is that of the number, cut after the point when there is no room,
    and is read back as the same number; a text is read as the number it starts
    with, exponent included, or rejected when it has none.  In the SQL layer a
    DECIMAL column stores a number rounded to its scale and reads it back, with a
    warning exactly when that changed it; a conversion to an integer rounds and
    saturates; a division never gives a negative zero and replaces an overflow by
    the greatest number with its sign; a date or time is the number its digits
    make ([my_decimal_column_rounds], [my_decimal2int_rounds],
    [my_decimal_div_correct], [date_time_decimal]).
    Statements about concrete runs show where the code promises more than it does
    ([decimal_sub_size_short], [decimal_mul_hidden_digit], [division_defects],
    [decimal_round_defects], [decimal_shift_defects], [string2decimal_error_lost],
    [decimal2bin_hidden_digits], [bin2decimal_extra_digit]).

    ** Dates and times ([sql-common/my_time.c], [sql/sql_time.cc] and their headers)

    A [MYSQL_TIME] has the members of a date and of a time of day, a sign for times
    and the type it stands for.  Storage and comparison use one 64-bit number for
    it, its packed form.

    - [MyTime]: [sql-common/my_time.c]: range checks, [calc_daynr], numbers read as
      dates and times ([number_to_datetime], [number_to_time]) and back, packed
      numbers, and the bytes of TIME, DATETIME and TIMESTAMP columns with the
      big-endian stores and loads of [include/myisampack.h].
    - [SqlTime]: [sql/sql_time.cc]: weeks, [get_date_from_daynr], [date_add_interval],
      [calc_time_diff], rounding, and the conversions of integers and decimals.
      An assignment to a member is one of [set_date], [set_clock] and the like; a
      function with a result and a changed argument returns both.
    - [Calendar]: day numbers and weeks.  The reference is the calendar itself:
      [year_start] and [month_start] add up the lengths of the years and months.
    - [TimePacked]: packed numbers and bytes on disk.
    - [SqlTimeSpec]: intervals, decimals and rounding, on a time line of microseconds
      ([datetime_micros], [clock_micros]).

    What is proved.  [calc_daynr] counts the days of the calendar, and
    [get_date_from_daynr] is its inverse from the year 1 to 9999; [calc_week] numbers
    the weeks as each of its modes says; packed numbers and stored bytes are read
    back, and compare as the times do; adding an interval moves a DATETIME on the time
    line by exactly the interval, or its month, or gives an error; rounding gives the
    nearest value with the digits asked for, with every carry; dates and times survive
    the way through a decimal.  [calc_time_diff_spec] and [mix_date_and_time_spec] say
    the same of differences and of a time added to a date.  [date_add_interval_wraps]
    says how intervals are added modulo the width of the sums.

    ** Conventions

    Integers are [Z]; where the width matters the wrap-around is written out with
    [wrapu] and [wraps].  Bytes and words of an array are [Z] as well.  A pointer
    is an index or the rest of a list.  A fallible operation returns an [outcome]
    ([Ok], [Err] with the state left behind, [UB]) or an [option] whose [None] is an
    access outside of an array or a use of something uninitialised; the theorems
    show that it does not happen, or when it does.  Fuel: the loops of [NumText]
    have as much as their buffer has room ([buffer_digits]); [count_words] three
    steps, since a 64-bit number has at most three words; [grow_digits] nine, the
    digits of a word; [automatic_candidate] the number of owned GTIDs, since each
    step passes one of them; [wait_rounds] the number of looks at the
    executed set, since every round takes one; [find_year] the days that are left,
    since each step takes a year of them away.  Each has its lemma that the fuel
    is enough.  Array sizes and digit counts of decimals, and counters bounded by the
    length of a text, are not bounded; the [int]s of [decimal_shift], which depend on
    the shift, are, and an overflow of one of them is [None].

    ** Not modelled

    Locks (an operation that runs under its locks is one step), allocation
    failures, debug and performance-schema instrumentation, the GTID table and the
    files of the binary log; GTID_NEXT_LIST, which is compiled out; of the decimals
    the conversions from and to floating point ([decimal2double] and its like go
    through the C library's and [strings/dtoa.c]'s floating point), results that share
    their array with an operand, and the debug printing; of dates and times their text
    with its formats, time zones, floating point, and the texts of warnings.  The
    conversion of a
    text from and to another character set is a parameter ([str2my_decimal],
    [str_set_decimal]).  The rest of the server - parser, optimizer, executor, storage
    engines, replication threads, character sets, client programs - is outside of
    this development. *)

From Stdlib Require Import ZArith Lia.
From stdpp Require Import sorting base numbers tactics list.

#[local] Open Scope Z_scope.

(** ** Outcomes of fallible operations

    [Ok] is a normal return, [Err] a reported error (the value is the state
    the operation leaves behind), [UB] the C/C++ abstract machine losing its
    meaning: an access outside an object, or a use of memory never owned. *)

Inductive outcome (S A : Type) : Type :=
| Ok (s : S) (a : A)
| Err (s : S)
| UB.
Arguments Ok {S A} s a.
Arguments Err {S A} s.
Arguments UB {S A}.

Definition obind {S A B : Type} (m : outcome S A) (f : S -> A -> outcome S B)
  : outcome S B :=
  match m with
  | Ok s a => f s a
  | Err s => Err s
  | UB => UB
  end.

Declare Scope mysql_scope.
Delimit Scope mysql_scope with mysql.
Notation "'let?' ( s , x ) := m 'in' k" := (obind m (fun s x => k))
  (at level 10, s name, x name, m at level 200, k at level 200) : mysql_scope.

(** ** Machine integers

    A [w]-bit unsigned value is a [Z] in [0, 2^w); a signed one lies in
    [-2^(w-1), 2^(w-1)). *)

Definition wrapu (w z : Z) : Z := z mod 2 ^ w.
Definition wraps (w z : Z) : Z := (z + 2 ^ (w - 1)) mod 2 ^ w - 2 ^ (w - 1).

Definition in_u (w z : Z) : Prop := 0 <= z < 2 ^ w.
Definition in_s (w z : Z) : Prop := - 2 ^ (w - 1) <= z < 2 ^ (w - 1).

Definition INT64_MAX : Z := 2 ^ 63 - 1.
Definition LLONG_MAX : Z := 2 ^ 63 - 1.
Definition LLONG_MIN : Z := - 2 ^ 63.
Definition ULLONG_MAX : Z := 2 ^ 64 - 1.

Lemma wrapu_id w z : in_u w z -> wrapu w z = z.
Proof. intros H. by apply Z.mod_small. Qed.

Lemma wrapu_range w z : 0 <= w -> in_u w (wrapu w z).
Proof. intros H. apply Z.mod_pos_bound. lia. Qed.

Lemma wraps_id w z : 0 < w -> in_s w z -> wraps w z = z.
Proof.
  unfold in_s, wraps. intros Hw H. rewrite Z.mod_small; [lia|].
  replace (2 ^ w) with (2 * 2 ^ (w - 1)); [lia|].
  rewrite <- Z.pow_succ_r by lia. f_equal. lia.
Qed.

Lemma wraps_wrapu w z : 0 < w -> in_s w z -> wraps w (wrapu w z) = z.
Proof.
  intros Hw H. rewrite <- (wraps_id w z) at 2 by done.
  unfold wraps, wrapu. f_equal. rewrite Zplus_mod_idemp_l. done.
Qed.

(** ** Case analysis on boolean comparisons *)

Ltac zcase_step :=
  match goal with
  | |- context [?a <=? ?b] => destruct (Z.leb_spec a b)
  | |- context [?a <? ?b] => destruct (Z.ltb_spec a b)
  | |- context [?a =? ?b] => destruct (Z.eqb_spec a b)
  | H : context [?a <=? ?b] |- _ => destruct (Z.leb_spec a b)
  | H : context [?a <? ?b] |- _ => destruct (Z.ltb_spec a b)
  | H : context [?a =? ?b] |- _ => destruct (Z.eqb_spec a b)
  end.

(** Split on every integer comparison in sight, dropping impossible cases. *)
Ltac zcases := repeat (zcase_step; simpl in *; try lia; try done).

(** Linear arithmetic without the hypotheses about powers, which slow it down. *)
Ltac plia := repeat match goal with H : context [Z.pow _ _] |- _ => clear H end; lia.

(** ** Databases

    [mysql] holds the closure lemmas of the components, [mysql_simpl] the
    rewriting rules that compute lengths and lookups. *)

Create HintDb mysql discriminated.
Create Rewrite HintDb mysql_simpl.

#[export] Hint Rewrite @length_app @length_rev @length_cons @length_map
  @length_insert @length_replicate @length_take @length_drop : mysql_simpl.

(** ** Lists *)

Section lists.
Context {A : Type}.
Implicit Types l : list A.

Lemma list_lookup_total_insert_case `{Inhabited A} l i j x :
  (i < length l)%nat ->
  <[i:=x]> l !!! j = if decide (i = j) then x else l !!! j.
Proof.
  intros Hi. case_decide as Hij.
  - subst. by rewrite list_lookup_total_insert_eq.
  - by rewrite list_lookup_total_insert_ne.
Qed.

Lemma sum_list_with_insert (f : A -> nat) l i x y :
  l !! i = Some y ->
  (sum_list_with f (<[i:=x]> l) + f y = sum_list_with f l + f x)%nat.
Proof.
  intros Hi. rewrite <- (take_drop_middle l i y Hi) at 2.
  rewrite (insert_take_drop l i x) by by eapply lookup_lt_Some.
  rewrite !sum_list_with_app. simpl. lia.
Qed.

Lemma elem_of_rev l x : x ∈ rev l <-> x ∈ l.
Proof. by rewrite !list_elem_of_In, <- in_rev. Qed.

Lemma StronglySorted_rev_flip (R : relation A) l :
  StronglySorted R l -> StronglySorted (flip R) (rev l).
Proof.
  induction 1 as [|x l Hl IH Hx]; simpl; [constructor|].
  apply StronglySorted_app. split_and!; [|done|repeat constructor].
  intros y z Hy ->%list_elem_of_singleton. unfold flip.
  rewrite Forall_forall in Hx. apply Hx.
  by apply elem_of_rev.
Qed.

Lemma StronglySorted_impl_in (R R' : relation A) l :
  (forall x y, x ∈ l -> y ∈ l -> R x y -> R' x y) ->
  StronglySorted R l -> StronglySorted R' l.
Proof.
  intros Himp Hl. induction Hl as [|x l Hl IH Hx]; constructor.
  - apply IH. intros y z Hy Hz. apply Himp; by right.
  - rewrite Forall_forall in Hx |- *. intros y Hy.
    apply Himp; [left|by right|auto].
Qed.

Lemma Forall_suffix (P : A -> Prop) l1 l2 : l1 `suffix_of` l2 -> Forall P l2 -> Forall P l1.
Proof. intros [k ->]. by intros [_ ?]%Forall_app. Qed.
End lists.

(** ** Sums *)

Definition zsum {A} (f : A -> Z) (l : list A) : Z := foldr (fun x a => f x + a) 0 l.

Section zsum.
Context {A : Type}.
Implicit Types (f g : A -> Z) (l : list A).

Lemma zsum_cons f x l : zsum f (x :: l) = f x + zsum f l.
Proof. done. Qed.

Lemma zsum_app f l1 l2 : zsum f (l1 ++ l2) = zsum f l1 + zsum f l2.
Proof. induction l1 as [|x l1 IH]; simpl; [done|]. rewrite IH. lia. Qed.

#[export] Instance zsum_perm f : Proper ((≡ₚ) ==> (=)) (zsum f).
Proof. induction 1; simpl; lia. Qed.

Lemma zsum_ext f g l : (forall x, x ∈ l -> f x = g x) -> zsum f l = zsum g l.
Proof.
  induction l as [|x l IH]; intros H; simpl; [done|].
  rewrite H by left. rewrite IH; [done|]. intros y Hy. apply H. by right.
Qed.

Lemma zsum_zero f l : (forall x, x ∈ l -> f x = 0) -> zsum f l = 0.
Proof.
  intros H. rewrite (zsum_ext f (fun _ => 0)) by done. clear H. by induction l.
Qed.

Lemma zsum_nonneg f l : (forall x, x ∈ l -> 0 <= f x) -> 0 <= zsum f l.
Proof.
  induction l as [|x l IH]; intros H; simpl; [done|].
  assert (0 <= f x) by (apply H; left). assert (0 <= zsum f l); [|lia].
  apply IH. intros y Hy. apply H. by right.
Qed.

Lemma zsum_map {B} (h : B -> A) f (l : list B) : zsum f (map h l) = zsum (fun x => f (h x)) l.
Proof. induction l as [|x l IH]; simpl; [done|]. by rewrite IH. Qed.
End zsum.
