(* ===== verification/GtidInterval.v ===== *)
(** * Interval lists of a [Gtid_set]

    The lowest layer of [sql/rpl_gtid_set.cc]: the linked list of intervals
    one [Gtid_set] keeps per SIDNO, the iterator that walks and edits it, the
    free list new nodes come from, and the routines that add and remove an
    interval of group numbers.

    A list of nodes is a [list Interval].  An [Interval_iterator] holds the
    address of a [next] pointer inside such a list; it is the zipper of the
    nodes it passed (nearest first) and the nodes from its current element on.
    Nodes of the free list keep the contents they had when they were put
    there; a node of a fresh chunk is [uninit]. *)

From Stdlib Require Import ZArith Lia.
From stdpp Require Import base numbers option tactics list.
From S2P Require Import Prelude.

#[local] Open Scope Z_scope.

Record Interval := mk_Interval { iv_start : Z; iv_end : Z }.

Definition GNO_END : Z := INT64_MAX.

#[export] Instance Interval_eq_dec : EqDecision Interval.
Proof. solve_decision. Defined.

Definition Interval_equals (a b : Interval) : bool :=
  (iv_start a =? iv_start b) && (iv_end a =? iv_end b).

(** ** String formats

    [Gtid_set::String_format]: the separators [to_string] writes, with the
    lengths the code copies by.  Strings are lists of bytes without their
    terminating zero; [empty_set_string] may be [NULL]. *)

Record String_format := mk_String_format {
  sf_begin : list Z;
  sf_end : list Z;
  sid_gno_separator : list Z;
  gno_start_end_separator : list Z;
  gno_gno_separator : list Z;
  gno_sid_separator : list Z;
  empty_set_string : option (list Z);
  begin_length : Z;
  end_length : Z;
  sid_gno_separator_length : Z;
  gno_start_end_separator_length : Z;
  gno_gno_separator_length : Z;
  gno_sid_separator_length : Z;
  empty_set_string_length : Z
}.

#[export] Instance String_format_eq_dec : EqDecision String_format.
Proof. solve_decision. Defined.

(** ** The free list

    The members of a [Gtid_set] other than its interval lists: the free list,
    the chunks, and the cached length of its text ([None] when
    [has_cached_string_length] is false). *)

Record Gtid_set_store := mk_store {
  free_intervals : list Interval;
  chunks : list Z;           (* sizes of the allocated chunks, newest first *)
  cached_string : option (String_format * Z)
}.

Definition uninit : Interval := mk_Interval 0 0.
Definition CHUNK_GROW_SIZE : Z := 8.

(** [ivs] is the array handed over: its nodes are linked in array order and
    the last one is linked to the old head of the free list. *)
Definition add_interval_memory_lock_taken (ivs : list Interval) (p : Gtid_set_store)
  : Gtid_set_store :=
  mk_store (ivs ++ free_intervals p) (chunks p) (cached_string p).

(** [None]: for a [size] below one the code allocates a chunk without room for
    its first node, stores through [ivs[-1]] and puts [&ivs[0]], which lies
    outside of the chunk, on the free list. *)
Definition create_new_chunk (size : Z) (p : Gtid_set_store) : option Gtid_set_store :=
  if size <? 1 then None
  else Some (add_interval_memory_lock_taken
               (replicate (Z.to_nat size) uninit)
               (mk_store (free_intervals p) (size :: chunks p) (cached_string p))).

Definition get_free_interval (p : Gtid_set_store) : option (Interval * Gtid_set_store) :=
  p ← (match free_intervals p with
       | [] => create_new_chunk CHUNK_GROW_SIZE p
       | _ :: _ => Some p
       end);
  match free_intervals p with
  | [] => None
  | iv :: r => Some (iv, mk_store r (chunks p) (cached_string p))
  end.

Definition put_free_interval (iv : Interval) (p : Gtid_set_store) : Gtid_set_store :=
  mk_store (iv :: free_intervals p) (chunks p) (cached_string p).

Definition reset_cached_string (p : Gtid_set_store) : Gtid_set_store :=
  mk_store (free_intervals p) (chunks p) None.

(** ** Iterators *)

Record Interval_iterator := mk_ivit {
  it_before : list Interval;
  it_after : list Interval
}.

Definition ivit_init (l : list Interval) : Interval_iterator := mk_ivit [] l.
Definition ivit_list (it : Interval_iterator) : list Interval :=
  rev (it_before it) ++ it_after it.
Definition ivit_get (it : Interval_iterator) : option Interval := head (it_after it).
Definition ivit_next (it : Interval_iterator) : Interval_iterator :=
  match it_after it with
  | [] => it
  | iv :: r => mk_ivit (iv :: it_before it) r
  end.
Definition ivit_insert (iv : Interval) (it : Interval_iterator) : Interval_iterator :=
  mk_ivit (it_before it) (iv :: it_after it).
Definition ivit_remove (it : Interval_iterator) (p : Gtid_set_store)
  : Interval_iterator * Gtid_set_store :=
  match it_after it with
  | [] => (it, p)
  | iv :: r => (mk_ivit (it_before it) r, put_free_interval iv p)
  end.

(** ** Adding an interval *)

(** The inner loop of [add_gno_interval]: the current node [iv] is removed as
    long as the new interval reaches the next one. *)
Fixpoint add_gno_absorb (end_ : Z) (iv : Interval) (rest : list Interval)
    (p : Gtid_set_store) : Interval * list Interval * Gtid_set_store :=
  match rest with
  | [] => (iv, rest, p)
  | next :: rest' =>
      if iv_start next <=? end_
      then add_gno_absorb end_ next rest' (put_free_interval iv p)
      else (iv, rest, p)
  end.

(** A node taken from the free list, filled in and linked before the current
    element. *)
Definition insert_new_interval (start end_ : Z) (it : Interval_iterator)
    (p : Gtid_set_store) : option (Interval_iterator * Gtid_set_store) :=
  '(_, p) ← get_free_interval p;
  Some (ivit_insert (mk_Interval start end_) it, p).

Fixpoint add_gno_loop (before after : list Interval) (start end_ : Z)
    (p : Gtid_set_store) : option (Interval_iterator * Gtid_set_store) :=
  match after with
  | [] => insert_new_interval start end_ (mk_ivit before after) p
  | iv :: rest =>
      if start <=? iv_end iv then
        if end_ <? iv_start iv
        then insert_new_interval start end_ (mk_ivit before after) p
        else
          let start := if iv_start iv <? start then iv_start iv else start in
          let '(iv, rest, p) := add_gno_absorb end_ iv rest p in
          let iv_end' := if iv_end iv <? end_ then end_ else iv_end iv in
          Some (mk_ivit before (mk_Interval start iv_end' :: rest), p)
      else add_gno_loop (iv :: before) rest start end_ p
  end.

Definition add_gno_interval (it : Interval_iterator) (start end_ : Z)
    (p : Gtid_set_store) : option (Interval_iterator * Gtid_set_store) :=
  add_gno_loop (it_before it) (it_after it) start end_ (reset_cached_string p).

(** ** Removing an interval *)

Fixpoint remove_gno_skip (before after : list Interval) (start : Z)
  : list Interval * list Interval :=
  match after with
  | [] => (before, [])
  | iv :: rest =>
      if start <? iv_end iv then (before, after)
      else remove_gno_skip (iv :: before) rest start
  end.

Fixpoint remove_gno_covered (after : list Interval) (end_ : Z) (p : Gtid_set_store)
  : list Interval * Gtid_set_store :=
  match after with
  | [] => ([], p)
  | iv :: rest =>
      if iv_end iv <=? end_
      then remove_gno_covered rest end_ (put_free_interval iv p)
      else (after, p)
  end.

Definition remove_gno_tail (before after : list Interval) (end_ : Z)
    (p : Gtid_set_store) : Interval_iterator * Gtid_set_store :=
  let '(after, p) := remove_gno_covered after end_ p in
  match after with
  | [] => (mk_ivit before [], p)
  | iv :: rest =>
      if iv_start iv <? end_
      then (mk_ivit before (mk_Interval end_ (iv_end iv) :: rest), p)
      else (mk_ivit before after, p)
  end.

Definition remove_gno_interval (it : Interval_iterator) (start end_ : Z)
    (p : Gtid_set_store) : option (Interval_iterator * Gtid_set_store) :=
  let p := reset_cached_string p in
  let '(before, after) := remove_gno_skip (it_before it) (it_after it) start in
  match after with
  | [] => Some (mk_ivit before [], p)
  | iv :: rest =>
      if iv_start iv <? start then
        if end_ <? iv_end iv then
          '(_, p) ← get_free_interval p;
          let new_iv := mk_Interval end_ (iv_end iv) in
          let iv := mk_Interval (iv_start iv) start in
          Some (ivit_insert new_iv (ivit_next (mk_ivit before (iv :: rest))), p)
        else
          let iv := mk_Interval (iv_start iv) start in
          Some (remove_gno_tail (iv :: before) rest end_ p)
      else Some (remove_gno_tail before after end_ p)
  end.

(** ** Meaning and well-formedness of interval lists *)

Definition in_interval (iv : Interval) (g : Z) : Prop := iv_start iv <= g < iv_end iv.
Definition in_ivs (l : list Interval) (g : Z) : Prop := Exists (fun iv => in_interval iv g) l.

(** Nonempty intervals in increasing order, with a gap of at least one group
    number before each of them, the first one after [lo]. *)
Fixpoint ivs_wf (lo : Z) (l : list Interval) : Prop :=
  match l with
  | [] => True
  | iv :: r => lo < iv_start iv /\ iv_start iv < iv_end iv <= GNO_END /\ ivs_wf (iv_end iv) r
  end.

Fixpoint ivs_wfb (lo : Z) (l : list Interval) : bool :=
  match l with
  | [] => true
  | iv :: r => (lo <? iv_start iv) && (iv_start iv <? iv_end iv) &&
               (iv_end iv <=? GNO_END) && ivs_wfb (iv_end iv) r
  end.

(** The end of the node an iterator last passed. *)
Definition before_end (before : list Interval) : Z :=
  match before with [] => 0 | iv :: _ => iv_end iv end.

(** The nodes a store and a list account for, against those ever allocated:
    equal balances before and after an operation mean that no node is lost,
    duplicated or taken from elsewhere. *)
Definition balance (p : Gtid_set_store) (n : nat) : Z :=
  Z.of_nat (length (free_intervals p)) + Z.of_nat n - foldr Z.add 0 (chunks p).

Section semantics.
Implicit Types (l before after : list Interval) (p : Gtid_set_store).

Lemma in_ivs_nil g : in_ivs [] g <-> False.
Proof. apply Exists_nil. Qed.
Lemma in_ivs_cons iv l g : in_ivs (iv :: l) g <-> in_interval iv g \/ in_ivs l g.
Proof. apply Exists_cons. Qed.
Lemma in_ivs_app l1 l2 g : in_ivs (l1 ++ l2) g <-> in_ivs l1 g \/ in_ivs l2 g.
Proof. apply Exists_app. Qed.

Lemma ivs_wfb_spec lo l : ivs_wfb lo l = true <-> ivs_wf lo l.
Proof.
  revert lo. induction l as [|iv l IH]; intros lo; simpl; [done|].
  rewrite !andb_true_iff, !Z.ltb_lt, Z.leb_le, IH. tauto.
Qed.

Lemma ivs_wf_weaken lo lo' l : lo' <= lo -> ivs_wf lo l -> ivs_wf lo' l.
Proof. destruct l; simpl; [done|]. intros ? (?&?&?). repeat split; auto; lia. Qed.

Lemma ivs_wf_in lo l g : ivs_wf lo l -> in_ivs l g -> lo < g < GNO_END.
Proof.
  revert lo. induction l as [|iv l IH]; intros lo; simpl.
  - by rewrite in_ivs_nil.
  - rewrite in_ivs_cons. unfold in_interval.
    intros (?&?&Hl) [?|Hg]; [lia|]. specialize (IH _ Hl Hg). lia.
Qed.

Lemma ivs_wf_snoc lo l iv :
  ivs_wf lo (l ++ [iv]) <->
  ivs_wf lo l /\ before_end (rev l ++ [mk_Interval 0 lo]) < iv_start iv /\
  iv_start iv < iv_end iv <= GNO_END.
Proof.
  revert lo. induction l as [|x l IH]; intros lo; simpl.
  - tauto.
  - rewrite IH. destruct (rev l); simpl; tauto.
Qed.

(** The list an iterator walks is well formed iff both parts are, the
    second one after the end of the first. *)
Lemma ivs_wf_zip before after :
  ivs_wf 0 (rev before ++ after) <->
  ivs_wf 0 (rev before) /\ ivs_wf (before_end before) after.
Proof.
  revert before. induction after as [|iv after IH]; intros before; simpl.
  - rewrite app_nil_r. tauto.
  - assert (E : rev before ++ iv :: after = rev (iv :: before) ++ after)
      by (simpl; by rewrite <- app_assoc).
    rewrite E, IH. simpl. rewrite ivs_wf_snoc, rev_involutive.
    destruct before; simpl; tauto.
Qed.

Lemma in_ivs_zip before after g :
  in_ivs (rev before ++ after) g <-> in_ivs (rev before) g \/ in_ivs after g.
Proof. apply in_ivs_app. Qed.

Lemma rev_cons_app iv before after :
  rev (iv :: before) ++ after = rev before ++ iv :: after.
Proof. simpl. by rewrite <- app_assoc. Qed.

Lemma get_free_interval_total p :
  exists iv p', get_free_interval p = Some (iv, p') /\
    forall n, balance p' (S n) = balance p n.
Proof.
  unfold get_free_interval, balance. destruct (free_intervals p) as [|iv r] eqn:E.
  - eexists _, _. split; [reflexivity|]. intros n. rewrite ?E. simpl. unfold CHUNK_GROW_SIZE. lia.
  - exists iv, (mk_store r (chunks p) (cached_string p)). split; [simpl; by rewrite E|].
    intros n. rewrite ?E. simpl. lia.
Qed.
End semantics.

#[export] Hint Rewrite in_ivs_nil in_ivs_cons in_ivs_app rev_cons_app : mysql_simpl.

(** ** Adding and removing: specifications *)

Ltac wf_solve := simpl in *; split_and?; simpl; try done; try lia; auto.

Section updates.
Implicit Types (l before after : list Interval) (p : Gtid_set_store).

Lemma insert_new_interval_total start end_ it p :
  exists p', insert_new_interval start end_ it p =
               Some (ivit_insert (mk_Interval start end_) it, p') /\
    forall n, balance p' (S n) = balance p n.
Proof.
  destruct (get_free_interval_total p) as (iv & p' & E & B).
  exists p'. unfold insert_new_interval. by rewrite E.
Qed.

Lemma put_free_interval_balance iv p n :
  balance (put_free_interval iv p) n = balance p (S n).
Proof. unfold balance. simpl. lia. Qed.

(** What the inner loop leaves: the last node the new interval reaches. *)
Lemma add_gno_absorb_spec end_ rest : forall iv p lo,
  ivs_wf lo (iv :: rest) -> iv_start iv <= end_ ->
  exists iv' rest' p',
    add_gno_absorb end_ iv rest p = (iv', rest', p') /\
    iv_start iv <= iv_start iv' <= end_ /\ iv_end iv <= iv_end iv' <= GNO_END /\
    ivs_wf (Z.max end_ (iv_end iv')) rest' /\
    (forall g, iv_start iv <= g ->
       (in_ivs (iv :: rest) g \/ iv_start iv <= g < end_ <->
        iv_start iv <= g < Z.max end_ (iv_end iv') \/ in_ivs rest' g)) /\
    (forall n, balance p' (n + length rest') = balance p (n + length rest)).
Proof.
  induction rest as [|next rest IH]; intros iv p lo (H1 & H2 & H3) Hs; simpl.
  - exists iv, [], p. split_and!; try (simpl; lia); try done.
    intros g Hg. autorewrite with mysql_simpl. unfold in_interval. intuition lia.
  - simpl in H3. destruct H3 as (H3 & H4 & H5).
    destruct (Z.leb_spec (iv_start next) end_) as [Hn|Hn].
    + edestruct (IH next (put_free_interval iv p) (iv_end iv))
        as (iv' & rest' & p' & -> & Ha & Hb & Hc & Hd & He); [by simpl|done|].
      exists iv', rest', p'. split_and!; try lia; try done.
      * intros g Hg. specialize (Hd g). pose proof (ivs_wf_in _ _ g Hc) as Hr'.
        pose proof (ivs_wf_in _ _ g H5) as Hr.
        autorewrite with mysql_simpl in *. unfold in_interval in *.
        destruct (Z.le_gt_cases (iv_start next) g) as [Hg'|Hg'].
        -- specialize (Hd Hg'). intuition lia.
        -- clear Hd. intuition lia.
      * intros n. rewrite He, put_free_interval_balance. f_equal. lia.
    + exists iv, (next :: rest), p. split_and!; try lia; try done.
      { simpl. split_and!; try lia; done. }
      intros g Hg. autorewrite with mysql_simpl. unfold in_interval. intuition lia.
Qed.

(** Specification of [add_gno_interval] for an iterator that has only passed
    intervals before [start]: the call succeeds, the list stays well formed,
    gains exactly [start, end_), and the current element covers it. *)
Lemma add_gno_loop_spec after : forall before start end_ p,
  ivs_wf 0 (rev before) -> ivs_wf (before_end before) after ->
  before_end before < start -> start < end_ <= GNO_END ->
  exists before' iv rest p',
    add_gno_loop before after start end_ p = Some (mk_ivit before' (iv :: rest), p') /\
    ivs_wf 0 (rev before' ++ iv :: rest) /\
    iv_start iv <= start /\ end_ <= iv_end iv /\
    (forall g, in_ivs (rev before' ++ iv :: rest) g <->
               in_ivs (rev before ++ after) g \/ start <= g < end_) /\
    balance p' (length (rev before' ++ iv :: rest)) =
      balance p (length (rev before ++ after)).
Proof.
  induction after as [|iv rest IH]; intros before start end_ p Hb Ha Hs He; simpl.
  - destruct (insert_new_interval_total start end_ (mk_ivit before []) p) as (p' & -> & B).
    eexists before, _, [], p'. split_and!; [done| |simpl; lia..| |].
    + apply ivs_wf_zip. wf_solve.
    + intros g. autorewrite with mysql_simpl. unfold in_interval. simpl. tauto.
    + autorewrite with mysql_simpl. simpl. rewrite <- B. f_equal. lia.
  - destruct Ha as (Ha1 & Ha2 & Ha3).
    destruct (Z.leb_spec start (iv_end iv)) as [H1|H1].
    + destruct (Z.ltb_spec end_ (iv_start iv)) as [H2|H2].
      * destruct (insert_new_interval_total start end_ (mk_ivit before (iv :: rest)) p)
          as (p' & -> & B).
        eexists before, _, (iv :: rest), p'. split_and!; [done| |simpl; lia..| |].
        -- apply ivs_wf_zip. wf_solve.
        -- intros g. autorewrite with mysql_simpl. unfold in_interval. simpl. tauto.
        -- autorewrite with mysql_simpl. simpl. rewrite <- B. f_equal. lia.
      * destruct (add_gno_absorb_spec end_ rest iv p (before_end before))
          as (iv' & rest' & p' & -> & Hi1 & Hi2 & Hi3 & Hi4 & Hi5); [done|lia|].
        eexists before, _, rest', p'. split_and!; [done|..].
        -- apply ivs_wf_zip. split; [done|]. simpl.
           replace (if iv_end iv' <? end_ then end_ else iv_end iv')
             with (Z.max end_ (iv_end iv')) by (zcases).
           split_and!; [zcases|zcases|lia|done].
        -- simpl. zcases.
        -- simpl. zcases.
        -- intros g. specialize (Hi4 g). autorewrite with mysql_simpl in *.
           unfold in_interval in *. simpl.
           pose proof (ivs_wf_in _ _ g Hi3) as Hr'. pose proof (ivs_wf_in _ _ g Ha3) as Hr.
           replace (if iv_end iv' <? end_ then end_ else iv_end iv')
             with (Z.max end_ (iv_end iv')) by zcases.
           replace (if iv_start iv <? start then iv_start iv else start)
             with (Z.min (iv_start iv) start) by zcases.
           destruct (Z.le_gt_cases (iv_start iv) g) as [Hg|Hg].
           ++ specialize (Hi4 Hg). intuition lia.
           ++ clear Hi4. intuition lia.
        -- autorewrite with mysql_simpl. simpl.
           specialize (Hi5 (S (length (rev before)))).
           autorewrite with mysql_simpl in Hi5. rewrite !Nat.add_succ_r. exact Hi5.
    + destruct (IH (iv :: before) start end_ p) as (b' & iv' & r' & p' & H); try done.
      { simpl. apply (ivs_wf_zip before [iv]). wf_solve. }
      exists b', iv', r', p'. rewrite rev_cons_app in H. exact H.
Qed.

Lemma remove_gno_skip_spec start after : forall before,
  ivs_wf 0 (rev before) -> ivs_wf (before_end before) after -> before_end before <= start ->
  exists before' after',
    remove_gno_skip before after start = (before', after') /\
    rev before' ++ after' = rev before ++ after /\
    before_end before' <= start /\
    (forall iv, head after' = Some iv -> start < iv_end iv).
Proof.
  induction after as [|iv rest IH]; intros before Hb Ha Hs; simpl.
  - by exists before, [].
  - destruct (Z.ltb_spec start (iv_end iv)) as [H|H].
    + exists before, (iv :: rest). split_and!; try done. intros ? [= <-]. done.
    + destruct Ha as (Ha1 & Ha2 & Ha3).
      destruct (IH (iv :: before)) as (b' & a' & E & L & ? & ?); simpl; try done.
      { apply (ivs_wf_zip before [iv]). wf_solve. }
      exists b', a'. rewrite L. split_and!; try done. apply rev_cons_app.
Qed.

Lemma remove_gno_covered_spec lo after : forall end_ p,
  ivs_wf lo after -> lo < end_ ->
  exists after' p',
    remove_gno_covered after end_ p = (after', p') /\ ivs_wf lo after' /\
    (forall iv, head after' = Some iv -> end_ < iv_end iv) /\
    (forall g, end_ <= g -> in_ivs after' g <-> in_ivs after g) /\
    (forall n, balance p' (n + length after') = balance p (n + length after)).
Proof.
  revert lo. induction after as [|iv rest IH]; intros lo end_ p Ha He; simpl.
  - exists [], p. by split_and!.
  - destruct Ha as (Ha1 & Ha2 & Ha3). destruct (Z.leb_spec (iv_end iv) end_) as [H|H].
    + destruct (IH (Z.min lo (iv_end iv)) end_ (put_free_interval iv p))
        as (a' & p' & -> & Hw & Hh & Hg & Hbal).
      { eapply ivs_wf_weaken; [|done]. lia. }
      { lia. }
      exists a', p'. split_and!; try done.
      * eapply ivs_wf_weaken; [|done]. lia.
      * intros g Hg'. rewrite Hg, in_ivs_cons by done. unfold in_interval. intuition lia.
      * intros n. rewrite Hbal, put_free_interval_balance. f_equal. lia.
    + exists (iv :: rest), p. split_and!; try done. by intros ? [= <-].
Qed.

Lemma ivs_wf_before before g :
  ivs_wf 0 (rev before) -> in_ivs (rev before) g -> g < before_end before.
Proof.
  revert g. induction before as [|iv before IH]; intros g; simpl.
  - by rewrite in_ivs_nil.
  - rewrite (ivs_wf_zip before [iv]), in_ivs_app, in_ivs_cons, in_ivs_nil.
    unfold in_interval. intros (Hb & ? & ? & _) [Hg|[Hg|[]]]; [|lia].
    specialize (IH _ Hb Hg). lia.
Qed.

(** The last part of [remove_gno_interval], entered with every remaining
    interval starting at or after [start]. *)
Lemma remove_gno_tail_spec before after start end_ p :
  ivs_wf 0 (rev before) -> ivs_wf (before_end before) after ->
  before_end before <= start < end_ ->
  (forall g, in_ivs after g -> start <= g) ->
  exists before' after' p',
    remove_gno_tail before after end_ p = (mk_ivit before' after', p') /\
    ivs_wf 0 (rev before' ++ after') /\ before_end before' <= start /\
    (forall g, in_ivs (rev before' ++ after') g <->
               in_ivs (rev before ++ after) g /\ ~ start <= g < end_) /\
    balance p' (length (rev before' ++ after')) = balance p (length (rev before ++ after)).
Proof.
  intros Hb Ha Hs Hge. unfold remove_gno_tail.
  destruct (remove_gno_covered_spec (before_end before) after end_ p)
    as (a' & p' & -> & Hw & Hh & Hg & Hbal); [done|lia|].
  assert (Hlow : forall g, in_ivs (rev before) g -> g < start).
  { intros g Hin. apply ivs_wf_before in Hin; [lia|done]. }
  assert (Hmem : forall g, in_ivs (rev before) g \/ in_ivs a' g /\ end_ <= g <->
                   in_ivs (rev before ++ after) g /\ ~ start <= g < end_).
  { intros g. specialize (Hlow g). specialize (Hge g). specialize (Hg g).
    rewrite in_ivs_app. destruct (Z.le_gt_cases end_ g) as [H|H];
      [specialize (Hg H)|clear Hg]; intuition lia. }
  specialize (Hbal (length (rev before))).
  destruct a' as [|iv rest].
  - exists before, [], p'. split_and!; try done; try lia.
    + apply ivs_wf_zip. wf_solve.
    + intros g. rewrite <- Hmem. autorewrite with mysql_simpl. tauto.
    + autorewrite with mysql_simpl in *. apply Hbal.
  - specialize (Hh iv eq_refl). destruct Hw as (Hw1 & Hw2 & Hw3).
    destruct (Z.ltb_spec (iv_start iv) end_) as [H|H].
    + eexists before, _, p'. split_and!; try done; try lia.
      * apply ivs_wf_zip. wf_solve.
      * intros g. rewrite <- Hmem. pose proof (ivs_wf_in _ _ g Hw3).
        autorewrite with mysql_simpl. unfold in_interval. simpl. intuition lia.
      * autorewrite with mysql_simpl in *. apply Hbal.
    + exists before, (iv :: rest), p'. split_and!; try done; try lia.
      * apply ivs_wf_zip. wf_solve.
      * intros g. rewrite <- Hmem. pose proof (ivs_wf_in _ _ g Hw3).
        autorewrite with mysql_simpl. unfold in_interval. intuition lia.
      * autorewrite with mysql_simpl in *. apply Hbal.
Qed.

Lemma remove_gno_interval_spec it start end_ p :
  ivs_wf 0 (ivit_list it) -> before_end (it_before it) <= start < end_ ->
  exists it' p',
    remove_gno_interval it start end_ p = Some (it', p') /\
    ivs_wf 0 (ivit_list it') /\ before_end (it_before it') <= start /\
    (forall g, in_ivs (ivit_list it') g <-> in_ivs (ivit_list it) g /\ ~ start <= g < end_) /\
    balance p' (length (ivit_list it')) = balance p (length (ivit_list it)).
Proof.
  destruct it as [before after]. unfold ivit_list, remove_gno_interval. simpl.
  change (balance p) with (balance (reset_cached_string p)).
  generalize (reset_cached_string p). clear p. intros p Hwf Hs. pose proof Hwf as [Hb Ha]%ivs_wf_zip.
  destruct (remove_gno_skip_spec start after before) as (b & a & -> & L & Hbe & Hh);
    try done; try lia.
  rewrite <- L in *. destruct Hs as [_ Hse]. clear before after L Hb Ha.
  pose proof Hwf as [Hb Ha]%ivs_wf_zip. destruct a as [|iv rest].
  { exists (mk_ivit b []), p. split_and!; try done. intros g. simpl.
    autorewrite with mysql_simpl.
    pose proof (ivs_wf_before b g Hb). intuition lia. }
  specialize (Hh iv eq_refl). destruct Ha as (Ha1 & Ha2 & Ha3).
  destruct (Z.ltb_spec (iv_start iv) start) as [H1|H1].
  - destruct (Z.ltb_spec end_ (iv_end iv)) as [H2|H2].
    + destruct (get_free_interval_total p) as (iv' & p' & -> & B). simpl.
      eexists _, p'. split_and!; try done; simpl; try lia.
      * rewrite <- app_assoc. apply ivs_wf_zip. wf_solve.
      * intros g. pose proof (ivs_wf_before b g Hb). pose proof (ivs_wf_in _ _ g Ha3).
        autorewrite with mysql_simpl. unfold in_interval. simpl. intuition lia.
      * autorewrite with mysql_simpl. rewrite <- B. f_equal. simpl. lia.
    + destruct (remove_gno_tail_spec (mk_Interval (iv_start iv) start :: b) rest start end_ p)
        as (b' & a' & p' & -> & Hw & Hbe' & Hg & Hbal); simpl; try lia.
      { apply (ivs_wf_zip b [_]). wf_solve. }
      { eapply ivs_wf_weaken; [|done]. lia. }
      { intros g Hin. apply (ivs_wf_in _ _ _ Ha3) in Hin. lia. }
      exists (mk_ivit b' a'), p'. split_and!; try done.
      * intros g. rewrite Hg, rev_cons_app. pose proof (ivs_wf_in _ _ g Ha3).
        autorewrite with mysql_simpl. unfold in_interval. simpl. intuition lia.
      * simpl. rewrite Hbal. autorewrite with mysql_simpl. done.
  - destruct (remove_gno_tail_spec b (iv :: rest) start end_ p)
      as (b' & a' & p' & -> & Hw & Hbe' & Hg & Hbal); try done; try lia.
    { intros g [Hin|Hin]%in_ivs_cons; [unfold in_interval in Hin; lia|].
      apply (ivs_wf_in _ _ _ Ha3) in Hin. lia. }
    by exists (mk_ivit b' a'), p'.
Qed.


(** Only [reset_cached_string] touches the cached length. *)
Lemma get_free_interval_cached p iv p' :
  get_free_interval p = Some (iv, p') -> cached_string p' = cached_string p.
Proof.
  unfold get_free_interval. destruct (free_intervals p) eqn:E; simpl.
  - by intros [= <- <-].
  - rewrite E. by intros [= <- <-].
Qed.

Lemma add_gno_absorb_cached end_ rest : forall iv p iv' rest' p',
  add_gno_absorb end_ iv rest p = (iv', rest', p') -> cached_string p' = cached_string p.
Proof.
  induction rest as [|n rest IH]; intros iv p iv' rest' p'; simpl; [by intros [= <- <- <-]|].
  case_match; [|by intros [= <- <- <-]]. by intros ->%IH.
Qed.

Lemma insert_new_interval_cached start end_ it p it' p' :
  insert_new_interval start end_ it p = Some (it', p') -> cached_string p' = cached_string p.
Proof.
  unfold insert_new_interval. intros ([? ?] & H%get_free_interval_cached & [= <- <-])%bind_Some.
  done.
Qed.

Lemma add_gno_interval_cached it start end_ p it' p' :
  add_gno_interval it start end_ p = Some (it', p') -> cached_string p' = None.
Proof.
  unfold add_gno_interval. change None with (cached_string (reset_cached_string p)).
  generalize (reset_cached_string p). clear p. intros p.
  destruct it as [before after]; simpl. revert before.
  induction after as [|iv rest IH]; intros before; simpl;
    [apply insert_new_interval_cached|].
  destruct (start <=? iv_end iv); [|apply IH].
  destruct (end_ <? iv_start iv); [apply insert_new_interval_cached|].
  destruct (add_gno_absorb end_ iv rest p) as [[iv1 rest1] p1] eqn:E.
  intros [= <- <-]. by eapply add_gno_absorb_cached.
Qed.

Lemma remove_gno_interval_cached it start end_ p it' p' :
  remove_gno_interval it start end_ p = Some (it', p') -> cached_string p' = None.
Proof.
  unfold remove_gno_interval. change None with (cached_string (reset_cached_string p)).
  generalize (reset_cached_string p). clear p. intros p.
  assert (Hcov : forall after p after' p', remove_gno_covered after end_ p = (after', p') ->
                   cached_string p' = cached_string p).
  { clear. induction after as [|iv rest IH]; intros p after' p'; simpl; [by intros [= <- <-]|].
    case_match; [by intros ->%IH|by intros [= <- <-]]. }
  assert (Htail : forall b a p it p', remove_gno_tail b a end_ p = (it, p') ->
                    cached_string p' = cached_string p).
  { intros b a q jt q'. unfold remove_gno_tail.
    destruct (remove_gno_covered a end_ q) as [a' q''] eqn:E. apply Hcov in E as <-.
    repeat case_match; by intros [= <- <-]. }
  repeat case_match; try (intros ([? ?] & E%get_free_interval_cached & [= <- <-])%bind_Some; done);
    intros [= E]; subst; try done; by eapply Htail.
Qed.
End updates.

(** ** Queries on interval lists *)

(** The loop of [Gtid_set::contains_gtid]. *)
Fixpoint contains_gno (l : list Interval) (gno : Z) : bool :=
  match l with
  | [] => false
  | iv :: r =>
      if gno <? iv_start iv then false
      else if gno <? iv_end iv then true
      else contains_gno r gno
  end.

(** The loop of [Gtid_set::get_last_gno]. *)
Fixpoint last_gno (gno : Z) (l : list Interval) : Z :=
  match l with
  | [] => gno
  | iv :: r => last_gno (iv_end iv - 1) r
  end.

Fixpoint ivs_equals (l other : list Interval) : bool :=
  match l, other with
  | iv :: l, other_iv :: other =>
      if negb (Interval_equals iv other_iv) then false else ivs_equals l other
  | [], [] => true
  | _, _ => false
  end.

(** Skip over intervals of [super] that end before [start]. *)
Fixpoint subset_skip (start : Z) (super : list Interval) : list Interval :=
  match super with
  | [] => []
  | super_iv :: r => if iv_end super_iv <? start then subset_skip start r else super
  end.

Fixpoint is_interval_subset_loop (sub super : list Interval) : bool :=
  match sub with
  | [] => true
  | sub_iv :: sub' =>
      match subset_skip (iv_start sub_iv) super with
      | [] => false
      | (super_iv :: _) as super' =>
          if (iv_start sub_iv <? iv_start super_iv) || (iv_end super_iv <? iv_end sub_iv)
          then false
          else is_interval_subset_loop sub' super'
      end
  end.

(** [None]: [sub_iv->start] is read through a null pointer. *)
Definition is_interval_subset (sub super : list Interval) : option bool :=
  match super, sub with
  | [], _ => Some false
  | _ :: _, [] => None
  | _ :: _, _ :: _ => Some (is_interval_subset_loop sub super)
  end.

Fixpoint intersection_skip (start : Z) (ivs2 : list Interval) : list Interval :=
  match ivs2 with
  | [] => []
  | iv2 :: r => if iv_end iv2 <=? start then intersection_skip start r else ivs2
  end.

Fixpoint is_interval_intersection_loop (ivs1 ivs2 : list Interval) : bool :=
  match ivs1 with
  | [] => false
  | iv1 :: ivs1' =>
      match intersection_skip (iv_start iv1) ivs2 with
      | [] => false
      | (iv2 :: _) as ivs2' =>
          if iv_start iv2 <? iv_end iv1 then true
          else is_interval_intersection_loop ivs1' ivs2'
      end
  end.

(** [None]: [iv1->start] is read through a null pointer. *)
Definition is_interval_intersection_nonempty (ivs1 ivs2 : list Interval) : option bool :=
  match ivs2, ivs1 with
  | [], _ => Some false
  | _ :: _, [] => None
  | _ :: _, _ :: _ => Some (is_interval_intersection_loop ivs1 ivs2)
  end.

(** ** Adding and removing whole lists *)

Fixpoint add_gno_intervals_loop (it : Interval_iterator) (other : list Interval)
    (p : Gtid_set_store) : option (Interval_iterator * Gtid_set_store) :=
  match other with
  | [] => Some (it, p)
  | other_iv :: other' =>
      '(it, p) ← add_gno_interval it (iv_start other_iv) (iv_end other_iv) p;
      add_gno_intervals_loop it other' p
  end.

Fixpoint remove_gno_intervals_loop (it : Interval_iterator) (other : list Interval)
    (p : Gtid_set_store) : option (Interval_iterator * Gtid_set_store) :=
  match other with
  | [] => Some (it, p)
  | other_iv :: other' =>
      '(it, p) ← remove_gno_interval it (iv_start other_iv) (iv_end other_iv) p;
      match ivit_get it with
      | None => Some (it, p)
      | Some _ => remove_gno_intervals_loop it other' p
      end
  end.

Section queries.
Implicit Types (l sub super : list Interval).

Lemma contains_gno_spec lo l g :
  ivs_wf lo l -> contains_gno l g = true <-> in_ivs l g.
Proof.
  revert lo. induction l as [|iv l IH]; intros lo; simpl; [by rewrite in_ivs_nil|].
  intros (H1 & H2 & H3). rewrite in_ivs_cons. unfold in_interval.
  pose proof (ivs_wf_in _ _ g H3). specialize (IH _ H3). zcases; intuition (try done; lia).
Qed.

Lemma last_gno_spec lo l d :
  ivs_wf lo l -> l <> [] ->
  in_ivs l (last_gno d l) /\ forall g, in_ivs l g -> g <= last_gno d l.
Proof.
  revert lo d. induction l as [|iv l IH]; intros lo d; [done|]. intros (H1 & H2 & H3) _.
  destruct l as [|iv' l].
  - simpl. split; [left; unfold in_interval; lia|].
    intros g. autorewrite with mysql_simpl. unfold in_interval. lia.
  - destruct (IH (iv_end iv) (iv_end iv - 1) H3) as [Ha Hb]; [done|].
    change (last_gno d (iv :: iv' :: l)) with (last_gno (iv_end iv - 1) (iv' :: l)).
    split; [by right|]. intros g [Hg|Hg]%in_ivs_cons; [|auto].
    apply (ivs_wf_in _ _ _ H3) in Ha. unfold in_interval in Hg. lia.
Qed.

Lemma Interval_equals_spec a b : Interval_equals a b = true <-> a = b.
Proof.
  unfold Interval_equals. rewrite andb_true_iff, !Z.eqb_eq. destruct a, b; simpl.
  split; [intros [-> ->]|intros [= -> ->]]; done.
Qed.

Lemma ivs_equals_spec l1 l2 : ivs_equals l1 l2 = true <-> l1 = l2.
Proof.
  revert l2. induction l1 as [|a l1 IH]; intros [|b l2]; simpl; try done.
  destruct (Interval_equals a b) eqn:E; simpl.
  - apply Interval_equals_spec in E as ->. rewrite IH. split; [by intros ->|by intros [=]].
  - split; [done|]. intros [= -> ->]. by rewrite (proj2 (Interval_equals_spec b b)) in E.
Qed.

(** Canonicity: a well-formed list is determined by the set it denotes. *)
Lemma ivs_wf_ext lo l1 l2 :
  ivs_wf lo l1 -> ivs_wf lo l2 -> (forall g, in_ivs l1 g <-> in_ivs l2 g) -> l1 = l2.
Proof.
  revert lo l2. induction l1 as [|a l1 IH]; intros lo [|b l2] H1 H2 Hg; [done|..].
  - exfalso. apply (in_ivs_nil (iv_start b)), Hg. left. red. simpl in H2. lia.
  - exfalso. apply (in_ivs_nil (iv_start a)), Hg. left. red. simpl in H1. lia.
  - destruct H1 as (Ha1 & Ha2 & Ha3), H2 as (Hb1 & Hb2 & Hb3).
    setoid_rewrite in_ivs_cons in Hg. unfold in_interval in Hg.
    assert (Hs : iv_start a = iv_start b).
    { apply Z.le_antisymm.
      - destruct (proj2 (Hg (iv_start b))) as [Hx|Hx]; [lia..|].
        apply (ivs_wf_in _ _ _ Ha3) in Hx. lia.
      - destruct (proj1 (Hg (iv_start a))) as [Hx|Hx]; [lia..|].
        apply (ivs_wf_in _ _ _ Hb3) in Hx. lia. }
    assert (He : iv_end a = iv_end b).
    { destruct (Z.lt_trichotomy (iv_end a) (iv_end b)) as [H|[H|H]]; [|done|].
      - destruct (proj2 (Hg (iv_end a))) as [Hx|Hx]; [lia..|].
        apply (ivs_wf_in _ _ _ Ha3) in Hx. lia.
      - destruct (proj1 (Hg (iv_end b))) as [Hx|Hx]; [lia..|].
        apply (ivs_wf_in _ _ _ Hb3) in Hx. lia. }
    destruct a as [sa ea], b as [sb eb]; simpl in *; subst. f_equal.
    apply (IH eb); try done. intros g. specialize (Hg g).
    pose proof (ivs_wf_in _ _ g Ha3). pose proof (ivs_wf_in _ _ g Hb3). intuition lia.
Qed.

Lemma subset_skip_spec lo start super :
  ivs_wf lo super ->
  ivs_wf lo (subset_skip start super) /\
  (forall g, start <= g -> in_ivs (subset_skip start super) g <-> in_ivs super g) /\
  (forall iv, head (subset_skip start super) = Some iv -> start <= iv_end iv).
Proof.
  revert lo. induction super as [|iv super IH]; intros lo; simpl; [done|].
  intros (H1 & H2 & H3). destruct (Z.ltb_spec (iv_end iv) start) as [H|H].
  - destruct (IH _ H3) as (Ha & Hb & Hc). split_and!; [|intros g Hg|done].
    + eapply ivs_wf_weaken; [|done]. lia.
    + rewrite Hb, in_ivs_cons by done. unfold in_interval. intuition lia.
  - split_and!; [done..|by intros ? [= <-]].
Qed.

Lemma is_interval_subset_loop_spec lo sub : forall lo' super,
  ivs_wf lo sub -> ivs_wf lo' super ->
  is_interval_subset_loop sub super = true <->
  (forall g, in_ivs sub g -> in_ivs super g).
Proof.
  revert lo. induction sub as [|sv sub IH]; intros lo lo' super H Hsup; simpl.
  { split; [|done]. intros _ g. by rewrite in_ivs_nil. }
  destruct H as (H1 & H2 & H3).
  destruct (subset_skip_spec lo' (iv_start sv) super Hsup) as (Hw & Hi & Hh).
  assert (Hall : (forall g, in_ivs (sv :: sub) g -> in_ivs super g) <->
                 (forall g, in_ivs (sv :: sub) g ->
                    in_ivs (subset_skip (iv_start sv) super) g)).
  { assert (Hge : forall g, in_ivs (sv :: sub) g -> iv_start sv <= g).
    { intros g [Hg|Hg]%in_ivs_cons; [red in Hg; lia|].
      apply (ivs_wf_in _ _ _ H3) in Hg. lia. }
    split; intros Hs g Hg; apply Hi; auto. }
  rewrite Hall. clear Hall Hi.
  destruct (subset_skip (iv_start sv) super) as [|sp super'].
  { split; [done|]. intros Hs. exfalso. apply (in_ivs_nil (iv_start sv)), Hs.
    left. red. lia. }
  specialize (Hh sp eq_refl). pose proof Hw as (Hw1 & Hw2 & Hw3).
  destruct (Z.ltb_spec (iv_start sv) (iv_start sp)) as [Hc|Hc]; simpl;
    [|destruct (Z.ltb_spec (iv_end sp) (iv_end sv)) as [Hd|Hd]].
  - split; [done|]. intros Hs.
    assert (Hg : in_ivs (sp :: super') (iv_start sv)) by (apply Hs; left; red; lia).
    apply in_ivs_cons in Hg as [Hg|Hg]; [red in Hg; lia|].
    apply (ivs_wf_in _ _ _ Hw3) in Hg. lia.
  - split; [done|]. intros Hs.
    assert (Hg : in_ivs (sp :: super') (iv_end sp)) by (apply Hs; left; red; lia).
    apply in_ivs_cons in Hg as [Hg|Hg]; [red in Hg; lia|].
    apply (ivs_wf_in _ _ _ Hw3) in Hg. lia.
  - rewrite (IH _ _ _ H3 Hw). split; intros Hs g Hg; [|by apply Hs; right].
    apply in_ivs_cons in Hg as [Hg|Hg]; [|auto]. left. red in Hg |- *. lia.
Qed.

Lemma intersection_skip_spec lo start l :
  ivs_wf lo l ->
  ivs_wf lo (intersection_skip start l) /\
  (forall g, start <= g -> in_ivs (intersection_skip start l) g <-> in_ivs l g) /\
  (forall iv, head (intersection_skip start l) = Some iv -> start < iv_end iv).
Proof.
  revert lo. induction l as [|iv l IH]; intros lo; simpl; [done|].
  intros (H1 & H2 & H3). destruct (Z.leb_spec (iv_end iv) start) as [H|H].
  - destruct (IH _ H3) as (Ha & Hb & Hc). split_and!; [|intros g Hg|done].
    + eapply ivs_wf_weaken; [|done]. lia.
    + rewrite Hb, in_ivs_cons by done. unfold in_interval. intuition lia.
  - split_and!; [done..|by intros ? [= <-]].
Qed.

Lemma is_interval_intersection_loop_spec lo l1 : forall lo' l2,
  ivs_wf lo l1 -> ivs_wf lo' l2 ->
  is_interval_intersection_loop l1 l2 = true <-> exists g, in_ivs l1 g /\ in_ivs l2 g.
Proof.
  revert lo. induction l1 as [|a l1 IH]; intros lo lo' l2 H Hl2; simpl.
  { split; [done|]. by intros (g & Hg%in_ivs_nil & _). }
  destruct H as (H1 & H2 & H3).
  destruct (intersection_skip_spec lo' (iv_start a) l2 Hl2) as (Hw & Hi & Hh).
  assert (Hall : (exists g, in_ivs (a :: l1) g /\ in_ivs l2 g) <->
                 (exists g, in_ivs (a :: l1) g /\
                    in_ivs (intersection_skip (iv_start a) l2) g)).
  { assert (Hge : forall g, in_ivs (a :: l1) g -> iv_start a <= g).
    { intros g [Hg|Hg]%in_ivs_cons; [red in Hg; lia|].
      apply (ivs_wf_in _ _ _ H3) in Hg. lia. }
    split; intros (g & Hg & Hg'); exists g; split; try done; apply Hi; auto. }
  rewrite Hall. clear Hall Hi.
  destruct (intersection_skip (iv_start a) l2) as [|b l2'].
  { split; [done|]. by intros (g & _ & Hg%in_ivs_nil). }
  specialize (Hh b eq_refl). pose proof Hw as (Hw1 & Hw2 & Hw3).
  destruct (Z.ltb_spec (iv_start b) (iv_end a)) as [Hc|Hc].
  - split; [intros _|done]. exists (Z.max (iv_start a) (iv_start b)).
    split; left; red; lia.
  - rewrite (IH _ _ _ H3 Hw). split; intros (g & Hg & Hg'); exists g; split; try done.
    + by right.
    + apply in_ivs_cons in Hg as [Hg|Hg]; [|done]. exfalso. red in Hg.
      apply in_ivs_cons in Hg' as [Hg'|Hg']; [red in Hg'; lia|].
      apply (ivs_wf_in _ _ _ Hw3) in Hg'. lia.
Qed.

Lemma add_gno_intervals_loop_spec other : forall it lo p,
  ivs_wf 0 (ivit_list it) -> ivs_wf lo other -> before_end (it_before it) <= lo -> 0 <= lo ->
  exists it' p',
    add_gno_intervals_loop it other p = Some (it', p') /\
    ivs_wf 0 (ivit_list it') /\
    (forall g, in_ivs (ivit_list it') g <-> in_ivs (ivit_list it) g \/ in_ivs other g) /\
    balance p' (length (ivit_list it')) = balance p (length (ivit_list it)).
Proof.
  induction other as [|o other IH]; intros [b a] lo p Hw Ho Hb Hlo.
  { eexists _, _. split; [reflexivity|]. split_and!; try done.
    intros g. rewrite in_ivs_nil. tauto. }
  destruct Ho as (Ho1 & Ho2 & Ho3). unfold ivit_list in Hw; simpl in Hw, Hb.
  apply ivs_wf_zip in Hw as [Hwb Hwa].
  destruct (add_gno_loop_spec a b (iv_start o) (iv_end o) (reset_cached_string p))
    as (b' & iv & r & p' & E & Hw' & Hs & He & Hg & Hbal); try done; try lia.
  destruct (IH (mk_ivit b' (iv :: r)) (iv_end o) p') as (it' & p'' & E' & Hw'' & Hg' & Hbal');
    try done; try lia.
  { simpl. apply ivs_wf_zip in Hw' as [_ Hw']. simpl in Hw'. lia. }
  exists it', p''. split_and!; try done.
  - simpl. unfold add_gno_interval. simpl. rewrite E. done.
  - intros g. rewrite Hg'. unfold ivit_list; simpl. rewrite Hg, in_ivs_cons.
    unfold in_interval. tauto.
  - rewrite Hbal'. apply Hbal.
Qed.

Lemma remove_gno_intervals_loop_spec other : forall it lo p,
  ivs_wf 0 (ivit_list it) -> ivs_wf lo other -> before_end (it_before it) <= lo ->
  exists it' p',
    remove_gno_intervals_loop it other p = Some (it', p') /\
    ivs_wf 0 (ivit_list it') /\
    (forall g, in_ivs (ivit_list it') g <-> in_ivs (ivit_list it) g /\ ~ in_ivs other g) /\
    balance p' (length (ivit_list it')) = balance p (length (ivit_list it)).
Proof.
  induction other as [|o other IH]; intros it lo p Hw Ho Hb.
  { eexists _, _. split; [reflexivity|]. split_and!; try done.
    intros g. rewrite in_ivs_nil. tauto. }
  destruct Ho as (Ho1 & Ho2 & Ho3).
  destruct (remove_gno_interval_spec it (iv_start o) (iv_end o) p)
    as (it1 & p1 & E & Hw' & Hb' & Hg & Hbal); try done; try lia.
  simpl. rewrite E. simpl. destruct (ivit_get it1) as [iv|] eqn:Hget.
  - destruct (IH it1 (iv_end o) p1) as (it' & p'' & E' & Hw'' & Hg' & Hbal');
      try done; try lia.
    exists it', p''. split_and!; try done.
    + intros g. rewrite Hg', Hg, in_ivs_cons. unfold in_interval. tauto.
    + congruence.
  - exists it1, p1. split_and!; try done. intros g.
    rewrite Hg, in_ivs_cons. change (iv_start o <= g < iv_end o) with (in_interval o g).
    split; [|tauto]. intros [Hin Hno]. split; [done|]. intros [?|Hx]; [tauto|].
    assert (Hin1 : in_ivs (ivit_list it1) g) by (apply Hg; done).
    destruct it1 as [b1 [|? ?]]; [|done]. unfold ivit_list in *. simpl in *.
    rewrite app_nil_r in *. apply ivs_wf_before in Hin1; [|done].
    apply (ivs_wf_in _ _ _ Ho3) in Hx. lia.
Qed.
End queries.

(** ** Adding intervals that mostly come in order

    The parser of texts and the decoder use the iterator position of the last
    interval they added, unless the next one begins before it. *)

Definition ivit_seek (it : Interval_iterator) (start : Z) : Interval_iterator :=
  match ivit_get it with
  | None => ivit_init (ivit_list it)
  | Some current => if start <? iv_start current then ivit_init (ivit_list it) else it
  end.

Section seek.
Implicit Types (it : Interval_iterator) (p : Gtid_set_store).

(** The iterator is always positioned so that the next interval may be added
    from there. *)
Lemma ivit_seek_spec it start :
  ivs_wf 0 (ivit_list it) -> 0 < start ->
  ivit_list (ivit_seek it start) = ivit_list it /\
  before_end (it_before (ivit_seek it start)) < start.
Proof.
  intros Hw Hs. unfold ivit_seek.
  destruct it as [bef [|cur aft]]; simpl; [done|].
  destruct (Z.ltb_spec start (iv_start cur)); [done|]. split; [done|]. simpl.
  apply ivs_wf_zip in Hw as [_ Hw]. simpl in Hw. lia.
Qed.

Lemma seek_add_spec it start end_ p :
  ivs_wf 0 (ivit_list it) -> 0 < start < end_ -> end_ <= GNO_END ->
  exists it' p', add_gno_interval (ivit_seek it start) start end_ p = Some (it', p') /\
    ivs_wf 0 (ivit_list it') /\
    (forall g, in_ivs (ivit_list it') g <-> in_ivs (ivit_list it) g \/ start <= g < end_) /\
    balance p' (length (ivit_list it')) = balance p (length (ivit_list it)).
Proof.
  intros Hw Hs He. destruct (ivit_seek_spec it start Hw ltac:(lia)) as [El Hb].
  rewrite <- El in Hw. destruct (ivit_seek it start) as [bef aft]. unfold ivit_list in Hw, El.
  simpl in Hw, El, Hb. apply ivs_wf_zip in Hw as [Hwb Hwa].
  destruct (add_gno_loop_spec aft bef start end_ (reset_cached_string p))
    as (b' & iv & r & p' & E & Hw' & _ & _ & Hg & Hbal); try done; try lia.
  exists (mk_ivit b' (iv :: r)), p'. split_and!; try done.
  - intros g. unfold ivit_list. simpl. rewrite Hg, El. done.
  - unfold ivit_list. simpl. rewrite Hbal, El. done.
Qed.
End seek.
