(* ===== verification/Uuid.v ===== *)
(** * Source identifiers

    [binary_log::Uuid] of [libbinlogevents/src/uuid.cpp]: a server UUID is 16
    bytes, printed as five groups of hexadecimal digits.  Text is a list of
    byte values without the terminating zero; the code never reads past that
    zero, since it is neither a hexadecimal digit nor a dash. *)

From Stdlib Require Import ZArith Lia.
From stdpp Require Import base numbers option tactics list.
From S2P Require Import Prelude.

#[local] Open Scope Z_scope.

Definition bytes_per_section : list nat := [4; 2; 2; 2; 6]%nat.
Definition BYTE_LENGTH : nat := 16.
Definition TEXT_LENGTH : nat := 36.

Definition hex_to_byte_table : list Z :=
  replicate 48 (-1) ++ [0; 1; 2; 3; 4; 5; 6; 7; 8; 9] ++ replicate 7 (-1) ++
  [10; 11; 12; 13; 14; 15] ++ replicate 26 (-1) ++
  [10; 11; 12; 13; 14; 15] ++ replicate 153 (-1).

Definition hex_to_byte (c : Z) : Z := hex_to_byte_table !!! Z.to_nat c.

(** "0123456789abcdef" *)
Definition byte_to_hex_table : list Z :=
  [48; 49; 50; 51; 52; 53; 54; 55; 56; 57; 97; 98; 99; 100; 101; 102].

Definition byte_to_hex (d : Z) : Z := byte_to_hex_table !!! Z.to_nat d.

Definition DASH : Z := 45.

(** ** Uuid::parse *)

Fixpoint parse_section (n : nat) (ss : list Z) : option (list Z * list Z) :=
  match n with
  | O => Some ([], ss)
  | S n =>
      match ss with
      | hi_c :: lo_c :: ss =>
          let hi := hex_to_byte hi_c in
          if hi =? -1 then None
          else
            let lo := hex_to_byte lo_c in
            if lo =? -1 then None
            else
              '(u, ss) ← parse_section n ss;
              Some (Z.shiftl hi 4 + lo :: u, ss)
      | _ => None
      end
  end.

Fixpoint parse_sections (secs : list nat) (first : bool) (ss : list Z)
  : option (list Z) :=
  match secs with
  | [] => Some []
  | n :: secs =>
      ss ← (if first then Some ss
            else match ss with
                 | c :: ss => if c =? DASH then Some ss else None
                 | [] => None
                 end);
      '(u, ss) ← parse_section n ss;
      u' ← parse_sections secs false ss;
      Some (u ++ u')
  end.

Definition Uuid_parse (s : list Z) : option (list Z) :=
  parse_sections bytes_per_section true s.

(** ** Uuid::is_valid *)

Fixpoint valid_section (n : nat) (ss : list Z) : option (list Z) :=
  match n with
  | O => Some ss
  | S n =>
      match ss with
      | hi_c :: lo_c :: ss =>
          if hex_to_byte hi_c =? -1 then None
          else if hex_to_byte lo_c =? -1 then None
          else valid_section n ss
      | _ => None
      end
  end.

Fixpoint valid_sections (secs : list nat) (first : bool) (ss : list Z) : bool :=
  match secs with
  | [] => true
  | n :: secs =>
      match (if first then Some ss
             else match ss with
                  | c :: ss => if c =? DASH then Some ss else None
                  | [] => None
                  end) with
      | None => false
      | Some ss =>
          match valid_section n ss with
          | None => false
          | Some ss => valid_sections secs false ss
          end
      end
  end.

Definition Uuid_is_valid (s : list Z) : bool := valid_sections bytes_per_section true s.

(** ** Uuid::to_string *)

Fixpoint print_section (n : nat) (u : list Z) : list Z * list Z :=
  match n, u with
  | S n, byte :: u =>
      let '(buf, u) := print_section n u in
      (byte_to_hex (Z.shiftr byte 4) :: byte_to_hex (Z.land byte 15) :: buf, u)
  | _, _ => ([], u)
  end.

Fixpoint print_sections (secs : list nat) (first : bool) (u : list Z) : list Z :=
  match secs with
  | [] => []
  | n :: secs =>
      let '(buf, u) := print_section n u in
      (if first then [] else [DASH]) ++ buf ++ print_sections secs false u
  end.

Definition Uuid_to_string (u : list Z) : list Z := print_sections bytes_per_section true u.

(** ** Well-formed identifiers *)

Definition is_byte (b : Z) : Prop := 0 <= b < 256.

(** Bytes are checked by computation on concrete lists. *)
Lemma bytes_check l : forallb (fun c => (0 <=? c) && (c <? 256)) l = true -> Forall is_byte l.
Proof.
  rewrite forallb_forall, Forall_forall. intros H c Hc%list_elem_of_In.
  apply H in Hc as [?%Z.leb_le ?%Z.ltb_lt]%andb_true_iff. done.
Qed.

Definition uuid_wf (u : list Z) : Prop := length u = BYTE_LENGTH /\ Forall is_byte u.

#[export] Instance is_byte_dec b : Decision (is_byte b).
Proof. unfold is_byte. apply _. Defined.
#[export] Instance uuid_wf_dec u : Decision (uuid_wf u).
Proof. unfold uuid_wf. apply _. Defined.

(** Lower-case hexadecimal digits. *)
Definition hex_lower (c : Z) : Z := if (65 <=? c) && (c <=? 70) then c + 32 else c.

(** Finite checks over a range of integers. *)
Lemma forall_range_b (P : Z -> bool) n :
  forallb P (Z.of_nat <$> seq 0 n) = true -> forall z, 0 <= z < Z.of_nat n -> P z = true.
Proof.
  rewrite forallb_forall. intros H z Hz. apply H.
  apply list_elem_of_In, list_elem_of_fmap. exists (Z.to_nat z).
  rewrite Z2Nat.id by lia. split; [done|]. apply elem_of_seq. lia.
Qed.

Section uuid.
Implicit Types (u s ss : list Z).

Lemma hex_roundtrip d : 0 <= d < 16 -> hex_to_byte (byte_to_hex d) = d.
Proof.
  intros Hd. apply Z.eqb_eq.
  apply (forall_range_b (fun d => hex_to_byte (byte_to_hex d) =? d) 16); [done|lia].
Qed.

Lemma hex_to_byte_digit c :
  is_byte c -> hex_to_byte c <> -1 ->
  0 <= hex_to_byte c < 16 /\ byte_to_hex (hex_to_byte c) = hex_lower c.
Proof.
  intros Hc Hn.
  assert (E : (if hex_to_byte c =? -1 then true else
            (0 <=? hex_to_byte c) && (hex_to_byte c <? 16) &&
            (byte_to_hex (hex_to_byte c) =? hex_lower c)) = true).
  { apply (forall_range_b (fun c => if hex_to_byte c =? -1 then true else
            (0 <=? hex_to_byte c) && (hex_to_byte c <? 16) &&
            (byte_to_hex (hex_to_byte c) =? hex_lower c)) 256);
    [vm_compute; done|exact Hc]. }
  destruct (Z.eqb_spec (hex_to_byte c) (-1)) as [?|_]; [done|]. lia.
Qed.

Lemma byte_split b : is_byte b ->
  0 <= Z.shiftr b 4 < 16 /\ 0 <= Z.land b 15 < 16 /\ Z.shiftl (Z.shiftr b 4) 4 + Z.land b 15 = b.
Proof.
  intros Hb. red in Hb. change 15 with (Z.ones 4).
  rewrite Z.land_ones, Z.shiftr_div_pow2, Z.shiftl_mul_pow2 by lia.
  change (2 ^ 4) with 16. Z.div_mod_to_equations. lia.
Qed.

Lemma byte_join hi lo : 0 <= hi < 16 -> 0 <= lo < 16 ->
  is_byte (Z.shiftl hi 4 + lo) /\ Z.shiftr (Z.shiftl hi 4 + lo) 4 = hi /\
  Z.land (Z.shiftl hi 4 + lo) 15 = lo.
Proof.
  intros Hh Hl. unfold is_byte. change 15 with (Z.ones 4).
  rewrite Z.land_ones, Z.shiftr_div_pow2, Z.shiftl_mul_pow2 by lia.
  change (2 ^ 4) with 16. Z.div_mod_to_equations. lia.
Qed.

Lemma parse_print_section n u rest :
  length u = n -> Forall is_byte u ->
  forall u', print_section n (u ++ u') = (fst (print_section n u), u') /\
  parse_section n (fst (print_section n u) ++ rest) = Some (u, rest).
Proof.
  revert n. induction u as [|b u IH]; intros n <- Hf u'; simpl; [done|].
  apply Forall_cons_1 in Hf as [Hb Hf].
  destruct (IH _ eq_refl Hf u') as [E1 E2]. rewrite E1.
  destruct (print_section (length u) u) as [buf u0]; simpl in *.
  destruct (byte_split b Hb) as (H1 & H2 & H3).
  rewrite !hex_roundtrip by done. split; [done|].
  rewrite E2, H3. zcases.
Qed.

Lemma parse_print_sections secs : forall first u rest,
  length u = sum_list secs -> Forall is_byte u ->
  parse_sections secs first (print_sections secs first u ++ rest) = Some u.
Proof.
  induction secs as [|n secs IH]; intros first u rest Hlen Hf; simpl in *.
  { by destruct u. }
  rewrite <- (take_drop n u) in Hf |- *. apply Forall_app in Hf as [Hf1 Hf2].
  assert (Hl : length (take n u) = n) by (rewrite length_take; lia).
  destruct (parse_print_section n (take n u) (print_sections secs false (drop n u) ++ rest)
              Hl Hf1 (drop n u)) as [E1 E2].
  rewrite E1. destruct first; simpl; rewrite <- !app_assoc, E2; simpl;
    rewrite IH; simpl; try done; rewrite length_drop; lia.
Qed.

Lemma parse_section_spec n : forall ss u rest,
  Forall is_byte ss -> parse_section n ss = Some (u, rest) ->
  length u = n /\ Forall is_byte u /\ Forall is_byte rest /\
  exists txt, ss = txt ++ rest /\ length txt = (2 * n)%nat /\
    forall u', print_section n (u ++ u') = (hex_lower <$> txt, u').
Proof.
  induction n as [|n IH]; intros ss u rest Hf; simpl.
  { intros [= <- <-]. split_and!; try done. by exists []. }
  destruct ss as [|h [|l ss]]; try done.
  apply Forall_cons_1 in Hf as [Hh [Hl Hf]%Forall_cons_1].
  destruct (Z.eqb_spec (hex_to_byte h) (-1)) as [|Nh]; [done|].
  destruct (Z.eqb_spec (hex_to_byte l) (-1)) as [|Nl]; [done|].
  intros ([u1 ss1] & E & [= <- <-])%bind_Some.
  destruct (IH _ _ _ Hf E) as (H1 & H2 & H3 & txt & -> & H4 & H5).
  destruct (hex_to_byte_digit h Hh Nh) as [Rh Lh], (hex_to_byte_digit l Hl Nl) as [Rl Ll].
  destruct (byte_join _ _ Rh Rl) as (B1 & B2 & B3).
  split_and!; [simpl; lia|by constructor|done|].
  exists (h :: l :: txt). split_and!; [done|simpl; lia|].
  intros u'. simpl. rewrite H5, B2, B3, Lh, Ll. done.
Qed.

Lemma parse_sections_spec secs : forall first ss u,
  Forall is_byte ss -> parse_sections secs first ss = Some u ->
  length u = sum_list secs /\ Forall is_byte u /\
  hex_lower <$> take (length (print_sections secs first u)) ss = print_sections secs first u.
Proof.
  induction secs as [|n secs IH]; intros first ss u Hf; simpl.
  { by intros [= <-]. }
  intros (ss1 & E1 & ([u1 ss2] & E2 & (u2 & E3 & [= <-])%bind_Some)%bind_Some)%bind_Some.
  assert (Hss : Forall is_byte ss1 /\ ss = (if first then [] else [DASH]) ++ ss1).
  { destruct first; simplify_eq; [done|]. destruct ss as [|c ss]; [done|].
    destruct (Z.eqb_spec c DASH) as [->|]; simplify_eq. apply Forall_cons_1 in Hf as [_ Hf]. done. }
  destruct Hss as [Hf1 ->].
  destruct (parse_section_spec _ _ _ _ Hf1 E2) as (H1 & H2 & H3 & txt & -> & H4 & H5).
  destruct (IH _ _ _ H3 E3) as (H6 & H7 & H8).
  rewrite H5. split_and!.
  - rewrite length_app. lia.
  - by apply Forall_app.
  - rewrite !length_app, length_fmap, !take_app_add, !fmap_app, H8.
    by destruct first.
Qed.

Lemma valid_section_spec n ss : valid_section n ss = snd <$> parse_section n ss.
Proof.
  revert ss. induction n as [|n IH]; intros ss; simpl; [done|].
  destruct ss as [|h [|l ss]]; try done. zcases. rewrite IH.
  by destruct (parse_section n ss) as [[? ?]|].
Qed.

Lemma valid_sections_spec secs first ss :
  valid_sections secs first ss = true <-> is_Some (parse_sections secs first ss).
Proof.
  revert first ss. induction secs as [|n secs IH]; intros first ss; simpl; [by eauto|].
  destruct (if first then _ else _) as [ss1|]; simpl; [|split; [done|by intros []]].
  rewrite valid_section_spec.
  destruct (parse_section n ss1) as [[u ss2]|]; simpl; [|split; [done|by intros []]].
  rewrite IH. destruct (parse_sections secs false ss2); simpl; split; eauto; by intros [].
Qed.

Lemma print_section_length n : forall u,
  (n <= length u)%nat ->
  length (fst (print_section n u)) = (2 * n)%nat /\ snd (print_section n u) = drop n u.
Proof.
  induction n as [|n IH]; intros u Hu; simpl; [by rewrite drop_0|].
  destruct u as [|b u]; simpl in *; [lia|].
  destruct (IH u) as [E1 E2]; [lia|].
  destruct (print_section n u) as [buf u']; simpl in *. split; [lia|done].
Qed.

Lemma print_sections_length secs : forall first u,
  length u = sum_list secs ->
  length (print_sections secs first u) =
    (2 * sum_list secs + length secs - if first then min 1 (length secs) else 0)%nat.
Proof.
  induction secs as [|n secs IH]; intros first u Hu; simpl in *; [by destruct first|].
  destruct (print_section_length n u) as [E1 E2]; [lia|].
  destruct (print_section n u) as [buf u']; simpl in *. subst.
  rewrite !length_app, E1, IH by (rewrite length_drop; lia).
  destruct first; simpl; lia.
Qed.
End uuid.

Lemma Uuid_to_string_length u : uuid_wf u -> length (Uuid_to_string u) = TEXT_LENGTH.
Proof. intros [Hl _]. unfold Uuid_to_string. by rewrite print_sections_length. Qed.

(** [Uuid_parse] reads back every identifier [Uuid_to_string] prints,
    whatever follows it. *)
Lemma Uuid_parse_to_string u rest :
  uuid_wf u -> Uuid_parse (Uuid_to_string u ++ rest) = Some u.
Proof. intros [Hl Hf]. by apply parse_print_sections. Qed.

(** A successful parse yields 16 bytes; printing them gives the 36 characters
    parsed, in lower case. *)
Lemma Uuid_parse_spec s u :
  Forall is_byte s -> Uuid_parse s = Some u ->
  uuid_wf u /\ Uuid_to_string u = hex_lower <$> take TEXT_LENGTH s.
Proof.
  intros Hs Hu. destruct (parse_sections_spec _ _ _ _ Hs Hu) as (H1 & H2 & H3).
  split; [done|]. unfold Uuid_to_string. rewrite <- H3. do 2 f_equal.
  apply Uuid_to_string_length. done.
Qed.

Lemma Uuid_is_valid_spec s : Uuid_is_valid s = true <-> is_Some (Uuid_parse s).
Proof. apply valid_sections_spec. Qed.

(** Text and bytes of a SID correspond: parsing what was printed gives the
    bytes back whatever follows, the validator accepts exactly what the parser
    accepts, and printing what was parsed gives the 36 characters of the text
    with upper-case digits turned into lower case. *)
Theorem Uuid_text_roundtrip :
  (forall u rest, uuid_wf u ->
     length (Uuid_to_string u) = TEXT_LENGTH /\ Uuid_parse (Uuid_to_string u ++ rest) = Some u) /\
  (forall s, Uuid_is_valid s = true <-> is_Some (Uuid_parse s)) /\
  (forall s u, Forall is_byte s -> Uuid_parse s = Some u ->
     uuid_wf u /\ Uuid_to_string u = hex_lower <$> take TEXT_LENGTH s).
Proof.
  split_and!.
  - intros u rest Hu. split; [by apply Uuid_to_string_length|by apply Uuid_parse_to_string].
  - apply Uuid_is_valid_spec.
  - apply Uuid_parse_spec.
Qed.
