(* ===== verification/SidMap.v ===== *)
(** * The map between source identifiers and their numbers

    [Sid_map] of [sql/rpl_gtid_sid_map.cc]: a growable array from SIDNO to
    SID, a hash from SID to SIDNO, and the SIDNOs in the order of their SIDs.
    The hash is a finite map here; allocation failures, which undo the pushes
    and return -1, are not modelled. *)

From Stdlib Require Import ZArith Lia.
From stdpp Require Import sorting base numbers option gmap tactics list.
From S2P Require Import Prelude Uuid.

#[local] Open Scope Z_scope.

Abbreviation rpl_sid := (list Z).
Abbreviation rpl_sidno := nat.

(** [memcmp] on buffers of equal length. *)
Fixpoint memcmp (a b : list Z) : Z :=
  match a, b with
  | x :: a, y :: b => if x <? y then -1 else if y <? x then 1 else memcmp a b
  | _, _ => 0
  end.

Record Sid_map := mk_Sid_map {
  _sidno_to_sid : list rpl_sid;
  _sorted : list rpl_sidno;
  _sid_to_sidno : gmap rpl_sid rpl_sidno
}.

Definition Sid_map_new : Sid_map := mk_Sid_map [] [] ∅.

Definition sid_map_max_sidno (m : Sid_map) : rpl_sidno := length (_sidno_to_sid m).
Definition sidno_to_sid (m : Sid_map) (sidno : rpl_sidno) : rpl_sid :=
  _sidno_to_sid m !!! (sidno - 1)%nat.
(** Zero when the identifier is unknown. *)
Definition sid_to_sidno (m : Sid_map) (sid : rpl_sid) : rpl_sidno :=
  default 0%nat (_sid_to_sidno m !! sid).
Definition get_sorted_sidno (m : Sid_map) (n : nat) : rpl_sidno := _sorted m !!! n.

(** The loop of [add_node] that moves the last element of [_sorted] down to
    its place, on the array from its last element backwards. *)
Fixpoint bubble_down (sids : list rpl_sid) (sidno : rpl_sidno) (sid : rpl_sid)
    (rsorted : list rpl_sidno) : list rpl_sidno :=
  match rsorted with
  | [] => [sidno]
  | other :: r =>
      if 0 <=? memcmp sid (sids !!! (other - 1)%nat) then sidno :: rsorted
      else other :: bubble_down sids sidno sid r
  end.

Definition add_node (m : Sid_map) (sidno : rpl_sidno) (sid : rpl_sid) : Sid_map :=
  let sids := _sidno_to_sid m ++ [sid] in
  mk_Sid_map sids
    (rev (bubble_down sids sidno sid (rev (_sorted m))))
    (<[sid := sidno]> (_sid_to_sidno m)).

Definition add_sid (m : Sid_map) (sid : rpl_sid) : rpl_sidno * Sid_map :=
  match _sid_to_sidno m !! sid with
  | Some sidno => (sidno, m)
  | None =>
      let sidno := S (sid_map_max_sidno m) in
      (sidno, add_node m sidno sid)
  end.

(** [dest] receives the nodes of [m] in SIDNO order. *)
Definition Sid_map_copy (m dest : Sid_map) : Sid_map :=
  foldl (fun dest sidno => add_node dest sidno (sidno_to_sid m sidno)) dest
        (seq 1 (sid_map_max_sidno m)).

(** ** Invariant *)

Definition sid_lt (sids : list rpl_sid) (a b : rpl_sidno) : Prop :=
  memcmp (sids !!! (a - 1)%nat) (sids !!! (b - 1)%nat) < 0.

Record sid_map_wf (m : Sid_map) : Prop := {
  swf_bytes : Forall uuid_wf (_sidno_to_sid m);
  swf_hash : forall sid n, _sid_to_sidno m !! sid = Some n <->
    (1 <= n)%nat /\ _sidno_to_sid m !! (n - 1)%nat = Some sid;
  swf_perm : _sorted m ≡ₚ seq 1 (length (_sidno_to_sid m));
  swf_sorted : StronglySorted (sid_lt (_sidno_to_sid m)) (_sorted m)
}.

Section memcmp.
Implicit Types a b c : list Z.

Lemma memcmp_eq a b : length a = length b -> memcmp a b = 0 <-> a = b.
Proof.
  revert b. induction a as [|x a IH]; intros [|y b]; simpl; try done. intros [= Hl].
  specialize (IH b Hl). zcases; subst.
  - split; [lia|]. intros [= -> ->]. lia.
  - split; [lia|]. intros [= -> ->]. lia.
  - assert (x = y) as -> by lia. rewrite IH. split; [by intros ->|by intros [=]].
Qed.

Lemma memcmp_antisym a b : length a = length b -> memcmp b a = - memcmp a b.
Proof.
  revert b. induction a as [|x a IH]; intros [|y b]; simpl; try done. intros [= Hl].
  specialize (IH b Hl). zcases.
Qed.

Lemma memcmp_trans a b c :
  length a = length b -> length b = length c ->
  memcmp a b < 0 -> memcmp b c < 0 -> memcmp a c < 0.
Proof.
  revert b c. induction a as [|x a IH]; intros [|y b] [|z c]; simpl; try done; try lia.
  intros [= H1] [= H2]. specialize (IH b c H1 H2). zcases.
Qed.
End memcmp.

Section sid_map.
Implicit Types (m : Sid_map) (sids : list rpl_sid).

Lemma Sid_map_new_wf : sid_map_wf Sid_map_new.
Proof.
  split; simpl; try constructor.
  - by rewrite lookup_empty.
  - intros [_ ?]. done.
Qed.

Lemma bubble_down_perm sids sidno sid l : bubble_down sids sidno sid l ≡ₚ sidno :: l.
Proof.
  induction l as [|o l IH]; simpl; [done|]. case_match; [done|].
  rewrite IH. constructor.
Qed.

Lemma bubble_down_sorted sids sidno l :
  (forall o, o ∈ sidno :: l -> length (sids !!! (o - 1)%nat) = BYTE_LENGTH) ->
  (forall o, o ∈ l -> sids !!! (o - 1)%nat <> sids !!! (sidno - 1)%nat) ->
  StronglySorted (flip (sid_lt sids)) l ->
  StronglySorted (flip (sid_lt sids)) (bubble_down sids sidno (sids !!! (sidno - 1)%nat) l).
Proof.
  intros Hlen Hne Hl. induction Hl as [|o l Hl IH Ho]; simpl; [repeat constructor|].
  assert (E : length (sids !!! (o - 1)%nat) = length (sids !!! (sidno - 1)%nat)).
  { rewrite !Hlen; [done|by left|by right; left]. }
  pose proof (memcmp_antisym _ _ E) as Ha. pose proof (memcmp_eq _ _ E) as He.
  specialize (Hne o ltac:(by left)) as Hno.
  destruct (Z.leb_spec 0 (memcmp (sids !!! (sidno - 1)%nat) (sids !!! (o - 1)%nat))) as [Hc|Hc].
  - constructor; [by constructor|]. assert (Hlt : sid_lt sids o sidno).
    { red. destruct (decide (memcmp (sids !!! (o - 1)%nat) (sids !!! (sidno - 1)%nat) = 0));
        [tauto|lia]. }
    constructor; [done|]. rewrite Forall_forall in Ho |- *. intros x Hx.
    red. red. eapply memcmp_trans; [| |apply (Ho x Hx)|exact Hlt]; [|done].
    rewrite !Hlen; [done|by right; left|by right; right].
  - constructor.
    + apply IH; intros x Hx; [apply Hlen|apply Hne; by right].
      apply elem_of_cons in Hx as [->|]; [by left|by right; right].
    + rewrite bubble_down_perm. constructor; [exact Hc|done].
Qed.

Lemma sids_lookup_app_l sids sid n :
  (1 <= n <= length sids)%nat -> (sids ++ [sid]) !!! (n - 1)%nat = sids !!! (n - 1)%nat.
Proof. intros Hn. apply lookup_total_app_l. lia. Qed.

Lemma add_node_wf m sid :
  sid_map_wf m -> uuid_wf sid -> _sid_to_sidno m !! sid = None ->
  sid_map_wf (add_node m (S (sid_map_max_sidno m)) sid).
Proof.
  intros [Hb Hh Hp Hs] Hsid Hnew. unfold add_node, sid_map_max_sidno.
  set (sids := _sidno_to_sid m) in *. set (n := length sids) in *.
  assert (Hlast : (sids ++ [sid]) !!! (S n - 1)%nat = sid).
  { rewrite lookup_total_app_r by (simpl; lia).
    by replace (S n - 1 - length sids)%nat with 0%nat by (simpl; lia). }
  assert (Hin : forall o, o ∈ _sorted m -> (1 <= o <= n)%nat).
  { intros o. rewrite Hp, elem_of_seq. lia. }
  assert (Hsome : forall o, o ∈ _sorted m -> sids !! (o - 1)%nat = Some (sids !!! (o - 1)%nat)).
  { intros o Ho%Hin. apply list_lookup_lookup_total_lt. fold n. lia. }
  split; simpl.
  - apply Forall_app. split; [done|by constructor].
  - intros sid' k. destruct (decide (sid' = sid)) as [->|Hne].
    + rewrite lookup_insert_eq. split.
      * intros [= <-]. split; [lia|]. rewrite lookup_app_r by (simpl; lia).
        by replace (S n - 1 - length sids)%nat with 0%nat by (simpl; lia).
      * intros [Hk Hl]. f_equal. apply lookup_app_Some in Hl as [Hl|[Hl1 Hl2]].
        -- assert (_sid_to_sidno m !! sid = Some k) by (apply Hh; done). congruence.
        -- apply list_lookup_singleton_Some in Hl2 as [Hl2 _]. lia.
    + rewrite lookup_insert_ne, Hh by done. split.
      * intros [Hk Hl]. split; [done|]. by apply lookup_app_l_Some.
      * intros [Hk Hl]. split; [done|]. apply lookup_app_Some in Hl as [Hl|[_ Hl]]; [done|].
        apply list_lookup_singleton_Some in Hl as [_ ->]. done.
  - rewrite <- Permutation_rev, bubble_down_perm, <- Permutation_rev, Hp.
    rewrite length_app. simpl. fold n. rewrite Nat.add_1_r, seq_S.
    by rewrite Permutation_cons_append.
  - apply (StronglySorted_rev_flip (flip (sid_lt (sids ++ [sid])))).
    pose proof (bubble_down_sorted (sids ++ [sid]) (S n) (rev (_sorted m))) as Hbd.
    rewrite Hlast in Hbd. apply Hbd.
    + intros o Ho. apply elem_of_cons in Ho as [->|Ho]; [rewrite Hlast; apply Hsid|].
      rewrite elem_of_rev in Ho. rewrite sids_lookup_app_l by by apply Hin.
      rewrite Forall_lookup in Hb. apply (Hb (o - 1)%nat). by apply Hsome.
    + intros o Ho. rewrite elem_of_rev in Ho.
      rewrite sids_lookup_app_l by by apply Hin. intros E.
      assert (_sid_to_sidno m !! sid = Some o); [|congruence].
      apply Hh. split; [by apply Hin|]. rewrite Hsome, E by done. done.
    + apply StronglySorted_rev_flip.
      eapply StronglySorted_impl_in; [|exact Hs]. intros x y Hx%Hin Hy%Hin.
      unfold sid_lt. by rewrite !sids_lookup_app_l.
Qed.

Lemma add_sid_spec m sid :
  sid_map_wf m -> uuid_wf sid ->
  let '(sidno, m') := add_sid m sid in
  sid_map_wf m' /\ (1 <= sidno <= sid_map_max_sidno m')%nat /\
  sidno_to_sid m' sidno = sid /\ sid_to_sidno m' sid = sidno /\
  _sidno_to_sid m `prefix_of` _sidno_to_sid m'.
Proof.
  intros Hwf Hsid. unfold add_sid. destruct (_sid_to_sidno m !! sid) as [n|] eqn:E.
  - pose proof (proj1 (swf_hash m Hwf sid n) E) as [Hn Hl].
    split_and!; try done.
    + apply lookup_lt_Some in Hl. unfold sid_map_max_sidno. lia.
    + unfold sidno_to_sid. by apply list_lookup_total_correct.
    + unfold sid_to_sidno. by rewrite E.
  - pose proof (add_node_wf m sid Hwf Hsid E) as Hwf'. split_and!; try done.
    + lia.
    + unfold sid_map_max_sidno, add_node. simpl. rewrite length_app. simpl. lia.
    + unfold sidno_to_sid, add_node, sid_map_max_sidno. simpl.
      rewrite lookup_total_app_r by lia.
      by replace (length (_sidno_to_sid m) - 0 - length (_sidno_to_sid m))%nat with 0%nat by lia.
    + unfold sid_to_sidno, add_node. simpl. by rewrite lookup_insert_eq.
    + unfold add_node. simpl. by apply prefix_app_r.
Qed.

Lemma sidno_to_sid_wf m sidno :
  sid_map_wf m -> (1 <= sidno <= sid_map_max_sidno m)%nat -> uuid_wf (sidno_to_sid m sidno).
Proof.
  intros Hwf Hs. unfold sidno_to_sid, sid_map_max_sidno in *.
  destruct (lookup_lt_is_Some_2 (_sidno_to_sid m) (sidno - 1)%nat) as [sid E]; [lia|].
  rewrite (list_lookup_total_correct _ _ _ E). eapply Forall_lookup_1; [apply Hwf|done].
Qed.

(** The two directions of the map are inverse to each other. *)
Lemma sid_to_sidno_to_sid m sidno sid :
  sid_map_wf m -> (1 <= sidno)%nat ->
  sid_to_sidno m sid = sidno <->
  (sidno <= sid_map_max_sidno m)%nat /\ sidno_to_sid m sidno = sid.
Proof.
  intros Hwf Hs. unfold sid_to_sidno, sidno_to_sid, sid_map_max_sidno.
  split.
  - intros E. destruct (_sid_to_sidno m !! sid) as [n|] eqn:El; simpl in E; [subst|lia].
    apply (swf_hash m Hwf) in El as [_ El]. split; [apply lookup_lt_Some in El; lia|].
    by apply list_lookup_total_correct.
  - intros [Hle E].
    destruct (lookup_lt_is_Some_2 (_sidno_to_sid m) (sidno - 1)%nat) as [x Ex]; [lia|].
    rewrite (list_lookup_total_correct _ _ _ Ex) in E. subst x.
    by rewrite (proj2 (swf_hash m Hwf sid sidno) (conj Hs Ex)).
Qed.

Lemma sid_to_sidno_le m sid :
  sid_map_wf m -> (sid_to_sidno m sid <= sid_map_max_sidno m)%nat.
Proof.
  intros Hwf. destruct (decide (1 <= sid_to_sidno m sid)%nat) as [H|H]; [|lia].
  by apply (sid_to_sidno_to_sid m _ sid Hwf H).
Qed.

Lemma prefix_sidno_to_sid m m' sidno :
  _sidno_to_sid m `prefix_of` _sidno_to_sid m' -> (1 <= sidno <= sid_map_max_sidno m)%nat ->
  sidno_to_sid m' sidno = sidno_to_sid m sidno.
Proof.
  intros [k E] Hs. unfold sidno_to_sid, sid_map_max_sidno in *. rewrite E.
  apply lookup_total_app_l. lia.
Qed.

(** Growing a map keeps every assigned number; a new SID gets a number above
    all the old ones. *)
Lemma prefix_sid_to_sidno m m' sid :
  sid_map_wf m -> sid_map_wf m' -> _sidno_to_sid m `prefix_of` _sidno_to_sid m' ->
  sid_to_sidno m' sid = sid_to_sidno m sid \/
  sid_to_sidno m sid = 0%nat /\ (sid_map_max_sidno m < sid_to_sidno m' sid)%nat.
Proof.
  intros Hwf Hwf' Hp. destruct (decide (1 <= sid_to_sidno m sid)%nat) as [H|H].
  - left. apply sid_to_sidno_to_sid; [done..|].
    pose proof (sid_to_sidno_le m sid Hwf).
    split; [apply prefix_length in Hp; unfold sid_map_max_sidno in *; lia|].
    rewrite (prefix_sidno_to_sid m m') by (done || lia).
    by apply (sid_to_sidno_to_sid m).
  - destruct (decide (sid_to_sidno m' sid = 0%nat)) as [E|E]; [left; lia|].
    right. split; [lia|]. apply Nat.nle_gt. intros Hle. apply H.
    destruct (proj1 (sid_to_sidno_to_sid m' (sid_to_sidno m' sid) sid Hwf' ltac:(lia))
      eq_refl) as [_ E'].
    rewrite (prefix_sidno_to_sid m m') in E' by (done || lia).
    assert (sid_to_sidno m sid = sid_to_sidno m' sid); [|lia].
    apply sid_to_sidno_to_sid; [done|lia|done].
Qed.
End sid_map.

(** ** Properties *)

Definition add_sids (m : Sid_map) (sids : list rpl_sid) : Sid_map :=
  foldl (fun m sid => snd (add_sid m sid)) m sids.

Lemma add_sids_spec sids : forall m,
  sid_map_wf m -> Forall uuid_wf sids ->
  sid_map_wf (add_sids m sids) /\ _sidno_to_sid m `prefix_of` _sidno_to_sid (add_sids m sids) /\
  Forall (fun sid => sid_to_sidno (add_sids m sids) sid <> 0%nat) sids.
Proof.
  induction sids as [|sid sids IH]; intros m Hm Hs; simpl; [by split_and!|].
  apply Forall_cons in Hs as [Hsid Hs]. pose proof (add_sid_spec m sid Hm Hsid) as Ha.
  destruct (add_sid m sid) as [sidno m1]. destruct Ha as (H1 & H2 & H3 & H4 & H5). simpl.
  destruct (IH m1 H1 Hs) as (I1 & I2 & I3). split_and!; [done|by etrans|].
  constructor; [|done]. fold (add_sids m1 sids).
  destruct (prefix_sid_to_sidno m1 (add_sids m1 sids) sid H1 I1 I2); lia.
Qed.

(** However SIDs are entered, a map built from the empty one numbers them
    consistently: a SID that was entered has a number, its number never changes
    when more are entered, number and SID determine each other, and the sorted
    index lists every number once, in increasing order of the SIDs. *)
Theorem sid_map_stable sids more :
  Forall uuid_wf sids -> Forall uuid_wf more ->
  let m := add_sids Sid_map_new sids in
  let m' := add_sids m more in
  sid_map_wf m' /\
  _sorted m' ≡ₚ seq 1 (sid_map_max_sidno m') /\
  StronglySorted (fun a b => memcmp (sidno_to_sid m' a) (sidno_to_sid m' b) < 0) (_sorted m') /\
  forall sid, sid ∈ sids ->
    sid_to_sidno m sid <> 0%nat /\ sid_to_sidno m' sid = sid_to_sidno m sid /\
    sidno_to_sid m' (sid_to_sidno m sid) = sid.
Proof.
  intros Hs Hmore. cbv zeta. destruct (add_sids_spec sids Sid_map_new Sid_map_new_wf Hs) as (H1 & _ & H3).
  destruct (add_sids_spec more (add_sids Sid_map_new sids) H1 Hmore) as (H4 & H5 & _).
  split_and!; [done|apply H4|apply H4|]. intros sid Hin.
  assert (Hne : sid_to_sidno (add_sids Sid_map_new sids) sid <> 0%nat) by (by eapply Forall_forall in H3).
  destruct (prefix_sid_to_sidno _ _ sid H1 H4 H5) as [E|[E _]]; [|done].
  split_and!; [done..|].
  apply (sid_to_sidno_to_sid _ (sid_to_sidno (add_sids Sid_map_new sids) sid) sid H4); [lia|done].
Qed.

Lemma sid_map_stable_witness :
  let m := add_sids Sid_map_new [replicate 16 7; replicate 16 3] in
  let m' := add_sids m [replicate 16 5] in
  sid_map_wf m' /\
  _sorted m' ≡ₚ seq 1 (sid_map_max_sidno m') /\
  StronglySorted (fun a b => memcmp (sidno_to_sid m' a) (sidno_to_sid m' b) < 0) (_sorted m') /\
  forall sid, sid ∈ [replicate 16 7; replicate 16 3] ->
    sid_to_sidno m sid <> 0%nat /\ sid_to_sidno m' sid = sid_to_sidno m sid /\
    sidno_to_sid m' (sid_to_sidno m sid) = sid.
Proof.
  apply sid_map_stable; repeat (apply Forall_cons; split; [by split; [|apply bytes_check]|]); constructor.
Defined.
