(* ===== verification/GtidSet.v ===== *)
(** * Sets of global transaction identifiers

    [Gtid_set] of [sql/rpl_gtid_set.cc] on top of [GtidInterval]: an array
    that holds, for each SIDNO, the list of its intervals of group numbers.

    [None] stands for an access outside of the array (the code asserts the
    index in debug builds only) or a null dereference.  The sid lock and the
    mutex of the free list are not modelled: an operation runs alone on its
    sets.  When two sets are involved, [sid_maps] says whether they translate
    SIDNOs: [Same_maps] when both use one [Sid_map] or one of them has none,
    [Distinct_maps] with the map of this set and the map of the other. *)

From Stdlib Require Import ZArith Lia.
From stdpp Require Import sorting base numbers option gmap tactics list.
From S2P Require Import Prelude GtidInterval Uuid SidMap.

#[local] Open Scope Z_scope.

Record Gtid_set := mk_Gtid_set {
  m_intervals : list (list Interval);
  gs_store : Gtid_set_store
}.

Inductive sid_maps :=
| Same_maps
| Distinct_maps (this_map other_map : Sid_map).

Definition Gtid_set_new : Gtid_set := mk_Gtid_set [] (mk_store [] [] None).

Definition get_max_sidno (gs : Gtid_set) : rpl_sidno := length (m_intervals gs).

(** The list of a SIDNO, empty for one the array has no room for. *)
Definition intervals_of (gs : Gtid_set) (sidno : rpl_sidno) : list Interval :=
  match sidno with O => [] | S i => m_intervals gs !!! i end.

(** [Interval_iterator(gs, sidno)]. *)
Definition iterate (gs : Gtid_set) (sidno : rpl_sidno) : option (list Interval) :=
  match sidno with O => None | S i => m_intervals gs !! i end.

(** The set after its list of [sidno] was edited through an iterator. *)
Definition write_back (gs : Gtid_set) (sidno : rpl_sidno)
    (r : Interval_iterator * Gtid_set_store) : Gtid_set :=
  mk_Gtid_set (<[(sidno - 1)%nat := ivit_list (fst r)]> (m_intervals gs)) (snd r).

Definition ensure_sidno (gs : Gtid_set) (sidno : rpl_sidno) : Gtid_set :=
  mk_Gtid_set (m_intervals gs ++ replicate (sidno - get_max_sidno gs) []) (gs_store gs).

Definition add_interval_memory (gs : Gtid_set) (ivs : list Interval) : Gtid_set :=
  mk_Gtid_set (m_intervals gs) (add_interval_memory_lock_taken ivs (gs_store gs)).

Definition Gtid_set_clear (gs : Gtid_set) : Gtid_set :=
  let p := reset_cached_string (gs_store gs) in
  mk_Gtid_set (replicate (get_max_sidno gs) [])
    (mk_store (free_intervals p ++ concat (m_intervals gs)) (chunks p) (cached_string p)).

(** ** Single identifiers *)

Definition _add_gtid (gs : Gtid_set) (sidno : rpl_sidno) (gno : Z) : option Gtid_set :=
  l ← iterate gs sidno;
  r ← add_gno_interval (ivit_init l) gno (gno + 1) (gs_store gs);
  Some (write_back gs sidno r).

Definition _remove_gtid (gs : Gtid_set) (sidno : rpl_sidno) (gno : Z) : option Gtid_set :=
  if decide (sidno <= get_max_sidno gs)%nat then
    l ← iterate gs sidno;
    r ← remove_gno_interval (ivit_init l) gno (gno + 1) (gs_store gs);
    Some (write_back gs sidno r)
  else Some gs.

(** The three queries assert [sidno >= 1]; SIDNO 0 counts as empty here. *)
Definition contains_gtid (gs : Gtid_set) (sidno : rpl_sidno) (gno : Z) : bool :=
  if decide (get_max_sidno gs < sidno)%nat then false
  else contains_gno (intervals_of gs sidno) gno.

Definition get_last_gno (gs : Gtid_set) (sidno : rpl_sidno) : Z :=
  if decide (get_max_sidno gs < sidno)%nat then 0
  else last_gno 0 (intervals_of gs sidno).

Definition contains_sidno (gs : Gtid_set) (sidno : rpl_sidno) : bool :=
  if decide (get_max_sidno gs < sidno)%nat then false
  else match intervals_of gs sidno with [] => false | _ :: _ => true end.

(** ** Gtid_set::Gtid_iterator

    The position is the current [sidno] (0 at the end), the current [gno] and
    the intervals of [sidno] from the one that holds [gno] on. *)

Record Gtid_iterator := mk_git {
  git_sidno : rpl_sidno;
  git_gno : Z;
  git_ivit : list Interval
}.

Fixpoint next_sidno_loop (sidno : rpl_sidno) (lists : list (list Interval)) : Gtid_iterator :=
  match lists with
  | [] => mk_git 0 0 []
  | [] :: r => next_sidno_loop (S sidno) r
  | (iv :: _) as l :: _ => mk_git sidno (iv_start iv) l
  end.

Definition git_next_sidno (gs : Gtid_set) (sidno : rpl_sidno) : Gtid_iterator :=
  next_sidno_loop (S sidno) (drop sidno (m_intervals gs)).

Definition git_new (gs : Gtid_set) : Gtid_iterator := git_next_sidno gs 0.

Definition git_next (gs : Gtid_set) (it : Gtid_iterator) : option Gtid_iterator :=
  match git_ivit it with
  | [] => None
  | iv :: r =>
      let gno := git_gno it + 1 in
      if gno =? iv_end iv then
        match r with
        | [] => Some (git_next_sidno gs (git_sidno it))
        | iv' :: _ => Some (mk_git (git_sidno it) (iv_start iv') r)
        end
      else Some (mk_git (git_sidno it) gno (iv :: r))
  end.

Definition Gtid_set_is_empty (gs : Gtid_set) : bool :=
  match git_sidno (git_new gs) with O => true | S _ => false end.

(** ** Whole sets *)

Definition add_gno_intervals (gs : Gtid_set) (sidno : rpl_sidno) (other : list Interval)
  : option Gtid_set :=
  l ← iterate gs sidno;
  r ← add_gno_intervals_loop (ivit_init l) other (gs_store gs);
  Some (write_back gs sidno r).

Definition remove_gno_intervals (gs : Gtid_set) (sidno : rpl_sidno) (other : list Interval)
  : option Gtid_set :=
  l ← iterate gs sidno;
  r ← remove_gno_intervals_loop (ivit_init l) other (gs_store gs);
  Some (write_back gs sidno r).

Definition remove_intervals_for_sidno (gs other : Gtid_set) (sidno : rpl_sidno)
  : option Gtid_set :=
  other_l ← iterate other sidno;
  remove_gno_intervals gs sidno other_l.

Fixpoint add_same_loop (gs other : Gtid_set) (sidnos : list rpl_sidno) : option Gtid_set :=
  match sidnos with
  | [] => Some gs
  | sidno :: r =>
      other_l ← iterate other sidno;
      gs ← add_gno_intervals gs sidno other_l;
      add_same_loop gs other r
  end.

Fixpoint add_distinct_loop (gs other : Gtid_set) (this_map other_map : Sid_map)
    (sidnos : list rpl_sidno) : option (Gtid_set * Sid_map) :=
  match sidnos with
  | [] => Some (gs, this_map)
  | other_sidno :: r =>
      other_l ← iterate other other_sidno;
      match other_l with
      | [] => add_distinct_loop gs other this_map other_map r
      | _ :: _ =>
          let '(this_sidno, this_map) := add_sid this_map (sidno_to_sid other_map other_sidno) in
          gs ← add_gno_intervals (ensure_sidno gs this_sidno) this_sidno other_l;
          add_distinct_loop gs other this_map other_map r
      end
  end.

(** The map of this set is returned because the loop may add SIDs to it. *)
Definition add_gtid_set (maps : sid_maps) (gs other : Gtid_set)
  : option (Gtid_set * sid_maps) :=
  let sidnos := seq 1 (get_max_sidno other) in
  match maps with
  | Same_maps =>
      gs ← add_same_loop (ensure_sidno gs (get_max_sidno other)) other sidnos;
      Some (gs, Same_maps)
  | Distinct_maps this_map other_map =>
      '(gs, this_map) ← add_distinct_loop gs other this_map other_map sidnos;
      Some (gs, Distinct_maps this_map other_map)
  end.

Fixpoint remove_same_loop (gs other : Gtid_set) (sidnos : list rpl_sidno) : option Gtid_set :=
  match sidnos with
  | [] => Some gs
  | sidno :: r =>
      other_l ← iterate other sidno;
      gs ← remove_gno_intervals gs sidno other_l;
      remove_same_loop gs other r
  end.

Fixpoint remove_distinct_loop (gs other : Gtid_set) (this_map other_map : Sid_map)
    (sidnos : list rpl_sidno) : option Gtid_set :=
  match sidnos with
  | [] => Some gs
  | other_sidno :: r =>
      other_l ← iterate other other_sidno;
      match other_l with
      | [] => remove_distinct_loop gs other this_map other_map r
      | _ :: _ =>
          let this_sidno := sid_to_sidno this_map (sidno_to_sid other_map other_sidno) in
          gs ← (match this_sidno with
                | O => Some gs
                | S _ => remove_gno_intervals gs this_sidno other_l
                end);
          remove_distinct_loop gs other this_map other_map r
      end
  end.

Definition remove_gtid_set (maps : sid_maps) (gs other : Gtid_set) : option Gtid_set :=
  match maps with
  | Same_maps =>
      remove_same_loop gs other (seq 1 (min (get_max_sidno other) (get_max_sidno gs)))
  | Distinct_maps this_map other_map =>
      remove_distinct_loop gs other this_map other_map (seq 1 (get_max_sidno other))
  end.

(** ** Comparisons *)

Definition sidno_equals (gs : Gtid_set) (sidno : rpl_sidno) (other : Gtid_set)
    (other_sidno : rpl_sidno) : bool :=
  ivs_equals (intervals_of gs sidno) (intervals_of other other_sidno).

(** [for (sidno= common_max_sidno + 1; sidno < max_sidno; sidno++)] finds no
    SIDNO of [gs]. *)
Definition equals_tail_empty (gs : Gtid_set) (common_max_sidno : rpl_sidno) : bool :=
  forallb (fun sidno => negb (contains_sidno gs sidno))
    (seq (S common_max_sidno) (get_max_sidno gs - S common_max_sidno)).

Fixpoint equals_skip (gs : Gtid_set) (sorted : list rpl_sidno) : list rpl_sidno :=
  match sorted with
  | [] => []
  | sidno :: r => if contains_sidno gs sidno then sorted else equals_skip gs r
  end.

Fixpoint equals_distinct_loop (gs other : Gtid_set) (this_map other_map : Sid_map)
    (sorted other_sorted : list rpl_sidno) : bool :=
  match sorted with
  | [] => match equals_skip other other_sorted with [] => true | _ :: _ => false end
  | sidno :: sorted' =>
      if contains_sidno gs sidno then
        match equals_skip other other_sorted with
        | [] => false
        | other_sidno :: other_sorted' =>
            if negb (memcmp (sidno_to_sid this_map sidno)
                            (sidno_to_sid other_map other_sidno) =? 0) then false
            else if negb (sidno_equals gs sidno other other_sidno) then false
            else equals_distinct_loop gs other this_map other_map sorted' other_sorted'
        end
      else equals_distinct_loop gs other this_map other_map sorted' other_sorted
  end.

Definition Gtid_set_equals (maps : sid_maps) (gs other : Gtid_set) : bool :=
  match maps with
  | Same_maps =>
      let max_sidno := get_max_sidno gs in
      let other_max_sidno := get_max_sidno other in
      let common_max_sidno := min max_sidno other_max_sidno in
      if (if decide (common_max_sidno < max_sidno)%nat
          then equals_tail_empty gs common_max_sidno
          else if decide (common_max_sidno < other_max_sidno)%nat
          then equals_tail_empty other common_max_sidno
          else true)
      then forallb (fun sidno => sidno_equals gs sidno other sidno) (seq 1 common_max_sidno)
      else false
  | Distinct_maps this_map other_map =>
      equals_distinct_loop gs other this_map other_map (_sorted this_map) (_sorted other_map)
  end.

Definition is_subset_for_sid (gs super : Gtid_set) (superset_sidno subset_sidno : rpl_sidno)
  : option bool :=
  match subset_sidno, superset_sidno with
  | O, _ => Some true
  | S _, O => Some false
  | S _, S _ =>
      sub_l ← iterate gs subset_sidno;
      super_l ← iterate super superset_sidno;
      is_interval_subset sub_l super_l
  end.

(** The SIDNO of [other] that stands for SIDNO [sidno] of this set; 0 for none. *)
Definition translate_sidno (maps : sid_maps) (sidno : rpl_sidno) : rpl_sidno :=
  match maps with
  | Same_maps => sidno
  | Distinct_maps this_map other_map => sid_to_sidno other_map (sidno_to_sid this_map sidno)
  end.

Fixpoint is_subset_loop (maps : sid_maps) (super : Gtid_set) (sidno : rpl_sidno)
    (lists : list (list Interval)) : option bool :=
  match lists with
  | [] => Some true
  | [] :: r => is_subset_loop maps super (S sidno) r
  | (_ :: _) as l :: r =>
      let super_sidno := translate_sidno maps sidno in
      if decide (super_sidno = 0%nat) then Some false
      else if decide (get_max_sidno super < super_sidno)%nat then Some false
      else
        b ← is_interval_subset l (intervals_of super super_sidno);
        if (b : bool) then is_subset_loop maps super (S sidno) r else Some false
  end.

Definition is_subset (maps : sid_maps) (gs super : Gtid_set) : option bool :=
  is_subset_loop maps super 1 (m_intervals gs).

Definition is_subset_not_equals (maps : sid_maps) (gs super : Gtid_set) : option bool :=
  b ← is_subset maps gs super;
  Some ((b : bool) && negb (Gtid_set_equals maps gs super)).

Fixpoint is_intersection_loop (maps : sid_maps) (other : Gtid_set) (sidno : rpl_sidno)
    (lists : list (list Interval)) : option bool :=
  match lists with
  | [] => Some false
  | [] :: r => is_intersection_loop maps other (S sidno) r
  | (_ :: _) as l :: r =>
      let other_sidno := translate_sidno maps sidno in
      if decide (other_sidno = 0%nat) then is_intersection_loop maps other (S sidno) r
      else if decide (get_max_sidno other < other_sidno)%nat
      then is_intersection_loop maps other (S sidno) r
      else
        b ← is_interval_intersection_nonempty l (intervals_of other other_sidno);
        if (b : bool) then Some true else is_intersection_loop maps other (S sidno) r
  end.

Definition is_intersection_nonempty (maps : sid_maps) (gs other : Gtid_set) : option bool :=
  is_intersection_loop maps other 1 (m_intervals gs).

(** [this], [other] and [result] all use one [Sid_map]. *)
Definition intersection (gs other result : Gtid_set) : option Gtid_set :=
  '(this_minus_other, _) ← add_gtid_set Same_maps Gtid_set_new gs;
  this_minus_other ← remove_gtid_set Same_maps this_minus_other other;
  '(inter, _) ← add_gtid_set Same_maps Gtid_set_new gs;
  inter ← remove_gtid_set Same_maps inter this_minus_other;
  '(result, _) ← add_gtid_set Same_maps result inter;
  Some result.

Definition get_n_intervals_of (gs : Gtid_set) (sidno : rpl_sidno) : Z :=
  Z.of_nat (length (intervals_of gs sidno)).

(** The loop runs over [sidno < max_sidno]. *)
Definition get_n_intervals (gs : Gtid_set) : Z :=
  foldl (fun ret sidno => ret + get_n_intervals_of gs sidno) 0 (seq 1 (get_max_sidno gs - 1)).

(** ** Meaning, invariant and node accounting *)

Definition gs_has (gs : Gtid_set) (sidno : rpl_sidno) (gno : Z) : Prop :=
  in_ivs (intervals_of gs sidno) gno.

Definition gs_wf (gs : Gtid_set) : Prop := Forall (ivs_wf 0) (m_intervals gs).

(** Free nodes and nodes in use, less those allocated. *)
Definition gs_nodes (gs : Gtid_set) : Z :=
  balance (gs_store gs) (sum_list_with length (m_intervals gs)).

(** [gs'] is well formed, holds exactly [P], and owns the nodes of [gs]. *)
Definition gs_becomes (gs gs' : Gtid_set) (P : rpl_sidno -> Z -> Prop) : Prop :=
  gs_wf gs' /\ (forall sidno gno, gs_has gs' sidno gno <-> P sidno gno) /\
  gs_nodes gs' = gs_nodes gs.

Section gtid_set.
Implicit Types (gs other : Gtid_set) (sidno : rpl_sidno) (l : list Interval).

Lemma intervals_of_wf gs sidno : gs_wf gs -> ivs_wf 0 (intervals_of gs sidno).
Proof.
  intros Hwf. destruct sidno as [|i]; simpl; [done|].
  rewrite list_lookup_total_alt. destruct (m_intervals gs !! i) eqn:E; simpl; [|done].
  eapply Forall_lookup_1; eauto.
Qed.

Lemma intervals_of_out gs sidno : (get_max_sidno gs < sidno)%nat -> intervals_of gs sidno = [].
Proof.
  unfold get_max_sidno. intros H. destruct sidno as [|i]; [done|]. simpl.
  by rewrite list_lookup_total_alt, lookup_ge_None_2 by lia.
Qed.

Lemma gs_has_range gs sidno gno :
  gs_wf gs -> gs_has gs sidno gno ->
  (1 <= sidno <= get_max_sidno gs)%nat /\ 0 < gno < GNO_END.
Proof.
  intros Hwf Hg. split; [|by eapply ivs_wf_in; [apply intervals_of_wf|]].
  destruct (decide (get_max_sidno gs < sidno)%nat) as [H|H].
  - red in Hg. rewrite intervals_of_out in Hg by done. by apply in_ivs_nil in Hg.
  - destruct sidno; [by apply in_ivs_nil in Hg|lia].
Qed.

Lemma iterate_Some gs sidno :
  (1 <= sidno <= get_max_sidno gs)%nat -> iterate gs sidno = Some (intervals_of gs sidno).
Proof.
  unfold get_max_sidno. destruct sidno as [|i]; simpl; [lia|]. intros H.
  apply list_lookup_lookup_total_lt. lia.
Qed.

Lemma iterate_Some_inv gs sidno l :
  iterate gs sidno = Some l ->
  (1 <= sidno <= get_max_sidno gs)%nat /\ l = intervals_of gs sidno.
Proof.
  unfold get_max_sidno. destruct sidno as [|i]; simpl; [done|]. intros H.
  apply lookup_lt_Some in H as Hi. split; [lia|]. symmetry. by apply list_lookup_total_correct.
Qed.

Lemma intervals_of_write_back gs sidno r sidno' :
  (1 <= sidno <= get_max_sidno gs)%nat ->
  intervals_of (write_back gs sidno r) sidno' =
    if decide (sidno' = sidno) then ivit_list (fst r) else intervals_of gs sidno'.
Proof.
  unfold get_max_sidno. intros H. destruct sidno' as [|i]; simpl; [case_decide; [lia|done]|].
  rewrite list_lookup_total_insert_case by lia.
  repeat case_decide; try lia; done.
Qed.

Lemma write_back_max gs sidno r : get_max_sidno (write_back gs sidno r) = get_max_sidno gs.
Proof. apply length_insert. Qed.

(** An edit through an iterator that keeps the list well formed and the
    balance of nodes makes the corresponding change to the set. *)
Lemma write_back_becomes gs sidno r (P : Z -> Prop) :
  gs_wf gs -> (1 <= sidno <= get_max_sidno gs)%nat ->
  ivs_wf 0 (ivit_list (fst r)) ->
  (forall g, in_ivs (ivit_list (fst r)) g <-> P g) ->
  balance (snd r) (length (ivit_list (fst r))) =
    balance (gs_store gs) (length (intervals_of gs sidno)) ->
  gs_becomes gs (write_back gs sidno r)
    (fun s g => if decide (s = sidno) then P g else gs_has gs s g).
Proof.
  intros Hwf Hs Hl HP Hbal. split_and!.
  - by apply Forall_insert.
  - intros s g. unfold gs_has. rewrite intervals_of_write_back by done.
    case_decide; [apply HP|done].
  - unfold gs_nodes, balance in *. simpl.
    pose proof (iterate_Some gs sidno Hs) as E. destruct sidno as [|i]; [lia|]. simpl in E.
    pose proof (sum_list_with_insert length (m_intervals gs) i (ivit_list (fst r)) _ E).
    simpl. rewrite Nat.sub_0_r. simpl in *. lia.
Qed.

Lemma gs_becomes_ext gs gs' P Q :
  (forall s g, P s g <-> Q s g) -> gs_becomes gs gs' P -> gs_becomes gs gs' Q.
Proof.
  intros HPQ (H1 & H2 & H3). split_and!; try done. intros s g. by rewrite H2.
Qed.

Lemma gs_becomes_trans gs gs1 gs2 P Q :
  gs_becomes gs gs1 P -> gs_becomes gs1 gs2 Q -> gs_becomes gs gs2 Q.
Proof. intros (H1 & H2 & H3) (H4 & H5 & H6). split_and!; try done. congruence. Qed.

Lemma ensure_sidno_max gs sidno :
  get_max_sidno (ensure_sidno gs sidno) = max (get_max_sidno gs) sidno.
Proof.
  unfold get_max_sidno, ensure_sidno. simpl. rewrite length_app, length_replicate.
  unfold get_max_sidno. lia.
Qed.

Lemma intervals_of_ensure_sidno gs sidno s :
  intervals_of (ensure_sidno gs sidno) s = intervals_of gs s.
Proof.
  destruct s as [|i]; [done|]. simpl.
  destruct (decide (i < length (m_intervals gs))%nat) as [H|H].
  - by rewrite lookup_total_app_l.
  - rewrite lookup_total_app_r by lia.
    rewrite !list_lookup_total_alt, (lookup_ge_None_2 (m_intervals gs)) by lia.
    destruct (replicate _ _ !! _) eqn:E; [|done]. by apply lookup_replicate in E as [-> _].
Qed.

Lemma ensure_sidno_becomes gs sidno :
  gs_wf gs -> gs_becomes gs (ensure_sidno gs sidno) (gs_has gs).
Proof.
  intros Hwf. split_and!.
  - apply Forall_app. split; [done|]. by apply Forall_replicate.
  - intros s g. unfold gs_has. by rewrite intervals_of_ensure_sidno.
  - unfold gs_nodes, ensure_sidno. simpl. rewrite sum_list_with_app.
    f_equal. induction (sidno - get_max_sidno gs)%nat; simpl; lia.
Qed.
End gtid_set.

(** ** Specifications of the operations *)

#[local] Arguments add_gtid_set : simpl never.
#[local] Arguments remove_gtid_set : simpl never.

Section operations.
Implicit Types (gs other : Gtid_set) (sidno : rpl_sidno) (l : list Interval).

Lemma _add_gtid_spec gs sidno gno :
  gs_wf gs -> (1 <= sidno <= get_max_sidno gs)%nat -> 0 < gno < GNO_END ->
  exists gs', _add_gtid gs sidno gno = Some gs' /\ get_max_sidno gs' = get_max_sidno gs /\
    gs_becomes gs gs' (fun s g => gs_has gs s g \/ s = sidno /\ g = gno).
Proof.
  intros Hwf Hs Hg. pose proof (intervals_of_wf gs sidno Hwf) as Hl.
  unfold _add_gtid. rewrite (iterate_Some gs sidno Hs). simpl. unfold add_gno_interval. simpl.
  destruct (add_gno_loop_spec (intervals_of gs sidno) [] gno (gno + 1)
              (reset_cached_string (gs_store gs)))
    as (b' & iv & r & p' & -> & Hw & _ & _ & Hi & Hbal); simpl; try done; try lia.
  eexists. split; [done|]. split; [apply write_back_max|].
  eapply gs_becomes_ext; [|eapply write_back_becomes; try done; apply Hbal].
  intros s g. simpl. case_decide; [subst|intuition congruence].
  unfold ivit_list. simpl. rewrite Hi. simpl. unfold gs_has. intuition lia.
Qed.

Lemma _remove_gtid_spec gs sidno gno :
  gs_wf gs -> (1 <= sidno)%nat -> 0 < gno ->
  exists gs', _remove_gtid gs sidno gno = Some gs' /\ get_max_sidno gs' = get_max_sidno gs /\
    gs_becomes gs gs' (fun s g => gs_has gs s g /\ ~ (s = sidno /\ g = gno)).
Proof.
  intros Hwf Hs Hg. unfold _remove_gtid. case_decide as Hm.
  - rewrite iterate_Some by lia. simpl.
    destruct (remove_gno_interval_spec (ivit_init (intervals_of gs sidno)) gno (gno + 1)
                (gs_store gs)) as (it' & p' & -> & Hw & _ & Hi & Hbal); simpl; try lia.
    { by apply intervals_of_wf. }
    eexists. split; [done|]. split; [apply write_back_max|].
    eapply gs_becomes_ext; [|eapply write_back_becomes; try done; apply Hbal].
    intros s g. simpl. case_decide; [subst|intuition congruence].
    rewrite Hi. unfold gs_has, ivit_list. simpl. intuition lia.
  - eexists. split; [done|]. unfold gs_becomes. split_and!; try done. intros s g. split; [|tauto].
    intros Hin. split; [done|]. intros [-> ->].
    apply gs_has_range in Hin as [? _]; [lia|done].
Qed.

Lemma add_gno_intervals_spec gs sidno (other : list Interval) :
  gs_wf gs -> (1 <= sidno <= get_max_sidno gs)%nat -> ivs_wf 0 other ->
  exists gs', add_gno_intervals gs sidno other = Some gs' /\
    get_max_sidno gs' = get_max_sidno gs /\
    gs_becomes gs gs' (fun s g => gs_has gs s g \/ s = sidno /\ in_ivs other g).
Proof.
  intros Hwf Hs Ho. unfold add_gno_intervals. rewrite (iterate_Some gs sidno Hs). simpl.
  destruct (add_gno_intervals_loop_spec other (ivit_init (intervals_of gs sidno)) 0
              (gs_store gs)) as (it' & p' & -> & Hw & Hi & Hbal); simpl; try done.
  { by apply intervals_of_wf. }
  eexists. split; [done|]. split; [apply write_back_max|].
  eapply gs_becomes_ext; [|eapply write_back_becomes; try done; apply Hbal].
  intros s g. simpl. case_decide; [subst|intuition congruence].
  rewrite Hi. unfold gs_has, ivit_list. simpl. tauto.
Qed.

Lemma remove_gno_intervals_spec gs sidno (other : list Interval) :
  gs_wf gs -> (1 <= sidno <= get_max_sidno gs)%nat -> ivs_wf 0 other ->
  exists gs', remove_gno_intervals gs sidno other = Some gs' /\
    get_max_sidno gs' = get_max_sidno gs /\
    gs_becomes gs gs' (fun s g => gs_has gs s g /\ ~ (s = sidno /\ in_ivs other g)).
Proof.
  intros Hwf Hs Ho. unfold remove_gno_intervals. rewrite (iterate_Some gs sidno Hs). simpl.
  destruct (remove_gno_intervals_loop_spec other (ivit_init (intervals_of gs sidno)) 0
              (gs_store gs)) as (it' & p' & -> & Hw & Hi & Hbal); simpl; try done.
  { by apply intervals_of_wf. }
  eexists. split; [done|]. split; [apply write_back_max|].
  eapply gs_becomes_ext; [|eapply write_back_becomes; try done; apply Hbal].
  intros s g. simpl. case_decide; [subst|intuition congruence].
  rewrite Hi. unfold gs_has, ivit_list. simpl. tauto.
Qed.

Lemma add_same_loop_spec other sidnos : forall gs,
  gs_wf gs -> gs_wf other ->
  Forall (fun s => 1 <= s <= min (get_max_sidno gs) (get_max_sidno other))%nat sidnos ->
  exists gs', add_same_loop gs other sidnos = Some gs' /\
    get_max_sidno gs' = get_max_sidno gs /\
    gs_becomes gs gs' (fun s g => gs_has gs s g \/ s ∈ sidnos /\ gs_has other s g).
Proof.
  induction sidnos as [|s0 sidnos IH]; intros gs Hwf Hwo Hr; simpl.
  { exists gs. unfold gs_becomes. split_and!; try done. intros s g. split; [tauto|].
    intros [?|[[]%elem_of_nil _]]; done. }
  apply Forall_cons in Hr as [Hs Hr].
  rewrite (iterate_Some other s0) by lia. simpl.
  destruct (add_gno_intervals_spec gs s0 (intervals_of other s0))
    as (gs1 & -> & Hm & Hb); [done|lia|by apply intervals_of_wf|]. simpl.
  destruct (IH gs1) as (gs2 & -> & Hm2 & Hb2); [apply Hb|done|by rewrite Hm|].
  exists gs2. split; [done|]. split; [congruence|].
  eapply gs_becomes_ext; [|eapply gs_becomes_trans; [exact Hb|exact Hb2]].
  intros s g. simpl. destruct Hb as (_ & -> & _). rewrite elem_of_cons.
  unfold gs_has. split; [|intuition (subst; tauto)].
  intros [[?|[-> ?]]|?]; tauto.
Qed.

Lemma remove_same_loop_spec other sidnos : forall gs,
  gs_wf gs -> gs_wf other ->
  Forall (fun s => 1 <= s <= min (get_max_sidno gs) (get_max_sidno other))%nat sidnos ->
  exists gs', remove_same_loop gs other sidnos = Some gs' /\
    get_max_sidno gs' = get_max_sidno gs /\
    gs_becomes gs gs' (fun s g => gs_has gs s g /\ ~ (s ∈ sidnos /\ gs_has other s g)).
Proof.
  induction sidnos as [|s0 sidnos IH]; intros gs Hwf Hwo Hr; simpl.
  { exists gs. unfold gs_becomes. split_and!; try done. intros s g. split; [|tauto].
    intros ?; split; [done|]. intros [[]%elem_of_nil _]. }
  apply Forall_cons in Hr as [Hs Hr].
  rewrite (iterate_Some other s0) by lia. simpl.
  destruct (remove_gno_intervals_spec gs s0 (intervals_of other s0))
    as (gs1 & -> & Hm & Hb); [done|lia|by apply intervals_of_wf|]. simpl.
  destruct (IH gs1) as (gs2 & -> & Hm2 & Hb2); [apply Hb|done|by rewrite Hm|].
  exists gs2. split; [done|]. split; [congruence|].
  eapply gs_becomes_ext; [|eapply gs_becomes_trans; [exact Hb|exact Hb2]].
  intros s g. simpl. destruct Hb as (_ & -> & _). rewrite elem_of_cons.
  unfold gs_has. intuition (subst; tauto).
Qed.

Lemma add_gtid_set_same_spec gs other :
  gs_wf gs -> gs_wf other ->
  exists gs', add_gtid_set Same_maps gs other = Some (gs', Same_maps) /\
    get_max_sidno gs' = max (get_max_sidno gs) (get_max_sidno other) /\
    gs_becomes gs gs' (fun s g => gs_has gs s g \/ gs_has other s g).
Proof.
  intros Hwf Hwo. unfold add_gtid_set.
  pose proof (ensure_sidno_becomes gs (get_max_sidno other) Hwf) as He.
  destruct (add_same_loop_spec other (seq 1 (get_max_sidno other))
    (ensure_sidno gs (get_max_sidno other))) as (gs' & -> & Hm & Hb).
  { apply He. } { done. }
  { rewrite ensure_sidno_max. apply Forall_forall. intros s. rewrite elem_of_seq. lia. }
  exists gs'. split; [done|]. split; [by rewrite Hm, ensure_sidno_max|].
  eapply gs_becomes_ext; [|eapply gs_becomes_trans; [exact He|exact Hb]].
  intros s g. simpl. destruct He as (_ & -> & _).
  split; [tauto|]. intros [?|Hg]; [tauto|]. right. split; [|done].
  apply gs_has_range in Hg as [? _]; [|done]. apply elem_of_seq. lia.
Qed.

Lemma remove_gtid_set_same_spec gs other :
  gs_wf gs -> gs_wf other ->
  exists gs', remove_gtid_set Same_maps gs other = Some gs' /\
    get_max_sidno gs' = get_max_sidno gs /\
    gs_becomes gs gs' (fun s g => gs_has gs s g /\ ~ gs_has other s g).
Proof.
  intros Hwf Hwo. unfold remove_gtid_set.
  destruct (remove_same_loop_spec other
    (seq 1 (min (get_max_sidno other) (get_max_sidno gs))) gs) as (gs' & -> & Hm & Hb);
    [done..| |].
  { apply Forall_forall. intros s. rewrite elem_of_seq. lia. }
  exists gs'. split; [done|]. split; [done|]. eapply gs_becomes_ext; [|exact Hb].
  intros s g. simpl. split; intros [H1 H2]; (split; [done|]); [|tauto].
  intros H. apply H2. split; [|done]. apply elem_of_seq.
  apply gs_has_range in H1 as [? _], H as [? _]; [lia|done..].
Qed.

(** [intersection] adds to its result, and to nothing else, the identifiers
    that are in both sets; it computes [A - (A - B)] with two auxiliary sets. *)
Theorem intersection_spec gs other result :
  gs_wf gs -> gs_wf other -> gs_wf result ->
  exists result', intersection gs other result = Some result' /\
    gs_becomes result result'
      (fun s g => gs_has result s g \/ (gs_has gs s g /\ gs_has other s g)).
Proof.
  intros Hwf Hwo Hwr. unfold intersection.
  assert (Hnew : gs_wf Gtid_set_new) by constructor.
  destruct (add_gtid_set_same_spec Gtid_set_new gs Hnew Hwf) as (a & -> & _ & (Wa & Ha & _)).
  simpl.
  destruct (remove_gtid_set_same_spec a other Wa Hwo) as (b & -> & _ & (Wb & Hb & _)). simpl.
  destruct (remove_gtid_set_same_spec a b Wa Wb) as (c & -> & _ & (Wc & Hc & _)). simpl.
  destruct (add_gtid_set_same_spec result c Hwr Wc) as (d & -> & _ & Hd). simpl.
  exists d. split; [done|]. eapply gs_becomes_ext; [|exact Hd]. intros s g. simpl.
  rewrite Hc, Hb, Ha.
  assert (Hn : ~ gs_has Gtid_set_new s g).
  { intros H. by destruct s; apply in_ivs_nil in H. }
  pose proof (contains_gno_spec 0 (intervals_of other s) g (intervals_of_wf other s Hwo)) as Hdec.
  unfold gs_has in *. destruct (contains_gno (intervals_of other s) g); [tauto|].
  assert (~ in_ivs (intervals_of other s) g) by (rewrite <- Hdec; done). tauto.
Qed.
End operations.

(** ** Sets over distinct maps

    With different maps the sets are compared by SID. *)

Definition gs_has_sid (m : Sid_map) (gs : Gtid_set) (sid : rpl_sid) (gno : Z) : Prop :=
  gs_has gs (sid_to_sidno m sid) gno.

(** The set has room for SIDNOs of its map only. *)
Definition gs_fits (m : Sid_map) (gs : Gtid_set) : Prop :=
  (get_max_sidno gs <= sid_map_max_sidno m)%nat.

Section distinct.
Implicit Types (gs other : Gtid_set) (m om : Sid_map) (sidno : rpl_sidno).

Lemma gs_has_sid_prefix m m' gs sid gno :
  sid_map_wf m -> sid_map_wf m' -> gs_fits m gs ->
  _sidno_to_sid m `prefix_of` _sidno_to_sid m' ->
  gs_has_sid m' gs sid gno <-> gs_has_sid m gs sid gno.
Proof.
  intros Hm Hm' Hf Hp. unfold gs_has_sid, gs_has, gs_fits in *.
  destruct (prefix_sid_to_sidno m m' sid Hm Hm' Hp) as [->|[-> Hlt]]; [done|].
  rewrite intervals_of_out by lia. done.
Qed.

(** Registering a SID and adding identifiers at its SIDNO adds them by SID. *)
Lemma add_sid_step m gs sid s m1 gs2 (P : Z -> Prop) :
  sid_map_wf m -> uuid_wf sid -> gs_fits m gs -> add_sid m sid = (s, m1) ->
  get_max_sidno gs2 = max (get_max_sidno gs) s ->
  (forall s' g, gs_has gs2 s' g <-> gs_has gs s' g \/ s' = s /\ P g) ->
  sid_map_wf m1 /\ gs_fits m1 gs2 /\ _sidno_to_sid m `prefix_of` _sidno_to_sid m1 /\
  forall sid' g, gs_has_sid m1 gs2 sid' g <-> gs_has_sid m gs sid' g \/ sid' = sid /\ P g.
Proof.
  intros Hm Hsid Hf Ea Hmax Hhas.
  pose proof (add_sid_spec m sid Hm Hsid) as Ha. rewrite Ea in Ha.
  destruct Ha as (Hm1 & Hr1 & Hto & Hof & Hp).
  split_and!; try done.
  - unfold gs_fits in *. rewrite Hmax. apply prefix_length in Hp.
    unfold sid_map_max_sidno in *. lia.
  - intros sid' g. unfold gs_has_sid at 1. rewrite Hhas.
    fold (gs_has_sid m1 gs sid' g). rewrite (gs_has_sid_prefix m m1) by done.
    rewrite (sid_to_sidno_to_sid m1) by (done || lia). rewrite Hto.
    intuition (subst; done || lia).
Qed.

(** Reading a SID and then editing its list through an iterator so that
    nothing is lost: the pattern of the parser and of the decoder. *)
Lemma add_sid_edit m gs sid sidno m1 (r : Interval_iterator * Gtid_set_store) :
  sid_map_wf m -> gs_wf gs -> gs_fits m gs -> uuid_wf sid -> add_sid m sid = (sidno, m1) ->
  ivs_wf 0 (ivit_list (fst r)) ->
  (forall g, in_ivs (intervals_of (ensure_sidno gs sidno) sidno) g -> in_ivs (ivit_list (fst r)) g) ->
  balance (snd r) (length (ivit_list (fst r))) =
    balance (gs_store (ensure_sidno gs sidno))
      (length (intervals_of (ensure_sidno gs sidno) sidno)) ->
  let gs' := write_back (ensure_sidno gs sidno) sidno r in
  gs_wf gs' /\ sid_map_wf m1 /\ gs_fits m1 gs' /\ gs_nodes gs' = gs_nodes gs /\
  forall sid' g, gs_has_sid m1 gs' sid' g <->
    gs_has_sid m gs sid' g \/ sid' = sid /\ in_ivs (ivit_list (fst r)) g.
Proof.
  intros Hm Hwf Hf Hsid Ea Hr1 Hr2 Hr3. cbv zeta.
  destruct (ensure_sidno_becomes gs sidno Hwf) as (We & He & Ne).
  pose proof (add_sid_spec m sid Hm Hsid) as Ha. rewrite Ea in Ha.
  destruct (write_back_becomes (ensure_sidno gs sidno) sidno r (in_ivs (ivit_list (fst r))))
    as (W2 & H2 & N2); [done|rewrite ensure_sidno_max; lia|done|done|done|].
  destruct (add_sid_step m gs sid sidno m1 (write_back (ensure_sidno gs sidno) sidno r)
    (in_ivs (ivit_list (fst r)))) as (Wm1 & F1 & _ & H1); try done.
  { by rewrite write_back_max, ensure_sidno_max. }
  { intros s' g. rewrite H2. case_decide as Hc; [subst s'|rewrite He; tauto].
    split; [tauto|]. intros [Hg|[_ Hg]]; [|done]. by apply Hr2, He. }
  split_and!; [done..|congruence|done].
Qed.

(** What every way of reading identifiers into a set keeps. *)
Definition gs_grows m gs m' gs' : Prop :=
  gs_wf gs' /\ sid_map_wf m' /\ gs_fits m' gs' /\ gs_nodes gs' = gs_nodes gs /\
  forall sid g, gs_has_sid m gs sid g -> gs_has_sid m' gs' sid g.

Lemma gs_grows_refl m gs : sid_map_wf m -> gs_wf gs -> gs_fits m gs -> gs_grows m gs m gs.
Proof. intros ???. unfold gs_grows. by split_and!. Qed.

Lemma gs_grows_trans m gs m1 gs1 m2 gs2 :
  gs_grows m gs m1 gs1 -> gs_grows m1 gs1 m2 gs2 -> gs_grows m gs m2 gs2.
Proof.
  intros (_ & _ & _ & N1 & H1) (W2 & M2 & F2 & N2 & H2). unfold gs_grows.
  split_and!; [done..|congruence|auto].
Qed.

(** Reading a SID without intervals. *)
Lemma add_sid_ensure m gs sid sidno m1 :
  sid_map_wf m -> gs_wf gs -> gs_fits m gs -> uuid_wf sid -> add_sid m sid = (sidno, m1) ->
  gs_grows m gs m1 (ensure_sidno gs sidno).
Proof.
  intros Hm Hwf Hf Hsid Ea. destruct (ensure_sidno_becomes gs sidno Hwf) as (We & He & Ne).
  destruct (add_sid_step m gs sid sidno m1 (ensure_sidno gs sidno) (fun _ => False)
    Hm Hsid Hf Ea (ensure_sidno_max gs sidno)) as (Wm1 & F1 & _ & H1).
  { intros s' g. rewrite He. tauto. }
  unfold gs_grows. split_and!; [done..|]. intros sid' g Hin. apply H1. by left.
Qed.

Lemma add_distinct_loop_spec other om sidnos : forall gs m,
  gs_wf gs -> gs_wf other -> sid_map_wf m -> sid_map_wf om -> gs_fits m gs ->
  Forall (fun s => 1 <= s <= get_max_sidno other)%nat sidnos -> gs_fits om other ->
  exists gs' m', add_distinct_loop gs other m om sidnos = Some (gs', m') /\
    gs_wf gs' /\ sid_map_wf m' /\ gs_fits m' gs' /\ gs_nodes gs' = gs_nodes gs /\
    forall sid gno, gs_has_sid m' gs' sid gno <->
      gs_has_sid m gs sid gno \/
      exists s, s ∈ sidnos /\ sidno_to_sid om s = sid /\ gs_has other s gno.
Proof.
  induction sidnos as [|s0 sidnos IH]; intros gs m Hwf Hwo Hm Hom Hf Hr Hfo; simpl.
  { exists gs, m. split_and!; try done. intros sid gno. split; [tauto|].
    intros [?|(s & []%elem_of_nil & _)]; done. }
  apply Forall_cons in Hr as [Hs Hr]. rewrite (iterate_Some other s0 Hs). simpl.
  destruct (intervals_of other s0) as [|iv l] eqn:El.
  - destruct (IH gs m) as (gs' & m' & -> & H1 & H2 & H3 & H4 & H5); try done.
    exists gs', m'. split_and!; try done. intros sid gno. rewrite H5.
    split; [intros [?|(s & ? & ?)]; [tauto|right; exists s; rewrite elem_of_cons; tauto]|].
    intros [?|(s & [->|Hs']%elem_of_cons & E & Hin)]; [tauto| |right; by exists s].
    red in Hin. rewrite El in Hin. by apply in_ivs_nil in Hin.
  - destruct (add_sid m (sidno_to_sid om s0)) as [this_sidno m1] eqn:Ea.
    assert (Hsid : uuid_wf (sidno_to_sid om s0)).
    { apply sidno_to_sid_wf; [done|]. unfold gs_fits in *. lia. }
    pose proof (add_sid_spec m (sidno_to_sid om s0) Hm Hsid) as Ha. rewrite Ea in Ha.
    pose proof (ensure_sidno_becomes gs this_sidno Hwf) as (Hw1 & Hh1 & Hn1).
    rewrite <- El. destruct (add_gno_intervals_spec (ensure_sidno gs this_sidno) this_sidno
      (intervals_of other s0)) as (gs2 & -> & Hm2 & (Hw2 & Hh2 & Hn2));
      [done|rewrite ensure_sidno_max; lia|by apply intervals_of_wf|]. simpl.
    setoid_rewrite Hh1 in Hh2. rewrite ensure_sidno_max in Hm2.
    destruct (add_sid_step m gs _ _ m1 gs2 (gs_has other s0) Hm Hsid Hf Ea Hm2 Hh2)
      as (Hm1 & Hf2 & Hp & Hh).
    destruct (IH gs2 m1) as (gs' & m' & -> & H1 & H2 & H3 & H4 & H5); try done.
    exists gs', m'. split_and!; try done; [congruence|].
    intros sid gno. rewrite H5, Hh. split.
    + intros [[?|[-> Hin]]|(s & ? & ?)]; [tauto| |].
      * right. exists s0. rewrite elem_of_cons. tauto.
      * right. exists s. rewrite elem_of_cons. tauto.
    + intros [?|(s & [->|Hs']%elem_of_cons & E & Hin)]; [tauto|by left; right|].
      right. by exists s.
Qed.

(** A set that has room for all SIDs of its map keeps having it. *)
Lemma add_distinct_loop_max other om sidnos : forall gs m gs' m',
  add_distinct_loop gs other m om sidnos = Some (gs', m') ->
  get_max_sidno gs = sid_map_max_sidno m ->
  (forall sid n, _sid_to_sidno m !! sid = Some n -> (n <= sid_map_max_sidno m)%nat) ->
  get_max_sidno gs' = sid_map_max_sidno m'.
Proof.
  induction sidnos as [|s0 sidnos IH]; intros gs m gs' m'; simpl; [by intros [= <- <-]|].
  intros (l & _ & H)%bind_Some Hg Hm. destruct l as [|iv l]; [by apply IH in H|].
  unfold add_sid in H. destruct (_sid_to_sidno m !! _) as [n|] eqn:E.
  all: apply bind_Some in H as (gs2 & Ha & H); unfold add_gno_intervals in Ha;
    apply bind_Some in Ha as (l' & _ & Ha); apply bind_Some in Ha as (r & _ & [= <-]);
    apply IH in H; [done|rewrite write_back_max, ensure_sidno_max|]; try done.
  - apply Hm in E. lia.
  - unfold add_node, sid_map_max_sidno in *. simpl. rewrite length_app. simpl. lia.
  - intros sid n. unfold add_node, sid_map_max_sidno in *. simpl. rewrite length_app. simpl.
    rewrite lookup_insert_Some. intros [[_ <-]|[_ Hn]]; [lia|]. apply Hm in Hn. lia.
Qed.

(** Adding a set that numbers its SIDs by another map.  Afterwards the
    (SID, GNO) pairs are exactly the union, whatever the two numberings; new
    SIDs were entered into the map, invariants hold and no node is lost. *)
Lemma add_gtid_set_distinct_spec gs other m om :
  gs_wf gs -> gs_wf other -> sid_map_wf m -> sid_map_wf om -> gs_fits m gs -> gs_fits om other ->
  exists gs' m', add_gtid_set (Distinct_maps m om) gs other = Some (gs', Distinct_maps m' om) /\
    gs_wf gs' /\ sid_map_wf m' /\ gs_fits m' gs' /\ gs_nodes gs' = gs_nodes gs /\
    forall sid gno, gs_has_sid m' gs' sid gno <->
      gs_has_sid m gs sid gno \/ gs_has_sid om other sid gno.
Proof.
  intros Hwf Hwo Hm Hom Hf Hfo. unfold add_gtid_set.
  destruct (add_distinct_loop_spec other om (seq 1 (get_max_sidno other)) gs m)
    as (gs' & m' & -> & H1 & H2 & H3 & H4 & H5); try done.
  { apply Forall_forall. intros s. rewrite elem_of_seq. lia. }
  exists gs', m'. split_and!; try done. intros sid gno. rewrite H5.
  split; (intros [?|H]; [tauto|]); right.
  - destruct H as (s & Hs%elem_of_seq & <- & Hin). unfold gs_has_sid.
    replace (sid_to_sidno om (sidno_to_sid om s)) with s; [done|].
    symmetry. apply sid_to_sidno_to_sid; unfold gs_fits in *; try done; [lia|].
    split; [lia|done].
  - red in H. pose proof H as [Hr _]%gs_has_range; [|done].
    exists (sid_to_sidno om sid). split_and!; [apply elem_of_seq; lia| |done].
    by apply (sid_to_sidno_to_sid om (sid_to_sidno om sid) sid Hom ltac:(lia)).
Qed.

(** Removing over distinct maps is defined when the set has room for every
    SIDNO of its map; see [remove_gtid_set_distinct_overrun] for the rest. *)
Lemma remove_distinct_loop_spec other m om sidnos : forall gs,
  gs_wf gs -> gs_wf other -> sid_map_wf m -> sid_map_wf om ->
  get_max_sidno gs = sid_map_max_sidno m ->
  Forall (fun s => 1 <= s <= get_max_sidno other)%nat sidnos -> gs_fits om other ->
  exists gs', remove_distinct_loop gs other m om sidnos = Some gs' /\
    gs_wf gs' /\ get_max_sidno gs' = get_max_sidno gs /\ gs_nodes gs' = gs_nodes gs /\
    forall sid gno, gs_has_sid m gs' sid gno <->
      gs_has_sid m gs sid gno /\
      ~ exists s, s ∈ sidnos /\ sidno_to_sid om s = sid /\ gs_has other s gno.
Proof.
  induction sidnos as [|s0 sidnos IH]; intros gs Hwf Hwo Hm Hom Hf Hr Hfo; simpl.
  { exists gs. split_and!; try done. intros sid gno. split; [|tauto].
    intros ?. split; [done|]. by intros (s & []%elem_of_nil & _). }
  apply Forall_cons in Hr as [Hs Hr]. rewrite (iterate_Some other s0 Hs). simpl.
  assert (Hsplit : forall sid gno,
    (exists s, s ∈ s0 :: sidnos /\ sidno_to_sid om s = sid /\ gs_has other s gno) <->
    (sidno_to_sid om s0 = sid /\ gs_has other s0 gno) \/
    (exists s, s ∈ sidnos /\ sidno_to_sid om s = sid /\ gs_has other s gno)).
  { intros sid gno. split.
    - intros (s & [->|Hs']%elem_of_cons & ?); [by left|right; by exists s].
    - intros [?|(s & ? & ?)]; [exists s0|exists s]; (split; [|done]); [by left|by right]. }
  destruct (intervals_of other s0) as [|iv l] eqn:El.
  - destruct (IH gs) as (gs' & -> & H1 & H0 & H2 & H3); try done.
    exists gs'. split_and!; try done. intros sid gno. rewrite H3, Hsplit.
    unfold gs_has at 2. rewrite El, in_ivs_nil. tauto.
  - rewrite <- El.
    destruct (sid_to_sidno m (sidno_to_sid om s0)) as [|i] eqn:Es.
    + simpl. destruct (IH gs) as (gs' & -> & H1 & H0 & H2 & H3); try done.
      exists gs'. split_and!; try done. intros sid gno. rewrite H3, Hsplit.
      split; [|tauto]. intros [Ha Hb]. split; [done|]. intros [[<- _]|?]; [|tauto].
      unfold gs_has_sid in Ha. rewrite Es in Ha. by apply in_ivs_nil in Ha.
    + rewrite <- Es. pose proof (sid_to_sidno_le m (sidno_to_sid om s0) Hm).
      destruct (remove_gno_intervals_spec gs (sid_to_sidno m (sidno_to_sid om s0))
        (intervals_of other s0)) as (gs2 & E2 & Hm2 & (Hw2 & Hh2 & Hn2));
        [done|rewrite Hf; lia|by apply intervals_of_wf|].
      rewrite E2. simpl.
      destruct (IH gs2) as (gs' & -> & H1 & H0 & H2 & H3); try done; [congruence|].
      exists gs'. split_and!; try done; [congruence..|].
      intros sid gno. rewrite H3, Hsplit. unfold gs_has_sid. rewrite Hh2.
      fold (gs_has other s0 gno).
      assert (Hinj : sid_to_sidno m sid = sid_to_sidno m (sidno_to_sid om s0) <->
                     sidno_to_sid om s0 = sid).
      { split; [|by intros ->]. intros E.
        apply (sid_to_sidno_to_sid m) in E as [_ E]; [|done|lia].
        rewrite <- E. symmetry.
        by apply (sid_to_sidno_to_sid m (sid_to_sidno m (sidno_to_sid om s0)) _ Hm ltac:(lia)). }
      rewrite Hinj. tauto.
Qed.
End distinct.

(** ** Queries *)

Section queries.
Implicit Types (gs other super : Gtid_set) (m om : Sid_map) (sidno : rpl_sidno).

Lemma contains_gtid_spec gs sidno gno :
  gs_wf gs -> contains_gtid gs sidno gno = true <-> gs_has gs sidno gno.
Proof.
  intros Hwf. unfold contains_gtid, gs_has. case_decide as Hd.
  - rewrite intervals_of_out, in_ivs_nil by done. done.
  - eapply contains_gno_spec, intervals_of_wf, Hwf.
Qed.

Lemma ivs_nonempty_in lo l : ivs_wf lo l -> l <> [] -> exists g, in_ivs l g.
Proof.
  destruct l as [|iv l]; [done|]. intros (_ & H & _) _. exists (iv_start iv).
  left. red. lia.
Qed.

Lemma contains_sidno_spec gs sidno :
  gs_wf gs -> contains_sidno gs sidno = true <-> exists gno, gs_has gs sidno gno.
Proof.
  intros Hwf. unfold contains_sidno, gs_has. case_decide as Hd.
  { rewrite intervals_of_out by done. split; [done|]. by intros (g & Hg%in_ivs_nil). }
  pose proof (intervals_of_wf gs sidno Hwf) as Hl.
  destruct (intervals_of gs sidno) as [|iv l] eqn:E.
  - split; [done|]. by intros (g & Hg%in_ivs_nil).
  - split; [intros _|done]. by eapply ivs_nonempty_in.
Qed.

Lemma contains_sidno_intervals gs sidno :
  contains_sidno gs sidno = match intervals_of gs sidno with [] => false | _ => true end.
Proof.
  unfold contains_sidno. case_decide; [|done]. by rewrite intervals_of_out.
Qed.

Lemma is_interval_subset_spec (sub super : list Interval) :
  ivs_wf 0 sub -> ivs_wf 0 super -> sub <> [] ->
  exists b, is_interval_subset sub super = Some b /\
    (b = true <-> forall g, in_ivs sub g -> in_ivs super g).
Proof.
  intros Hs Hsup Hne. destruct super as [|x super].
  - exists false. split; [done|]. split; [done|]. intros H.
    destruct (ivs_nonempty_in 0 sub Hs Hne) as (g & Hg). by apply H, in_ivs_nil in Hg.
  - destruct sub as [|y sub]; [done|]. eexists. split; [done|].
    by apply (is_interval_subset_loop_spec 0 _ 0).
Qed.

Lemma is_interval_intersection_spec l1 l2 :
  ivs_wf 0 l1 -> ivs_wf 0 l2 -> l1 <> [] ->
  exists b, is_interval_intersection_nonempty l1 l2 = Some b /\
    (b = true <-> exists g, in_ivs l1 g /\ in_ivs l2 g).
Proof.
  intros H1 H2 Hne. destruct l2 as [|x l2].
  - exists false. split; [done|]. split; [done|]. by intros (g & _ & Hg%in_ivs_nil).
  - destruct l1 as [|y l1]; [done|]. eexists. split; [done|].
    by apply (is_interval_intersection_loop_spec 0 _ 0).
Qed.

(** The loop over the lists of this set from SIDNO [k] on. *)
Lemma is_subset_loop_spec maps super lists : forall k,
  Forall (ivs_wf 0) lists -> gs_wf super ->
  exists b, is_subset_loop maps super k lists = Some b /\
    (b = true <-> forall i l g, lists !! i = Some l -> in_ivs l g ->
       gs_has super (translate_sidno maps (k + i)) g).
Proof.
  induction lists as [|l lists IH]; intros k Hl Hsup; simpl.
  { exists true. split; [done|]. split; [|done]. by intros _ [] l g. }
  apply Forall_cons in Hl as [Hl Hls].
  assert (Hcons : (forall i l' g, (l :: lists) !! i = Some l' -> in_ivs l' g ->
                     gs_has super (translate_sidno maps (k + i)) g) <->
    (forall g, in_ivs l g -> gs_has super (translate_sidno maps k) g) /\
    (forall i l' g, lists !! i = Some l' -> in_ivs l' g ->
                     gs_has super (translate_sidno maps (S k + i)) g)).
  { split.
    - intros H. split; [intros g Hg|intros i l' g Hi Hg].
      + specialize (H 0%nat l g eq_refl Hg). by rewrite Nat.add_0_r in H.
      + specialize (H (S i) l' g Hi Hg). by rewrite Nat.add_succ_r in H.
    - intros [H1 H2] [|i] l' g Hi Hg; simpl in Hi.
      + rewrite Nat.add_0_r. simplify_eq. auto.
      + rewrite Nat.add_succ_r. by eapply H2. }
  destruct (IH (S k) Hls Hsup) as (b & Hb & Hbs).
  destruct l as [|iv l]; [|case_decide as H0; [|case_decide as H1]].
  - exists b. split; [done|]. rewrite Hbs, Hcons. split; [|tauto].
    intros ?. split; [|done]. by intros g Hg%in_ivs_nil.
  - exists false. split; [done|]. split; [done|]. rewrite Hcons, H0. intros [H _].
    destruct (ivs_nonempty_in _ _ Hl) as (g & Hg); [done|].
    by apply H, in_ivs_nil in Hg.
  - exists false. split; [done|]. split; [done|]. rewrite Hcons. intros [H _].
    destruct (ivs_nonempty_in _ _ Hl) as (g & Hg); [done|].
    apply H, gs_has_range in Hg as [Hg _]; [lia|done].
  - destruct (is_interval_subset_spec (iv :: l) (intervals_of super (translate_sidno maps k)))
      as (c & -> & Hc); [done|by apply intervals_of_wf|done|]. simpl.
    fold (gs_has super (translate_sidno maps k)) in Hc.
    destruct c; [exists b; split; [done|]; rewrite Hcons, Hbs; tauto|].
    exists false. split; [done|]. split; [done|]. intros [H _]%Hcons. by apply Hc in H.
Qed.

Lemma is_subset_spec maps gs super :
  gs_wf gs -> gs_wf super ->
  exists b, is_subset maps gs super = Some b /\
    (b = true <-> forall sidno g, gs_has gs sidno g -> gs_has super (translate_sidno maps sidno) g).
Proof.
  intros Hwf Hsup. destruct (is_subset_loop_spec maps super (m_intervals gs) 1 Hwf Hsup)
    as (b & E & Hb). exists b. split; [done|]. rewrite Hb. split.
  - intros H [|i] g Hg; [by apply in_ivs_nil in Hg|].
    destruct (gs_has_range gs (S i) g Hwf Hg) as [Hr _].
    apply (H i (intervals_of gs (S i)) g); [|done].
    by rewrite <- (iterate_Some gs (S i) Hr).
  - intros H i l g Hi Hg. apply (H (S i)). unfold gs_has. simpl.
    by rewrite (list_lookup_total_correct _ _ _ Hi).
Qed.

Lemma is_intersection_loop_spec maps other lists : forall k,
  Forall (ivs_wf 0) lists -> gs_wf other ->
  exists b, is_intersection_loop maps other k lists = Some b /\
    (b = true <-> exists i l g, lists !! i = Some l /\ in_ivs l g /\
       gs_has other (translate_sidno maps (k + i)) g).
Proof.
  induction lists as [|l lists IH]; intros k Hl Hsup; simpl.
  { exists false. split; [done|]. split; [done|]. by intros (? & ? & ? & ? & _). }
  apply Forall_cons in Hl as [Hl Hls].
  assert (Hcons : (exists i l' g, (l :: lists) !! i = Some l' /\ in_ivs l' g /\
                     gs_has other (translate_sidno maps (k + i)) g) <->
    (exists g, in_ivs l g /\ gs_has other (translate_sidno maps k) g) \/
    (exists i l' g, lists !! i = Some l' /\ in_ivs l' g /\
                     gs_has other (translate_sidno maps (S k + i)) g)).
  { split.
    - intros ([|i] & l' & g & Hi & Hg & H); simpl in Hi.
      + left. exists g. rewrite Nat.add_0_r in H. by simplify_eq.
      + right. exists i, l', g. by rewrite Nat.add_succ_r in H.
    - intros [(g & H1 & H2)|(i & l' & g & H1 & H2 & H3)].
      + exists 0%nat, l, g. by rewrite Nat.add_0_r.
      + exists (S i), l', g. by rewrite Nat.add_succ_r. }
  destruct (IH (S k) Hls Hsup) as (b & Hb & Hbs).
  assert (Hskip : (forall g, in_ivs l g -> ~ gs_has other (translate_sidno maps k) g) ->
    b = true <-> exists i l' g, (l :: lists) !! i = Some l' /\ in_ivs l' g /\
                     gs_has other (translate_sidno maps (k + i)) g).
  { intros H. rewrite Hbs, Hcons. split; [tauto|]. intros [(g & H1 & H2)|?]; [|done].
    by apply H in H2. }
  destruct l as [|iv l]; [|case_decide as H0; [|case_decide as H1]].
  - exists b. split; [done|]. apply Hskip. by intros g Hg%in_ivs_nil.
  - exists b. split; [done|]. apply Hskip. rewrite H0. intros g _ Hg.
    by apply in_ivs_nil in Hg.
  - exists b. split; [done|]. apply Hskip. intros g _ Hg.
    apply gs_has_range in Hg as [Hg _]; [lia|done].
  - destruct (is_interval_intersection_spec (iv :: l)
      (intervals_of other (translate_sidno maps k)))
      as (c & -> & Hc); [done|by apply intervals_of_wf|done|]. simpl.
    fold (gs_has other (translate_sidno maps k)) in Hc.
    destruct c; [exists true; split; [done|]; rewrite Hcons; tauto|].
    exists b. split; [done|]. apply Hskip. intros g H H'.
    enough (false = true) by done. apply Hc. by exists g.
Qed.

Lemma is_intersection_nonempty_spec maps gs other :
  gs_wf gs -> gs_wf other ->
  exists b, is_intersection_nonempty maps gs other = Some b /\
    (b = true <-> exists sidno g, gs_has gs sidno g /\ gs_has other (translate_sidno maps sidno) g).
Proof.
  intros Hwf Hsup. destruct (is_intersection_loop_spec maps other (m_intervals gs) 1 Hwf Hsup)
    as (b & E & Hb). exists b. split; [done|]. rewrite Hb. split.
  - intros (i & l & g & Hi & Hg & H). exists (S i), g. split; [|done]. unfold gs_has. simpl.
    by rewrite (list_lookup_total_correct _ _ _ Hi).
  - intros ([|i] & g & Hg & H); [by apply in_ivs_nil in Hg|].
    destruct (gs_has_range gs (S i) g Hwf Hg) as [Hr _].
    exists i, (intervals_of gs (S i)), g. split; [|done].
    by rewrite <- (iterate_Some gs (S i) Hr).
Qed.
End queries.

(** ** Equality *)

Section equality.
Implicit Types (gs other : Gtid_set) (m om : Sid_map) (sidno : rpl_sidno).

Lemma sidno_equals_spec gs sidno other other_sidno :
  gs_wf gs -> gs_wf other ->
  sidno_equals gs sidno other other_sidno = true <->
  forall g, gs_has gs sidno g <-> gs_has other other_sidno g.
Proof.
  intros Hwf Hwo. unfold sidno_equals, gs_has. rewrite ivs_equals_spec. split; [by intros ->|].
  apply (ivs_wf_ext 0); by apply intervals_of_wf.
Qed.

Lemma equals_tail_empty_spec gs common :
  gs_wf gs ->
  equals_tail_empty gs common = true <->
  forall sidno g, (common < sidno < get_max_sidno gs)%nat -> ~ gs_has gs sidno g.
Proof.
  intros Hwf. unfold equals_tail_empty. rewrite forallb_forall. split.
  - intros H sidno g Hs Hg. specialize (H sidno). rewrite in_seq in H.
    apply negb_true_iff in H; [|lia].
    rewrite (proj2 (contains_sidno_spec gs sidno Hwf)) in H; [done|by exists g].
  - intros H sidno Hs%in_seq. apply negb_true_iff.
    destruct (contains_sidno gs sidno) eqn:E; [|done].
    apply contains_sidno_spec in E as (g & Hg); [|done].
    exfalso. apply (H sidno g); [lia|done].
Qed.

(** What [equals] decides for two sets of one map: equality of all SIDNOs
    except the last one of the longer array, which is never looked at when the
    other array is shorter. *)
Theorem equals_same_spec gs other :
  gs_wf gs -> gs_wf other ->
  Gtid_set_equals Same_maps gs other = true <->
  forall sidno g,
    (sidno < max (get_max_sidno gs) (get_max_sidno other) \/
     sidno <= min (get_max_sidno gs) (get_max_sidno other))%nat ->
    gs_has gs sidno g <-> gs_has other sidno g.
Proof.
  intros Hwf Hwo. unfold Gtid_set_equals.
  set (n := get_max_sidno gs) in *. set (n' := get_max_sidno other) in *.
  assert (Hcommon : forallb (fun sidno => sidno_equals gs sidno other sidno)
                      (seq 1 (min n n')) = true <->
            forall sidno g, (sidno <= min n n')%nat ->
              gs_has gs sidno g <-> gs_has other sidno g).
  { rewrite forallb_forall. split.
    - intros H [|i] g Hs; [done|]. revert g. apply sidno_equals_spec; [done..|].
      apply H, in_seq. lia.
    - intros H sidno Hs%in_seq. apply sidno_equals_spec; [done..|]. intros g. apply H. lia. }
  assert (Hno : forall gs' sidno g, gs_wf gs' -> (get_max_sidno gs' < sidno)%nat ->
                  gs_has gs' sidno g <-> False).
  { intros gs' sidno g Hw Hlt. split; [|done]. intros Hg.
    apply gs_has_range in Hg as [? _]; [lia|done]. }
  case_decide as H1; [|case_decide as H2].
  - pose proof (equals_tail_empty_spec gs (min n n') Hwf) as Ht. fold n in Ht.
    destruct (equals_tail_empty gs (min n n')).
    + rewrite Hcommon. split.
      * intros H sidno g Hs. destruct (decide (sidno <= n')%nat); [apply H; lia|].
        rewrite (Hno other) by (done || lia). split; [|done].
        apply (proj1 Ht eq_refl). lia.
      * intros H sidno g Hs. apply H. lia.
    + split; [done|]. intros H. apply Ht. intros sidno g Hs Hg.
      apply H in Hg; [|lia]. apply (Hno other) in Hg; [done..|lia].
  - pose proof (equals_tail_empty_spec other (min n n') Hwo) as Ht. fold n' in Ht.
    destruct (equals_tail_empty other (min n n')).
    + rewrite Hcommon. split.
      * intros H sidno g Hs. destruct (decide (sidno <= n)%nat); [apply H; lia|].
        rewrite (Hno gs) by (done || lia). split; [done|].
        apply (proj1 Ht eq_refl). lia.
      * intros H sidno g Hs. apply H. lia.
    + split; [done|]. intros H. apply Ht. intros sidno g Hs Hg.
      apply H in Hg; [|lia]. apply (Hno gs) in Hg; [done..|lia].
  - rewrite Hcommon. split; intros H sidno g Hs; apply H; lia.
Qed.

(** The identifiers of [gs] at the SIDNOs of a list, by SID. *)
Definition has_among m gs (sorted : list rpl_sidno) (sid : rpl_sid) (g : Z) : Prop :=
  exists sidno, sidno ∈ sorted /\ sidno_to_sid m sidno = sid /\ gs_has gs sidno g.

Lemma has_among_cons m gs x sorted sid g :
  has_among m gs (x :: sorted) sid g <->
  (sidno_to_sid m x = sid /\ gs_has gs x g) \/ has_among m gs sorted sid g.
Proof.
  split.
  - intros (s & [->|Hs]%elem_of_cons & H); [by left|right; by exists s].
  - intros [H|(s & Hs & H)]; [exists x|exists s]; (split; [|done]); [by left|by right].
Qed.

Lemma equals_skip_has m gs sorted sid g :
  gs_wf gs -> has_among m gs (equals_skip gs sorted) sid g <-> has_among m gs sorted sid g.
Proof.
  intros Hwf. induction sorted as [|x sorted IH]; simpl; [done|].
  destruct (contains_sidno gs x) eqn:E; [done|]. rewrite IH, has_among_cons. split; [tauto|].
  intros [[_ Hx]|?]; [|done]. exfalso.
  by rewrite (proj2 (contains_sidno_spec gs x Hwf) (ex_intro _ g Hx)) in E.
Qed.

Lemma equals_skip_suffix gs sorted : exists pre, sorted = pre ++ equals_skip gs sorted.
Proof.
  induction sorted as [|x sorted [pre IH]]; simpl; [by exists []|].
  destruct (contains_sidno gs x); [by exists []|]. exists (x :: pre). simpl. by f_equal.
Qed.

Lemma equals_skip_head gs sorted x r :
  equals_skip gs sorted = x :: r -> contains_sidno gs x = true.
Proof.
  induction sorted as [|y sorted IH]; simpl; [done|].
  destruct (contains_sidno gs y) eqn:E; [by intros [= <- <-]|done].
Qed.

(** Lists of SIDNOs in strictly increasing order of their SIDs. *)
Definition sid_sorted m (sorted : list rpl_sidno) : Prop :=
  StronglySorted (sid_lt (_sidno_to_sid m)) sorted /\
  Forall (fun s => 1 <= s <= sid_map_max_sidno m)%nat sorted.

Lemma sid_sorted_lt m x sorted sid g gs :
  sid_map_wf m -> sid_sorted m (x :: sorted) -> has_among m gs sorted sid g ->
  length sid = length (sidno_to_sid m x) /\ memcmp (sidno_to_sid m x) sid < 0.
Proof.
  intros Hm [[Hs Hx]%StronglySorted_inv Hr] (s & Hin & <- & _).
  rewrite Forall_forall in Hx. apply Forall_cons in Hr as [Hrx Hr].
  rewrite Forall_forall in Hr. split; [|by apply Hx].
  destruct (sidno_to_sid_wf m s Hm (Hr s Hin)) as [-> _].
  by destruct (sidno_to_sid_wf m x Hm Hrx) as [-> _].
Qed.

Lemma sid_sorted_tail m pre sorted : sid_sorted m (pre ++ sorted) -> sid_sorted m sorted.
Proof.
  intros [H1 H2]. split; [by eapply StronglySorted_app_1_r|]. by apply Forall_app in H2 as [_ H2].
Qed.

(** If both enumerations are nonempty and start at different SIDs, or at one
    SID with different intervals, the sets differ. *)
Lemma has_among_heads m om gs other x s1 y s2 :
  sid_map_wf m -> sid_map_wf om -> gs_wf gs -> gs_wf other ->
  sid_sorted m (x :: s1) -> sid_sorted om (y :: s2) ->
  contains_sidno gs x = true -> contains_sidno other y = true ->
  (forall sid g, has_among m gs (x :: s1) sid g <-> has_among om other (y :: s2) sid g) ->
  sidno_to_sid m x = sidno_to_sid om y /\
  (forall g, gs_has gs x g <-> gs_has other y g) /\
  (forall sid g, has_among m gs s1 sid g <-> has_among om other s2 sid g).
Proof.
  intros Hm Hom Hwf Hwo Hs1 Hs2 (gx & Hx)%contains_sidno_spec (gy & Hy)%contains_sidno_spec H;
    [|done..].
  assert (Hne : forall sid' g, has_among m gs s1 sid' g -> sidno_to_sid m x <> sid').
  { intros sid' g Hin <-. destruct (sid_sorted_lt _ _ _ _ _ _ Hm Hs1 Hin) as [Hl Hlt].
    rewrite (proj2 (memcmp_eq _ _ (eq_sym Hl)) eq_refl) in Hlt. lia. }
  assert (Hne' : forall sid' g, has_among om other s2 sid' g -> sidno_to_sid om y <> sid').
  { intros sid' g Hin <-. destruct (sid_sorted_lt _ _ _ _ _ _ Hom Hs2 Hin) as [Hl Hlt].
    rewrite (proj2 (memcmp_eq _ _ (eq_sym Hl)) eq_refl) in Hlt. lia. }
  setoid_rewrite has_among_cons in H.
  assert (E : sidno_to_sid m x = sidno_to_sid om y).
  { destruct (proj1 (H (sidno_to_sid m x) gx)) as [[? _]|H1]; [by left|done|].
    destruct (proj2 (H (sidno_to_sid om y) gy)) as [[? _]|H2]; [by left|done|].
    destruct (sid_sorted_lt _ _ _ _ _ _ Hom Hs2 H1) as [Hl1 Hlt1].
    destruct (sid_sorted_lt _ _ _ _ _ _ Hm Hs1 H2) as [Hl2 Hlt2].
    rewrite (memcmp_antisym _ _ Hl1) in Hlt1. lia. }
  split; [done|]. split.
  - intros g. specialize (H (sidno_to_sid m x) g).
    specialize (Hne (sidno_to_sid m x) g). specialize (Hne' (sidno_to_sid m x) g).
    rewrite <- E in H, Hne'. tauto.
  - intros sid' g. specialize (H sid' g). specialize (Hne sid' g). specialize (Hne' sid' g).
    rewrite <- E in H, Hne'. tauto.
Qed.

Lemma equals_distinct_loop_spec m om gs other s1 : forall s2,
  sid_map_wf m -> sid_map_wf om -> gs_wf gs -> gs_wf other ->
  sid_sorted m s1 -> sid_sorted om s2 ->
  equals_distinct_loop gs other m om s1 s2 = true <->
  forall sid g, has_among m gs s1 sid g <-> has_among om other s2 sid g.
Proof.
  induction s1 as [|x s1 IH]; intros s2 Hm Hom Hwf Hwo Hs1 Hs2; simpl.
  - setoid_rewrite <- (equals_skip_has om other s2); [|done..].
    destruct (equals_skip other s2) as [|y r] eqn:E.
    + split; [|done]. intros _ sid g. split; intros (? & []%elem_of_nil & _).
    + split; [done|]. intros H. apply equals_skip_head in E.
      apply contains_sidno_spec in E as (g & Hg); [|done].
      destruct (proj2 (H (sidno_to_sid om y) g)) as (? & []%elem_of_nil & _).
      apply has_among_cons. by left.
  - destruct (contains_sidno gs x) eqn:Ex.
    + setoid_rewrite <- (equals_skip_has om other s2); [|done..].
      destruct (equals_skip_suffix other s2) as [pre Hpre].
      destruct (equals_skip other s2) as [|y r] eqn:E.
      * split; [done|]. intros H. apply contains_sidno_spec in Ex as (g & Hg); [|done].
        destruct (proj1 (H (sidno_to_sid m x) g)) as (? & []%elem_of_nil & _).
        apply has_among_cons. by left.
      * apply equals_skip_head in E. rewrite Hpre in Hs2. apply sid_sorted_tail in Hs2.
        pose proof (has_among_heads m om gs other x s1 y r Hm Hom Hwf Hwo Hs1 Hs2 Ex E) as Hh.
        assert (Hl : length (sidno_to_sid m x) = length (sidno_to_sid om y)).
        { destruct Hs1 as [_ [Hx _]%Forall_cons], Hs2 as [_ [Hy _]%Forall_cons].
          destruct (sidno_to_sid_wf m x Hm Hx) as [-> _].
          by destruct (sidno_to_sid_wf om y Hom Hy) as [-> _]. }
        pose proof (memcmp_eq _ _ Hl) as Hc.
        destruct (Z.eqb_spec (memcmp (sidno_to_sid m x) (sidno_to_sid om y)) 0) as [E0|E0];
          simpl; [|split; [done|]; intros [? _]%Hh; tauto].
        apply Hc in E0.
        pose proof (sidno_equals_spec gs x other y Hwf Hwo) as Heq.
        destruct (sidno_equals gs x other y); simpl;
          [|split; [done|]; intros (_ & H & _)%Hh; by apply Heq].
        rewrite IH; try done;
          [|by eapply (sid_sorted_tail _ [x])|by eapply (sid_sorted_tail _ [y])].
        split; [|by intros (_ & _ & H)%Hh].
        intros H sid g. rewrite !has_among_cons, H, E0, (proj1 Heq eq_refl g). done.
    + rewrite IH; try done; [|by eapply (sid_sorted_tail _ [x])].
      assert (Hx : forall sid g, has_among m gs (x :: s1) sid g <-> has_among m gs s1 sid g).
      { intros sid g. rewrite has_among_cons. split; [|tauto]. intros [[_ Hx]|?]; [|done].
        by rewrite (proj2 (contains_sidno_spec gs x Hwf) (ex_intro _ g Hx)) in Ex. }
      split; intros H sid g; [by rewrite Hx|by rewrite <- Hx].
Qed.

Lemma has_among_sorted m gs sid g :
  sid_map_wf m -> gs_wf gs -> gs_fits m gs ->
  has_among m gs (_sorted m) sid g <-> gs_has_sid m gs sid g.
Proof.
  intros Hm Hwf Hf. unfold has_among, gs_has_sid. split.
  - intros (s & Hs & E & Hg). rewrite (swf_perm m Hm), elem_of_seq in Hs.
    replace (sid_to_sidno m sid) with s; [done|].
    symmetry. apply sid_to_sidno_to_sid; [done|lia|]. unfold sid_map_max_sidno. split; [lia|done].
  - intros Hg. pose proof Hg as [Hr _]%gs_has_range; [|done].
    exists (sid_to_sidno m sid). rewrite (swf_perm m Hm), elem_of_seq.
    pose proof (sid_to_sidno_le m sid Hm). unfold sid_map_max_sidno in *.
    split_and!; [lia|lia| |done].
    by apply (sid_to_sidno_to_sid m (sid_to_sidno m sid) sid Hm ltac:(lia)).
Qed.

Lemma sid_sorted_map m : sid_map_wf m -> sid_sorted m (_sorted m).
Proof.
  intros Hm. split; [apply Hm|]. apply Forall_forall. intros s.
  rewrite (swf_perm m Hm), elem_of_seq. unfold sid_map_max_sidno. lia.
Qed.

(** For sets of different maps, [equals] decides equality of the sets of
    (SID, GNO) pairs: walking both maps in UUID order visits the SIDs the two
    sets contain pairwise. *)
Theorem equals_distinct_spec m om gs other :
  sid_map_wf m -> sid_map_wf om -> gs_wf gs -> gs_wf other -> gs_fits m gs -> gs_fits om other ->
  Gtid_set_equals (Distinct_maps m om) gs other = true <->
  forall sid g, gs_has_sid m gs sid g <-> gs_has_sid om other sid g.
Proof.
  intros Hm Hom Hwf Hwo Hf Hfo. unfold Gtid_set_equals.
  rewrite equals_distinct_loop_spec by (done || by apply sid_sorted_map).
  split; intros H sid g; specialize (H sid g);
    rewrite !has_among_sorted in * by done; done.
Qed.
End equality.

(** ** Sequences of operations

    The public operations that edit a set, run one after the other.  Their
    abstract counterpart is the set of pairs they leave. *)

Inductive gtid_op :=
| Op_ensure_sidno (sidno : rpl_sidno)
| Op_add_gtid (sidno : rpl_sidno) (gno : Z)
| Op_remove_gtid (sidno : rpl_sidno) (gno : Z)
| Op_add_gtid_set (other : Gtid_set)
| Op_remove_gtid_set (other : Gtid_set)
| Op_clear.

Definition run_op (gs : Gtid_set) (op : gtid_op) : option Gtid_set :=
  match op with
  | Op_ensure_sidno sidno => Some (ensure_sidno gs sidno)
  | Op_add_gtid sidno gno => _add_gtid gs sidno gno
  | Op_remove_gtid sidno gno => _remove_gtid gs sidno gno
  | Op_add_gtid_set other => '(gs, _) ← add_gtid_set Same_maps gs other; Some gs
  | Op_remove_gtid_set other => remove_gtid_set Same_maps gs other
  | Op_clear => Some (Gtid_set_clear gs)
  end.

Fixpoint run_ops (gs : Gtid_set) (ops : list gtid_op) : option Gtid_set :=
  match ops with
  | [] => Some gs
  | op :: r => gs ← run_op gs op; run_ops gs r
  end.

(** The size of the SIDNO array an operation leaves. *)
Definition op_max_sidno (n : rpl_sidno) (op : gtid_op) : rpl_sidno :=
  match op with
  | Op_ensure_sidno sidno => max n sidno
  | Op_add_gtid_set other => max n (get_max_sidno other)
  | _ => n
  end.

(** What the callers must respect: a group number in range, of a SIDNO the
    array has room for when it is added. *)
Definition op_ok (n : rpl_sidno) (op : gtid_op) : Prop :=
  match op with
  | Op_ensure_sidno _ | Op_clear => True
  | Op_add_gtid sidno gno => (1 <= sidno <= n)%nat /\ 0 < gno < GNO_END
  | Op_remove_gtid sidno gno => (1 <= sidno)%nat /\ 0 < gno
  | Op_add_gtid_set other | Op_remove_gtid_set other => gs_wf other
  end.

Fixpoint ops_ok (n : rpl_sidno) (ops : list gtid_op) : Prop :=
  match ops with
  | [] => True
  | op :: r => op_ok n op /\ ops_ok (op_max_sidno n op) r
  end.

Definition op_meaning (P : rpl_sidno -> Z -> Prop) (op : gtid_op) : rpl_sidno -> Z -> Prop :=
  match op with
  | Op_ensure_sidno _ => P
  | Op_add_gtid sidno gno => fun s g => P s g \/ s = sidno /\ g = gno
  | Op_remove_gtid sidno gno => fun s g => P s g /\ ~ (s = sidno /\ g = gno)
  | Op_add_gtid_set other => fun s g => P s g \/ gs_has other s g
  | Op_remove_gtid_set other => fun s g => P s g /\ ~ gs_has other s g
  | Op_clear => fun _ _ => False
  end.

Section ops.
Implicit Types (gs : Gtid_set) (op : gtid_op).

Lemma sum_list_with_concat (ls : list (list Interval)) :
  length (concat ls) = sum_list_with length ls.
Proof. induction ls; simpl; [done|]. rewrite length_app. lia. Qed.

Lemma Gtid_set_clear_becomes gs :
  gs_becomes gs (Gtid_set_clear gs) (fun _ _ => False) /\
  get_max_sidno (Gtid_set_clear gs) = get_max_sidno gs.
Proof.
  split; [|apply length_replicate]. split_and!.
  - by apply Forall_replicate.
  - intros s g. unfold gs_has. split; [|done]. destruct s as [|i]; simpl; [by intros ?%in_ivs_nil|].
    rewrite list_lookup_total_alt. destruct (replicate _ _ !! i) eqn:E; simpl; [|by intros ?%in_ivs_nil].
    apply lookup_replicate in E as [-> _]. by intros ?%in_ivs_nil.
  - unfold gs_nodes, balance, Gtid_set_clear. simpl. rewrite length_app, sum_list_with_concat.
    assert (E : sum_list_with length (replicate (get_max_sidno gs) (@nil Interval)) = 0%nat)
      by (induction (get_max_sidno gs); done).
    rewrite E. lia.
Qed.

Lemma run_op_spec gs op :
  gs_wf gs -> op_ok (get_max_sidno gs) op ->
  exists gs', run_op gs op = Some gs' /\
    get_max_sidno gs' = op_max_sidno (get_max_sidno gs) op /\
    gs_becomes gs gs' (op_meaning (gs_has gs) op).
Proof.
  intros Hwf Hok. destruct op; simpl in *.
  - exists (ensure_sidno gs sidno). split_and!; [done|apply ensure_sidno_max|].
    by apply ensure_sidno_becomes.
  - destruct Hok. by apply _add_gtid_spec.
  - destruct Hok. by apply _remove_gtid_spec.
  - destruct (add_gtid_set_same_spec gs other Hwf Hok) as (gs' & -> & Hm & Hb). by exists gs'.
  - by apply remove_gtid_set_same_spec.
  - exists (Gtid_set_clear gs). by destruct (Gtid_set_clear_becomes gs).
Qed.

Lemma op_meaning_ext (P Q : rpl_sidno -> Z -> Prop) op :
  (forall s g, P s g <-> Q s g) -> forall s g, op_meaning P op s g <-> op_meaning Q op s g.
Proof. intros H s g. destruct op; simpl; rewrite ?H; done. Qed.

Lemma ops_meaning_ext ops : forall P Q : rpl_sidno -> Z -> Prop,
  (forall s g, P s g <-> Q s g) ->
  forall s g, foldl op_meaning P ops s g <-> foldl op_meaning Q ops s g.
Proof.
  induction ops as [|op ops IH]; intros P Q H; simpl; [done|].
  apply IH. by apply op_meaning_ext.
Qed.

Lemma run_ops_spec ops : forall gs,
  gs_wf gs -> ops_ok (get_max_sidno gs) ops ->
  exists gs', run_ops gs ops = Some gs' /\ gs_becomes gs gs' (foldl op_meaning (gs_has gs) ops).
Proof.
  induction ops as [|op ops IH]; intros gs Hwf Hok; simpl.
  { exists gs. unfold gs_becomes. by split_and!. }
  destruct Hok as [Hop Hok].
  destruct (run_op_spec gs op Hwf Hop) as (gs1 & -> & Hmax & Hb1). simpl. rewrite <- Hmax in Hok.
  destruct (IH gs1 (proj1 Hb1) Hok) as (gs' & -> & Hb'). exists gs'. split; [done|].
  eapply gs_becomes_trans; [exact Hb1|]. eapply gs_becomes_ext; [|exact Hb'].
  apply ops_meaning_ext. apply Hb1.
Qed.
End ops.

(** ** Concrete sets

    The inputs at which the properties below are instantiated. *)

Definition gs_wfb (gs : Gtid_set) : bool := forallb (ivs_wfb 0) (m_intervals gs).

Lemma gs_wfb_true gs : gs_wfb gs = true -> gs_wf gs.
Proof.
  unfold gs_wfb, gs_wf. rewrite forallb_forall, Forall_forall. intros H l Hl.
  apply ivs_wfb_spec, H. by apply list_elem_of_In.
Qed.

Definition ex_sid (b : Z) : rpl_sid := replicate 16 b.

(** A map with two SIDs, the second one smaller, and sets over it. *)
Definition ex_map : Sid_map := snd (add_sid (snd (add_sid Sid_map_new (ex_sid 7))) (ex_sid 3)).
Definition ex_map' : Sid_map := snd (add_sid Sid_map_new (ex_sid 3)).

Definition ex_set : Gtid_set :=
  mk_Gtid_set [[mk_Interval 1 4; mk_Interval 7 8]; []] (mk_store [] [8] None).
Definition ex_set' : Gtid_set :=
  mk_Gtid_set [[mk_Interval 3 6]] (mk_store [mk_Interval 9 9] [2] None).

Lemma ex_sid_wf b : 0 <= b < 256 -> uuid_wf (ex_sid b).
Proof. intros H. split; [done|]. by apply Forall_replicate. Qed.

Lemma add_sid_wf m sid : sid_map_wf m -> uuid_wf sid -> sid_map_wf (snd (add_sid m sid)).
Proof.
  intros Hm Hs. pose proof (add_sid_spec m sid Hm Hs) as H.
  destruct (add_sid m sid). apply H.
Qed.

Lemma ex_map_wf : sid_map_wf ex_map.
Proof. repeat apply add_sid_wf; [apply Sid_map_new_wf|apply ex_sid_wf; lia..]. Qed.

Lemma ex_map'_wf : sid_map_wf ex_map'.
Proof. apply add_sid_wf; [apply Sid_map_new_wf|apply ex_sid_wf; lia]. Qed.

Lemma ex_set_wf : gs_wf ex_set.
Proof. by apply gs_wfb_true. Qed.

Lemma ex_set'_wf : gs_wf ex_set'.
Proof. by apply gs_wfb_true. Qed.

Lemma new_fits m : gs_fits m Gtid_set_new.
Proof. unfold gs_fits, get_max_sidno. simpl. lia. Qed.

(** ** Iterating over the identifiers *)

(** The identifiers a [Gtid_iterator] yields from [it] on. *)
Fixpoint git_collect (fuel : nat) (gs : Gtid_set) (it : Gtid_iterator)
  : option (list (rpl_sidno * Z)) :=
  match git_sidno it with
  | O => Some []
  | S _ =>
      match fuel with
      | O => None
      | S fuel =>
          it' ← git_next gs it;
          r ← git_collect fuel gs it';
          Some ((git_sidno it, git_gno it) :: r)
      end
  end.

Definition gtid_lt (a b : rpl_sidno * Z) : Prop :=
  (fst a < fst b)%nat \/ fst a = fst b /\ snd a < snd b.

Section iterator.
Implicit Types (gs : Gtid_set) (it : Gtid_iterator) (l : list Interval).

(** Where a well-formed iterator stands: at a group number of the first of
    the intervals it holds, which end the list of its SIDNO. *)
Definition git_wf gs it : Prop :=
  match git_sidno it with
  | O => True
  | S _ => exists pre iv r,
      git_ivit it = iv :: r /\ intervals_of gs (git_sidno it) = pre ++ iv :: r /\
      iv_start iv <= git_gno it < iv_end iv
  end.

(** What is still to come. *)
Definition git_rest gs it (a : rpl_sidno * Z) : Prop :=
  gs_has gs (fst a) (snd a) /\
  match git_sidno it with
  | O => False
  | S _ => a = (git_sidno it, git_gno it) \/ gtid_lt (git_sidno it, git_gno it) a
  end.

Definition ivs_count l : nat := sum_list_with (fun iv => Z.to_nat (iv_end iv - iv_start iv)) l.

(** The number of identifiers still to come. *)
Definition git_size gs it : nat :=
  match git_sidno it, git_ivit it with
  | O, _ | _, [] => 0
  | S _, iv :: r =>
      Z.to_nat (iv_end iv - git_gno it) + ivs_count r +
      sum_list_with ivs_count (drop (git_sidno it) (m_intervals gs))
  end.

Lemma next_sidno_loop_spec gs lists : forall k pre,
  gs_wf gs -> m_intervals gs = pre ++ lists -> length pre = k ->
  let it := next_sidno_loop (S k) lists in
  git_wf gs it /\ git_size gs it = sum_list_with ivs_count lists /\
  forall a, git_rest gs it a <-> gs_has gs (fst a) (snd a) /\ (k < fst a)%nat.
Proof.
  induction lists as [|l lists IH]; intros k pre Hwf E Hk; simpl.
  { split_and!; try done. intros [s g]. unfold git_rest. simpl. split; [tauto|].
    intros [Hg Hs]. apply gs_has_range in Hg as [Hr _]; [|done].
    unfold get_max_sidno in Hr. rewrite E, app_nil_r in Hr. lia. }
  assert (El : m_intervals gs !! k = Some l).
  { rewrite E, lookup_app_r by lia. by rewrite Hk, Nat.sub_diag. }
  assert (Ei : intervals_of gs (S k) = l).
  { unfold intervals_of. by apply list_lookup_total_correct. }
  destruct l as [|iv l].
  - destruct (IH (S k) (pre ++ [[]])) as (H1 & H2 & H3); [done|rewrite <- app_assoc; exact E|
      rewrite length_app; simpl; lia|].
    split_and!; [done|by rewrite H2|].
    intros [s g]. rewrite H3. simpl. split; intros [Hg Hs]; (split; [done|]); [lia|].
    destruct (decide (s = S k)) as [->|]; [|lia]. red in Hg. rewrite Ei in Hg.
    by apply in_ivs_nil in Hg.
  - pose proof (intervals_of_wf gs (S k) Hwf) as Hl. rewrite Ei in Hl.
    destruct Hl as (Hl1 & Hl2 & Hl3). split_and!.
    + exists [], iv, l. simpl. split_and!; [done|exact Ei|lia..].
    + unfold git_size. cbn [git_sidno git_ivit git_gno sum_list_with].
      assert (Ed : drop (S k) (m_intervals gs) = lists).
      { rewrite E, cons_middle, app_assoc. apply drop_app_length'.
        rewrite length_app. simpl. lia. }
      rewrite Ed. unfold ivs_count. simpl. lia.
    + intros [s g]. unfold git_rest, gtid_lt. simpl. split.
      * intros [Hg [[= -> ->]|[?|[<- ?]]]]; (split; [done|lia]).
      * intros [Hg Hs]. split; [done|].
        destruct (decide (s = S k)) as [->|]; [|right; left; lia].
        red in Hg. rewrite Ei in Hg. apply in_ivs_cons in Hg as [[Ha _]|Hg].
        -- destruct (decide (g = iv_start iv)) as [->|]; [by left|right; right; lia].
        -- apply (ivs_wf_in _ _ _ Hl3) in Hg. right; right; lia.
Qed.
Lemma git_next_sidno_spec gs sidno :
  gs_wf gs ->
  let it := git_next_sidno gs sidno in
  git_wf gs it /\ git_size gs it = sum_list_with ivs_count (drop sidno (m_intervals gs)) /\
  forall a, git_rest gs it a <-> gs_has gs (fst a) (snd a) /\ (sidno < fst a)%nat.
Proof.
  intros Hwf. destruct (decide (sidno <= length (m_intervals gs))%nat) as [H|H].
  - apply (next_sidno_loop_spec gs _ sidno (take sidno (m_intervals gs))); [done| |].
    + by rewrite take_drop.
    + rewrite length_take. lia.
  - unfold git_next_sidno. rewrite drop_ge by lia. simpl. split_and!; try done.
    intros [s g]. unfold git_rest. simpl. split; [tauto|]. intros [Hg Hs].
    apply gs_has_range in Hg as [Hr _]; [|done]. unfold get_max_sidno in Hr. lia.
Qed.

(** The identifiers of the current SIDNO after the current one. *)
Lemma Gtid_set_is_empty_spec gs :
  gs_wf gs -> Gtid_set_is_empty gs = true <-> forall sidno gno, ~ gs_has gs sidno gno.
Proof.
  intros Hwf. destruct (git_next_sidno_spec gs 0 Hwf) as (H1 & _ & H3). fold (git_new gs) in *.
  unfold Gtid_set_is_empty. unfold git_wf, git_rest in *.
  destruct (git_sidno (git_new gs)) as [|k].
  - split; [intros _|done]. intros s g Hg. pose proof Hg as [? _]%gs_has_range; [|done].
    apply (H3 (s, g)). split; [done|simpl; lia].
  - split; [done|]. intros Hno. destruct H1 as (pre & iv & r & _ & E & Hg). exfalso.
    apply (Hno (S k) (git_gno (git_new gs))). unfold gs_has. rewrite E, in_ivs_app, in_ivs_cons. right. by left.
Qed.

Lemma git_later gs k g pre iv r g' :
  gs_wf gs -> intervals_of gs (S k) = pre ++ iv :: r -> iv_start iv <= g < iv_end iv ->
  gs_has gs (S k) g' /\ g < g' <-> (g < g' < iv_end iv) \/ in_ivs r g'.
Proof.
  intros Hwf Ei Hg. pose proof (intervals_of_wf gs (S k) Hwf) as Hw. rewrite Ei in Hw.
  unfold gs_has. rewrite Ei, in_ivs_app, in_ivs_cons. unfold in_interval.
  rewrite <- (rev_involutive pre) in Hw |- *. apply ivs_wf_zip in Hw as (Hb & H1 & H2 & Hr). split.
  - intros [[H|[H|H]] Hlt]; [|left; lia|by right]. apply ivs_wf_before in H; [lia|done].
  - intros [H|H]; [split; [right; left; lia|lia]|].
    split; [by right; right|]. apply (ivs_wf_in _ _ _ Hr) in H. lia.
Qed.

(** If nothing lies between [g] and [g1], what follows [g] is [g1] with what
    follows it. *)
Lemma git_rest_step gs k g g1 l a :
  gs_has gs (S k) g1 -> g < g1 -> (forall g', gs_has gs (S k) g' -> g < g' -> g1 <= g') ->
  git_rest gs (mk_git (S k) g1 l) a <-> gs_has gs (fst a) (snd a) /\ gtid_lt (S k, g) a.
Proof.
  intros Hg1 Hlt Hbet. destruct a as [s g']. unfold git_rest, gtid_lt. simpl. split.
  - intros [Ha [[= -> ->]|[?|[<- ?]]]]; (split; [done|]); [right|left|right]; lia.
  - intros [Ha [?|[<- ?]]]; (split; [done|]); [right; left; lia|].
    specialize (Hbet g' Ha ltac:(lia)). destruct (decide (g' = g1)) as [->|]; [by left|].
    right; right; lia.
Qed.

(** One step yields the current identifier and leaves the rest. *)
Lemma git_next_spec gs it :
  gs_wf gs -> git_wf gs it -> git_sidno it <> 0%nat ->
  exists it', git_next gs it = Some it' /\ git_wf gs it' /\
    git_size gs it = S (git_size gs it') /\
    forall a, git_rest gs it' a <->
      gs_has gs (fst a) (snd a) /\ gtid_lt (git_sidno it, git_gno it) a.
Proof.
  intros Hwf Hit Hs. destruct it as [[|k] g l]; [done|].
  destruct Hit as (pre & iv & r & El & Ei & Hg). cbn [git_sidno git_gno git_ivit] in *. subst l.
  pose proof (fun g' => git_later gs k g pre iv r g' Hwf Ei Hg) as Hlater.
  pose proof (intervals_of_wf gs (S k) Hwf) as Hw. rewrite Ei in Hw.
  rewrite <- (rev_involutive pre) in Hw. apply ivs_wf_zip in Hw as (_ & _ & _ & Hr).
  unfold git_next, git_size. cbn [git_sidno git_gno git_ivit].
  destruct (Z.eqb_spec (g + 1) (iv_end iv)) as [He|He]; [destruct r as [|iv' r']|].
  - destruct (git_next_sidno_spec gs (S k) Hwf) as (H1 & H2 & H3).
    eexists. split; [done|]. split; [done|]. split.
    { fold (git_size gs (git_next_sidno gs (S k))). rewrite H2. unfold ivs_count. simpl.
      replace (iv_end iv - g) with 1 by lia. lia. }
    intros [s g']. rewrite H3. unfold gtid_lt. simpl.
    split; intros [Ha Hlt]; (split; [done|]); [lia|].
    destruct Hlt as [?|[<- Hlt]]; [lia|]. exfalso.
    destruct (proj1 (Hlater g') (conj Ha Hlt)) as [?|?%in_ivs_nil]; [lia|done].
  - destruct Hr as (Hr1 & Hr2 & Hr3). eexists. split; [done|]. split; [|split].
    + exists (pre ++ [iv]), iv', r'. cbn [git_sidno git_gno git_ivit].
      split_and!; [done|by rewrite Ei, <- app_assoc|lia..].
    + cbn [git_sidno git_gno git_ivit]. unfold ivs_count at 1. simpl. fold (ivs_count r').
      replace (iv_end iv - g) with 1 by lia. simpl. lia.
    + intros a. apply git_rest_step; [|lia|].
      * apply (Hlater (iv_start iv')). right. left. red. lia.
      * intros g' Ha Hlt. destruct (proj1 (Hlater g') (conj Ha Hlt)) as [?|H]; [lia|].
        apply in_ivs_cons in H as [[? ?]|H]; [lia|]. apply (ivs_wf_in _ _ _ Hr3) in H. lia.
  - eexists. split; [done|]. split; [|split].
    + exists pre, iv, r. cbn [git_sidno git_gno git_ivit]. split_and!; [done..|lia|lia].
    + cbn [git_sidno git_gno git_ivit]. lia.
    + intros a. apply git_rest_step; [|lia|intros; lia].
      apply (Hlater (g + 1)). left. lia.
Qed.

Lemma git_collect_spec gs fuel : forall it,
  gs_wf gs -> git_wf gs it -> (git_size gs it <= fuel)%nat ->
  exists r, git_collect fuel gs it = Some r /\ length r = git_size gs it /\
    StronglySorted gtid_lt r /\ forall a, a ∈ r <-> git_rest gs it a.
Proof.
  induction fuel as [|fuel IH]; intros it Hwf Hit Hsz; destruct (git_sidno it) as [|k] eqn:Es.
  1,3: exists []; simpl; rewrite Es; unfold git_size, git_rest; rewrite Es;
       split_and!; [done..|constructor|]; intros a; rewrite elem_of_nil; tauto.
  - destruct (git_next_spec gs it Hwf Hit) as (it' & _ & _ & E & _);
      [by rewrite Es|exfalso; lia].
  - destruct (git_next_spec gs it Hwf Hit) as (it' & En & Hit' & E & Hrest); [by rewrite Es|].
    destruct (IH it' Hwf Hit' ltac:(lia)) as (r & Er & Hl & Hsrt & Hr).
    exists ((git_sidno it, git_gno it) :: r). simpl. rewrite Es, En. simpl. rewrite Er. simpl.
    split_and!; [done|by rewrite Hl, E| |].
    + constructor; [done|]. apply Forall_forall. intros a Ha. rewrite <- Es.
      by apply Hrest, Hr.
    + intros a. rewrite elem_of_cons, Hr, Hrest. unfold git_rest. rewrite Es. split.
      * intros [->|[Ha Hlt]]; [|tauto]. split; [|by left]. simpl.
        red in Hit. rewrite Es in Hit. destruct Hit as (pre & iv & l & _ & Ei & Hg).
        unfold gs_has. rewrite Ei, in_ivs_app, in_ivs_cons. right. by left.
      * tauto.
Qed.

Lemma git_collect_mono gs fuel : forall fuel' it r,
  git_collect fuel gs it = Some r -> (fuel <= fuel')%nat -> git_collect fuel' gs it = Some r.
Proof.
  induction fuel as [|fuel IH]; intros [|fuel'] it r E Hf; simpl in *;
    destruct (git_sidno it); try done; [lia|].
  destruct (git_next gs it) as [it'|]; [|done]. simpl in *.
  destruct (git_collect fuel gs it') as [r'|] eqn:E'; [|done].
  by rewrite (IH fuel' it' r' E' ltac:(lia)).
Qed.
End iterator.

(** ** Properties *)

(** C1: Any sequence of edits of a new set runs without leaving the array,
    and leaves exactly the pairs the abstract operations give, in canonical
    form; every node ever allocated is in a list or free. *)
Theorem run_ops_refines ops :
  ops_ok 0 ops ->
  exists gs', run_ops Gtid_set_new ops = Some gs' /\
    gs_wf gs' /\ gs_nodes gs' = 0 /\
    forall sidno gno, gs_has gs' sidno gno <-> foldl op_meaning (fun _ _ => False) ops sidno gno.
Proof.
  intros Hok. destruct (run_ops_spec ops Gtid_set_new) as (gs' & E & Hw & Hh & Hn);
    [constructor|done|].
  exists gs'. split_and!; [done..|]. intros s g. rewrite Hh. apply ops_meaning_ext.
  intros s' g'. split; [|done]. unfold gs_has. destruct s'; by intros ?%in_ivs_nil.
Qed.

Definition ex_ops : list gtid_op :=
  [Op_ensure_sidno 2; Op_add_gtid 2 5; Op_add_gtid 2 7; Op_add_gtid 2 6; Op_add_gtid 1 1;
   Op_remove_gtid 2 6; Op_add_gtid_set ex_set; Op_remove_gtid_set ex_set'].

Lemma run_ops_refines_witness :
  exists gs', run_ops Gtid_set_new ex_ops = Some gs' /\
    gs_wf gs' /\ gs_nodes gs' = 0 /\
    forall sidno gno, gs_has gs' sidno gno <->
      foldl op_meaning (fun _ _ => False) ex_ops sidno gno.
Proof.
  apply run_ops_refines. simpl. unfold GNO_END, INT64_MAX.
  repeat split; try lia; [apply ex_set_wf|apply ex_set'_wf].
Defined.

Lemma intersection_spec_witness :
  exists result', intersection ex_set ex_set' Gtid_set_new = Some result' /\
    gs_becomes Gtid_set_new result'
      (fun s g => gs_has Gtid_set_new s g \/ (gs_has ex_set s g /\ gs_has ex_set' s g)).
Proof. apply intersection_spec; [apply ex_set_wf|apply ex_set'_wf|constructor]. Defined.

Lemma equals_same_spec_witness :
  Gtid_set_equals Same_maps ex_set ex_set' = true <->
  forall sidno g,
    (sidno < max (get_max_sidno ex_set) (get_max_sidno ex_set') \/
     sidno <= min (get_max_sidno ex_set) (get_max_sidno ex_set'))%nat ->
    gs_has ex_set sidno g <-> gs_has ex_set' sidno g.
Proof. apply equals_same_spec; [apply ex_set_wf|apply ex_set'_wf]. Defined.

Lemma equals_distinct_spec_witness :
  Gtid_set_equals (Distinct_maps ex_map ex_map') ex_set ex_set' = true <->
  forall sid g, gs_has_sid ex_map ex_set sid g <-> gs_has_sid ex_map' ex_set' sid g.
Proof.
  apply equals_distinct_spec;
    [apply ex_map_wf|apply ex_map'_wf|apply ex_set_wf|apply ex_set'_wf|vm_compute; lia..].
Defined.

(** C35: [equals] calls two sets of one map equal although one of them contains
    the identifier (2, 5) and the other does not, because the loop over the
    SIDNOs beyond the shorter array stops before the last one.  The strict
    subset test then denies that the first is a proper subset. *)
Theorem equals_misses_last_sidno :
  exists gs other, gs_wf gs /\ gs_wf other /\
    Gtid_set_equals Same_maps gs other = true /\
    contains_gtid gs 2 5 = false /\ contains_gtid other 2 5 = true /\
    is_subset Same_maps gs other = Some true /\ is_subset Same_maps other gs = Some false /\
    is_subset_not_equals Same_maps gs other = Some false.
Proof.
  exists (mk_Gtid_set [[mk_Interval 1 4]] (mk_store [] [1] None)),
         (mk_Gtid_set [[mk_Interval 1 4]; [mk_Interval 5 6]] (mk_store [] [2] None)).
  split_and!; try (by apply gs_wfb_true); vm_compute; reflexivity.
Qed.

(** The SIDNO of an identifier in a set, read through the map of the set. *)
Lemma gs_has_translate m om gs other sidno g :
  sid_map_wf m -> gs_wf gs -> gs_fits m gs -> gs_has gs sidno g ->
  gs_has_sid m gs (sidno_to_sid m sidno) g /\
  (gs_has other (translate_sidno (Distinct_maps m om) sidno) g <->
   gs_has_sid om other (sidno_to_sid m sidno) g).
Proof.
  intros Hm Hwf Hf Hg. split; [|done]. unfold gs_has_sid.
  destruct (gs_has_range gs sidno g Hwf Hg) as [Hr _]. red in Hf.
  by rewrite (proj2 (sid_to_sidno_to_sid m sidno _ Hm ltac:(lia))) by (split; [lia|done]).
Qed.

Lemma gs_has_sid_to_sid m gs sid g :
  sid_map_wf m -> gs_wf gs -> gs_has_sid m gs sid g -> sidno_to_sid m (sid_to_sidno m sid) = sid.
Proof.
  intros Hm Hwf Hg. destruct (gs_has_range gs _ g Hwf Hg) as [Hr _].
  by apply (proj1 (sid_to_sidno_to_sid m (sid_to_sidno m sid) sid Hm ltac:(lia)) eq_refl).
Qed.

(** [is_subset] decides inclusion of the sets of (SID, GNO) pairs, also
    when the two sets number their SIDs differently. *)
Theorem is_subset_sids m om gs super :
  sid_map_wf m -> gs_wf gs -> gs_wf super -> gs_fits m gs ->
  exists b, is_subset (Distinct_maps m om) gs super = Some b /\
    (b = true <-> forall sid g, gs_has_sid m gs sid g -> gs_has_sid om super sid g).
Proof.
  intros Hm Hwf Hws Hf. destruct (is_subset_spec (Distinct_maps m om) gs super Hwf Hws)
    as (b & E & Hb). exists b. split; [done|]. rewrite Hb. split; intros H.
  - intros sid g Hg. rewrite <- (gs_has_sid_to_sid m gs sid g Hm Hwf Hg).
    apply (gs_has_translate m om gs super _ g Hm Hwf Hf Hg). by apply H.
  - intros s g Hg. destruct (gs_has_translate m om gs super s g Hm Hwf Hf Hg) as [H1 ->]. by apply H.
Qed.

Lemma is_subset_sids_witness :
  exists b, is_subset (Distinct_maps ex_map ex_map') ex_set ex_set' = Some b /\
    (b = true <-> forall sid g, gs_has_sid ex_map ex_set sid g -> gs_has_sid ex_map' ex_set' sid g).
Proof.
  apply is_subset_sids; [apply ex_map_wf|apply ex_set_wf|apply ex_set'_wf|vm_compute; lia].
Defined.

(** [is_intersection_nonempty] decides whether some (SID, GNO) pair is in
    both sets, whatever the two numberings. *)
Theorem is_intersection_nonempty_sids m om gs other :
  sid_map_wf m -> gs_wf gs -> gs_wf other -> gs_fits m gs ->
  exists b, is_intersection_nonempty (Distinct_maps m om) gs other = Some b /\
    (b = true <-> exists sid g, gs_has_sid m gs sid g /\ gs_has_sid om other sid g).
Proof.
  intros Hm Hwf Hwo Hf.
  destruct (is_intersection_nonempty_spec (Distinct_maps m om) gs other Hwf Hwo) as (b & E & Hb).
  exists b. split; [done|]. rewrite Hb. split.
  - intros (s & g & Hg & Ho). exists (sidno_to_sid m s), g.
    destruct (gs_has_translate m om gs other s g Hm Hwf Hf Hg) as [H1 H2]. tauto.
  - intros (sid & g & Hg & Ho). exists (sid_to_sidno m sid), g. split; [done|].
    apply (gs_has_translate m om gs other _ g Hm Hwf Hf Hg).
    by rewrite (gs_has_sid_to_sid m gs sid g Hm Hwf Hg).
Qed.

Lemma is_intersection_nonempty_sids_witness :
  exists b, is_intersection_nonempty (Distinct_maps ex_map ex_map') ex_set ex_set' = Some b /\
    (b = true <-> exists sid g, gs_has_sid ex_map ex_set sid g /\ gs_has_sid ex_map' ex_set' sid g).
Proof.
  apply is_intersection_nonempty_sids;
    [apply ex_map_wf|apply ex_set_wf|apply ex_set'_wf|vm_compute; lia].
Defined.

(** Removing a set that numbers its SIDs by another map leaves exactly the
    difference of the sets of pairs, provided the array of this set has room
    for every SIDNO of its map. *)
Lemma remove_gtid_set_sids m om gs other :
  gs_wf gs -> gs_wf other -> sid_map_wf m -> sid_map_wf om ->
  get_max_sidno gs = sid_map_max_sidno m -> gs_fits om other ->
  exists gs', remove_gtid_set (Distinct_maps m om) gs other = Some gs' /\
    gs_wf gs' /\ get_max_sidno gs' = get_max_sidno gs /\ gs_nodes gs' = gs_nodes gs /\
    forall sid gno, gs_has_sid m gs' sid gno <->
      gs_has_sid m gs sid gno /\ ~ gs_has_sid om other sid gno.
Proof.
  intros Hwf Hwo Hm Hom Hmax Hfo. unfold remove_gtid_set.
  destruct (remove_distinct_loop_spec other m om (seq 1 (get_max_sidno other)) gs)
    as (gs' & E & H1 & H0 & H2 & H3); try done.
  { apply Forall_forall. intros s Hs%elem_of_seq. lia. }
  exists gs'. split_and!; try done. intros sid gno. rewrite H3.
  assert (Hiff : (exists s, s ∈ seq 1 (get_max_sidno other) /\ sidno_to_sid om s = sid /\
                  gs_has other s gno) <-> gs_has_sid om other sid gno); [|by rewrite Hiff].
  split.
  - intros (s & _ & <- & Hg). apply (proj1 (gs_has_translate om om other other s gno Hom Hwo Hfo Hg)).
  - intros Hg. exists (sid_to_sidno om sid). split_and!; [|exact (gs_has_sid_to_sid om other sid gno Hom Hwo Hg)|done].
    destruct (gs_has_range other _ gno Hwo Hg) as [Hr _]. apply elem_of_seq. lia.
Qed.

(** Without that room, removing leaves the array: the SID is known to the
    map of this set, the set has no list for it, and the loop does not compare
    the SIDNO with the size of the array. *)
Theorem remove_gtid_set_distinct_overrun :
  gs_wf Gtid_set_new /\ gs_wf ex_set' /\ sid_map_wf ex_map /\ sid_map_wf ex_map' /\
  gs_fits ex_map Gtid_set_new /\ gs_fits ex_map' ex_set' /\
  remove_gtid_set (Distinct_maps ex_map ex_map') Gtid_set_new ex_set' = None /\
  remove_gtid_set Same_maps Gtid_set_new ex_set' = Some Gtid_set_new.
Proof.
  split_and!; [constructor|apply ex_set'_wf|apply ex_map_wf|apply ex_map'_wf|apply new_fits
              |vm_compute; lia|vm_compute; reflexivity..].
Qed.

(** A [Gtid_iterator] terminates and yields every identifier of the set
    exactly once, in increasing order of SIDNO and group number; [is_empty]
    is true exactly if there is none. *)
Theorem git_enumerates gs :
  gs_wf gs ->
  exists r, (forall fuel, (length r <= fuel)%nat -> git_collect fuel gs (git_new gs) = Some r) /\
    StronglySorted gtid_lt r /\
    (forall sidno gno, (sidno, gno) ∈ r <-> gs_has gs sidno gno) /\
    (Gtid_set_is_empty gs = true <-> r = []).
Proof.
  intros Hwf. destruct (git_next_sidno_spec gs 0 Hwf) as (H1 & _ & H3). fold (git_new gs) in *.
  destruct (git_collect_spec gs (git_size gs (git_new gs)) (git_new gs) Hwf H1 (le_n _))
    as (r & E & Hl & Hs & Hr). exists r.
  assert (Hmem : forall sidno gno, (sidno, gno) ∈ r <-> gs_has gs sidno gno).
  { intros s g. rewrite Hr, H3. simpl. split; [tauto|]. intros Hg. split; [done|].
    apply gs_has_range in Hg as [? _]; [lia|done]. }
  split_and!; try done.
  - intros fuel Hf. eapply git_collect_mono; [exact E|lia].
  - unfold Gtid_set_is_empty. unfold git_size in Hl. red in H1.
    destruct (git_sidno (git_new gs)) as [|k]; [destruct r; done|].
    destruct H1 as (pre & iv & l & Ei & _ & Hg). rewrite Ei in Hl.
    split; [done|]. intros ->. simpl in Hl. lia.
Qed.

Lemma git_enumerates_witness :
  exists r, (forall fuel, (length r <= fuel)%nat ->
      git_collect fuel ex_set (git_new ex_set) = Some r) /\
    StronglySorted gtid_lt r /\
    (forall sidno gno, (sidno, gno) ∈ r <-> gs_has ex_set sidno gno) /\
    (Gtid_set_is_empty ex_set = true <-> r = []).
Proof. apply git_enumerates, ex_set_wf. Defined.
