(* ===== verification/NumText.v ===== *)
(** * Numbers as text

    The conversions of [strings/int2str.c], [strings/longlong2str.c] and
    [strings/my_strtoll10.c], and the C library's [strtoll].  Text is a list of
    byte values without the terminating zero; a pointer into a text is an
    index, and the byte at an index behind the text is that zero.

    [long] is 64 bits wide, except in [ll2str] and [longlong10_to_str], which
    are only compiled where it has 32 bits. *)

From Stdlib Require Import ZArith Lia.
From stdpp Require Import base numbers option tactics list.
From S2P Require Import Prelude.

#[local] Open Scope Z_scope.

Definition MINUS : Z := 45.

(** "0123456789ABCDEFGHIJKLMNOPQRSTUVWXYZ" and its lower-case variant. *)
Definition _dig_vec_upper : list Z :=
  map Z.of_nat (seq 48 10 ++ seq 65 26).
Definition _dig_vec_lower : list Z :=
  map Z.of_nat (seq 48 10 ++ seq 97 26).

Definition dig (dig_vec : list Z) (d : Z) : Z := dig_vec !!! Z.to_nat d.

(** ** Printing

    The loops write backwards from the end of [buffer]; [p] is what has been
    written.  The fuel is the number of digits [buffer] has room for. *)

Definition buffer_digits : nat := 64.

(** [while (val != 0)] of [int2str], [int10_to_str], [ll2str] and
    [longlong10_to_str]: signed division; [digit] is how the function writes
    one digit. *)
Fixpoint long_loop (fuel : nat) (digit : Z -> Z) (radix val : Z) (p : list Z)
  : option (list Z) :=
  if val =? 0 then Some p
  else match fuel with
       | O => None
       | S fuel =>
           let quo := Z.quot val radix in
           long_loop fuel digit radix quo (digit (val - quo * radix) :: p)
       end.

(** The sign and the magnitude: [radix < 0] asks for a signed conversion. *)
Definition sign_and_uval (val radix : Z) : list Z * Z :=
  let uval := wrapu 64 val in
  if (radix <? 0) && (val <? 0) then ([MINUS], wrapu 64 (0 - uval)) else ([], uval).

(** [None]: the radix is not supported ([NullS]) or the buffer is too small. *)
Definition int2str (val radix : Z) (upcase : bool) : option (list Z) :=
  let dig_vec := if upcase then _dig_vec_upper else _dig_vec_lower in
  if (if radix <? 0 then (radix <? -36) || (-2 <? radix) else (36 <? radix) || (radix <? 2))
  then None
  else
    let '(sign, uval) := sign_and_uval val radix in
    let radix := Z.abs radix in
    let new_val := wraps 64 (uval / radix) in
    let p := [dig dig_vec (wrapu 8 (uval - wrapu 64 new_val * radix))] in
    p ← long_loop (buffer_digits - 1) (dig dig_vec) radix new_val p;
    Some (sign ++ p).

Definition int10_to_str (val radix : Z) : option (list Z) :=
  let '(sign, uval) := sign_and_uval val radix in
  let new_val := wraps 64 (uval / 10) in
  let p := [48 + (uval - wrapu 64 new_val * 10)] in
  p ← long_loop (buffer_digits - 1) (fun d => 48 + d) 10 new_val p;
  Some (sign ++ p).

Definition LONG_MAX32 : Z := 2 ^ 31 - 1.

(** [while (uval > (ulonglong) LONG_MAX)]: unsigned 64-bit division.  The fuel
    left is what the second loop may still write. *)
Fixpoint ulonglong_loop (fuel : nat) (dig_vec : list Z) (radix uval : Z) (p : list Z)
  : option (nat * Z * list Z) :=
  if uval <=? LONG_MAX32 then Some (fuel, uval, p)
  else match fuel with
       | O => None
       | S fuel =>
           let quo := uval / radix in
           ulonglong_loop fuel dig_vec radix quo (dig dig_vec (uval - quo * radix) :: p)
       end.

Definition ll2str (val radix : Z) (upcase : bool) : option (list Z) :=
  let dig_vec := if upcase then _dig_vec_upper else _dig_vec_lower in
  if (if radix <? 0 then (radix <? -36) || (-2 <? radix) else (36 <? radix) || (radix <? 2))
  then None
  else
    let '(sign, uval) := sign_and_uval val radix in
    let radix := Z.abs radix in
    if uval =? 0 then Some (sign ++ [48])
    else
      '(fuel, long_val, p) ← ulonglong_loop buffer_digits dig_vec radix uval [];
      p ← long_loop fuel (fun d => dig dig_vec (wrapu 8 d)) radix (wraps 32 long_val) p;
      Some (sign ++ p).

Definition longlong10_to_str (val radix : Z) : option (list Z) :=
  let '(sign, uval) := sign_and_uval val radix in
  if uval =? 0 then Some (sign ++ [48])
  else
    '(fuel, long_val, p) ← ulonglong_loop buffer_digits _dig_vec_upper 10 uval [];
    p ← long_loop fuel (fun d => dig _dig_vec_upper (wrapu 8 d)) 10 (wraps 32 long_val) p;
    Some (sign ++ p).

(** ** Reference: positional notation *)

Definition of_digits (radix : Z) (ds : list Z) : Z := foldl (fun a d => a * radix + d) 0 ds.

(** The digits of [n] in front of [p], most significant first, none for 0. *)
Fixpoint digits_acc (fuel : nat) (radix n : Z) (p : list Z) : list Z :=
  match fuel with
  | O => p
  | S fuel => if n =? 0 then p else digits_acc fuel radix (n / radix) (n mod radix :: p)
  end.

Definition digits (radix n : Z) : list Z :=
  if n =? 0 then [0] else digits_acc (Z.to_nat (Z.log2 n + 1)) radix n [].

Section digits.
Implicit Types (ds p : list Z) (radix n : Z).

Lemma of_digits_acc radix ds a :
  foldl (fun a d => a * radix + d) a ds = a * radix ^ Z.of_nat (length ds) + of_digits radix ds.
Proof.
  unfold of_digits. revert a. induction ds as [|d ds IH]; intros a; cbn [foldl length].
  - rewrite Z.pow_0_r. lia.
  - rewrite IH, (IH (0 * radix + d)), Nat2Z.inj_succ, Z.pow_succ_r by lia. ring.
Qed.

Lemma of_digits_app radix ds1 ds2 :
  of_digits radix (ds1 ++ ds2) =
  of_digits radix ds1 * radix ^ Z.of_nat (length ds2) + of_digits radix ds2.
Proof. unfold of_digits at 1. rewrite foldl_app. apply of_digits_acc. Qed.

Lemma of_digits_cons radix d ds :
  of_digits radix (d :: ds) = d * radix ^ Z.of_nat (length ds) + of_digits radix ds.
Proof.
  change (d :: ds) with ([d] ++ ds). rewrite of_digits_app. unfold of_digits at 1. simpl. ring.
Qed.

Lemma of_digits_bound radix ds :
  0 < radix -> Forall (fun d => 0 <= d < radix) ds ->
  0 <= of_digits radix ds < radix ^ Z.of_nat (length ds).
Proof.
  intros Hr. induction 1 as [|d ds Hd _ IH]; [unfold of_digits; simpl; lia|].
  rewrite of_digits_cons. cbn [length]. rewrite Nat2Z.inj_succ, Z.pow_succ_r by lia. nia.
Qed.

Lemma digits_acc_S fuel radix n p :
  digits_acc (S fuel) radix n p =
  if n =? 0 then p else digits_acc fuel radix (n / radix) (n mod radix :: p).
Proof. done. Qed.

(** The fuel of [digits] is enough: halving at least once per digit. *)
Lemma digits_acc_fuel k radix : forall fuel n p,
  2 <= radix -> 0 <= n < 2 ^ Z.of_nat fuel ->
  digits_acc (fuel + k) radix n p = digits_acc fuel radix n p.
Proof.
  induction fuel as [|fuel IH]; intros n p Hr Hn.
  - assert (n = 0) as -> by (simpl in Hn; lia). by destruct k.
  - cbn [digits_acc Nat.add]. destruct (Z.eqb_spec n 0); [done|]. apply IH; [done|].
    rewrite Nat2Z.inj_succ, Z.pow_succ_r in Hn by lia. split; [apply Z.div_pos; lia|].
    apply Z.div_lt_upper_bound; nia.
Qed.

Lemma digits_fuel fuel radix n :
  2 <= radix -> 0 < n < 2 ^ Z.of_nat fuel -> digits radix n = digits_acc fuel radix n [].
Proof.
  intros Hr Hn. unfold digits. destruct (Z.eqb_spec n 0); [lia|].
  pose proof (Z.log2_spec n ltac:(lia)) as Hl. pose proof (Z.log2_nonneg n) as Hl0.
  assert (Hle : (Z.to_nat (Z.log2 n + 1) <= fuel)%nat).
  { assert (Z.log2 n < Z.of_nat fuel) by (apply Z.log2_lt_pow2; lia). lia. }
  replace fuel with (Z.to_nat (Z.log2 n + 1) + (fuel - Z.to_nat (Z.log2 n + 1)))%nat by lia.
  symmetry. apply digits_acc_fuel; [done|]. rewrite Z2Nat.id by lia. split; [lia|].
  rewrite Z.add_1_r; apply Hl.
Qed.

Lemma digits_acc_app fuel radix : forall n p,
  digits_acc fuel radix n p = digits_acc fuel radix n [] ++ p.
Proof.
  induction fuel as [|fuel IH]; intros n p; simpl; [done|]. destruct (n =? 0); [done|].
  rewrite IH, (IH _ [_]), <- app_assoc. done.
Qed.

Lemma digits_acc_spec radix : forall fuel n,
  2 <= radix -> 0 <= n < 2 ^ Z.of_nat fuel ->
  let ds := digits_acc fuel radix n [] in
  of_digits radix ds = n /\ Forall (fun d => 0 <= d < radix) ds /\
  (length ds <= fuel)%nat /\ (n <> 0 -> exists d ds', ds = d :: ds' /\ d <> 0).
Proof.
  induction fuel as [|fuel IH]; intros n Hr Hn; cbv zeta.
  { assert (n = 0) as -> by (simpl in Hn; lia). split_and!; [done|constructor|done|done]. }
  cbn [digits_acc]. destruct (Z.eqb_spec n 0) as [->|Hz].
  { split_and!; [done|constructor|simpl; lia|done]. }
  rewrite Nat2Z.inj_succ, Z.pow_succ_r in Hn by lia.
  assert (Hq : 0 <= n / radix < 2 ^ Z.of_nat fuel).
  { split; [apply Z.div_pos; lia|]. apply Z.div_lt_upper_bound; nia. }
  destruct (IH (n / radix) Hr Hq) as (H1 & H2 & H3 & H4). rewrite digits_acc_app.
  pose proof (Z.mod_pos_bound n radix ltac:(lia)) as Hm.
  split_and!.
  - rewrite of_digits_app, H1. unfold of_digits. simpl. rewrite Z.pow_1_r.
    pose proof (Z.div_mod n radix ltac:(lia)). lia.
  - apply Forall_app. split; [done|]. by apply Forall_singleton.
  - rewrite length_app. simpl. lia.
  - intros _. destruct (decide (n / radix = 0)) as [E|E].
    + rewrite E. exists (n mod radix), []. destruct fuel; simpl; (split; [done|]);
        pose proof (Z.div_mod n radix ltac:(lia)); nia.
    + destruct (H4 E) as (d & ds' & -> & Hd). exists d, (ds' ++ [n mod radix]). done.
Qed.
End digits.

Lemma digits_spec radix n :
  2 <= radix -> 0 <= n ->
  of_digits radix (digits radix n) = n /\
  Forall (fun d => 0 <= d < radix) (digits radix n).
Proof.
  intros Hr Hn. destruct (decide (n = 0)) as [->|Hz].
  - unfold digits. simpl. split; [done|]. apply Forall_singleton. lia.
  - pose proof (Z.log2_spec n ltac:(lia)). pose proof (Z.log2_nonneg n).
    rewrite (digits_fuel (Z.to_nat (Z.log2 n + 1))) by
      (rewrite ?Z2Nat.id, ?Z.add_1_r by lia; lia).
    destruct (digits_acc_spec radix (Z.to_nat (Z.log2 n + 1)) n) as (H1 & H2 & _);
      [done|rewrite Z2Nat.id, Z.add_1_r by lia; lia|done].
Qed.

Lemma digits_head radix n :
  2 <= radix -> 0 < n -> exists d ds, digits radix n = d :: ds /\ 0 < d < radix.
Proof.
  intros Hr Hn. pose proof (Z.log2_spec n ltac:(lia)). pose proof (Z.log2_nonneg n).
  rewrite (digits_fuel (Z.to_nat (Z.log2 n + 1))) by
    (rewrite ?Z2Nat.id, ?Z.add_1_r by lia; lia).
  destruct (digits_acc_spec radix (Z.to_nat (Z.log2 n + 1)) n) as (_ & H2 & _ & H4);
    [done|rewrite Z2Nat.id, Z.add_1_r by lia; lia|].
  destruct H4 as (d & ds & E & Hd); [lia|]. exists d, ds. rewrite E in H2.
  apply Forall_cons in H2 as [? _]. split; [done|lia].
Qed.

(** ** The printing loops write positional notation *)

Section print.
Implicit Types (p : list Z) (radix n : Z).

Lemma long_loop_spec (digit : Z -> Z) radix : forall fuel n p,
  2 <= radix -> 0 <= n < 2 ^ Z.of_nat fuel ->
  long_loop fuel digit radix n p = Some (map digit (digits_acc fuel radix n []) ++ p).
Proof.
  induction fuel as [|fuel IH]; intros n p Hr Hn.
  { assert (n = 0) as -> by (simpl in Hn; lia). done. }
  cbn [long_loop digits_acc]. destruct (Z.eqb_spec n 0); [done|].
  rewrite Nat2Z.inj_succ, Z.pow_succ_r in Hn by lia.
  rewrite Z.quot_div_nonneg by lia. rewrite IH; [|done|].
  2: { split; [apply Z.div_pos; lia|]. apply Z.div_lt_upper_bound; nia. }
  rewrite (digits_acc_app _ _ (n / radix) [_]), map_app, <- app_assoc. simpl.
  do 4 f_equal. pose proof (Z.div_mod n radix ltac:(lia)). lia.
Qed.

Lemma long_loop_ext (digit digit' : Z -> Z) radix : forall fuel n p,
  2 <= radix -> 0 <= n -> (forall d, 0 <= d < radix -> digit d = digit' d) ->
  long_loop fuel digit radix n p = long_loop fuel digit' radix n p.
Proof.
  induction fuel as [|fuel IH]; intros n p Hr Hn He; cbn [long_loop]; [done|].
  destruct (n =? 0); [done|]. rewrite Z.quot_div_nonneg by lia.
  rewrite He.
  - apply IH; [done|apply Z.div_pos; lia|done].
  - pose proof (Z.div_mod n radix ltac:(lia)). pose proof (Z.mod_pos_bound n radix ltac:(lia)). lia.
Qed.

Lemma ulonglong_loop_spec dig_vec radix : forall fuel n p,
  2 <= radix <= 36 -> 0 < n < 2 ^ Z.of_nat fuel ->
  exists fuel' n' p', ulonglong_loop fuel dig_vec radix n p = Some (fuel', n', p') /\
    0 <= n' <= LONG_MAX32 /\ n' < 2 ^ Z.of_nat fuel' /\
    map (dig dig_vec) (digits_acc fuel' radix n' []) ++ p' =
    map (dig dig_vec) (digits_acc fuel radix n []) ++ p.
Proof.
  induction fuel as [|fuel IH]; intros n p Hr Hn.
  { simpl in Hn. lia. }
  cbn [ulonglong_loop]. destruct (Z.leb_spec n LONG_MAX32) as [Hl|Hl].
  { exists (S fuel), n, p. split_and!; (done || lia). }
  rewrite Nat2Z.inj_succ, Z.pow_succ_r in Hn by lia. unfold LONG_MAX32 in Hl.
  destruct (IH (n / radix) (dig dig_vec (n - n / radix * radix) :: p))
    as (fuel' & n' & p' & E & H1 & H2 & H3); [done| |].
  { split; [apply Z.div_str_pos; lia|apply Z.div_lt_upper_bound; nia]. }
  exists fuel', n', p'. split_and!; [done|lia..|].
  rewrite H3. cbn [digits_acc]. destruct (Z.eqb_spec n 0); [lia|].
  rewrite (digits_acc_app _ _ (n / radix) [_]), map_app, <- app_assoc. simpl.
  do 3 f_equal. pose proof (Z.div_mod n radix ltac:(lia)). lia.
Qed.

(** What all four routines print. *)
Definition num_text (dig_vec : list Z) (val radix : Z) : list Z :=
  let '(sign, uval) := sign_and_uval val radix in
  sign ++ map (dig dig_vec) (digits (Z.abs radix) uval).

Lemma sign_and_uval_range val radix : in_u 64 (snd (sign_and_uval val radix)).
Proof. unfold sign_and_uval. destruct (_ && _); apply wrapu_range; lia. Qed.

(** Peeling off the first digit, as [int2str] does, is one step of the loop. *)
Lemma digits_peel radix u :
  2 <= radix -> in_u 64 u ->
  digits radix u = digits_acc 63 radix (u / radix) [] ++ [u mod radix].
Proof.
  intros Hr [Hu0 Hu]. destruct (decide (u = 0)) as [->|Hz].
  { by rewrite Z.div_0_l, Z.mod_0_l by lia. }
  rewrite (digits_fuel 64), (digits_acc_S 63) by (simpl; lia).
  destruct (Z.eqb_spec u 0); [done|]. apply digits_acc_app.
Qed.

Lemma peeled_loop (digit : Z -> Z) radix u :
  2 <= radix -> in_u 64 u ->
  long_loop (buffer_digits - 1) digit radix (wraps 64 (u / radix))
    [digit (u - wrapu 64 (wraps 64 (u / radix)) * radix)] =
  Some (map digit (digits radix u)).
Proof.
  intros Hr Hu. pose proof Hu as [Hu0 Hu1].
  assert (Hq : 0 <= u / radix < 2 ^ 63).
  { split; [apply Z.div_pos; lia|]. apply Z.div_lt_upper_bound; nia. }
  rewrite wraps_id by (unfold in_s; lia). rewrite wrapu_id by (unfold in_u; lia).
  rewrite long_loop_spec by (simpl; lia). rewrite digits_peel, map_app by done.
  do 2 f_equal. simpl. do 2 f_equal. pose proof (Z.div_mod u radix ltac:(lia)). lia.
Qed.

Lemma radix_guard radix :
  (if radix <? 0 then (radix <? -36) || (-2 <? radix) else (36 <? radix) || (radix <? 2)) = false <->
  2 <= Z.abs radix <= 36.
Proof. split; zcases. Qed.

Lemma digit_byte radix u :
  2 <= radix <= 36 -> in_u 64 u ->
  wrapu 8 (u - wrapu 64 (wraps 64 (u / radix)) * radix) =
  u - wrapu 64 (wraps 64 (u / radix)) * radix.
Proof.
  intros Hr [Hu0 Hu1].
  assert (Hq : 0 <= u / radix < 2 ^ 63).
  { split; [apply Z.div_pos; lia|]. apply Z.div_lt_upper_bound; nia. }
  rewrite (wraps_id 64) by (unfold in_s; lia). rewrite (wrapu_id 64) by (unfold in_u; lia).
  apply wrapu_id. unfold in_u. pose proof (Z.div_mod u radix ltac:(lia)).
  pose proof (Z.mod_pos_bound u radix ltac:(lia)). lia.
Qed.

Lemma int2str_spec val radix upcase :
  2 <= Z.abs radix <= 36 ->
  int2str val radix upcase =
    Some (num_text (if upcase then _dig_vec_upper else _dig_vec_lower) val radix).
Proof.
  intros Hr. unfold int2str, num_text. rewrite (proj2 (radix_guard radix) Hr).
  pose proof (sign_and_uval_range val radix) as Hu.
  destruct (sign_and_uval val radix) as [sign u]. simpl in Hu.
  rewrite digit_byte, peeled_loop by (done || lia). done.
Qed.

Lemma ll2str_spec val radix upcase :
  2 <= Z.abs radix <= 36 ->
  ll2str val radix upcase =
    Some (num_text (if upcase then _dig_vec_upper else _dig_vec_lower) val radix).
Proof.
  intros Hr. unfold ll2str, num_text. rewrite (proj2 (radix_guard radix) Hr).
  pose proof (sign_and_uval_range val radix) as [Hu0 Hu].
  destruct (sign_and_uval val radix) as [sign u]. simpl in Hu0, Hu.
  destruct (Z.eqb_spec u 0) as [->|Hz]; [by destruct upcase|].
  set (dv := if upcase then _dig_vec_upper else _dig_vec_lower).
  destruct (ulonglong_loop_spec dv (Z.abs radix) buffer_digits u [])
    as (fuel & n & p & -> & H1 & H2 & H3); [done|split; [lia|exact Hu]|].
  simpl. unfold LONG_MAX32 in H1. rewrite wraps_id by (unfold in_s; lia).
  rewrite (long_loop_ext _ (dig dv)); [|lia|lia|].
  - rewrite long_loop_spec by lia. simpl. rewrite H3, app_nil_r.
    rewrite (digits_fuel buffer_digits); [done|lia|split; [lia|exact Hu]].
  - intros d Hd. by rewrite wrapu_id by (unfold in_u; lia).
Qed.

Lemma sign_and_uval_decimal val radix :
  sign_and_uval val (if radix <? 0 then -10 else 10) = sign_and_uval val radix.
Proof. unfold sign_and_uval. by destruct (radix <? 0). Qed.

Lemma decimal_digit d (upcase : bool) :
  0 <= d < 10 -> dig (if upcase then _dig_vec_upper else _dig_vec_lower) d = 48 + d.
Proof.
  intros H. assert (Hd : d = 0 \/ d = 1 \/ d = 2 \/ d = 3 \/ d = 4 \/ d = 5 \/ d = 6 \/ d = 7 \/
    d = 8 \/ d = 9) by lia. destruct upcase; intuition (subst; reflexivity).
Qed.

Lemma map_decimal_digits ds (upcase : bool) :
  Forall (fun d => 0 <= d < 10) ds ->
  map (fun d => 48 + d) ds = map (dig (if upcase then _dig_vec_upper else _dig_vec_lower)) ds.
Proof. induction 1 as [|d ds Hd _ IH]; simpl; [done|]. by rewrite IH, decimal_digit. Qed.

Lemma num_text_decimal val radix (upcase : bool) :
  num_text _dig_vec_upper val (if radix <? 0 then -10 else 10) =
  num_text (if upcase then _dig_vec_upper else _dig_vec_lower) val (if radix <? 0 then -10 else 10).
Proof.
  unfold num_text. rewrite sign_and_uval_decimal.
  pose proof (sign_and_uval_range val radix) as [Hu0 _]. destruct (sign_and_uval val radix) as [sign u].
  f_equal. replace (Z.abs (if radix <? 0 then -10 else 10)) with 10 by (by destruct (radix <? 0)).
  destruct (digits_spec 10 u) as [_ Hd]; [lia|done|].
  by rewrite <- (map_decimal_digits _ upcase), <- (map_decimal_digits _ true).
Qed.

Lemma int10_to_str_spec val radix :
  int10_to_str val radix = Some (num_text _dig_vec_upper val (if radix <? 0 then -10 else 10)).
Proof.
  unfold int10_to_str, num_text. rewrite sign_and_uval_decimal.
  pose proof (sign_and_uval_range val radix) as Hu.
  destruct (sign_and_uval val radix) as [sign u]. simpl in Hu.
  replace (Z.abs (if radix <? 0 then -10 else 10)) with 10 by (by destruct (radix <? 0)).
  rewrite (peeled_loop (fun d => 48 + d) 10 u) by (done || lia). simpl.
  destruct (digits_spec 10 u) as [_ Hd]; [lia|apply Hu|].
  by rewrite (map_decimal_digits _ true).
Qed.

Lemma longlong10_to_str_spec val radix :
  longlong10_to_str val radix = Some (num_text _dig_vec_upper val (if radix <? 0 then -10 else 10)).
Proof.
  rewrite <- (ll2str_spec val (if radix <? 0 then -10 else 10) true) by (destruct (radix <? 0); lia).
  unfold longlong10_to_str, ll2str. rewrite sign_and_uval_decimal. by destruct (radix <? 0).
Qed.
End print.

(** ** Reading

    [my_strtoll10]: pointers are indices into [nptr]. *)

Definition SPACE : Z := 32.
Definition TAB : Z := 9.
Definition PLUS : Z := 43.
Definition ZERO : Z := 48.

Definition MAX_NEGATIVE_NUMBER : Z := 2 ^ 63.
Definition INIT_CNT : nat := 9.
Definition LFACTOR : Z := 1000000000.
Definition LFACTOR1 : Z := 10000000000.
Definition LFACTOR2 : Z := 100000000000.
Definition lfactor : list Z :=
  [1; 10; 100; 1000; 10000; 100000; 1000000; 10000000; 100000000].
Definition MY_ERRNO_EDOM : Z := 33.
Definition MY_ERRNO_ERANGE : Z := 34.

Record strtoll_result := mk_strtoll { st_value : Z; st_endptr : nat; st_error : Z }.

Definition char_at (nptr : list Z) (s : nat) : Z := nth s nptr 0.

(** The digit test: the difference to the character zero, as an [uchar], is at
    most nine. *)
Definition digit_at (nptr : list Z) (s : nat) : Z := wrapu 8 (char_at nptr s - ZERO).
Definition is_digit_at (nptr : list Z) (s : nat) : bool := digit_at nptr s <=? 9.

(** Skip blanks and tabs, [n] characters being left. *)
Fixpoint skip_blanks (nptr : list Z) (n s : nat) : nat :=
  match n with
  | O => s
  | S n =>
      if (char_at nptr s =? SPACE) || (char_at nptr s =? TAB)
      then skip_blanks nptr n (S s) else s
  end.

(** Skip zeros, [n] characters being left. *)
Fixpoint skip_zeros (nptr : list Z) (n s : nat) : nat :=
  match n with
  | O => s
  | S n => if char_at nptr s =? ZERO then skip_zeros nptr n (S s) else s
  end.

(** At most [n] digits from [s]; the flag tells that a non-digit stopped it. *)
Fixpoint read_digits (nptr : list Z) (n s : nat) (acc : Z) : Z * nat * bool :=
  match n with
  | O => (acc, s, false)
  | S n =>
      if is_digit_at nptr s then read_digits nptr n (S s) (acc * 10 + digit_at nptr s)
      else (acc, s, true)
  end.

Definition strtoll_no_conv : strtoll_result := mk_strtoll 0 0 MY_ERRNO_EDOM.

Definition strtoll_overflow (negative : bool) (s : nat) : strtoll_result :=
  mk_strtoll (if negative then LLONG_MIN else wraps 64 ULLONG_MAX) s MY_ERRNO_ERANGE.

Definition strtoll_end (negative : bool) (li : Z) (s : nat) : strtoll_result :=
  mk_strtoll (if negative then wraps 64 (- wraps 64 li) else wraps 64 li) s
    (if negative then -1 else 0).

(** The next one or two digits, [k]. *)
Definition strtoll_tail_k (nptr : list Z) (negative : bool) (end_ : nat) (i j : Z) (s : nat)
  : strtoll_result :=
  let limit := if negative then MAX_NEGATIVE_NUMBER else ULLONG_MAX in
  let cutoff := limit / LFACTOR2 in
  let cutoff2 := limit mod LFACTOR2 / 100 in
  let cutoff3 := limit mod 100 in
  let k := digit_at nptr s in
  let s := S s in
  if (s =? end_)%nat || negb (is_digit_at nptr s)
  then
    let li := wrapu 64 (i * LFACTOR1 + j * 10 + k) in
    if negative && (MAX_NEGATIVE_NUMBER <? li) then strtoll_overflow negative s
    else strtoll_end negative li s
  else
    let k := k * 10 + digit_at nptr s in
    let s := S s in
    if negb (s =? end_)%nat && is_digit_at nptr s then strtoll_overflow negative s
    else if (cutoff <? i) ||
            ((i =? cutoff) && ((cutoff2 <? j) || ((j =? cutoff2) && (cutoff3 <? k))))
    then strtoll_overflow negative s
    else mk_strtoll (wraps 64 (wrapu 64 (i * LFACTOR2 + j * 100 + k))) s
           (if negative then -1 else 0).

(** The next nine digits, [j]. *)
Definition strtoll_tail_j (nptr : list Z) (negative : bool) (end_ : nat) (i : Z) (s : nat)
  : strtoll_result :=
  let start := s in
  let true_end := (s + INIT_CNT)%nat in
  let n_end := min true_end end_ in
  let '(j, s, stopped) := read_digits nptr (n_end - s) s 0 in
  if stopped || ((s =? end_)%nat && negb (s =? true_end)%nat)
  then strtoll_end negative (wrapu 64 (i * lfactor !!! (s - start)%nat + j)) s
  else if (s =? end_)%nat || negb (is_digit_at nptr s)
  then strtoll_end negative (wrapu 64 (i * LFACTOR + j)) s
  else strtoll_tail_k nptr negative end_ i j s.

(** The rest of the first nine digits, [i]. *)
Definition strtoll_tail (nptr : list Z) (negative : bool) (end_ n_end : nat) (i : Z) (s : nat)
  : strtoll_result :=
  let n_end := min n_end end_ in
  let '(i, s, stopped) := read_digits nptr (n_end - s) s i in
  if stopped || (s =? end_)%nat then strtoll_end negative i s
  else strtoll_tail_j nptr negative end_ i s.

(** From the first character after the sign on. *)
Definition strtoll_digits (nptr : list Z) (negative : bool) (end_ s : nat) : strtoll_result :=
  if char_at nptr s =? ZERO then
    let s := skip_zeros nptr (end_ - s) s in
    if (s =? end_)%nat then strtoll_end negative 0 s
    else strtoll_tail nptr negative end_ (s + INIT_CNT) 0 s
  else if negb (is_digit_at nptr s) then strtoll_no_conv
  else strtoll_tail nptr negative end_ (S s + INIT_CNT - 1) (digit_at nptr s) (S s).

Definition my_strtoll10 (nptr : list Z) (endptr : option nat) : strtoll_result :=
  let s := match endptr with
           | Some end_ => skip_blanks nptr end_ 0
           | None => skip_blanks nptr (length nptr) 0
           end in
  let end_ := match endptr with Some end_ => end_ | None => (s + Z.to_nat 65535)%nat end in
  if match endptr with Some _ => (s =? end_)%nat | None => char_at nptr s =? 0 end
  then strtoll_no_conv
  else
    let negative := char_at nptr s =? MINUS in
    let signed := negative || (char_at nptr s =? PLUS) in
    let s := if signed then S s else s in
    if signed && (s =? end_)%nat then strtoll_no_conv
    else strtoll_digits nptr negative end_ s.

(** The digits from [s] on, [n] characters being left. *)
Fixpoint digit_run (nptr : list Z) (n s : nat) : list Z :=
  match n with
  | O => []
  | S n => if is_digit_at nptr s then digit_at nptr s :: digit_run nptr n (S s) else []
  end.

Definition strtoll_limit (negative : bool) : Z :=
  if negative then MAX_NEGATIVE_NUMBER else ULLONG_MAX.

(** The right answer for a magnitude [v] that ends at [e]. *)
Definition strtoll_answer (negative : bool) (v : Z) (e : nat) (r : strtoll_result) : Prop :=
  if v <=? strtoll_limit negative
  then r = mk_strtoll (if negative then - v else wraps 64 v) e (if negative then -1 else 0)
  else st_value r = (if negative then LLONG_MIN else -1) /\ st_error r = MY_ERRNO_ERANGE.

Section strtoll.
Context (nptr : list Z).
Implicit Types (n s : nat) (ds : list Z).

Lemma digit_run_digits n : forall s, Forall (fun d => 0 <= d < 10) (digit_run nptr n s).
Proof.
  induction n as [|n IH]; intros s; simpl; [constructor|].
  unfold is_digit_at. destruct (Z.leb_spec (digit_at nptr s) 9); [|constructor].
  constructor; [|apply IH]. pose proof (wrapu_range 8 (char_at nptr s - ZERO) ltac:(lia)) as [? _].
  unfold digit_at in *. lia.
Qed.

Lemma digit_run_length n : forall s, (length (digit_run nptr n s) <= n)%nat.
Proof.
  induction n as [|n IH]; intros s; simpl; [done|].
  destruct (is_digit_at nptr s); simpl; [|lia]. specialize (IH (S s)). lia.
Qed.

Lemma digit_run_split n N s :
  (n <= N)%nat ->
  (length (digit_run nptr n s) < n)%nat /\ digit_run nptr N s = digit_run nptr n s \/
  length (digit_run nptr n s) = n /\
  digit_run nptr N s = digit_run nptr n s ++ digit_run nptr (N - n) (s + n).
Proof.
  revert N s. induction n as [|n IH]; intros N s Hn.
  { right. split; [done|]. simpl. by rewrite Nat.sub_0_r, Nat.add_0_r. }
  destruct N as [|N]; [lia|]. simpl. destruct (is_digit_at nptr s); simpl; [|left; split; [lia|done]].
  destruct (IH N (S s) ltac:(lia)) as [[H1 H2]|[H1 H2]]; rewrite H2.
  - left. split; [lia|done].
  - right. split; [lia|]. by rewrite Nat.add_succ_r.
Qed.

Lemma read_digits_spec n : forall s acc,
  read_digits nptr n s acc =
    (acc * 10 ^ Z.of_nat (length (digit_run nptr n s)) + of_digits 10 (digit_run nptr n s),
     (s + length (digit_run nptr n s))%nat, bool_decide (length (digit_run nptr n s) < n)%nat).
Proof.
  induction n as [|n IH]; intros s acc; simpl.
  { unfold of_digits. simpl. rewrite Nat.add_0_r. do 2 f_equal; lia. }
  destruct (is_digit_at nptr s); simpl.
  - rewrite IH, of_digits_cons. f_equal; [f_equal|].
    + rewrite Nat2Z.inj_succ, Z.pow_succ_r by lia. ring.
    + lia.
    + apply bool_decide_ext. lia.
  - unfold of_digits. simpl. rewrite Nat.add_0_r. do 2 f_equal; lia.
Qed.

Lemma of_digits_length ds : Forall (fun d => 0 <= d < 10) ds ->
  0 <= of_digits 10 ds < 10 ^ Z.of_nat (length ds).
Proof. apply of_digits_bound. lia. Qed.

Lemma of_digits_lower d ds :
  Forall (fun d => 0 <= d < 10) ds -> 0 < d -> 10 ^ Z.of_nat (length ds) <= of_digits 10 (d :: ds).
Proof. intros H Hd. apply of_digits_length in H. rewrite of_digits_cons. nia. Qed.

Lemma strtoll_end_answer negative v s :
  0 <= v -> v <= strtoll_limit negative -> v < 2 ^ 64 ->
  strtoll_answer negative v s (strtoll_end negative v s).
Proof.
  intros H0 Hl Hv. unfold strtoll_answer, strtoll_end. destruct (Z.leb_spec v (strtoll_limit negative)); [|lia].
  f_equal. destruct negative; [|done]. unfold strtoll_limit, MAX_NEGATIVE_NUMBER in Hl.
  destruct (decide (v = 2 ^ 63)) as [->|]; [done|].
  rewrite (wraps_id 64 v) by (unfold in_s; lia). apply wraps_id; unfold in_s; lia.
Qed.

(** Comparing the three parts with the parts of the limit is comparing the
    number with the limit. *)
Lemma cutoff_spec (negative : bool) i j k :
  0 <= i -> 0 <= j < 10 ^ 9 -> 0 <= k < 100 ->
  let L := if negative then MAX_NEGATIVE_NUMBER else ULLONG_MAX in
  (L / LFACTOR2 <? i) ||
    ((i =? L / LFACTOR2) && ((L mod LFACTOR2 / 100 <? j) ||
                             ((j =? L mod LFACTOR2 / 100) && (L mod 100 <? k)))) =
  (strtoll_limit negative <? i * LFACTOR2 + j * 100 + k).
Proof.
  intros Hi Hj Hk. cbv zeta. unfold strtoll_limit, LFACTOR2.
  destruct negative.
  - change (MAX_NEGATIVE_NUMBER / 100000000000) with 92233720.
    change (MAX_NEGATIVE_NUMBER mod 100000000000 / 100) with 368547758.
    change (MAX_NEGATIVE_NUMBER mod 100) with 8.
    change MAX_NEGATIVE_NUMBER with 9223372036854775808. zcases.
  - change (ULLONG_MAX / 100000000000) with 184467440.
    change (ULLONG_MAX mod 100000000000 / 100) with 737095516.
    change (ULLONG_MAX mod 100) with 15. change ULLONG_MAX with 18446744073709551615. zcases.
Qed.

Lemma digit_run_S n s :
  (0 < n)%nat -> is_digit_at nptr s = true ->
  digit_run nptr n s = digit_at nptr s :: digit_run nptr (n - 1) (S s).
Proof. intros Hn Hd. destruct n as [|n]; [lia|]. simpl. by rewrite Hd, Nat.sub_0_r. Qed.

Lemma digit_run_none n s : n = 0%nat \/ is_digit_at nptr s = false -> digit_run nptr n s = [].
Proof. destruct n; simpl; [done|]. intros [?| ->]; done. Qed.

Lemma strtoll_overflow_answer negative v s e :
  strtoll_limit negative < v -> strtoll_answer negative v e (strtoll_overflow negative s).
Proof.
  intros H. unfold strtoll_answer. rewrite (proj2 (Z.leb_gt _ _)) by done. by destruct negative.
Qed.

(** Nineteen digits. *)
Lemma strtoll_19_answer negative i j k s :
  0 <= i < 10 ^ 9 -> 0 <= j < 10 ^ 9 -> 0 <= k < 10 ->
  let li := wrapu 64 (i * LFACTOR1 + j * 10 + k) in
  strtoll_answer negative ((i * 10 ^ 9 + j) * 10 + k) s
    (if negative && (MAX_NEGATIVE_NUMBER <? li) then strtoll_overflow negative s
     else strtoll_end negative li s).
Proof.
  intros Hi Hj Hk. cbv zeta.
  replace ((i * 10 ^ 9 + j) * 10 + k) with (i * LFACTOR1 + j * 10 + k) by (unfold LFACTOR1; lia).
  set (v := i * LFACTOR1 + j * 10 + k). assert (Hv : 0 <= v < 2 ^ 64) by (unfold v, LFACTOR1; lia).
  rewrite wrapu_id by done. destruct negative; simpl.
  - destruct (Z.ltb_spec MAX_NEGATIVE_NUMBER v); [by apply strtoll_overflow_answer|].
    apply strtoll_end_answer; [lia|done|lia].
  - apply strtoll_end_answer; [lia| |lia]. unfold strtoll_limit, ULLONG_MAX. lia.
Qed.

(** Twenty digits. *)
Lemma strtoll_20_answer (negative : bool) i j k s :
  10 ^ 8 <= i < 10 ^ 9 -> 0 <= j < 10 ^ 9 -> 0 <= k < 100 ->
  strtoll_answer negative ((i * 10 ^ 9 + j) * 100 + k) s
    (if strtoll_limit negative <? i * LFACTOR2 + j * 100 + k then strtoll_overflow negative s
     else mk_strtoll (wraps 64 (wrapu 64 (i * LFACTOR2 + j * 100 + k))) s
            (if negative then -1 else 0)).
Proof.
  intros Hi Hj Hk.
  replace ((i * 10 ^ 9 + j) * 100 + k) with (i * LFACTOR2 + j * 100 + k) by (unfold LFACTOR2; lia).
  set (v := i * LFACTOR2 + j * 100 + k). assert (Hv : 10 ^ 19 <= v) by (unfold v, LFACTOR2; lia).
  destruct (Z.ltb_spec (strtoll_limit negative) v) as [Hlt|Hge];
    [by apply strtoll_overflow_answer|].
  unfold strtoll_answer. rewrite (proj2 (Z.leb_le _ _)) by done.
  destruct negative; [unfold strtoll_limit, MAX_NEGATIVE_NUMBER in Hge; lia|].
  unfold strtoll_limit, ULLONG_MAX in Hge. by rewrite wrapu_id by (unfold in_u; lia).
Qed.

(** After [i] of nine digits and [j] of nine, with at least one more. *)
Lemma strtoll_tail_k_spec negative end_ i j s :
  10 ^ 8 <= i < 10 ^ 9 -> 0 <= j < 10 ^ 9 -> (s < end_)%nat -> is_digit_at nptr s = true ->
  let run := digit_run nptr (end_ - s) s in
  strtoll_answer negative ((i * 10 ^ 9 + j) * 10 ^ Z.of_nat (length run) + of_digits 10 run)
    (s + length run) (strtoll_tail_k nptr negative end_ i j s).
Proof.
  intros Hi Hj Hs Hd. cbv zeta. pose proof (digit_run_digits (end_ - s) s) as Hall.
  rewrite (digit_run_S (end_ - s) s) in * by (done || lia).
  apply Forall_cons in Hall as [Hk Hall]. unfold strtoll_tail_k. set (k := digit_at nptr s) in *.
  destruct ((S s =? end_)%nat || negb (is_digit_at nptr (S s))) eqn:E1.
  { rewrite (digit_run_none (end_ - s - 1)); cycle 1.
    { apply orb_true_iff in E1 as [F%Nat.eqb_eq|F%negb_true_iff]; [left; lia|by right]. }
    unfold of_digits. cbn [length foldl]. rewrite Nat.add_1_r.
    change (10 ^ Z.of_nat 1) with 10. change (0 * 10 + k) with k.
    apply strtoll_19_answer; lia. }
  apply orb_false_iff in E1 as [F1%Nat.eqb_neq F2%negb_false_iff].
  rewrite (digit_run_S (end_ - s - 1) (S s)) in * by (done || lia).
  apply Forall_cons in Hall as [Hk2 Hall]. set (k2 := digit_at nptr (S s)) in *.
  replace (end_ - s - 1 - 1)%nat with (end_ - S (S s))%nat in * by lia.
  destruct (negb (S (S s) =? end_)%nat && is_digit_at nptr (S (S s))) eqn:E2.
  { apply andb_true_iff in E2 as [F3%negb_true_iff%Nat.eqb_neq F4].
    apply strtoll_overflow_answer. rewrite (digit_run_S (end_ - S (S s)) (S (S s))) in * by (done || lia).
    set (ds := digit_run nptr (end_ - S (S s) - 1) (S (S (S s)))) in *.
    apply Z.lt_le_trans with (10 ^ 20); [by destruct negative|].
    rewrite of_digits_cons. cbn [length]. rewrite !Nat2Z.inj_succ, !Z.pow_succ_r by lia.
    assert (0 < 10 ^ Z.of_nat (length ds)) by (apply Z.pow_pos_nonneg; lia).
    pose proof (of_digits_length _ (proj2 (Forall_cons _ _ _) (conj Hk2 Hall))). nia. }
  rewrite (digit_run_none (end_ - S (S s))); cycle 1.
  { apply andb_false_iff in E2 as [F%negb_false_iff%Nat.eqb_eq|F]; [left; lia|by right]. }
  unfold of_digits. cbn [length foldl]. rewrite cutoff_spec by lia.
  change (10 ^ Z.of_nat 2) with 100. replace (s + 2)%nat with (S (S s)) by lia.
  change ((0 * 10 + k) * 10 + k2) with (k * 10 + k2). apply strtoll_20_answer; lia.
Qed.

Lemma lfactor_pow n : (n < 9)%nat -> lfactor !!! n = 10 ^ Z.of_nat n.
Proof. intros H. do 9 (destruct n as [|n]; [done|]). lia. Qed.

(** At most eighteen digits always fit. *)
Lemma strtoll_short_answer negative v s :
  0 <= v < 10 ^ 18 -> strtoll_answer negative v s (strtoll_end negative v s).
Proof.
  intros Hv. apply strtoll_end_answer; [lia| |lia].
  destruct negative; unfold strtoll_limit, MAX_NEGATIVE_NUMBER, ULLONG_MAX; lia.
Qed.

(** After [i] of nine digits, with at least one more character. *)
Lemma strtoll_tail_j_spec negative end_ i s :
  10 ^ 8 <= i < 10 ^ 9 -> (s < end_)%nat ->
  let run := digit_run nptr (end_ - s) s in
  strtoll_answer negative (i * 10 ^ Z.of_nat (length run) + of_digits 10 run)
    (s + length run) (strtoll_tail_j nptr negative end_ i s).
Proof.
  intros Hi Hs. cbv zeta. unfold strtoll_tail_j. rewrite read_digits_spec.
  replace (min (s + INIT_CNT) end_ - s)%nat with (min 9 (end_ - s)) by (unfold INIT_CNT; lia).
  set (n := min 9 (end_ - s)). set (r := digit_run nptr n s).
  pose proof (of_digits_length r (digit_run_digits n s)) as Hr.
  pose proof (digit_run_split n (end_ - s) s ltac:(lia)) as Hsplit. fold r in Hsplit.
  rewrite Z.mul_0_l, Z.add_0_l.
  case_bool_decide as Hstop; [|destruct Hsplit as [[? _]|[Hlen Hrun]]; [lia|]].
  { destruct Hsplit as [[_ Hrun]|[? _]]; [|lia]. simpl. rewrite Hrun.
    replace (s + length r - s)%nat with (length r) by lia. rewrite lfactor_pow by lia.
    assert (10 ^ Z.of_nat (length r) <= 10 ^ 8) by (apply Z.pow_le_mono_r; lia).
    assert (0 <= i * 10 ^ Z.of_nat (length r) + of_digits 10 r < 10 ^ 18) by nia.
    rewrite wrapu_id by (unfold in_u; lia). by apply strtoll_short_answer. }
  rewrite Hrun, Hlen. rewrite Hlen in Hr. cbn [orb].
  destruct ((s + n =? end_)%nat && negb (s + n =? s + INIT_CNT)%nat) eqn:E1.
  { apply andb_true_iff in E1 as [F1%Nat.eqb_eq F2%negb_true_iff%Nat.eqb_neq].
    unfold INIT_CNT in F2. rewrite (digit_run_none (end_ - s - n)), app_nil_r, Hlen by (left; lia).
    replace (s + n - s)%nat with n by lia. rewrite lfactor_pow by lia.
    assert (10 ^ Z.of_nat n <= 10 ^ 8) by (apply Z.pow_le_mono_r; lia).
    assert (0 <= i * 10 ^ Z.of_nat n + of_digits 10 r < 10 ^ 18) by nia.
    rewrite wrapu_id by (unfold in_u; lia). by apply strtoll_short_answer. }
  assert (Hn : n = 9%nat).
  { apply andb_false_iff in E1 as [F%Nat.eqb_neq|F%negb_false_iff%Nat.eqb_eq]; unfold INIT_CNT in *; lia. }
  rewrite Hn in *. change (10 ^ Z.of_nat 9) with (10 ^ 9) in Hr.
  destruct ((s + 9 =? end_)%nat || negb (is_digit_at nptr (s + 9))) eqn:E2.
  { rewrite (digit_run_none (end_ - s - 9)), app_nil_r, Hlen; cycle 1.
    { apply orb_true_iff in E2 as [F%Nat.eqb_eq|F%negb_true_iff]; [left; lia|by right]. }
    change (10 ^ Z.of_nat 9) with LFACTOR. unfold LFACTOR.
    rewrite wrapu_id by (unfold in_u; lia). apply strtoll_short_answer. lia. }
  apply orb_false_iff in E2 as [F1%Nat.eqb_neq F2%negb_false_iff].
  replace (end_ - s - 9)%nat with (end_ - (s + 9))%nat by lia.
  set (r2 := digit_run nptr (end_ - (s + 9)) (s + 9)).
  rewrite of_digits_app, length_app, Hlen.
  replace (i * 10 ^ Z.of_nat (9 + length r2) + (of_digits 10 r * 10 ^ Z.of_nat (length r2) +
    of_digits 10 r2)) with ((i * 10 ^ 9 + of_digits 10 r) * 10 ^ Z.of_nat (length r2) + of_digits 10 r2).
  - rewrite Nat.add_assoc. apply strtoll_tail_k_spec; (done || lia).
  - rewrite Nat2Z.inj_add, Z.pow_add_r by lia. change (Z.of_nat 9) with 9. ring.
Qed.

(** From the first significant digits on; [pre] is the one already read. *)
Lemma strtoll_tail_spec negative end_ s pre :
  (length pre <= 1)%nat -> Forall (fun d => 0 <= d < 10) pre -> (s <= end_)%nat ->
  let run := digit_run nptr (end_ - s) s in
  (forall d, head (pre ++ run) = Some d -> d <> 0) ->
  strtoll_answer negative (of_digits 10 (pre ++ run)) (s + length run)
    (strtoll_tail nptr negative end_ (s + (9 - length pre)) (of_digits 10 pre) s).
Proof.
  intros Hp1 Hp Hs. cbv zeta. intros Hhead. unfold strtoll_tail. rewrite read_digits_spec.
  replace (min (s + (9 - length pre)) end_ - s)%nat with (min (9 - length pre) (end_ - s)) by lia.
  set (n := min (9 - length pre) (end_ - s)). set (r := digit_run nptr n s) in *.
  pose proof (digit_run_digits n s) as Hr. fold r in Hr.
  pose proof (digit_run_length n s) as Hlen. fold r in Hlen.
  pose proof (digit_run_split n (end_ - s) s ltac:(lia)) as Hsplit. fold r in Hsplit.
  rewrite <- of_digits_app.
  assert (Hpr : Forall (fun d => 0 <= d < 10) (pre ++ r)) by (apply Forall_app; done).
  pose proof (of_digits_length _ Hpr) as Hv. rewrite length_app in Hv.
  assert (10 ^ Z.of_nat (length pre + length r) <= 10 ^ 9) by (apply Z.pow_le_mono_r; lia).
  case_bool_decide as Hstop; [|destruct Hsplit as [[? _]|[Hl Hrun]]; [lia|]].
  { destruct Hsplit as [[_ Hrun]|[? _]]; [|lia]. simpl. rewrite Hrun.
    apply strtoll_short_answer. lia. }
  simpl. rewrite Hrun in *. destruct (Nat.eqb_spec (s + length r) end_) as [He|He].
  { rewrite (digit_run_none (end_ - s - n)), app_nil_r by (left; lia).
    apply strtoll_short_answer. lia. }
  assert (Hn : (length pre + length r = 9)%nat) by lia. rewrite Hn in Hv.
  rewrite Hl. replace (end_ - s - n)%nat with (end_ - (s + n))%nat in * by lia.
  set (r2 := digit_run nptr (end_ - (s + n)) (s + n)) in *.
  rewrite app_assoc, of_digits_app, (length_app r), Nat.add_assoc, Hl.
  apply strtoll_tail_j_spec; [|lia]. split; [|lia].
  destruct (pre ++ r) as [|d ds] eqn:Epr.
  { apply (f_equal length) in Epr. rewrite length_app in Epr. simpl in Epr. lia. }
  apply Forall_cons in Hpr as [Hd Hds]. specialize (Hhead d).
  rewrite app_assoc, Epr in Hhead. specialize (Hhead eq_refl).
  pose proof (of_digits_lower d ds Hds ltac:(lia)).
  apply (f_equal length) in Epr. rewrite length_app in Epr. simpl in Epr.
  replace (length ds) with 8%nat in * by lia. done.
Qed.

Lemma skip_zeros_spec n : forall s,
  exists z, (z <= n)%nat /\ skip_zeros nptr n s = (s + z)%nat /\
    digit_run nptr n s = replicate z 0 ++ digit_run nptr (n - z) (s + z) /\
    (z = n \/ char_at nptr (s + z) <> ZERO).
Proof.
  induction n as [|n IH]; intros s; cbn [skip_zeros].
  { exists 0%nat. rewrite Nat.add_0_r. split_and!; [done..|by left]. }
  destruct (Z.eqb_spec (char_at nptr s) ZERO) as [E|E].
  - destruct (IH (S s)) as (z & H1 & H2 & H3 & H4). exists (S z).
    rewrite Nat.add_succ_r. split_and!; [lia|by rewrite H2|
      |destruct H4; [left; lia|by right]].
    assert (Hd : digit_at nptr s = 0) by (unfold digit_at; by rewrite E).
    rewrite digit_run_S by (try lia; unfold is_digit_at; by rewrite Hd).
    rewrite Hd. simpl. by rewrite Nat.sub_0_r, H3.
  - exists 0%nat. rewrite Nat.sub_0_r, Nat.add_0_r. split_and!; [lia|done..|by right].
Qed.

Lemma of_digits_zeros z ds : of_digits 10 (replicate z 0 ++ ds) = of_digits 10 ds.
Proof. induction z as [|z IH]; [done|]. simpl. rewrite of_digits_cons, IH. lia. Qed.

Lemma digit_at_zero s : is_digit_at nptr s = true -> digit_at nptr s = 0 ->
  0 <= char_at nptr s < 256 -> char_at nptr s = ZERO.
Proof. unfold digit_at, wrapu, ZERO. intros _ H Hb. Z.div_mod_to_equations. lia. Qed.

Lemma strtoll_digits_spec negative end_ s :
  (forall k, 0 <= char_at nptr k < 256) -> (s < end_)%nat ->
  let ds := digit_run nptr (end_ - s) s in
  (ds = [] -> strtoll_digits nptr negative end_ s = strtoll_no_conv) /\
  (ds <> [] -> strtoll_answer negative (of_digits 10 ds) (s + length ds)
                 (strtoll_digits nptr negative end_ s)).
Proof.
  intros Hb Hs. cbv zeta. unfold strtoll_digits.
  destruct (Z.eqb_spec (char_at nptr s) ZERO) as [Ez|Ez].
  - destruct (skip_zeros_spec (end_ - s) s) as (z & Hz & -> & -> & Hstop).
    assert (Hz0 : (0 < z)%nat).
    { destruct z; [|lia]. rewrite Nat.add_0_r in Hstop. destruct Hstop; [lia|done]. }
    split; [destruct z; [lia|done]|]. intros _.
    rewrite of_digits_zeros, length_app, length_replicate, Nat.add_assoc.
    replace (end_ - s - z)%nat with (end_ - (s + z))%nat by lia.
    destruct (Nat.eqb_spec (s + z) end_) as [He|He].
    { rewrite He, Nat.sub_diag. simpl. rewrite Nat.add_0_r. by apply strtoll_short_answer. }
    apply (strtoll_tail_spec negative end_ (s + z) []); [simpl; lia|constructor|lia|].
    intros d Hd ->. destruct (end_ - (s + z))%nat eqn:En; [lia|]. simpl in Hd.
    destruct (is_digit_at nptr (s + z)) eqn:Ed; [|done]. injection Hd as Hd.
    destruct Hstop; [lia|]. specialize (Hb (s + z)%nat).
    by apply digit_at_zero in Hd; [|done|lia].
  - destruct (is_digit_at nptr s) eqn:Ed; simpl.
    + rewrite digit_run_S by (done || lia). split; [done|]. intros _.
      replace (end_ - s - 1)%nat with (end_ - S s)%nat by lia.
      replace (s + length (digit_at nptr s :: digit_run nptr (end_ - S s) (S s)))%nat
        with (S s + length (digit_run nptr (end_ - S s) (S s)))%nat by (simpl; lia).
      replace (s + INIT_CNT - 0)%nat with (S s + (9 - length [digit_at nptr s]))%nat
        by (unfold INIT_CNT; simpl; lia).
      replace (digit_at nptr s) with (of_digits 10 [digit_at nptr s]) at 2 by (unfold of_digits; simpl; lia).
      apply (strtoll_tail_spec negative end_ (S s) [digit_at nptr s]); [simpl; lia| |lia|].
      * apply Forall_singleton. pose proof (digit_run_digits 1 s) as H. simpl in H. rewrite Ed in H.
        by apply Forall_cons in H as [H _].
      * intros d [= <-] H0. specialize (Hb s). by apply digit_at_zero in H0; [|done|lia].
    + rewrite digit_run_none by by right. done.
Qed.
End strtoll.

(** ** Reference: decimal numbers in a text *)

Fixpoint count_while (f : Z -> bool) (l : list Z) : nat :=
  match l with
  | [] => 0
  | c :: l => if f c then S (count_while f l) else 0
  end.

Definition is_blank (c : Z) : bool := (c =? SPACE) || (c =? TAB).
Definition is_decimal (c : Z) : bool := (48 <=? c) && (c <=? 57).

(** Whether the number is negative, where its digits start, and the digits. *)
Definition decimal_ref (text : list Z) : bool * nat * list Z :=
  let b := count_while is_blank text in
  let negative := char_at text b =? MINUS in
  let pos := if negative || (char_at text b =? PLUS) then S b else b in
  let t := drop pos text in
  (negative, pos, map (fun c => c - ZERO) (take (count_while is_decimal t) t)).

Section decimal.
Implicit Types (nptr text : list Z) (n s : nat).

Lemma char_at_drop nptr s : char_at nptr s = match drop s nptr with [] => 0 | c :: _ => c end.
Proof. revert nptr. induction s as [|s IH]; intros [|c nptr]; simpl; try done. apply IH. Qed.

Lemma drop_S nptr s c r : drop s nptr = c :: r -> drop (S s) nptr = r.
Proof. intros H. replace (S s) with (s + 1)%nat by lia. rewrite <- drop_drop, H. done. Qed.

Lemma skip_blanks_spec nptr n : forall s,
  skip_blanks nptr n s = (s + count_while is_blank (take n (drop s nptr)))%nat.
Proof.
  induction n as [|n IH]; intros s; simpl; [lia|].
  rewrite char_at_drop. destruct (drop s nptr) as [|c r] eqn:E; simpl; [lia|].
  fold (is_blank c). destruct (is_blank c); [|lia].
  rewrite IH, (drop_S _ _ _ _ E). lia.
Qed.

Lemma is_digit_decimal nptr s :
  0 <= char_at nptr s < 256 -> is_digit_at nptr s = is_decimal (char_at nptr s) /\
  (is_digit_at nptr s = true -> digit_at nptr s = char_at nptr s - ZERO).
Proof.
  unfold is_digit_at, digit_at, is_decimal, ZERO, wrapu. intros H.
  destruct (Z.leb_spec 48 (char_at nptr s)).
  - rewrite Z.mod_small by lia. split; [zcases|done].
  - assert (E : (char_at nptr s - 48) mod 2 ^ 8 = char_at nptr s - 48 + 256).
    { symmetry. apply Z.mod_unique with (-1); lia. }
    rewrite E. split; zcases.
Qed.

Lemma digit_run_spec nptr n : forall s,
  (forall k, 0 <= char_at nptr k < 256) ->
  digit_run nptr n s =
    map (fun c => c - ZERO)
      (take (count_while is_decimal (take n (drop s nptr))) (take n (drop s nptr))).
Proof.
  induction n as [|n IH]; intros s Hb; simpl; [done|].
  destruct (is_digit_decimal nptr s (Hb s)) as [H1 H2]. rewrite H1 in *.
  rewrite (char_at_drop nptr s) in *.
  destruct (drop s nptr) as [|c r] eqn:E; simpl; [done|].
  destruct (is_decimal c) eqn:Ec; simpl; [|done].
  rewrite H2, IH, (drop_S _ _ _ _ E) by done. done.
Qed.

Lemma count_while_le f l : (count_while f l <= length l)%nat.
Proof. induction l as [|c l IH]; simpl; [lia|]. destruct (f c); lia. Qed.

Lemma char_at_byte nptr k : Forall (fun c => 0 <= c < 256) nptr -> 0 <= char_at nptr k < 256.
Proof.
  intros H. unfold char_at. destruct (decide (k < length nptr)%nat) as [Hk|Hk].
  - rewrite Forall_forall in H. apply H, list_elem_of_In, nth_In. done.
  - rewrite nth_overflow by lia. lia.
Qed.
End decimal.

(** ** Properties *)

Lemma strtoll_digits_ref nptr text negative end_ pos :
  Forall (fun c => 0 <= c < 256) nptr -> (pos < end_)%nat ->
  take (end_ - pos) (drop pos nptr) = drop pos text ->
  let ds := map (fun c => c - ZERO) (take (count_while is_decimal (drop pos text)) (drop pos text)) in
  (ds = [] -> strtoll_digits nptr negative end_ pos = strtoll_no_conv) /\
  (ds <> [] -> strtoll_answer negative (of_digits 10 ds) (pos + length ds)
                 (strtoll_digits nptr negative end_ pos)).
Proof.
  intros Hb Hpos E. cbv zeta. rewrite <- E, <- digit_run_spec by (intros; by apply char_at_byte).
  apply strtoll_digits_spec; [|done]. intros. by apply char_at_byte.
Qed.

Lemma my_strtoll10_spec nptr endptr text :
  Forall (fun c => 0 <= c < 256) nptr ->
  match endptr with
  | Some e => (e <= length nptr)%nat /\ text = take e nptr
  | None => text = nptr /\ (0 ∉ nptr) /\ Z.of_nat (length nptr) < 65535
  end ->
  let '(negative, pos, ds) := decimal_ref text in
  (ds = [] -> my_strtoll10 nptr endptr = strtoll_no_conv) /\
  (ds <> [] -> strtoll_answer negative (of_digits 10 ds) (pos + length ds)
                 (my_strtoll10 nptr endptr)).
Proof.
  intros Hb Hend. unfold decimal_ref, my_strtoll10.
  destruct endptr as [e|]; rewrite !skip_blanks_spec, !Nat.add_0_l; change (drop 0 nptr) with nptr.
  - destruct Hend as [He ->]. set (b := count_while is_blank (take e nptr)).
    pose proof (count_while_le is_blank (take e nptr)) as Hbe. fold b in Hbe. rewrite length_take in Hbe.
    destruct (Nat.eqb_spec b e) as [E|E].
    { assert (Hc : char_at (take e nptr) b = 0).
      { unfold char_at. apply nth_overflow. rewrite length_take. lia. }
      rewrite Hc. simpl. rewrite drop_ge by (rewrite length_take; lia). by split; [|intros []]. }
    assert (Hc : char_at (take e nptr) b = char_at nptr b).
    { unfold char_at. rewrite nth_firstn. by rewrite (proj2 (Nat.ltb_lt b e)) by lia. }
    rewrite Hc. destruct ((_ || _) && _) eqn:Es.
    { apply andb_true_iff in Es as [Es1 Es2%Nat.eqb_eq]. rewrite Es1 in *.
      rewrite drop_ge by (rewrite length_take; lia). by split; [|intros []]. }
    apply strtoll_digits_ref; [done| |].
    + destruct ((char_at nptr b =? MINUS) || (char_at nptr b =? PLUS)); [|lia].
      apply andb_false_iff in Es as [Hf|?%Nat.eqb_neq]; [discriminate Hf|lia].
    + rewrite take_drop_commute. f_equal. f_equal.
      destruct (_ || _); [|lia].
      apply andb_false_iff in Es as [Hf|?%Nat.eqb_neq]; [discriminate Hf|lia].
  - destruct Hend as (-> & H0 & Hlen). rewrite (take_ge nptr (length nptr)) by lia.
    set (b := count_while is_blank nptr).
    pose proof (count_while_le is_blank nptr) as Hbe. fold b in Hbe.
    destruct (Z.eqb_spec (char_at nptr b) 0) as [E|E].
    { rewrite E. simpl. destruct (decide (b = length nptr)) as [->|Hne].
      - rewrite drop_ge by lia. by split; [|intros []].
      - exfalso. apply H0. rewrite <- E. apply list_elem_of_In, nth_In. lia. }
    destruct ((_ || _) && _) eqn:Es.
    { apply andb_true_iff in Es as [Es1 Es2%Nat.eqb_eq]. rewrite Es1 in *. lia. }
    apply strtoll_digits_ref; [done|destruct (_ || _); lia|].
    apply take_ge. rewrite length_drop. destruct (_ || _); lia.
Qed.

(** C39: [my_strtoll10] reads the decimal number at the front of a text, be the
    text delimited by [endptr] or by a zero byte: blanks, a sign, digits.
    Without digits it reports EDOM and consumes nothing.  A magnitude up to
    [2^64 - 1], or [2^63] for a negative number, is returned exactly, with the
    position after its last digit; a larger one is reported as ERANGE.  The
    conversion in three parts of nine, nine and two digits never loses or
    invents a digit. *)
Theorem my_strtoll10_correct nptr endptr text :
  Forall (fun c => 0 <= c < 256) nptr ->
  match endptr with
  | Some e => (e <= length nptr)%nat /\ text = take e nptr
  | None => text = nptr /\ (0 ∉ nptr) /\ Z.of_nat (length nptr) < 65535
  end ->
  let '(negative, pos, ds) := decimal_ref text in
  (ds = [] -> my_strtoll10 nptr endptr = strtoll_no_conv) /\
  (ds <> [] -> strtoll_answer negative (of_digits 10 ds) (pos + length ds)
                 (my_strtoll10 nptr endptr)).
Proof. apply my_strtoll10_spec. Qed.

(** " -12x" of which the first four characters are the number field. *)
Definition ex_number : list Z := [32; 45; 49; 50; 120].

Lemma my_strtoll10_correct_witness :
  decimal_ref (take 4 ex_number) = (true, 2%nat, [1; 2]) /\
  strtoll_answer true (of_digits 10 [1; 2]) 4 (my_strtoll10 ex_number (Some 4%nat)).
Proof.
  split; [reflexivity|].
  pose proof (my_strtoll10_correct ex_number (Some 4%nat) (take 4 ex_number)) as H.
  assert (Hb : Forall (fun c => 0 <= c < 256) ex_number)
    by (repeat (apply Forall_cons; split; [lia|]); constructor).
  assert (He : (4 <= length ex_number)%nat) by (vm_compute; lia).
  specialize (H Hb (conj He eq_refl)).
  destruct (decimal_ref (take 4 ex_number)) as [[negative pos] ds] eqn:E.
  vm_compute in E. injection E as <- <- <-. apply H. discriminate.
Defined.

(** [int2str] prints in every radix from 2 to 36 the sign, if the radix is
    negative and asks for one, and the digits of the magnitude without leading
    zeros; their value is the magnitude of the argument, or its unsigned
    64-bit pattern for a positive radix.  They fit the 64 places of its buffer. *)
Theorem int2str_correct val radix upcase :
  in_s 64 val -> 2 <= Z.abs radix <= 36 ->
  exists sign ds,
    int2str val radix upcase =
      Some (sign ++ map (dig (if upcase then _dig_vec_upper else _dig_vec_lower)) ds) /\
    sign = (if (radix <? 0) && (val <? 0) then [MINUS] else []) /\
    of_digits (Z.abs radix) ds = (if radix <? 0 then Z.abs val else wrapu 64 val) /\
    Forall (fun d => 0 <= d < Z.abs radix) ds /\ (length ds <= buffer_digits)%nat /\
    (ds = [0] \/ exists d ds', ds = d :: ds' /\ d <> 0).
Proof.
  intros Hv Hr. rewrite int2str_spec by done. unfold num_text.
  pose proof (sign_and_uval_range val radix) as [Hu0 Hu].
  destruct (sign_and_uval val radix) as [sign u] eqn:Es. simpl in Hu0, Hu.
  exists sign, (digits (Z.abs radix) u).
  destruct (digits_spec (Z.abs radix) u) as [Hd1 Hd2]; [lia..|].
  split_and!; [done| | |done| |].
  - unfold sign_and_uval in Es. destruct (_ && _); by injection Es as <- <-.
  - rewrite Hd1. unfold sign_and_uval, wrapu, in_s in *.
    destruct (Z.ltb_spec radix 0), (Z.ltb_spec val 0); injection Es as _ <-; cbn [andb].
    + rewrite Zminus_mod_idemp_r. rewrite Z.mod_small by lia. lia.
    + rewrite Z.mod_small by lia. lia.
    + done.
    + done.
  - destruct (decide (u = 0)) as [->|Hz]; [unfold digits, buffer_digits; simpl; lia|].
    rewrite (digits_fuel buffer_digits); [|lia|split; [lia|exact Hu]].
    apply (digits_acc_spec (Z.abs radix) buffer_digits u); [lia|split; [lia|exact Hu]].
  - destruct (decide (u = 0)) as [->|Hz]; [by left|right].
    destruct (digits_head (Z.abs radix) u) as (d & ds & E & Hd); [lia..|]. exists d, ds. split; [done|lia].
Qed.

Lemma int2str_correct_witness :
  exists sign ds,
    int2str (- 2 ^ 63) (-16) true = Some (sign ++ map (dig _dig_vec_upper) ds) /\
    sign = [MINUS] /\ of_digits 16 ds = 2 ^ 63 /\
    Forall (fun d => 0 <= d < 16) ds /\ (length ds <= buffer_digits)%nat /\
    (ds = [0] \/ exists d ds', ds = d :: ds' /\ d <> 0).
Proof. apply (int2str_correct (- 2 ^ 63) (-16) true); [unfold in_s; lia|lia]. Defined.

(** The four printing routines agree: [ll2str], which works with 64-bit
    values where [long] has 32 bits, with [int2str] for every radix; the two
    routines for radix ten with [int2str] for the radix of the same sign. *)
Theorem print_routines_agree val radix upcase :
  ll2str val radix upcase = int2str val radix upcase /\
  int10_to_str val radix = int2str val (if radix <? 0 then -10 else 10) upcase /\
  longlong10_to_str val radix = int10_to_str val radix.
Proof.
  split_and!.
  - destruct (if radix <? 0 then (radix <? -36) || (-2 <? radix)
              else (36 <? radix) || (radix <? 2)) eqn:E.
    + unfold ll2str, int2str. by rewrite E.
    + apply radix_guard in E. by rewrite ll2str_spec, int2str_spec.
  - rewrite int10_to_str_spec, int2str_spec by (destruct (radix <? 0); lia).
    f_equal. by apply num_text_decimal.
  - by rewrite int10_to_str_spec, longlong10_to_str_spec.
Qed.

(** ** The C library's strtoll

    With base 0: white space, a sign, and a number that is hexadecimal after
    "0x", octal after "0", decimal otherwise; clamped to the range of
    [long long].  Returns the value and the text after the number, which is the
    whole text if there is no number. *)

Definition c_isspace (c : Z) : bool := (c =? 32) || ((9 <=? c) && (c <=? 13)).

Definition digit_value (c : Z) : Z :=
  if (48 <=? c) && (c <=? 57) then c - 48
  else if (97 <=? c) && (c <=? 122) then c - 87
  else if (65 <=? c) && (c <=? 90) then c - 55
  else 99.

Definition strtoll_base (s : list Z) : Z * list Z :=
  match s with
  | c0 :: r =>
      if c0 =? ZERO then
        match r with
        | x :: c :: r =>
            if ((x =? 120) || (x =? 88)) && (digit_value c <? 16) then (16, c :: r) else (8, s)
        | _ => (8, s)
        end
      else (10, s)
  | [] => (10, s)
  end.

Definition strtoll_magnitude (s : list Z) : option (Z * list Z) :=
  let '(base, s) := strtoll_base s in
  match count_while (fun c => digit_value c <? base) s with
  | O => None
  | (S _) as n => Some (of_digits base (map digit_value (take n s)), drop n s)
  end.

Definition strtoll_sign (s : list Z) : bool * list Z :=
  match s with
  | c :: r => if c =? MINUS then (true, r) else if c =? PLUS then (false, r) else (false, s)
  | [] => (false, s)
  end.

Definition strtoll (nptr : list Z) : Z * list Z :=
  let '(negative, s) := strtoll_sign (drop (count_while c_isspace nptr) nptr) in
  match strtoll_magnitude s with
  | None => (0, nptr)
  | Some (v, rest) =>
      (if negative then Z.max LLONG_MIN (- v) else Z.min LLONG_MAX v, rest)
  end.

Section libc.
Implicit Types (s ds : list Z).

Lemma count_while_map_app f (g : Z -> Z) ds s :
  Forall (fun d => f (g d) = true) ds -> (forall c r, s = c :: r -> f c = false) ->
  count_while f (map g ds ++ s) = length ds.
Proof.
  intros Hds Hs. induction Hds as [|d ds Hd _ IH]; simpl.
  - destruct s as [|c r]; [done|]. simpl. by rewrite (Hs c r eq_refl).
  - by rewrite Hd, IH.
Qed.

Lemma digit_value_decimal d : 0 <= d < 10 -> digit_value (dig _dig_vec_upper d) = d.
Proof.
  intros Hd. rewrite (decimal_digit d true Hd). unfold digit_value. zcases.
Qed.

Lemma map_digit_value ds :
  Forall (fun d => 0 <= d < 10) ds -> map digit_value (map (dig _dig_vec_upper) ds) = ds.
Proof. induction 1 as [|d ds Hd _ IH]; simpl; [done|]. by rewrite IH, digit_value_decimal. Qed.

(** A decimal number is read back. *)
Lemma strtoll_digits_app n s :
  0 < n <= LLONG_MAX -> (forall c r, s = c :: r -> 10 <= digit_value c) ->
  strtoll (map (dig _dig_vec_upper) (digits 10 n) ++ s) = (n, s).
Proof.
  intros Hn Hs. destruct (digits_spec 10 n) as [Hv Hd]; [lia..|].
  destruct (digits_head 10 n) as (d & ds & E & Hd0); [lia..|].
  assert (Hc : dig _dig_vec_upper d = 48 + d) by (apply (decimal_digit d true); lia).
  set (t := map (dig _dig_vec_upper) (digits 10 n) ++ s).
  assert (Et : t = 48 + d :: map (dig _dig_vec_upper) ds ++ s) by (unfold t; rewrite E; simpl; by rewrite Hc).
  assert (Hsp : count_while c_isspace t = 0%nat) by (rewrite Et; simpl; unfold c_isspace; zcases).
  assert (Hsg : strtoll_sign t = (false, t)) by (rewrite Et; unfold strtoll_sign, MINUS, PLUS; zcases).
  assert (Hbs : strtoll_base t = (10, t)) by (rewrite Et; unfold strtoll_base, ZERO; zcases).
  unfold strtoll, strtoll_magnitude. rewrite Hsp. change (drop 0 t) with t. rewrite Hsg, Hbs.
  assert (Hcw : count_while (fun c => digit_value c <? 10) t = length (digits 10 n)).
  { apply count_while_map_app.
    - eapply Forall_impl; [exact Hd|]. intros x Hx. simpl in *.
      rewrite digit_value_decimal by done. apply Z.ltb_lt; lia.
    - intros c r Hcr. apply Z.ltb_ge. eauto. }
  rewrite Hcw. destruct (length (digits 10 n)) eqn:El; [by rewrite E in El|]. rewrite <- El.
  unfold t. rewrite take_app_length', drop_app_length' by (by rewrite length_map).
  rewrite map_digit_value, Hv by done. f_equal. lia.
Qed.
End libc.
