(* ===== verification/Bytes.v ===== *)
(** * Byte order and length-encoded integers

    [include/byte_order_generic.h] and [include/my_byteorder.h] (little-endian
    stores and loads), and [sql-common/pack.c] (length-encoded integers of the
    client/server protocol).  A buffer is a list of bytes as [Z]; a store
    yields the bytes written, a load reads from the front of a list.  Loads
    past the end of a buffer read [0] here; their callers' theorems have the
    bytes in place. *)

From Stdlib Require Import ZArith Lia.
From stdpp Require Import base numbers option tactics list.
From S2P Require Import Prelude Uuid.

#[local] Open Scope Z_scope.

(** The conversion [(uchar) A]. *)
Definition uchar (z : Z) : Z := z mod 256.

Definition uint2korr (A : list Z) : Z :=
  wrapu 16 (A !!! 0%nat + Z.shiftl (A !!! 1%nat) 8).
Definition uint3korr (A : list Z) : Z :=
  wrapu 32 (A !!! 0%nat + Z.shiftl (A !!! 1%nat) 8 + Z.shiftl (A !!! 2%nat) 16).
Definition uint4korr (A : list Z) : Z :=
  wrapu 32 (A !!! 0%nat + Z.shiftl (A !!! 1%nat) 8 + Z.shiftl (A !!! 2%nat) 16 +
            Z.shiftl (A !!! 3%nat) 24).
Definition uint8korr (A : list Z) : Z :=
  wrapu 64 (wrapu 32 (A !!! 0%nat + Z.shiftl (A !!! 1%nat) 8 + Z.shiftl (A !!! 2%nat) 16 +
                      Z.shiftl (A !!! 3%nat) 24) +
            Z.shiftl (wrapu 32 (A !!! 4%nat + Z.shiftl (A !!! 5%nat) 8 +
                      Z.shiftl (A !!! 6%nat) 16 + Z.shiftl (A !!! 7%nat) 24)) 32).
Definition sint8korr (A : list Z) : Z := wraps 64 (uint8korr A).

Definition int2store (A : Z) : list Z := [uchar A; uchar (Z.shiftr A 8)].
Definition int3store (A : Z) : list Z :=
  [uchar A; uchar (Z.shiftr A 8); uchar (Z.shiftr A 16)].
Definition int4store (A : Z) : list Z :=
  [uchar A; uchar (Z.shiftr A 8); uchar (Z.shiftr A 16); uchar (Z.shiftr A 24)].
Definition int8store (A : Z) : list Z :=
  int4store (wrapu 32 A) ++ int4store (wrapu 32 (Z.shiftr A 32)).

Ltac bytes_arith :=
  unfold uint2korr, uint3korr, uint4korr, uint8korr, int2store, int3store, int4store,
    int8store, uchar, wrapu, in_u, is_byte in *; simpl;
  rewrite ?Z.shiftl_mul_pow2, ?Z.shiftr_div_pow2 by lia; simpl;
  change (2 ^ 8) with 256 in *; change (2 ^ 16) with 65536 in *;
  change (2 ^ 24) with 16777216 in *; change (2 ^ 32) with 4294967296 in *;
  change (2 ^ 64) with 18446744073709551616 in *; Z.div_mod_to_equations; lia.

Section byte_order.
Implicit Types r : list Z.

Lemma uint2korr_int2store a r : in_u 16 a -> uint2korr (int2store a ++ r) = a.
Proof. intros H. bytes_arith. Qed.
Lemma uint3korr_int3store a r : in_u 24 a -> uint3korr (int3store a ++ r) = a.
Proof. intros H. bytes_arith. Qed.
Lemma uint4korr_int4store a r : in_u 32 a -> uint4korr (int4store a ++ r) = a.
Proof. intros H. bytes_arith. Qed.

Lemma uint8korr_app a b r :
  length a = 4%nat -> length b = 4%nat ->
  uint8korr (a ++ b ++ r) = wrapu 64 (uint4korr (a ++ b ++ r) + 2 ^ 32 * uint4korr (b ++ r)).
Proof.
  intros Ha Hb. destruct a as [|a0 [|a1 [|a2 [|a3 [|]]]]], b as [|b0 [|b1 [|b2 [|b3 [|]]]]];
    try discriminate. unfold uint8korr, uint4korr. simpl.
  rewrite (Z.shiftl_mul_pow2 _ 32) by lia. f_equal. ring.
Qed.

Lemma uint8korr_int8store a r : in_u 64 a -> uint8korr (int8store a ++ r) = a.
Proof.
  intros H. unfold int8store. rewrite <- app_assoc, uint8korr_app by done.
  rewrite !uint4korr_int4store by (apply wrapu_range; lia).
  unfold wrapu, in_u in *. rewrite Z.shiftr_div_pow2 by lia.
  assert (a / 2 ^ 32 < 2 ^ 32) by (apply Z.div_lt_upper_bound; lia).
  assert (0 <= a / 2 ^ 32) by (apply Z.div_pos; lia).
  rewrite (Z.mod_small (a / 2 ^ 32)) by done.
  rewrite Z.add_comm, <- Z.div_mod by lia. by apply Z.mod_small.
Qed.

Lemma int8store_wrap a : int8store (wrapu 64 a) = int8store a.
Proof.
  unfold int8store, wrapu. f_equal; f_equal.
  - apply Z.mod_mod_divide. by exists (2 ^ 32).
  - rewrite !Z.shiftr_div_pow2 by lia. Z.div_mod_to_equations. lia.
Qed.

Lemma sint8korr_int8store a r : in_s 64 a -> sint8korr (int8store a ++ r) = a.
Proof.
  intros H. unfold sint8korr. rewrite <- int8store_wrap, uint8korr_int8store
    by (apply wrapu_range; lia).
  by apply wraps_wrapu.
Qed.

Lemma uint8korr_range A : in_u 64 (uint8korr A).
Proof. by apply wrapu_range. Qed.

Lemma sint8korr_range A : in_s 64 (sint8korr A).
Proof.
  unfold sint8korr, wraps, in_s. pose proof (Z.mod_pos_bound (uint8korr A + 2 ^ (64 - 1)) (2 ^ 64)).
  lia.
Qed.

Lemma int8store_length a : length (int8store a) = 8%nat.
Proof. done. Qed.

Lemma int8store_bytes a : Forall is_byte (int8store a).
Proof.
  assert (H : forall z, is_byte (uchar z)) by (intros z; apply Z.mod_pos_bound; lia).
  repeat constructor; apply H.
Qed.
End byte_order.

#[export] Hint Rewrite int8store_length : mysql_simpl.
Arguments uint2korr : simpl never.
Arguments uint3korr : simpl never.
Arguments uint4korr : simpl never.
Arguments uint8korr : simpl never.
Arguments sint8korr : simpl never.
Arguments int2store : simpl never.
Arguments int3store : simpl never.
Arguments int4store : simpl never.
Arguments int8store : simpl never.

(** ** Length-encoded integers *)

Module Pack.

Definition NULL_LENGTH : Z := 2 ^ 64 - 1.

(** Each reader returns the length and the number of bytes it consumed; the
  first byte selects the format. *)
Definition net_field_length (pos : list Z) : Z * nat :=
if pos !!! 0%nat <? 251 then (pos !!! 0%nat, 1%nat)
else if pos !!! 0%nat =? 251 then (NULL_LENGTH, 1%nat)
else if pos !!! 0%nat =? 252 then (uint2korr (tail pos), 3%nat)
else if pos !!! 0%nat =? 253 then (uint3korr (tail pos), 4%nat)
else (uint4korr (tail pos), 9%nat).

Definition net_field_length_checked (pos : list Z) (max_length : Z) : Z * nat :=
if pos !!! 0%nat <? 251 then
  let len := pos !!! 0%nat in (if max_length <? len then max_length else len, 1%nat)
else if pos !!! 0%nat =? 251 then (NULL_LENGTH, 1%nat)
else if pos !!! 0%nat =? 252 then
  let len := uint2korr (tail pos) in (if max_length <? len then max_length else len, 3%nat)
else if pos !!! 0%nat =? 253 then
  let len := uint3korr (tail pos) in (if max_length <? len then max_length else len, 4%nat)
else let len := uint4korr (tail pos) in (if max_length <? len then max_length else len, 9%nat).

Definition net_field_length_ll (pos : list Z) : Z * nat :=
if pos !!! 0%nat <? 251 then (pos !!! 0%nat, 1%nat)
else if pos !!! 0%nat =? 251 then (NULL_LENGTH, 1%nat)
else if pos !!! 0%nat =? 252 then (uint2korr (tail pos), 3%nat)
else if pos !!! 0%nat =? 253 then (uint3korr (tail pos), 4%nat)
else (uint8korr (tail pos), 9%nat).

Definition net_store_length (len : Z) : list Z :=
if len <? 251 then [uchar len]
else if len <? 65536 then 252 :: int2store (wrapu 32 len)
else if len <? 16777216 then 253 :: int3store (wrapu 32 len)
else 254 :: int8store len.

Definition net_length_size (num : Z) : Z :=
if num <? 252 then 1
else if num <? 65536 then 3
else if num <? 16777216 then 4
else 9.

Definition net_field_length_size (pos : list Z) : Z :=
if pos !!! 0%nat <=? 251 then 1
else if pos !!! 0%nat =? 252 then 3
else if pos !!! 0%nat =? 253 then 4
else 9.

Lemma tail_cons_app {A} (c : A) l r : tail ((c :: l) ++ r) = l ++ r.
Proof. done. Qed.

(** Case analysis on the four formats of a stored length. *)
Lemma net_store_length_cases len :
in_u 64 len ->
(len < 251 /\ net_store_length len = [len]) \/
(251 <= len < 2 ^ 16 /\ net_store_length len = 252 :: int2store len) \/
(2 ^ 16 <= len < 2 ^ 24 /\ net_store_length len = 253 :: int3store len) \/
(2 ^ 24 <= len /\ net_store_length len = 254 :: int8store len).
Proof.
intros H. unfold net_store_length, in_u in *.
zcases; [left|right; left|right; right; left|right; right; right];
  (split; [lia|]); try done.
- unfold uchar. by rewrite Z.mod_small by lia.
- rewrite wrapu_id; [done|unfold in_u; lia].
- rewrite wrapu_id; [done|unfold in_u; lia].
Qed.


(** Length-encoded integers round-trip: for every 64-bit length,
  [net_field_length_ll] applied to what [net_store_length] wrote returns the
  length, consumes exactly the bytes written, and [net_field_length_size]
  predicts their number. *)
Theorem net_length_roundtrip len r :
in_u 64 len ->
net_field_length_ll (net_store_length len ++ r) = (len, length (net_store_length len)) /\
net_field_length_size (net_store_length len ++ r) = Z.of_nat (length (net_store_length len)).
Proof.
intros H. unfold net_field_length_ll, net_field_length_size.
destruct (net_store_length_cases len H) as [[Hl ->]|[[Hl ->]|[[Hl ->]|[Hl ->]]]]; rewrite ?tail_cons_app.
- simpl. zcases.
- rewrite (uint2korr_int2store len r) by (unfold in_u; lia). done.
- rewrite (uint3korr_int3store len r) by (unfold in_u; lia). done.
- rewrite (uint8korr_int8store len r) by done. done.
Qed.

Lemma net_length_roundtrip_witness :
net_field_length_ll (net_store_length 70000 ++ [7]) = (70000, 4%nat) /\
net_field_length_size (net_store_length 70000 ++ [7]) = 4.
Proof. apply (net_length_roundtrip 70000 [7]). unfold in_u. lia. Defined.

(** [net_field_length] agrees with [net_field_length_ll] up to 4 GB and
  otherwise returns the low 32 bits of the stored length; it never reads a
  different number of bytes. *)
Theorem net_field_length_truncates len r :
in_u 64 len ->
net_field_length (net_store_length len ++ r) = (wrapu 32 len, length (net_store_length len)).
Proof.
intros H. unfold net_field_length.
destruct (net_store_length_cases len H) as [[Hl ->]|[[Hl ->]|[[Hl ->]|[Hl ->]]]]; rewrite ?tail_cons_app.
- rewrite wrapu_id by (unfold in_u in *; lia). simpl. zcases.
- rewrite (uint2korr_int2store len r), wrapu_id by (unfold in_u; lia). done.
- rewrite (uint3korr_int3store len r), wrapu_id by (unfold in_u; lia). done.
- unfold int8store. rewrite <- app_assoc.
  rewrite uint4korr_int4store by (apply wrapu_range; lia). done.
Qed.

Lemma net_field_length_truncates_witness :
net_field_length (net_store_length (2 ^ 32 + 5) ++ []) = (5, 9%nat).
Proof. apply (net_field_length_truncates (2 ^ 32 + 5) []). unfold in_u. lia. Defined.

(** [net_length_size] is the number of bytes [net_store_length] writes for
  every length but 251, for which it announces one byte while three are
  written. *)
Theorem net_length_size_exact num :
in_u 64 num ->
net_length_size num = Z.of_nat (length (net_store_length num)) - (if num =? 251 then 2 else 0).
Proof.
intros H. unfold net_length_size.
destruct (net_store_length_cases num H) as [[Hl ->]|[[Hl ->]|[[Hl ->]|[Hl ->]]]]; simpl;
  zcases.
Qed.

Lemma net_length_size_exact_witness :
net_length_size 251 = Z.of_nat (length (net_store_length 251)) - 2.
Proof. apply (net_length_size_exact 251). unfold in_u. lia. Defined.

End Pack.
