(* ===== verification/GtidCodec.v ===== *)
(** * Binary encoding of GTID sets

    [Gtid_set::encode], [get_encoded_length] and [add_gtid_encoding] of
    [sql/rpl_gtid_set.cc]: the format of [Previous_gtids] events and of the
    auto-position protocol.  The number of SIDs, then for each SID in UUID
    order its 16 bytes, the number of its intervals, and the intervals, every
    number in eight little-endian bytes.

    [UB] is a read outside of the buffer.  The loop counters of the decoder
    are 32-bit, the counts they run up to 64-bit, as in the code. *)

From Stdlib Require Import ZArith Lia.
From stdpp Require Import sorting base numbers option gmap tactics list.
From S2P Require Import Prelude Bytes GtidInterval Uuid SidMap GtidSet.

#[local] Open Scope Z_scope.
#[local] Open Scope mysql_scope.

Fixpoint encode_intervals (l : list Interval) : list Z :=
  match l with
  | [] => []
  | iv :: l => int8store (iv_start iv) ++ int8store (iv_end iv) ++ encode_intervals l
  end.

(** Returns the number of SIDs written and their bytes. *)
Fixpoint encode_loop (gs : Gtid_set) (m : Sid_map) (sorted : list rpl_sidno)
  : Z * list Z :=
  match sorted with
  | [] => (0, [])
  | sidno :: r =>
      let '(n_sids, buf) := encode_loop gs m r in
      if decide (get_max_sidno gs < sidno)%nat then (n_sids, buf)
      else
        match intervals_of gs sidno with
        | [] => (n_sids, buf)
        | (_ :: _) as l =>
            (n_sids + 1,
             sidno_to_sid m sidno ++ int8store (Z.of_nat (length l)) ++
             encode_intervals l ++ buf)
        end
  end.

Definition Gtid_set_encode (gs : Gtid_set) (m : Sid_map) : list Z :=
  let '(n_sids, buf) := encode_loop gs m (_sorted m) in
  int8store n_sids ++ buf.

Definition get_encoded_length (gs : Gtid_set) : Z :=
  foldl (fun ret sidno =>
           if contains_sidno gs sidno then ret + (16 + 8 + 2 * 8 * get_n_intervals_of gs sidno)
           else ret)
        8 (seq 1 (get_max_sidno gs)).

(** The intervals of one SID, read from [enc]; the state is the iterator with
    the free list, the result the new position and the bytes left. *)
Fixpoint decode_intervals (enc : list Z) (i n_intervals last pos : Z)
    (it : Interval_iterator) (p : Gtid_set_store)
  : outcome (Interval_iterator * Gtid_set_store) (Z * list Z) :=
  if i <? n_intervals then
    match enc with
    | a0 :: a1 :: a2 :: a3 :: a4 :: a5 :: a6 :: a7 ::
      b0 :: b1 :: b2 :: b3 :: b4 :: b5 :: b6 :: b7 :: enc =>
        let start := sint8korr [a0; a1; a2; a3; a4; a5; a6; a7] in
        let end_ := sint8korr [b0; b1; b2; b3; b4; b5; b6; b7] in
        if (start <=? last) || (end_ <=? start) then Err (it, p)
        else
          match add_gno_interval (ivit_seek it start) start end_ p with
          | None => UB
          | Some (it, p) =>
              decode_intervals enc (wrapu 32 (i + 1)) n_intervals end_ (pos + 16) it p
          end
    | _ => UB
    end
  else Ok (it, p) (pos, enc).

(** Every iteration consumes at least 24 bytes, so the length of the buffer is
    enough fuel; with no byte left the length check fails. *)
Fixpoint decode_sids (fuel : nat) (len : Z) (enc : list Z) (i n_sids pos : Z)
    (st : Gtid_set * Sid_map) : outcome (Gtid_set * Sid_map) Z :=
  if i <? n_sids then
    if wrapu 64 (len - pos) <? 16 + 8 then Err st
    else
      match fuel with
      | O => Err st
      | S fuel =>
          let '(gs, m) := st in
          let sid := take 16 enc in
          let n_intervals := uint8korr (drop 16 enc) in
          let enc := drop 24 enc in
          let pos := pos + 16 + 8 in
          let '(sidno, m) := add_sid m sid in
          let gs := ensure_sidno gs sidno in
          if wrapu 64 (len - pos) <? wrapu 64 (2 * 8 * n_intervals) then Err (gs, m)
          else
            match decode_intervals enc 0 n_intervals 0 pos
                    (ivit_init (intervals_of gs sidno)) (gs_store gs) with
            | Ok r (pos, enc) =>
                decode_sids fuel len enc (wrapu 32 (i + 1)) n_sids pos (write_back gs sidno r, m)
            | Err r => Err (write_back gs sidno r, m)
            | UB => UB
            end
      end
  else Ok st pos.

(** [actual]: whether the caller passed [actual_length], in which case the
    encoding may be shorter than the buffer. *)
Definition add_gtid_encoding (encoded : list Z) (actual : bool) (st : Gtid_set * Sid_map)
  : outcome (Gtid_set * Sid_map) Z :=
  let len := Z.of_nat (length encoded) in
  if len <? 8 then Err st
  else
    let? (st, pos) := decode_sids (length encoded) len (drop 8 encoded) 0 (uint8korr encoded) 8 st in
    if actual then Ok st pos
    else if pos =? len then Ok st pos else Err st.

(** ** Unfolding the decoder *)

Section decode.
Implicit Types (enc a b : list Z) (it : Interval_iterator) (p : Gtid_set_store).

Lemma length_8 a : length a = 8%nat ->
  exists x0 x1 x2 x3 x4 x5 x6 x7, a = [x0; x1; x2; x3; x4; x5; x6; x7].
Proof.
  intros H. do 8 (destruct a as [|? a]; [done|]). destruct a; [|done]. eauto 10.
Qed.

Lemma decode_intervals_cons a b enc i n last pos it p :
  length a = 8%nat -> length b = 8%nat -> i < n ->
  decode_intervals (a ++ b ++ enc) i n last pos it p =
    (let start := sint8korr a in
     let end_ := sint8korr b in
     if (start <=? last) || (end_ <=? start) then Err (it, p)
     else match add_gno_interval (ivit_seek it start) start end_ p with
          | None => UB
          | Some (it, p) => decode_intervals enc (wrapu 32 (i + 1)) n end_ (pos + 16) it p
          end).
Proof.
  intros (a0&a1&a2&a3&a4&a5&a6&a7&->)%length_8 (b0&b1&b2&b3&b4&b5&b6&b7&->)%length_8 Hi.
  apply Z.ltb_lt in Hi. simpl. by rewrite Hi.
Qed.

Lemma decode_intervals_done enc i n last pos it p :
  n <= i -> decode_intervals enc i n last pos it p = Ok (it, p) (pos, enc).
Proof. intros Hi. apply Z.ltb_ge in Hi. destruct enc; simpl; by rewrite Hi. Qed.

Lemma decode_intervals_short enc i n last pos it p :
  (length enc < 16)%nat -> i < n -> decode_intervals enc i n last pos it p = UB.
Proof.
  intros Hl Hi. apply Z.ltb_lt in Hi.
  do 16 (destruct enc as [|? enc]; [simpl; by rewrite Hi|]). simpl in Hl. lia.
Qed.

(** Whatever the bytes, decoding leaves a well-formed list that contains the
    old one, and loses no node. *)
Lemma decode_intervals_wf k : forall enc i n last pos it p,
  (length enc <= k)%nat -> ivs_wf 0 (ivit_list it) -> 0 <= last ->
  match decode_intervals enc i n last pos it p with
  | Ok (it', p') _ | Err (it', p') =>
      ivs_wf 0 (ivit_list it') /\
      (forall g, in_ivs (ivit_list it) g -> in_ivs (ivit_list it') g) /\
      balance p' (length (ivit_list it')) = balance p (length (ivit_list it))
  | UB => True
  end.
Proof.
  induction k as [k IH] using lt_wf_ind. intros enc i n last pos it p Hk Hw Hl.
  destruct (Z.lt_ge_cases i n) as [Hi|Hi]; [|by rewrite decode_intervals_done].
  destruct (decide (length enc < 16)%nat) as [Hs|Hs]; [by rewrite decode_intervals_short|].
  assert (E : enc = take 8 enc ++ take 8 (drop 8 enc) ++ drop 16 enc).
  { change 16%nat with (8 + 8)%nat. by rewrite <- drop_drop, !take_drop. }
  rewrite E, decode_intervals_cons by (rewrite ?length_take, ?length_drop; lia). cbv zeta.
  clear E.
  pose proof (sint8korr_range (take 8 (drop 8 enc))) as Hr. red in Hr.
  set (start := sint8korr (take 8 enc)) in *. set (end_ := sint8korr (take 8 (drop 8 enc))) in *.
  destruct (Z.leb_spec start last) as [H1|H1]; simpl; [done|].
  destruct (Z.leb_spec end_ start) as [H2|H2]; simpl; [done|].
  destruct (seek_add_spec it start end_ p) as (it' & p' & -> & Hw' & Hg & Hb); [done|lia| |].
  { unfold GNO_END, INT64_MAX. lia. }
  specialize (IH (length (drop 16 enc))). rewrite length_drop in IH.
  specialize (IH ltac:(lia) (drop 16 enc) (wrapu 32 (i + 1)) n end_ (pos + 16) it' p').
  rewrite length_drop in IH. specialize (IH ltac:(lia) Hw' ltac:(lia)).
  destruct (decode_intervals (drop 16 enc) _ _ _ _ _ _) as [[it1 p1] r1|[it1 p1]|]; [..|done].
  - destruct IH as (? & Hx & ?). split_and!; [done| |congruence].
    intros g Hin. apply Hx, Hg. by left.
  - destruct IH as (? & Hx & ?). split_and!; [done| |congruence].
    intros g Hin. apply Hx, Hg. by left.
Qed.

(** Decoding [n] encoded intervals adds them. *)
Lemma decode_encode_intervals l : forall lo i n last pos it p enc,
  ivs_wf lo l -> 0 <= last <= lo -> n - i = Z.of_nat (length l) -> 0 <= i -> n < 2 ^ 32 ->
  ivs_wf 0 (ivit_list it) ->
  exists it' p',
    decode_intervals (encode_intervals l ++ enc) i n last pos it p =
      Ok (it', p') (pos + 16 * Z.of_nat (length l), enc) /\
    ivs_wf 0 (ivit_list it') /\
    (forall g, in_ivs (ivit_list it') g <-> in_ivs (ivit_list it) g \/ in_ivs l g) /\
    balance p' (length (ivit_list it')) = balance p (length (ivit_list it)).
Proof.
  induction l as [|iv l IH]; intros lo i n last pos it p enc Hl Hla Hn Hi Hn32 Hw;
    cbn [encode_intervals length].
  { rewrite decode_intervals_done by (simpl in Hn; lia). exists it, p. split_and!; try done.
    - f_equal. f_equal. lia.
    - intros g. rewrite in_ivs_nil. tauto. }
  destruct Hl as (H1 & H2 & H3). simpl in Hn.
  assert (H63 : GNO_END = 2 ^ 63 - 1) by done.
  rewrite <- !app_assoc, decode_intervals_cons by (done || lia). cbv zeta.
  assert (Es : sint8korr (int8store (iv_start iv)) = iv_start iv).
  { rewrite <- (app_nil_r (int8store _)). apply sint8korr_int8store. unfold in_s. lia. }
  assert (Ee : sint8korr (int8store (iv_end iv)) = iv_end iv).
  { rewrite <- (app_nil_r (int8store _)). apply sint8korr_int8store. unfold in_s. lia. }
  rewrite Es, Ee. zcases. 
  destruct (seek_add_spec it (iv_start iv) (iv_end iv) p) as (it1 & p1 & -> & Hw1 & Hg1 & Hb1);
    [done|lia..|].
  rewrite wrapu_id by (unfold in_u; lia).
  destruct (IH (iv_end iv) (i + 1) n (iv_end iv) (pos + 16) it1 p1 enc)
    as (it' & p' & -> & Hw' & Hg' & Hb'); try done; try lia.
  exists it', p'. split_and!; try done.
  - f_equal. f_equal. lia.
  - intros g. rewrite Hg', Hg1, in_ivs_cons. unfold in_interval. tauto.
  - congruence.
Qed.

Lemma encode_intervals_length l : length (encode_intervals l) = (16 * length l)%nat.
Proof.
  induction l as [|iv l IH]; [done|]. cbn [encode_intervals length].
  rewrite !length_app, IH, !int8store_length. lia.
Qed.
End decode.

(** ** Decoding what was encoded *)

Section roundtrip.
Implicit Types (gs : Gtid_set) (m : Sid_map).

Definition encoded_sid m gs sidno : list Z :=
  sidno_to_sid m sidno ++ int8store (Z.of_nat (length (intervals_of gs sidno))) ++
  encode_intervals (intervals_of gs sidno).

(** The SIDNOs the encoder writes. *)
Definition encoded_sidnos gs (sorted : list rpl_sidno) : list rpl_sidno :=
  filter (fun s => contains_sidno gs s = true) sorted.

Lemma encode_loop_spec gs m sorted :
  encode_loop gs m sorted =
    (Z.of_nat (length (encoded_sidnos gs sorted)),
     concat (encoded_sid m gs <$> encoded_sidnos gs sorted)).
Proof.
  unfold encoded_sidnos. induction sorted as [|s sorted IH]; simpl; [done|].
  rewrite IH, filter_cons, contains_sidno_intervals.
  case_decide as Hd.
  - by rewrite (intervals_of_out gs s Hd).
  - destruct (intervals_of gs s) as [|iv l] eqn:E; [done|]. rewrite decide_True by done.
    cbn [length fmap list_fmap concat]. f_equal; [lia|].
    unfold encoded_sid at 2. rewrite E. by rewrite <- !app_assoc.
Qed.

Lemma encoded_sid_length m gs s :
  length (sidno_to_sid m s) = 16%nat ->
  length (encoded_sid m gs s) = (24 + 16 * length (intervals_of gs s))%nat.
Proof.
  intros H. unfold encoded_sid. rewrite !length_app, H, encode_intervals_length, int8store_length.
  lia.
Qed.

(** One SID of an encoding, as the decoder reads it. *)
Lemma encoded_sid_read m gs s rest :
  length (sidno_to_sid m s) = 16%nat -> Z.of_nat (length (intervals_of gs s)) < 2 ^ 64 ->
  take 16 (encoded_sid m gs s ++ rest) = sidno_to_sid m s /\
  uint8korr (drop 16 (encoded_sid m gs s ++ rest)) = Z.of_nat (length (intervals_of gs s)) /\
  drop 24 (encoded_sid m gs s ++ rest) = encode_intervals (intervals_of gs s) ++ rest.
Proof.
  intros Hl Hn. unfold encoded_sid. rewrite <- !app_assoc. split_and!.
  - by rewrite take_app_length'.
  - rewrite drop_app_length' by done. apply uint8korr_int8store. unfold in_u. lia.
  - rewrite app_assoc. apply drop_app_length'. rewrite length_app, Hl. done.
Qed.

Lemma decode_encoded_sids m gs ss : forall fuel len i n pos gs0 m0,
  sid_map_wf m -> gs_wf gs -> Forall (fun s => 1 <= s <= sid_map_max_sidno m)%nat ss ->
  Forall (fun l => Z.of_nat (length l) < 2 ^ 32) (m_intervals gs) ->
  sid_map_wf m0 -> gs_wf gs0 -> gs_fits m0 gs0 ->
  len - pos = Z.of_nat (length (concat (encoded_sid m gs <$> ss))) -> len < 2 ^ 64 ->
  0 <= pos -> n - i = Z.of_nat (length ss) -> 0 <= i -> n < 2 ^ 32 -> (length ss <= fuel)%nat ->
  exists gs' m',
    decode_sids fuel len (concat (encoded_sid m gs <$> ss)) i n pos (gs0, m0) =
      Ok (gs', m') len /\
    gs_wf gs' /\ sid_map_wf m' /\ gs_fits m' gs' /\ gs_nodes gs' = gs_nodes gs0 /\
    forall sid g, gs_has_sid m' gs' sid g <->
      gs_has_sid m0 gs0 sid g \/ has_among m gs ss sid g.
Proof.
  induction ss as [|s ss IH]; intros fuel len i n pos gs0 m0
    Hm Hwf Hss Hlens Hm0 Hwf0 Hf0 Hlen Hlen64 Hpos Hn Hi Hn32 Hfuel.
  { exists gs0, m0. simpl in *. replace pos with len by lia.
    split_and!; try done.
    - destruct fuel; simpl; zcases.
    - intros sid g. split; [tauto|]. intros [?|(? & []%elem_of_nil & _)]; done. }
  apply Forall_cons in Hss as [Hs Hss].
  assert (Hsid : uuid_wf (sidno_to_sid m s)) by by apply sidno_to_sid_wf.
  pose proof (proj1 Hsid) as Hl16. unfold BYTE_LENGTH in Hl16.
  assert (Hl32 : Z.of_nat (length (intervals_of gs s)) < 2 ^ 32).
  { destruct s as [|k]; simpl; [lia|]. rewrite list_lookup_total_alt.
    destruct (m_intervals gs !! k) eqn:E; simpl; [|lia].
    by apply (Forall_lookup_1 _ _ _ _ Hlens E). }
  destruct fuel as [|fuel]; [simpl in *; lia|].
  cbn [fmap list_fmap concat] in *. rewrite length_app, (encoded_sid_length m gs s Hl16) in Hlen.
  set (rest := concat (encoded_sid m gs <$> ss)) in *. simpl in Hn.
  destruct (encoded_sid_read m gs s rest Hl16 ltac:(lia)) as (E1 & E2 & E3).
  cbn [decode_sids]. rewrite E1, E2, E3. clear E1 E2 E3.
  destruct (Z.ltb_spec i n); [|lia].
  rewrite (wrapu_id 64 (len - pos)) by (unfold in_u; lia).
  destruct (Z.ltb_spec (len - pos) (16 + 8)); [lia|].
  destruct (add_sid m0 (sidno_to_sid m s)) as [sidno m1] eqn:Ea.
  pose proof (add_sid_spec m0 _ Hm0 Hsid) as Ha. rewrite Ea in Ha.
  rewrite !wrapu_id by (unfold in_u; lia).
  destruct (Z.ltb_spec (len - (pos + 16 + 8)) (2 * 8 * Z.of_nat (length (intervals_of gs s))));
    [lia|].
  destruct (ensure_sidno_becomes gs0 sidno Hwf0) as (We & He & Ne).
  destruct (decode_encode_intervals (intervals_of gs s) 0 0 (Z.of_nat (length (intervals_of gs s)))
    0 (pos + 16 + 8) (ivit_init (intervals_of (ensure_sidno gs0 sidno) sidno))
    (gs_store (ensure_sidno gs0 sidno)) rest) as (it' & p' & -> & Hw' & Hg' & Hb');
    try lia; [by apply intervals_of_wf..|].
  destruct (write_back_becomes (ensure_sidno gs0 sidno) sidno (it', p')
    (fun g => gs_has gs0 sidno g \/ gs_has gs s g)) as (W2 & H2 & N2);
    [done|rewrite ensure_sidno_max; lia|done| |done|].
  { intros g. simpl. rewrite Hg'. unfold gs_has, ivit_list. simpl.
    by rewrite intervals_of_ensure_sidno. }
  set (gs2 := write_back (ensure_sidno gs0 sidno) sidno (it', p')) in *.
  destruct (add_sid_step m0 gs0 (sidno_to_sid m s) sidno m1 gs2 (gs_has gs s))
    as (Wm1 & F2 & _ & Hs2); try done.
  { unfold gs2. by rewrite write_back_max, ensure_sidno_max. }
  { intros s' g. rewrite H2. case_decide; subst; [tauto|]. rewrite He. intuition congruence. }
  destruct (IH fuel len (i + 1) n (pos + 16 + 8 + 16 * Z.of_nat (length (intervals_of gs s))) gs2 m1)
    as (gs' & m' & E' & R1 & R2 & R3 & R4 & R5); try done; try lia; [simpl in *; lia|].
  exists gs', m'. split_and!; try done; [congruence|].
  intros sid g. rewrite R5, Hs2, has_among_cons. intuition congruence.
Qed.

Lemma encoded_sidnos_has m gs sid g :
  sid_map_wf m -> gs_wf gs -> gs_fits m gs ->
  has_among m gs (encoded_sidnos gs (_sorted m)) sid g <-> gs_has_sid m gs sid g.
Proof.
  intros Hm Hwf Hf. rewrite <- has_among_sorted by done. unfold has_among, encoded_sidnos.
  split; intros (s & Hs & E & Hg); exists s; split; try done.
  - apply list_elem_of_filter in Hs as [_ Hs]. done.
  - apply list_elem_of_filter. split; [|done]. apply contains_sidno_spec; [done|by exists g].
Qed.
End roundtrip.

(** ** Untrusted input *)

Section untrusted.
Implicit Types (gs : Gtid_set) (m : Sid_map) (enc : list Z).

Lemma decode_intervals_suffix k : forall enc i n last pos it p r pos' enc',
  (length enc <= k)%nat ->
  decode_intervals enc i n last pos it p = Ok r (pos', enc') ->
  enc' `suffix_of` enc /\ pos' + Z.of_nat (length enc') = pos + Z.of_nat (length enc).
Proof.
  induction k as [k IH] using lt_wf_ind. intros enc i n last pos it p r pos' enc' Hk.
  destruct (Z.lt_ge_cases i n) as [Hi|Hi];
    [|rewrite decode_intervals_done by done; by intros [= <- <- <-]].
  destruct (decide (length enc < 16)%nat) as [Hs|Hs]; [by rewrite decode_intervals_short|].
  assert (E : enc = take 8 enc ++ take 8 (drop 8 enc) ++ drop 16 enc).
  { change 16%nat with (8 + 8)%nat. by rewrite <- drop_drop, !take_drop. }
  rewrite E at 1. rewrite decode_intervals_cons by (rewrite ?length_take, ?length_drop; lia).
  cbv zeta. case_match; [done|].
  destruct (add_gno_interval _ _ _ _) as [[it1 p1]|]; [|done].
  intros Hd. apply (IH (length (drop 16 enc))) in Hd as [Hsuf Hp];
    [|rewrite length_drop; lia|done].
  split; [etrans; [done|]; by eexists (take 16 enc); rewrite take_drop|].
  rewrite length_drop in Hp. lia.
Qed.

(** With the bytes there, the intervals are read without leaving the buffer. *)
Lemma decode_intervals_inside k : forall enc i n last pos it p,
  (length enc <= k)%nat -> ivs_wf 0 (ivit_list it) -> 0 <= last -> 0 <= i <= n -> n < 2 ^ 32 ->
  16 * (n - i) <= Z.of_nat (length enc) ->
  match decode_intervals enc i n last pos it p with
  | Ok _ (_, enc') => enc' = drop (Z.to_nat (16 * (n - i))) enc
  | Err _ => True
  | UB => False
  end.
Proof.
  induction k as [k IH] using lt_wf_ind. intros enc i n last pos it p Hk Hw Hl Hi Hn Hb.
  destruct (Z.lt_ge_cases i n) as [Hin|Hin];
    [|rewrite decode_intervals_done by done; by replace (16 * (n - i)) with 0 by lia].
  assert (E : enc = take 8 enc ++ take 8 (drop 8 enc) ++ drop 16 enc).
  { change 16%nat with (8 + 8)%nat. by rewrite <- drop_drop, !take_drop. }
  assert (Ed : decode_intervals enc i n last pos it p =
    decode_intervals (take 8 enc ++ take 8 (drop 8 enc) ++ drop 16 enc) i n last pos it p) by by rewrite <- E.
  rewrite Ed, decode_intervals_cons by (rewrite ?length_take, ?length_drop; lia). cbv zeta. clear E Ed.
  pose proof (sint8korr_range (take 8 (drop 8 enc))) as Hr. red in Hr.
  set (start := sint8korr (take 8 enc)) in *. set (end_ := sint8korr (take 8 (drop 8 enc))) in *.
  destruct (Z.leb_spec start last) as [H1|H1]; simpl; [done|].
  destruct (Z.leb_spec end_ start) as [H2|H2]; simpl; [done|].
  destruct (seek_add_spec it start end_ p) as (it' & p' & -> & Hw' & _); [done|lia|unfold GNO_END, INT64_MAX; lia|].
  rewrite wrapu_id by (unfold in_u; lia).
  specialize (IH (length (drop 16 enc))). rewrite length_drop in IH.
  specialize (IH ltac:(lia) (drop 16 enc) (i + 1) n end_ (pos + 16) it' p').
  rewrite length_drop in IH. specialize (IH ltac:(lia) Hw' ltac:(lia) ltac:(lia) Hn ltac:(lia)).
  destruct (decode_intervals (drop 16 enc) _ _ _ _ _ _) as [? [? enc']|?|]; [|done..].
  rewrite IH, drop_drop. f_equal. lia.
Qed.

(** The interval counts of a message, one behind each SID. *)
Fixpoint interval_counts (fuel : nat) enc : list Z :=
  match fuel with
  | O => []
  | S fuel =>
      if (length enc <? 24)%nat then []
      else
        let n := uint8korr (drop 16 enc) in
        n :: (if 16 * n <=? Z.of_nat (length enc) - 24 then interval_counts fuel (drop (24 + Z.to_nat (16 * n)) enc) else [])
  end.

(** A count that is too large for the check of its length, in a message of less
    than 2^36 bytes: the product wraps. *)
Definition overruns (fuel : nat) (len : Z) enc : Prop :=
  2 ^ 36 <= len \/ Exists (fun n => 2 ^ 60 <= n) (interval_counts fuel enc).

(** The intervals of one SID: when the check of the length has passed, they are in
    the buffer unless the message overruns, now or at a later SID. *)
Lemma decode_intervals_overruns fuel len enc pos it p :
  ivs_wf 0 (ivit_list it) -> (24 <= length enc)%nat -> Z.of_nat (length enc) <= len ->
  wrapu 64 (2 * 8 * uint8korr (drop 16 enc)) <= Z.of_nat (length enc) - 24 ->
  match decode_intervals (drop 24 enc) 0 (uint8korr (drop 16 enc)) 0 pos it p with
  | Ok _ (_, enc') => overruns fuel len enc' -> overruns (S fuel) len enc
  | Err _ => True
  | UB => overruns (S fuel) len enc
  end.
Proof.
  intros Hw H24 Hlen Hc. pose proof (uint8korr_range (drop 16 enc)) as Hn. red in Hn. unfold overruns. cbn [interval_counts].
  destruct (Nat.ltb_spec (length enc) 24); [lia|]. set (n := uint8korr (drop 16 enc)) in *.
  destruct (Z.le_gt_cases (2 ^ 60) n) as [Hbig|Hsmall].
  { destruct (decode_intervals _ _ _ _ _ _ _) as [? [? ?]|?|]; [intros _|done|]; right; by left. }
  destruct (Z.le_gt_cases (2 ^ 36) len) as [Hl|Hl].
  { destruct (decode_intervals _ _ _ _ _ _ _) as [? [? ?]|?|]; [intros _|done|]; by left. }
  rewrite wrapu_id in Hc by (unfold in_u; lia).
  pose proof (decode_intervals_inside (length (drop 24 enc)) (drop 24 enc) 0 n 0 pos it p (le_n _) Hw ltac:(lia) ltac:(lia) ltac:(lia)) as Hin.
  rewrite length_drop in Hin. specialize (Hin ltac:(lia)).
  destruct (decode_intervals _ _ _ _ _ _ _) as [? [? enc']|?|]; [|done..].
  rewrite Hin, drop_drop. replace (16 * (n - 0)) with (16 * n) by lia. intros [?|He]; [lia|]. right. right.
  destruct (Z.leb_spec (16 * n) (Z.of_nat (length enc) - 24)); [done|lia].
Qed.

Lemma decode_sids_wf fuel : forall len enc i n pos gs m,
  sid_map_wf m -> gs_wf gs -> gs_fits m gs -> Forall is_byte enc ->
  len - pos = Z.of_nat (length enc) -> 0 <= pos -> len < 2 ^ 64 ->
  match decode_sids fuel len enc i n pos (gs, m) with
  | Ok (gs', m') _ | Err (gs', m') => gs_grows m gs m' gs'
  | UB => overruns fuel len enc
  end.
Proof.
  induction fuel as [|fuel IH]; intros len enc i n pos gs m Hm Hwf Hf Hb Hlen Hpos H64;
    pose proof (gs_grows_refl m gs Hm Hwf Hf);
    cbn [decode_sids]; destruct (i <? n); try done;
    [by destruct (wrapu 64 (len - pos) <? 16 + 8)|].
  rewrite (wrapu_id 64 (len - pos)) by (unfold in_u; lia).
  destruct (Z.ltb_spec (len - pos) (16 + 8)); [done|].
  destruct (add_sid m (take 16 enc)) as [sidno m1] eqn:Ea.
  assert (Hsid : uuid_wf (take 16 enc)).
  { split; [rewrite length_take; unfold BYTE_LENGTH; lia|]. by apply Forall_take. }
  pose proof (fun r => add_sid_edit m gs _ sidno m1 r Hm Hwf Hf Hsid Ea) as Hedit.
  pose proof (uint8korr_range (drop 16 enc)) as Hn0.
  destruct (Z.ltb_spec (wrapu 64 (len - (pos + 16 + 8))) (wrapu 64 (2 * 8 * uint8korr (drop 16 enc)))) as [Hlt|Hge].
  { by apply add_sid_ensure with (sid := take 16 enc). }
  rewrite (wrapu_id 64 (len - _)) in Hge by (unfold in_u; lia).
  pose proof (decode_intervals_wf (length (drop 24 enc)) (drop 24 enc) 0 (uint8korr (drop 16 enc))
    0 (pos + 16 + 8) (ivit_init (intervals_of (ensure_sidno gs sidno) sidno))
    (gs_store (ensure_sidno gs sidno)) (le_n _)
    (intervals_of_wf _ sidno (proj1 (ensure_sidno_becomes gs sidno Hwf))) (Z.le_refl 0)) as Hd.
  pose proof (decode_intervals_overruns fuel len enc (pos + 16 + 8) (ivit_init (intervals_of (ensure_sidno gs sidno) sidno))
    (gs_store (ensure_sidno gs sidno))
    (intervals_of_wf _ sidno (proj1 (ensure_sidno_becomes gs sidno Hwf))) ltac:(lia) ltac:(lia) ltac:(lia)) as Hover.
  destruct (decode_intervals _ _ _ _ _ _ _) as [[it' p'] [pos' enc']|[it' p']|] eqn:E; [| |done];
    destruct Hd as (D1 & D2 & D3); destruct (Hedit (it', p') D1 D2 D3) as (S1 & S2 & S3 & S4 & S5);
    (assert (Hg : gs_grows m gs m1 (write_back (ensure_sidno gs sidno) sidno (it', p')))
      by (unfold gs_grows; split_and!; [done..|]; intros sid g Hin; apply S5; by left));
    [|done].
  apply (decode_intervals_suffix (length (drop 24 enc))) in E as [Hsuf Hp]; [|lia].
  rewrite length_drop in Hp.
  assert (Hb' : Forall is_byte enc').
  { destruct Hsuf as [pre Hpre]. apply (Forall_drop _ 24) in Hb. rewrite Hpre in Hb.
    by apply Forall_app in Hb as [_ Hb]. }
  assert (Hpos' : 0 <= pos') by (apply suffix_length in Hsuf; rewrite length_drop in Hsuf; lia).
  specialize (IH len enc' (wrapu 32 (i + 1)) n pos' _ m1 S2 S1 S3 Hb' ltac:(lia) Hpos' H64).
  destruct (decode_sids fuel _ _ _ _ _ _) as [[gs2 m2] ?|[gs2 m2]|]; [by eapply gs_grows_trans..|]. by apply Hover.
Qed.
End untrusted.

Section fuel.
Implicit Types (enc : list Z) (st : Gtid_set * Sid_map).

(** The fuel of [add_gtid_encoding] is never used up: more of it changes
    nothing, because every SID takes 24 bytes and the length check fails
    when they are not there. *)
Lemma decode_sids_fuel k fuel : forall len enc i n pos st,
  len - pos = Z.of_nat (length enc) -> 0 <= pos -> len < 2 ^ 64 -> (length enc <= fuel)%nat ->
  decode_sids (fuel + k) len enc i n pos st = decode_sids fuel len enc i n pos st.
Proof.
  induction fuel as [|fuel IH]; intros len enc i n pos [gs m] Hlen Hpos H64 Hf.
  - destruct k; [done|]. simpl. rewrite wrapu_id by (unfold in_u; lia).
    destruct (i <? n); [|done]. destruct (Z.ltb_spec (len - pos) (16 + 8)); [done|lia].
  - cbn [decode_sids Nat.add]. destruct (i <? n); [|done].
    rewrite (wrapu_id 64 (len - pos)) by (unfold in_u; lia).
    destruct (Z.ltb_spec (len - pos) (16 + 8)); [done|].
    destruct (add_sid m (take 16 enc)) as [sidno m1].
    destruct (wrapu 64 (len - (pos + 16 + 8)) <? _); [done|].
    destruct (decode_intervals _ _ _ _ _ _ _) as [r [pos' enc']|r|] eqn:E; [|done..].
    apply (decode_intervals_suffix (length (drop 24 enc))) in E as [Hsuf Hp]; [|lia].
    apply suffix_length in Hsuf. rewrite length_drop in Hsuf, Hp.
    apply IH; lia.
Qed.
End fuel.

(** ** Properties *)

(** C34: Decoding is the inverse of encoding.  [add_gtid_encoding], given what
    [encode] wrote for a set, accepts all of it, and adds to any set, over any
    other map, exactly the identifiers of the encoded set.  The invariants of
    set and map are kept and no interval node is lost. *)
Theorem encode_decode_roundtrip gs m gs0 m0 :
  sid_map_wf m -> gs_wf gs -> gs_fits m gs ->
  sid_map_wf m0 -> gs_wf gs0 -> gs_fits m0 gs0 ->
  Forall (fun l => Z.of_nat (length l) < 2 ^ 32) (m_intervals gs) ->
  Z.of_nat (sid_map_max_sidno m) < 2 ^ 32 ->
  Z.of_nat (length (Gtid_set_encode gs m)) < 2 ^ 64 ->
  exists gs' m',
    add_gtid_encoding (Gtid_set_encode gs m) false (gs0, m0) =
      Ok (gs', m') (Z.of_nat (length (Gtid_set_encode gs m))) /\
    gs_wf gs' /\ sid_map_wf m' /\ gs_fits m' gs' /\ gs_nodes gs' = gs_nodes gs0 /\
    forall sid g, gs_has_sid m' gs' sid g <-> gs_has_sid m0 gs0 sid g \/ gs_has_sid m gs sid g.
Proof.
  intros Hm Hwf Hf Hm0 Hwf0 Hf0 Hlens Hmax.
  unfold Gtid_set_encode. rewrite encode_loop_spec.
  set (ss := encoded_sidnos gs (_sorted m)).
  assert (Hss : (length ss <= sid_map_max_sidno m)%nat).
  { unfold ss, encoded_sidnos. rewrite length_filter, (swf_perm m Hm), length_seq. done. }
  assert (Hr : Forall (fun s => 1 <= s <= sid_map_max_sidno m)%nat ss).
  { apply Forall_forall. intros s [_ Hs]%list_elem_of_filter.
    destruct (sid_sorted_map m Hm) as [_ Hall]. by eapply Forall_forall in Hall. }
  set (body := concat (encoded_sid m gs <$> ss)). rewrite length_app, int8store_length. intros H64.
  assert (Hfuel : (length ss <= 8 + length body)%nat).
  { unfold body. clear -Hr Hm. induction ss as [|s ss IH]; [simpl; lia|].
    apply Forall_cons in Hr as [Hs Hr]. cbn [fmap list_fmap concat length].
    rewrite length_app, encoded_sid_length by apply (sidno_to_sid_wf m s Hm Hs).
    specialize (IH Hr). lia. }
  destruct (decode_encoded_sids m gs ss (8 + length body) (Z.of_nat (8 + length body)) 0
    (Z.of_nat (length ss)) 8 gs0 m0) as (gs' & m' & E & R1 & R2 & R3 & R4 & R5);
    try done; try lia; [fold body; lia|].
  exists gs', m'. split_and!; try done.
  - unfold add_gtid_encoding. rewrite length_app, int8store_length.
    destruct (Z.ltb_spec (Z.of_nat (8 + length body)) 8); [lia|].
    rewrite drop_app_length' by done. rewrite uint8korr_int8store by (unfold in_u; lia).
    fold body in E. rewrite E. cbn [obind]. by rewrite Z.eqb_refl.
  - intros sid g. rewrite R5. unfold ss. by rewrite encoded_sidnos_has.
Qed.

Lemma encode_decode_roundtrip_witness :
  exists gs' m',
    add_gtid_encoding (Gtid_set_encode ex_set ex_map) false (Gtid_set_new, Sid_map_new) =
      Ok (gs', m') (Z.of_nat (length (Gtid_set_encode ex_set ex_map))) /\
    gs_wf gs' /\ sid_map_wf m' /\ gs_fits m' gs' /\ gs_nodes gs' = gs_nodes Gtid_set_new /\
    forall sid g, gs_has_sid m' gs' sid g <->
      gs_has_sid Sid_map_new Gtid_set_new sid g \/ gs_has_sid ex_map ex_set sid g.
Proof.
  apply encode_decode_roundtrip;
    [apply ex_map_wf|apply ex_set_wf|vm_compute; lia|apply Sid_map_new_wf|constructor|apply new_fits
    |repeat constructor; vm_compute; done|vm_compute; done|vm_compute; done].
Defined.

(** C36: Whatever bytes arrive, accepted or rejected, [add_gtid_encoding]
    leaves a set and a map whose invariants hold, which still contain every
    identifier they had, and no interval node is lost; and it reads no byte behind
    the message, unless the message has 2^36 bytes or more or an interval count of
    2^60 or more, for which the check of the length wraps
    ([add_gtid_encoding_overrun] is such a message). *)
Theorem add_gtid_encoding_preserves encoded actual gs m :
  sid_map_wf m -> gs_wf gs -> gs_fits m gs ->
  Forall is_byte encoded -> Z.of_nat (length encoded) < 2 ^ 64 ->
  match add_gtid_encoding encoded actual (gs, m) with
  | Ok (gs', m') _ | Err (gs', m') => gs_grows m gs m' gs'
  | UB => 2 ^ 36 <= Z.of_nat (length encoded) \/
      Exists (fun n => 2 ^ 60 <= n) (interval_counts (length encoded) (drop 8 encoded))
  end.
Proof.
  intros Hm Hwf Hf Hb H64. unfold add_gtid_encoding.
  destruct (Z.ltb_spec (Z.of_nat (length encoded)) 8); [by apply gs_grows_refl|].
  pose proof (decode_sids_wf (length encoded) (Z.of_nat (length encoded)) (drop 8 encoded) 0
    (uint8korr encoded) 8 gs m Hm Hwf Hf (Forall_drop _ 8 _ Hb)) as Hd.
  rewrite length_drop in Hd. specialize (Hd ltac:(lia) ltac:(lia) H64).
  destruct (decode_sids _ _ _ _ _ _ _) as [[gs' m'] pos|[gs' m']|]; simpl; [|done..].
  destruct actual; [done|]. by destruct (pos =? _).
Qed.

(** The count of SIDs says two, one follows: the first one stays added. *)
Definition ex_truncated : list Z :=
  int8store 2 ++ ex_sid 5 ++ int8store 1 ++ int8store 10 ++ int8store 20.

Lemma add_gtid_encoding_preserves_witness :
  exists gs' m', add_gtid_encoding ex_truncated false (ex_set, ex_map) = Err (gs', m') /\
    gs_grows ex_map ex_set m' gs'.
Proof.
  pose proof (add_gtid_encoding_preserves ex_truncated false ex_set ex_map
    ex_map_wf ex_set_wf) as H.
  assert (Hb : Forall is_byte ex_truncated) by (repeat constructor; vm_compute; done).
  specialize (H ltac:(vm_compute; lia) Hb ltac:(vm_compute; done)).
  destruct (add_gtid_encoding ex_truncated false (ex_set, ex_map)) as [[gs' m'] pos|[gs' m']|] eqn:E.
  - vm_compute in E. discriminate E.
  - exists gs', m'. split; [reflexivity|]. exact H.
  - vm_compute in E. discriminate E.
Defined.

Lemma encoded_length_foldl gs l z :
  foldl (fun ret s => if contains_sidno gs s
                      then ret + (16 + 8 + 2 * 8 * get_n_intervals_of gs s) else ret) z l =
  z + Z.of_nat (sum_list_with (fun s => 24 + 16 * length (intervals_of gs s))%nat
                  (encoded_sidnos gs l)).
Proof.
  revert z. unfold encoded_sidnos. induction l as [|s l IH]; intros z; simpl; [lia|].
  rewrite IH, filter_cons. unfold get_n_intervals_of.
  destruct (contains_sidno gs s); simpl; lia.
Qed.

Lemma encoded_body_length m gs ss :
  Forall (fun s => length (sidno_to_sid m s) = 16%nat) ss ->
  length (concat (encoded_sid m gs <$> ss)) =
  sum_list_with (fun s => 24 + 16 * length (intervals_of gs s))%nat ss.
Proof.
  induction 1 as [|s ss Hs _ IH]; [done|]. cbn [fmap list_fmap concat sum_list_with].
  by rewrite length_app, encoded_sid_length, IH.
Qed.

Lemma encoded_sidnos_none gs l :
  Forall (fun s => get_max_sidno gs < s)%nat l -> encoded_sidnos gs l = [].
Proof.
  unfold encoded_sidnos. induction 1 as [|s l Hs _ IH]; [done|].
  rewrite filter_cons_False; [done|]. rewrite contains_sidno_intervals.
  by rewrite intervals_of_out.
Qed.

(** Beyond the array nothing is encoded, so the SIDNOs of the map and those of
    the array give the same sum. *)
Lemma encoded_sidnos_seq gs n :
  (get_max_sidno gs <= n)%nat ->
  encoded_sidnos gs (seq 1 n) = encoded_sidnos gs (seq 1 (get_max_sidno gs)).
Proof.
  intros Hn. replace n with (get_max_sidno gs + (n - get_max_sidno gs))%nat by lia.
  rewrite seq_app. unfold encoded_sidnos. rewrite filter_app. fold (encoded_sidnos gs).
  rewrite <- (app_nil_r (filter _ (seq 1 (get_max_sidno gs)))) at 2. f_equal.
  apply encoded_sidnos_none, Forall_forall. intros s Hs%elem_of_seq. lia.
Qed.

(** The buffer length announced by [get_encoded_length] is the number of
    bytes [encode] writes. *)
Theorem encode_length gs m :
  sid_map_wf m -> gs_fits m gs ->
  Z.of_nat (length (Gtid_set_encode gs m)) = get_encoded_length gs.
Proof.
  intros Hm Hf. unfold Gtid_set_encode, get_encoded_length.
  rewrite encode_loop_spec, encoded_length_foldl, length_app, int8store_length.
  rewrite encoded_body_length.
  - assert (Hp : encoded_sidnos gs (_sorted m) ≡ₚ encoded_sidnos gs (seq 1 (get_max_sidno gs))).
    { rewrite <- (encoded_sidnos_seq gs (sid_map_max_sidno m)) by apply Hf.
      unfold encoded_sidnos. by rewrite (swf_perm m Hm). }
    rewrite Hp. lia.
  - apply Forall_forall. intros s [_ Hs]%list_elem_of_filter.
    destruct (sid_sorted_map m Hm) as [_ Hall]. eapply Forall_forall in Hall; [|done].
    apply (sidno_to_sid_wf m s Hm Hall).
Qed.

Lemma encode_length_witness :
  Z.of_nat (length (Gtid_set_encode ex_set ex_map)) = get_encoded_length ex_set.
Proof. apply encode_length; [apply ex_map_wf|vm_compute; lia]. Defined.

(** C37: The check of an interval count against the bytes left multiplies the
    count by sixteen in 64 bits.  For a count of [2^60] the product is zero,
    the check passes, and the decoder reads behind the buffer. *)
Theorem add_gtid_encoding_overrun :
  let encoded := int8store 1 ++ ex_sid 5 ++ int8store (2 ^ 60) in
  Forall is_byte encoded /\
  (forall actual, add_gtid_encoding encoded actual (Gtid_set_new, Sid_map_new) = UB) /\
  add_gtid_encoding (int8store 1 ++ ex_sid 5 ++ int8store (2 ^ 60 - 1)) true
    (Gtid_set_new, Sid_map_new) <> UB.
Proof.
  split; [repeat constructor; vm_compute; done|].
  split; [intros []; vm_compute; reflexivity|]. vm_compute. discriminate.
Qed.
