(* ===== verification/GtidText.v ===== *)
(** * GTID sets as text

    [Gtid_set::add_gtid_text], [is_valid], [to_string], [get_string_length] and
    [get_gtid_intervals] of [sql/rpl_gtid_set.cc], and the text form of single
    identifiers, [Gtid::parse], [Gtid::is_valid] and [Gtid::to_string] of
    [sql/rpl_gtid_misc.cc].

    A text is the list of its bytes before the terminating zero; a pointer
    into it is the list of the bytes from there on.  The state of a parser is
    the set, its map and, if the caller passed one, the flag [anonymous].
    Counters of type [int] are not bounded: a text is shorter than 2^31. *)

From Stdlib Require Import ZArith Lia.
From stdpp Require Import sorting base numbers option gmap tactics list.
From S2P Require Import Prelude NumText GtidInterval Uuid SidMap GtidSet.

#[local] Open Scope Z_scope.
#[local] Open Scope mysql_scope.

Definition COMMA : Z := 44.
Definition COLON : Z := 58.
Definition NEWLINE : Z := 10.

(** ** Lexical elements *)

(** [my_isspace] of [my_charset_utf8_general_ci]: the bytes whose entry of
    [ctype_utf8] has [_MY_SPC]. *)
Definition my_isspace (c : Z) : bool := (c =? 32) || ((9 <=? c) && (c <=? 13)).

Definition SKIP_WHITESPACE (s : list Z) : list Z := drop (count_while my_isspace s) s.

(** [while ( *s == ',') { s++; SKIP_WHITESPACE(); }]: white space is skipped
    after a comma only. *)
Fixpoint skip_commas (after_comma : bool) (s : list Z) : list Z :=
  match s with
  | [] => []
  | c :: r =>
      if (c =? COMMA) || (after_comma && my_isspace c) then skip_commas true r else s
  end.

Definition parse_gno (s : list Z) : Z * list Z :=
  let '(ret, endp) := strtoll s in
  if (ret <? 0) || (GNO_END <=? ret) then (-1, s) else (ret, endp).

(** [ll2str] is [int2str] where [long] has 64 bits. *)
Definition format_gno (gno : Z) : list Z :=
  match int2str gno 10 true with Some text => text | None => [] end.

(** ** Parsing *)

(** What follows the colon: the end of the interval and the rest of the text. *)
Definition text_interval_end (start : Z) (s : list Z) : option (Z * list Z) :=
  match s with
  | c :: r =>
      if c =? DASH then
        let '(end_, s) := parse_gno r in
        if end_ <? 0 then None else Some (end_ + 1, SKIP_WHITESPACE s)
      else Some (start + 1, s)
  | [] => Some (start + 1, s)
  end.

(** [while ( *s == ':')]: the intervals of one SID. *)
Fixpoint text_intervals (fuel : nat) (s : list Z) (it : Interval_iterator) (p : Gtid_set_store)
  : outcome (Interval_iterator * Gtid_set_store) (list Z) :=
  match s with
  | c :: r =>
      if c =? COLON then
        match fuel with
        | O => Err (it, p)
        | S fuel =>
            let '(start, s) := parse_gno r in
            if start <=? 0 then Err (it, p)
            else
              match text_interval_end start (SKIP_WHITESPACE s) with
              | None => Err (it, p)
              | Some (end_, s) =>
                  if start <? end_ then
                    match add_gno_interval (ivit_seek it start) start end_ p with
                    | None => UB
                    | Some (it, p) => text_intervals fuel s it p
                    end
                  else text_intervals fuel s it p
              end
        end
      else Ok (it, p) s
  | [] => Ok (it, p) s
  end.

Record text_state := mk_text_state {
  ts_set : Gtid_set;
  ts_map : Sid_map;
  ts_anonymous : option bool
}.

(** "ANONYMOUS" *)
Definition ANONYMOUS_text : list Z := [65; 78; 79; 78; 89; 77; 79; 85; 83].

(** One SID with its intervals, or the word ANONYMOUS; [s] is not empty. *)
Definition text_sid (s : list Z) (st : text_state) : outcome text_state (list Z) :=
  if bool_decide (is_Some (ts_anonymous st)) && bool_decide (take 9 s = ANONYMOUS_text) then
    Ok (mk_text_state (ts_set st) (ts_map st) (Some true)) (drop 9 s)
  else
    match Uuid_parse s with
    | None => Err st
    | Some sid =>
        let s := drop TEXT_LENGTH s in
        let '(sidno, m) := add_sid (ts_map st) sid in
        let gs := ensure_sidno (ts_set st) sidno in
        let s := SKIP_WHITESPACE s in
        match text_intervals (length s) s (ivit_init (intervals_of gs sidno)) (gs_store gs) with
        | Ok r s => Ok (mk_text_state (write_back gs sidno r) m (ts_anonymous st)) s
        | Err r => Err (mk_text_state (write_back gs sidno r) m (ts_anonymous st))
        | UB => UB
        end
    end.

(** [while (1)]: every iteration but the last consumes at least nine bytes. *)
Fixpoint text_sids (fuel : nat) (s : list Z) (st : text_state) : outcome text_state unit :=
  match skip_commas false s with
  | [] => Ok st tt
  | (_ :: _) as s =>
      match fuel with
      | O => Err st
      | S fuel =>
          let? (st, s) := text_sid s st in
          match s with
          | [] => text_sids fuel s st
          | c :: _ => if c =? COMMA then text_sids fuel s st else Err st
          end
      end
  end.

Definition count_colons (s : list Z) : Z :=
  Z.of_nat (length (filter (fun c => c = COLON) s)).

Definition add_gtid_text (text : list Z) (st : text_state) : outcome text_state unit :=
  let st := mk_text_state (ts_set st) (ts_map st)
              (match ts_anonymous st with Some _ => Some false | None => None end) in
  let s := SKIP_WHITESPACE text in
  match s with
  | [] => Ok st tt
  | _ :: _ =>
      match (match chunks (gs_store (ts_set st)) with
             | [] =>
                 p ← create_new_chunk (count_colons s) (gs_store (ts_set st));
                 Some (mk_Gtid_set (m_intervals (ts_set st)) p)
             | _ :: _ => Some (ts_set st)
             end) with
      | None => UB
      | Some gs => text_sids (length s) s (mk_text_state gs (ts_map st) (ts_anonymous st))
      end
  end.

(** ** Validation *)

Fixpoint valid_intervals (fuel : nat) (s : list Z) : option (list Z) :=
  match s with
  | c :: r =>
      if c =? COLON then
        match fuel with
        | O => None
        | S fuel =>
            let '(start, s) := parse_gno r in
            if start <=? 0 then None
            else
              match SKIP_WHITESPACE s with
              | (c :: r) as s =>
                  if c =? DASH then
                    let '(end_, s) := parse_gno r in
                    if end_ <? 0 then None else valid_intervals fuel (SKIP_WHITESPACE s)
                  else valid_intervals fuel s
              | [] as s => valid_intervals fuel s
              end
        end
      else Some s
  | [] => Some s
  end.

(** [do ... while ( *s == ',')] and the test that the text ended. *)
Fixpoint valid_sids (fuel : nat) (s : list Z) : bool :=
  match skip_commas false s with
  | [] => true
  | (_ :: _) as s =>
      match fuel with
      | O => false
      | S fuel =>
          if Uuid_is_valid s then
            let s := SKIP_WHITESPACE (drop TEXT_LENGTH s) in
            match valid_intervals (length s) s with
            | None => false
            | Some s =>
                match s with
                | [] => true
                | c :: _ => if c =? COMMA then valid_sids fuel s else false
                end
            end
          else false
      end
  end.

Definition Gtid_set_is_valid (text : list Z) : bool :=
  let s := SKIP_WHITESPACE text in valid_sids (length s) s.

(** ** Printing *)

(** "", "", ":", "-", ":", ",\n", "" *)
Definition default_string_format : String_format :=
  mk_String_format [] [] [COLON] [DASH] [COLON] [COMMA; NEWLINE] (Some []) 0 0 1 1 1 2 0.

(** "'", "'", ":", "-", ":", "',\n'", "''" *)
Definition sql_string_format : String_format :=
  mk_String_format [39] [39] [COLON] [DASH] [COLON] [39; COMMA; NEWLINE; 39] (Some [39; 39])
    1 1 1 1 1 4 2.

(** "# ", "", ":", "-", ":", ",\n# ", "# [empty]" *)
Definition commented_string_format : String_format :=
  mk_String_format [35; 32] [] [COLON] [DASH] [COLON] [COMMA; NEWLINE; 35; 32]
    (Some [35; 32; 91; 101; 109; 112; 116; 121; 93]) 2 0 1 1 1 4 9.

(** [memcpy] of the given length. *)
Definition copy (s : list Z) (len : Z) : list Z := take (Z.to_nat len) s.

Definition interval_to_string (sf : String_format) (iv : Interval) : list Z :=
  format_gno (iv_start iv) ++
  (if iv_start iv + 1 <? iv_end iv
   then copy (gno_start_end_separator sf) (gno_start_end_separator_length sf) ++
        format_gno (iv_end iv - 1)
   else []).

Fixpoint intervals_to_string (sf : String_format) (first_gno : bool) (l : list Interval) : list Z :=
  match l with
  | [] => []
  | iv :: l =>
      (if first_gno then copy (sid_gno_separator sf) (sid_gno_separator_length sf)
       else copy (gno_gno_separator sf) (gno_gno_separator_length sf)) ++
      interval_to_string sf iv ++ intervals_to_string sf false l
  end.

Fixpoint sids_to_string (gs : Gtid_set) (m : Sid_map) (sf : String_format)
    (first_sidno : bool) (sorted : list rpl_sidno) : list Z :=
  match sorted with
  | [] => []
  | sidno :: sorted =>
      if contains_sidno gs sidno then
        (if first_sidno then []
         else copy (gno_sid_separator sf) (gno_sid_separator_length sf)) ++
        Uuid_to_string (sidno_to_sid m sidno) ++
        intervals_to_string sf true (intervals_of gs sidno) ++
        sids_to_string gs m sf false sorted
      else sids_to_string gs m sf first_sidno sorted
  end.

(** The bytes written to the buffer before the terminating zero. *)
Definition Gtid_set_to_string (gs : Gtid_set) (m : Sid_map) (sf : option String_format) : list Z :=
  let sf := default default_string_format sf in
  match empty_set_string sf, Gtid_set_is_empty gs with
  | Some text, true => copy text (empty_set_string_length sf)
  | _, _ =>
      copy (sf_begin sf) (begin_length sf) ++
      sids_to_string gs m sf true (_sorted m) ++
      copy (sf_end sf) (end_length sf)
  end.

(** ** The length of the text *)

(** The file-local [get_string_length(rpl_gno)]. *)
Fixpoint gno_string_length (fuel : nat) (gno : Z) : Z :=
  let tmp_gno := Z.quot gno 10 in
  match fuel with
  | O => 1
  | S fuel => if tmp_gno =? 0 then 1 else 1 + gno_string_length fuel tmp_gno
  end.

Record length_counters := mk_counters {
  n_sids : Z;
  n_intervals : Z;
  n_long_intervals : Z;
  total_interval_length : Z
}.

Definition count_interval (c : length_counters) (iv : Interval) : length_counters :=
  let len := total_interval_length c + gno_string_length 20 (iv_start iv) in
  if iv_start iv <? iv_end iv - 1
  then mk_counters (n_sids c) (n_intervals c + 1) (n_long_intervals c + 1)
         (len + gno_string_length 20 (iv_end iv - 1))
  else mk_counters (n_sids c) (n_intervals c + 1) (n_long_intervals c) len.

Definition count_sidno (c : length_counters) (l : list Interval) : length_counters :=
  match l with
  | [] => c
  | _ :: _ =>
      foldl count_interval
        (mk_counters (n_sids c + 1) (n_intervals c) (n_long_intervals c) (total_interval_length c)) l
  end.

Definition compute_string_length (gs : Gtid_set) (sf : String_format) : Z :=
  let c := foldl count_sidno (mk_counters 0 0 0 0) (m_intervals gs) in
  if (n_sids c =? 0) && bool_decide (is_Some (empty_set_string sf))
  then empty_set_string_length sf
  else
    begin_length sf + end_length sf +
    (if 0 <? n_sids c then
       total_interval_length c +
       n_sids c * (Z.of_nat TEXT_LENGTH + sid_gno_separator_length sf) +
       (n_sids c - 1) * gno_sid_separator_length sf +
       (n_intervals c - n_sids c) * gno_gno_separator_length sf +
       n_long_intervals c * gno_start_end_separator_length sf
     else 0).

(** The length and the set with its cache.  The code compares the address of
    the format, which says the same: the three formats are static objects with
    different contents. *)
Definition get_string_length (gs : Gtid_set) (sf : option String_format) : Z * Gtid_set :=
  let sf := default default_string_format sf in
  let fresh :=
    let len := compute_string_length gs sf in
    let p := gs_store gs in
    (len, mk_Gtid_set (m_intervals gs) (mk_store (free_intervals p) (chunks p) (Some (sf, len)))) in
  match cached_string (gs_store gs) with
  | Some (cached_string_format, cached_string_length) =>
      if decide (cached_string_format = sf) then (cached_string_length, gs) else fresh
  | None => fresh
  end.

(** ** Intervals for the table of executed identifiers *)

Record Gtid_interval := mk_Gtid_interval { gi_sidno : rpl_sidno; gi_start : Z; gi_end : Z }.

Definition get_gtid_intervals (gs : Gtid_set) (m : Sid_map) : list Gtid_interval :=
  concat (map (fun sidno =>
    if contains_sidno gs sidno
    then map (fun iv => mk_Gtid_interval sidno (iv_start iv) (iv_end iv - 1)) (intervals_of gs sidno)
    else []) (_sorted m)).

(** ** Single identifiers *)

Record Gtid := mk_Gtid { gtid_sidno : rpl_sidno; gtid_gno : Z }.

Definition Gtid_parse (m : Sid_map) (text : list Z) : outcome Sid_map Gtid :=
  let s := SKIP_WHITESPACE text in
  match Uuid_parse s with
  | None => Err m
  | Some sid =>
      let '(sidno, m) := add_sid m sid in
      match SKIP_WHITESPACE (drop TEXT_LENGTH s) with
      | c :: s =>
          if c =? COLON then
            let '(gno, s) := parse_gno (SKIP_WHITESPACE s) in
            if 0 <? gno then
              match SKIP_WHITESPACE s with
              | [] => Ok m (mk_Gtid sidno gno)
              | _ :: _ => Err m
              end
            else Err m
          else Err m
      | [] => Err m
      end
  end.

Definition Gtid_is_valid (text : list Z) : bool :=
  let s := SKIP_WHITESPACE text in
  if negb (Uuid_is_valid s) then false
  else
    match SKIP_WHITESPACE (drop TEXT_LENGTH s) with
    | c :: s =>
        if negb (c =? COLON) then false
        else
          let '(gno, s) := parse_gno (SKIP_WHITESPACE s) in
          if gno <=? 0 then false
          else match SKIP_WHITESPACE s with [] => true | _ :: _ => false end
    | [] => false
    end.

Definition Gtid_to_string (m : Sid_map) (gtid : Gtid) : list Z :=
  Uuid_to_string (sidno_to_sid m (gtid_sidno gtid)) ++ [COLON] ++ format_gno (gtid_gno gtid).

(** ** Lexical lemmas *)

Section lexical.
Implicit Types (s t : list Z) (c : Z).

Lemma count_while_app_stop f s t :
  Forall (fun c => f c = true) s -> (forall c r, t = c :: r -> f c = false) ->
  count_while f (s ++ t) = length s.
Proof.
  intros Hs Ht. induction Hs as [|c s Hc _ IH]; simpl; [|by rewrite Hc, IH].
  destruct t as [|c r]; [done|]. simpl. by rewrite (Ht c r eq_refl).
Qed.

Lemma SKIP_WHITESPACE_stop s :
  (forall c r, s = c :: r -> my_isspace c = false) -> SKIP_WHITESPACE s = s.
Proof.
  intros H. unfold SKIP_WHITESPACE. destruct s as [|c r]; [done|]. simpl.
  by rewrite (H c r eq_refl).
Qed.

Lemma SKIP_WHITESPACE_head s c r : SKIP_WHITESPACE s = c :: r -> my_isspace c = false.
Proof.
  unfold SKIP_WHITESPACE. induction s as [|x s IH]; simpl; [done|].
  destruct (my_isspace x) eqn:E; [done|]. by intros [= -> ->].
Qed.

Lemma drop_suffix n s : drop n s `suffix_of` s.
Proof. exists (take n s). by rewrite take_drop. Qed.

Lemma SKIP_WHITESPACE_suffix s : SKIP_WHITESPACE s `suffix_of` s.
Proof. apply drop_suffix. Qed.

Lemma skip_commas_suffix s : forall b, skip_commas b s `suffix_of` s.
Proof.
  induction s as [|c s IH]; intros b; simpl; [done|].
  destruct (_ || _); [|done]. by apply suffix_cons_r.
Qed.

(** [parse_gno] never moves backwards. *)
Lemma strtoll_magnitude_suffix s v rest :
  strtoll_magnitude s = Some (v, rest) -> rest `suffix_of` s.
Proof.
  unfold strtoll_magnitude. destruct (strtoll_base s) as [base s'] eqn:E.
  destruct (count_while _ s') as [|n]; [done|]. intros [= _ <-].
  etrans; [apply drop_suffix|]. unfold strtoll_base in E.
  destruct s as [|c0 [|x [|c r]]]; repeat case_match; simplify_eq; try done.
  by do 2 apply suffix_cons_r.
Qed.

Lemma parse_gno_suffix s : snd (parse_gno s) `suffix_of` s.
Proof.
  unfold parse_gno, strtoll. destruct (strtoll_sign _) as [negative s'] eqn:Es.
  assert (Hs' : s' `suffix_of` s).
  { etrans; [|apply (drop_suffix (count_while c_isspace s))]. unfold strtoll_sign in Es.
    destruct (drop _ s) as [|c r]; repeat case_match; simplify_eq; try done; by apply suffix_cons_r. }
  destruct (strtoll_magnitude s') as [[v rest']|] eqn:Em; [|done].
  apply strtoll_magnitude_suffix in Em. destruct (_ || _); [done|]. simpl. by etrans.
Qed.
End lexical.

(** ** The parser accepts what the validator accepts, and keeps the set *)

Section parse.
Implicit Types (s : list Z) (it : Interval_iterator) (p : Gtid_set_store) (st : text_state).

Lemma parse_gno_range s : -1 <= fst (parse_gno s) < GNO_END.
Proof.
  unfold parse_gno. destruct (strtoll s) as [ret endp]. unfold GNO_END, INT64_MAX. zcases.
Qed.

(** The validator's view of what follows the start of an interval. *)
Lemma valid_interval_end fuel start s :
  match SKIP_WHITESPACE s with
  | (c :: r) as s =>
      if c =? DASH then
        let '(end_, s) := parse_gno r in
        if end_ <? 0 then None else valid_intervals fuel (SKIP_WHITESPACE s)
      else valid_intervals fuel s
  | [] as s => valid_intervals fuel s
  end =
  match text_interval_end start (SKIP_WHITESPACE s) with
  | None => None
  | Some (_, s) => valid_intervals fuel s
  end.
Proof.
  unfold text_interval_end. destruct (SKIP_WHITESPACE s) as [|c r]; [done|].
  destruct (c =? DASH); [|done]. destruct (parse_gno r) as [end_ s']. by destruct (end_ <? 0).
Qed.

Lemma text_interval_end_range start s end_ s' :
  start < GNO_END -> text_interval_end start s = Some (end_, s') ->
  end_ <= GNO_END /\ s' `suffix_of` s.
Proof.
  intros Hs. unfold text_interval_end. destruct s as [|c r]; [intros [= <- <-]; split; [lia|done]|].
  destruct (c =? DASH); [|intros [= <- <-]; split; [lia|done]].
  pose proof (parse_gno_range r) as Hr. pose proof (parse_gno_suffix r) as Hsuf.
  destruct (parse_gno r) as [e s1]. simpl in Hr, Hsuf.
  destruct (e <? 0); [done|]. intros [= <- <-]. split; [lia|].
  apply suffix_cons_r. etrans; [apply SKIP_WHITESPACE_suffix|done].
Qed.

(** What an editing loop keeps of a list: see [add_sid_edit]. *)
Definition ivs_grow it p it' p' : Prop :=
  ivs_wf 0 (ivit_list it') /\
  (forall g, in_ivs (ivit_list it) g -> in_ivs (ivit_list it') g) /\
  balance p' (length (ivit_list it')) = balance p (length (ivit_list it)).

Lemma text_intervals_spec fuel : forall s it p,
  ivs_wf 0 (ivit_list it) ->
  match text_intervals fuel s it p with
  | Ok (it', p') s' =>
      valid_intervals fuel s = Some s' /\ s' `suffix_of` s /\ ivs_grow it p it' p'
  | Err (it', p') => valid_intervals fuel s = None /\ ivs_grow it p it' p'
  | UB => False
  end.
Proof.
  induction fuel as [|fuel IH]; intros s it p Hw; destruct s as [|c r]; simpl;
    try destruct (c =? COLON); try (unfold ivs_grow; by split_and!).
  pose proof (parse_gno_range r) as Hr. pose proof (parse_gno_suffix r) as Hs1.
  destruct (parse_gno r) as [start s1]. simpl in Hr, Hs1.
  destruct (Z.leb_spec start 0); [unfold ivs_grow; by split_and!|].
  rewrite (valid_interval_end fuel start).
  destruct (text_interval_end start (SKIP_WHITESPACE s1)) as [[end_ s2]|] eqn:E2;
    [|unfold ivs_grow; by split_and!].
  apply text_interval_end_range in E2 as [He Hs2]; [|lia].
  assert (Hsuf : s2 `suffix_of` c :: r).
  { apply suffix_cons_r. etrans; [exact Hs2|]. etrans; [apply SKIP_WHITESPACE_suffix|done]. }
  destruct (Z.ltb_spec start end_) as [Hlt|_].
  - destruct (seek_add_spec it start end_ p Hw) as (it1 & p1 & -> & Hw1 & Hg1 & Hb1); [lia..|].
    assert (Hgrow : forall it' p', ivs_grow it1 p1 it' p' -> ivs_grow it p it' p').
    { intros it' p' (I1 & I2 & I3). unfold ivs_grow. split_and!; [done| |congruence].
      intros g Hg. apply I2, Hg1. by left. }
    specialize (IH s2 it1 p1 Hw1).
    destruct (text_intervals fuel s2 it1 p1) as [[it' p'] s'|[it' p']|]; [| |done].
    + destruct IH as (I1 & I2 & I3). split_and!; [done|by etrans|by apply Hgrow].
    + destruct IH as (I1 & I3). split; [done|by apply Hgrow].
  - specialize (IH s2 it p Hw).
    destruct (text_intervals fuel s2 it p) as [[it' p'] s'|[it' p']|]; [|done..].
    destruct IH as (I1 & I2 & I3). split_and!; [done|by etrans|done].
Qed.

Definition ts_wf st : Prop :=
  sid_map_wf (ts_map st) /\ gs_wf (ts_set st) /\ gs_fits (ts_map st) (ts_set st).

Definition ts_grows st st' : Prop :=
  gs_grows (ts_map st) (ts_set st) (ts_map st') (ts_set st').

Lemma ts_grows_wf st st' : ts_grows st st' -> ts_wf st'.
Proof. intros (H1 & H2 & H3 & _). by split_and!. Qed.

Lemma Uuid_parse_length s u : Uuid_parse s = Some u -> Forall is_byte s -> (TEXT_LENGTH <= length s)%nat.
Proof.
  intros E Hb. destruct (Uuid_parse_spec s u Hb E) as [Hwf Ht].
  apply (f_equal length) in Ht. rewrite Uuid_to_string_length, length_fmap, length_take in Ht by done. lia.
Qed.

Lemma text_sid_spec s st :
  ts_wf st -> Forall is_byte s ->
  let s1 := SKIP_WHITESPACE (drop TEXT_LENGTH s) in
  match text_sid s st with
  | Ok st' s' =>
      ts_grows st st' /\ (ts_anonymous st = None <-> ts_anonymous st' = None) /\
      (length s' < length s)%nat /\ s' `suffix_of` s /\
      (ts_anonymous st = None ->
         Uuid_is_valid s = true /\ valid_intervals (length s1) s1 = Some s')
  | Err st' =>
      ts_grows st st' /\
      (ts_anonymous st = None ->
         Uuid_is_valid s = false \/ Uuid_is_valid s = true /\ valid_intervals (length s1) s1 = None)
  | UB => False
  end.
Proof.
  intros (Hm & Hwf & Hf) Hb. cbv zeta. unfold text_sid.
  pose proof (gs_grows_refl (ts_map st) (ts_set st) Hm Hwf Hf) as Hrefl.
  destruct (bool_decide (is_Some (ts_anonymous st)) && bool_decide (take 9 s = ANONYMOUS_text)) eqn:Ea.
  { apply andb_true_iff in Ea as [E1%bool_decide_eq_true_1 E2%bool_decide_eq_true_1].
    split_and!; [done| | |apply drop_suffix|].
    - destruct E1 as [x ->]. done.
    - apply (f_equal length) in E2. rewrite length_take in E2. rewrite length_drop.
      change (length ANONYMOUS_text) with 9%nat in E2. lia.
    - intros E. rewrite E in E1. by destruct E1. }
  pose proof (Uuid_is_valid_spec s) as Hv.
  destruct (Uuid_parse s) as [sid|] eqn:Ep.
  2: { split; [done|]. intros _. left. destruct (Uuid_is_valid s); [|done].
       by destruct (proj1 Hv eq_refl). }
  assert (Hvalid : Uuid_is_valid s = true) by (by apply Hv).
  pose proof (Uuid_parse_length s sid Ep Hb) as Hl.
  destruct (Uuid_parse_spec s sid Hb Ep) as [Hsid _].
  destruct (add_sid (ts_map st) sid) as [sidno m1] eqn:Es.
  set (s1 := SKIP_WHITESPACE (drop TEXT_LENGTH s)).
  assert (Hs1 : s1 `suffix_of` drop TEXT_LENGTH s) by apply SKIP_WHITESPACE_suffix.
  pose proof (text_intervals_spec (length s1) s1
    (ivit_init (intervals_of (ensure_sidno (ts_set st) sidno) sidno))
    (gs_store (ensure_sidno (ts_set st) sidno))
    (intervals_of_wf _ sidno (proj1 (ensure_sidno_becomes _ sidno Hwf)))) as Ht.
  assert (Hedit : forall r, ivs_grow (ivit_init (intervals_of (ensure_sidno (ts_set st) sidno) sidno))
      (gs_store (ensure_sidno (ts_set st) sidno)) (fst r) (snd r) ->
    gs_grows (ts_map st) (ts_set st) m1 (write_back (ensure_sidno (ts_set st) sidno) sidno r)).
  { intros r (R1 & R2 & R3).
    destruct (add_sid_edit (ts_map st) (ts_set st) sid sidno m1 r Hm Hwf Hf Hsid Es R1 R2 R3)
      as (S1 & S2 & S3 & S4 & S5). unfold gs_grows. split_and!; [done..|].
    intros sid' g Hg. apply S5. by left. }
  destruct (text_intervals _ s1 _ _) as [[it' p'] s'|[it' p']|]; [| |done].
  - destruct Ht as (T1 & T2 & T3). pose proof (suffix_length _ _ Hs1) as L1.
    pose proof (suffix_length _ _ T2) as L2. rewrite length_drop in L1. unfold TEXT_LENGTH in *.
    split_and!; [by apply (Hedit (it', p'))|done|lia| |done].
    etrans; [exact T2|]. etrans; [exact Hs1|]. apply drop_suffix.
  - destruct Ht as (T1 & T3). split; [by apply (Hedit (it', p'))|]. intros _. by right.
Qed.

Lemma text_sids_spec fuel : forall s st,
  ts_wf st -> Forall is_byte s -> (length s <= fuel)%nat ->
  match text_sids fuel s st with
  | Ok st' _ => ts_grows st st' /\ (ts_anonymous st = None -> valid_sids fuel s = true)
  | Err st' => ts_grows st st' /\ (ts_anonymous st = None -> valid_sids fuel s = false)
  | UB => False
  end.
Proof.
  induction fuel as [|fuel IH]; intros s st Hst Hb Hl;
    pose proof Hst as (Hm & Hwf & Hf); pose proof (gs_grows_refl _ _ Hm Hwf Hf) as Hrefl;
    pose proof (skip_commas_suffix s false) as Hsuf; cbn [text_sids valid_sids].
  - apply suffix_length in Hsuf. destruct (skip_commas false s); [done|]. simpl in Hsuf. lia.
  - assert (Hb1 : Forall is_byte (skip_commas false s)) by (by eapply Forall_suffix).
    apply suffix_length in Hsuf. destruct (skip_commas false s) as [|c r] eqn:Ec; [done|].
    pose proof (text_sid_spec (c :: r) st Hst Hb1) as Ht. cbv zeta in Ht.
    destruct (text_sid (c :: r) st) as [st1 s1|st1|]; cbn [obind]; [| |done].
    + destruct Ht as (T1 & T2 & T3 & T4 & T5).
      assert (Hb2 : Forall is_byte s1) by (by eapply Forall_suffix).
      specialize (IH s1 st1 (ts_grows_wf _ _ T1) Hb2 ltac:(lia)).
      assert (Hnext : forall st2, ts_grows st1 st2 -> ts_grows st st2)
        by (intros; by eapply gs_grows_trans).
      destruct s1 as [|c1 r1].
      { destruct fuel; simpl in *; (split; [by apply Hnext, IH|]); intros E;
          destruct (T5 E) as [-> ->]; done. }
      destruct (c1 =? COMMA) eqn:Ecomma.
      * destruct (text_sids fuel (c1 :: r1) st1) as [st2 ?|st2|]; [..|done];
          (split; [by apply Hnext, IH|]); intros E; destruct (T5 E) as [-> ->];
          rewrite Ecomma; by apply IH, T2.
      * split; [done|]. intros E. destruct (T5 E) as [-> ->]. by rewrite Ecomma.
    + destruct Ht as (T1 & T2). split; [done|]. intros E.
      destruct (T2 E) as [->|[-> ->]]; done.
Qed.
End parse.

(** ** Reading back what was printed *)

Section print.
Implicit Types (s rest : list Z) (gs : Gtid_set) (m : Sid_map) (st : text_state)
  (it : Interval_iterator) (p : Gtid_set_store).

Lemma format_gno_digits gno :
  0 <= gno < 2 ^ 63 -> format_gno gno = map (dig _dig_vec_upper) (digits 10 gno).
Proof.
  intros Hg. unfold format_gno. rewrite int2str_spec by lia. unfold num_text, sign_and_uval. simpl.
  by rewrite wrapu_id by (unfold in_u; lia).
Qed.

(** What may follow a number: nothing, or a character that is neither a digit
    in any base nor white space. *)
Definition delimited s : Prop :=
  forall c r, s = c :: r -> digit_value c = 99 /\ my_isspace c = false.

Lemma parse_format_gno gno s :
  0 < gno < GNO_END -> delimited s -> parse_gno (format_gno gno ++ s) = (gno, s).
Proof.
  intros Hg Hs. unfold GNO_END, INT64_MAX in Hg. unfold parse_gno.
  rewrite format_gno_digits, strtoll_digits_app; [|unfold LLONG_MAX; lia| |lia].
  { unfold GNO_END, INT64_MAX. rewrite (proj2 (Z.ltb_ge _ _)), (proj2 (Z.leb_gt _ _)) by lia. done. }
  intros c r E. destruct (Hs c r E) as [-> _]. lia.
Qed.

#[local] Opaque format_gno parse_gno.

Lemma delimited_skip s : delimited s -> SKIP_WHITESPACE s = s.
Proof. intros H. apply SKIP_WHITESPACE_stop. intros c r E. by destruct (H c r E). Qed.

Lemma delimited_cons c s : c = COMMA \/ c = COLON \/ c = DASH -> delimited (c :: s).
Proof. intros H c' r [= <- <-]. by destruct H as [->|[->| ->]]. Qed.

Lemma delimited_nil : delimited [].
Proof. by intros c r. Qed.

(** Intervals are only followed by the next SID or the end of the text. *)
Definition ends_sid s : Prop := s = [] \/ exists r, s = COMMA :: r.

Lemma ends_sid_delimited s : ends_sid s -> delimited s.
Proof. intros [->|[r ->]]; [apply delimited_nil|apply delimited_cons; by left]. Qed.

Lemma intervals_to_string_delimited l rest :
  ends_sid rest -> delimited (intervals_to_string default_string_format false l ++ rest).
Proof.
  intros Hr. destruct l as [|iv l]; simpl; [by apply ends_sid_delimited|].
  apply delimited_cons. by right; left.
Qed.

Lemma default_dash :
  copy (gno_start_end_separator default_string_format)
    (gno_start_end_separator_length default_string_format) = [DASH].
Proof. done. Qed.

(** One interval: what the parser does with the text after the colon. *)
Lemma parse_interval iv s :
  0 < iv_start iv < iv_end iv -> iv_end iv <= GNO_END -> delimited s ->
  (forall r, s <> DASH :: r) ->
  exists s1, parse_gno (interval_to_string default_string_format iv ++ s) = (iv_start iv, s1) /\
    text_interval_end (iv_start iv) (SKIP_WHITESPACE s1) = Some (iv_end iv, s).
Proof.
  intros Hs He Hd Hdash. unfold interval_to_string. rewrite default_dash.
  destruct (Z.ltb_spec (iv_start iv + 1) (iv_end iv)).
  - exists (DASH :: format_gno (iv_end iv - 1) ++ s). rewrite <- app_assoc. cbn [app]. split.
    + apply parse_format_gno; [lia|]. apply delimited_cons. by right; right.
    + rewrite delimited_skip by (apply delimited_cons; by right; right).
      unfold text_interval_end. rewrite Z.eqb_refl, parse_format_gno by (done || lia).
      destruct (Z.ltb_spec (iv_end iv - 1) 0); [lia|]. rewrite delimited_skip by done. do 2 f_equal. lia.
  - exists s. rewrite app_nil_r. split; [apply parse_format_gno; (done || lia)|].
    rewrite delimited_skip by done. unfold text_interval_end.
    replace (iv_end iv) with (iv_start iv + 1) by lia. destruct s as [|c r]; [done|].
    destruct (Z.eqb_spec c DASH) as [->|]; [by destruct (Hdash r)|done].
Qed.

Lemma text_intervals_print l : forall lo b fuel it p rest,
  ivs_wf lo l -> 0 <= lo -> ends_sid rest -> ivs_wf 0 (ivit_list it) -> (length l <= fuel)%nat ->
  exists it' p',
    text_intervals fuel (intervals_to_string default_string_format b l ++ rest) it p =
      Ok (it', p') rest /\
    ivs_wf 0 (ivit_list it') /\
    (forall g, in_ivs (ivit_list it') g <-> in_ivs (ivit_list it) g \/ in_ivs l g) /\
    balance p' (length (ivit_list it')) = balance p (length (ivit_list it)).
Proof.
  induction l as [|iv l IH]; intros lo b fuel it p rest Hl Hlo Hrest Hw Hf.
  { exists it, p. split_and!; [|done| |done].
    - cbn [intervals_to_string app]. destruct Hrest as [->|[r ->]]; by destruct fuel.
    - intros g. rewrite in_ivs_nil. tauto. }
  destruct fuel as [|fuel]; [simpl in Hf; lia|]. destruct Hl as (H1 & H2 & H3).
  set (tail := intervals_to_string default_string_format false l ++ rest).
  assert (E : intervals_to_string default_string_format b (iv :: l) ++ rest =
              COLON :: interval_to_string default_string_format iv ++ tail).
  { cbn [intervals_to_string]. unfold tail. destruct b; simpl; by rewrite <- app_assoc. }
  rewrite E. clear E. cbn [text_intervals]. rewrite Z.eqb_refl.
  destruct (parse_interval iv tail) as (s1 & -> & Ee); [lia|lia| | |].
  { by apply intervals_to_string_delimited. }
  { intros r. unfold tail. destruct l; simpl; [|done]. by destruct Hrest as [->|[r' ->]]. }
  destruct (Z.leb_spec (iv_start iv) 0); [lia|]. rewrite Ee.
  destruct (Z.ltb_spec (iv_start iv) (iv_end iv)); [|lia].
  destruct (seek_add_spec it (iv_start iv) (iv_end iv) p Hw) as (it1 & p1 & -> & Hw1 & Hg1 & Hb1); [lia..|].
  destruct (IH (iv_end iv) false fuel it1 p1 rest) as (it' & p' & E' & Hw' & Hg' & Hb');
    [done|lia|done|done|simpl in Hf; lia|].
  exists it', p'. split_and!; [done..| |congruence].
  intros g. rewrite Hg', Hg1, in_ivs_cons. unfold in_interval. tauto.
Qed.

Lemma intervals_to_string_length b l :
  (length l <= length (intervals_to_string default_string_format b l))%nat.
Proof.
  revert b. induction l as [|iv l IH]; intros b; [done|].
  cbn [intervals_to_string length]. rewrite !length_app. specialize (IH false).
  destruct b; simpl; lia.
Qed.

(** A printed SID starts with a hexadecimal digit in lower case. *)
Lemma byte_to_hex_plain d :
  0 <= d < 16 -> byte_to_hex d <> COMMA /\ my_isspace (byte_to_hex d) = false.
Proof.
  intros Hd. assert (H : negb (byte_to_hex d =? COMMA) && negb (my_isspace (byte_to_hex d)) = true).
  { apply (forall_range_b (fun d => negb (byte_to_hex d =? COMMA) && negb (my_isspace (byte_to_hex d)))
      16); [reflexivity|done]. }
  apply andb_true_iff in H as [H1%negb_true_iff%Z.eqb_neq H2%negb_true_iff]. done.
Qed.

Lemma Uuid_to_string_head u s :
  uuid_wf u -> exists c r, Uuid_to_string u ++ s = c :: r /\ c <> COMMA /\ my_isspace c = false.
Proof.
  intros [Hl Hb]. destruct u as [|b u]; [done|]. apply Forall_cons in Hb as [Hb _].
  unfold Uuid_to_string, bytes_per_section. cbn [print_sections].
  change (print_section 4 (b :: u)) with
    (let '(buf, u) := print_section 3 u in
     (byte_to_hex (Z.shiftr b 4) :: byte_to_hex (Z.land b 15) :: buf, u)).
  destruct (print_section 3 u) as [buf u'].
  eexists _, _. split; [reflexivity|]. apply byte_to_hex_plain.
  rewrite Z.shiftr_div_pow2 by lia. red in Hb.
  split; [apply Z.div_pos; lia|apply Z.div_lt_upper_bound; lia].
Qed.

Lemma sids_to_string_ends gs m sorted :
  ends_sid (sids_to_string gs m default_string_format false sorted).
Proof.
  induction sorted as [|s sorted IH]; simpl; [by left|].
  destruct (contains_sidno gs s); [|done]. right. eexists. reflexivity.
Qed.

Lemma skip_commas_sep (b : bool) u s :
  uuid_wf u ->
  skip_commas false ((if b then [] else [COMMA; NEWLINE]) ++ Uuid_to_string u ++ s) =
  Uuid_to_string u ++ s.
Proof.
  intros Hu. destruct (Uuid_to_string_head u s Hu) as (c & r & -> & Hc & Hsp).
  destruct b; simpl; rewrite (proj2 (Z.eqb_neq c COMMA) Hc); simpl; [done|by rewrite Hsp].
Qed.

(** One SID. *)
Lemma text_sid_print gs m sidno rest st :
  gs_wf gs -> sid_map_wf m -> (1 <= sidno <= sid_map_max_sidno m)%nat -> ends_sid rest ->
  ts_wf st -> ts_anonymous st = None ->
  intervals_of gs sidno <> [] ->
  exists st',
    text_sid (Uuid_to_string (sidno_to_sid m sidno) ++
              intervals_to_string default_string_format true (intervals_of gs sidno) ++ rest) st =
      Ok st' rest /\
    ts_wf st' /\ ts_anonymous st' = None /\ gs_nodes (ts_set st') = gs_nodes (ts_set st) /\
    forall sid g, gs_has_sid (ts_map st') (ts_set st') sid g <->
      gs_has_sid (ts_map st) (ts_set st) sid g \/ sid = sidno_to_sid m sidno /\ gs_has gs sidno g.
Proof.
  intros Hwf Hm Hs Hrest (Hm0 & Hwf0 & Hf0) Han Hne.
  pose proof (sidno_to_sid_wf m sidno Hm Hs) as Hsid. unfold text_sid.
  rewrite Han, Uuid_parse_to_string by done.
  rewrite bool_decide_eq_false_2 by (by intros [? ?]). cbn [andb].
  rewrite drop_app_length' by (symmetry; by apply Uuid_to_string_length).
  destruct (add_sid (ts_map st) (sidno_to_sid m sidno)) as [s1 m1] eqn:Ea.
  set (text := intervals_to_string default_string_format true (intervals_of gs sidno) ++ rest).
  assert (Hskip : SKIP_WHITESPACE text = text).
  { apply delimited_skip. unfold text. destruct (intervals_of gs sidno); [done|].
    simpl. apply delimited_cons. by right; left. }
  rewrite Hskip.
  pose proof (ensure_sidno_becomes (ts_set st) s1 Hwf0) as (We & He & Ne).
  destruct (text_intervals_print (intervals_of gs sidno) 0 true (length text)
    (ivit_init (intervals_of (ensure_sidno (ts_set st) s1) s1))
    (gs_store (ensure_sidno (ts_set st) s1)) rest) as (it' & p' & E & Hw' & Hg' & Hb').
  { by apply intervals_of_wf. } { lia. } { done. } { by apply intervals_of_wf. }
  { unfold text. rewrite length_app.
    pose proof (intervals_to_string_length true (intervals_of gs sidno)). lia. }
  fold text in E. rewrite E. eexists. split; [reflexivity|].
  destruct (add_sid_edit (ts_map st) (ts_set st) _ s1 m1 (it', p') Hm0 Hwf0 Hf0 Hsid Ea Hw')
    as (S1 & S2 & S3 & S4 & S5); [|done|].
  { intros g Hg. apply Hg'. by left. }
  cbn [ts_map ts_set ts_anonymous]. split_and!; [by split_and!|done|done|].
  intros sid g. rewrite S5. cbn [fst]. rewrite Hg'. unfold ivit_init, ivit_list. simpl.
  fold (gs_has (ensure_sidno (ts_set st) s1) s1 g). rewrite He. fold (gs_has gs sidno g).
  split; [|tauto]. intros [?|[-> [Hg|Hg]]]; [by left| |by right]. left.
  pose proof (add_sid_spec (ts_map st) _ Hm0 Hsid) as Ha. rewrite Ea in Ha.
  destruct Ha as (A1 & A2 & A3 & A4 & A5).
  apply (gs_has_sid_prefix (ts_map st) m1 (ts_set st)); try done. unfold gs_has_sid. by rewrite A4.
Qed.

Lemma text_sids_print gs m sorted : forall b fuel st,
  gs_wf gs -> sid_map_wf m -> Forall (fun k : nat => 1 <= k <= sid_map_max_sidno m)%nat sorted ->
  ts_wf st -> ts_anonymous st = None ->
  (length (sids_to_string gs m default_string_format b sorted) <= fuel)%nat ->
  exists st',
    text_sids fuel (sids_to_string gs m default_string_format b sorted) st = Ok st' tt /\
    ts_wf st' /\ gs_nodes (ts_set st') = gs_nodes (ts_set st) /\
    forall sid g, gs_has_sid (ts_map st') (ts_set st') sid g <->
      gs_has_sid (ts_map st) (ts_set st) sid g \/ has_among m gs sorted sid g.
Proof.
  induction sorted as [|sidno sorted IH]; intros b fuel st Hwf Hm Hr Hst Han Hl.
  { exists st. split_and!; [by destruct fuel|done|done|]. intros sid g. split; [tauto|].
    intros [?|(s & []%elem_of_nil & _)]; done. }
  apply Forall_cons in Hr as [Hs Hr]. cbn [sids_to_string] in *.
  rewrite contains_sidno_intervals in *.
  destruct (intervals_of gs sidno) as [|iv l] eqn:Ei.
  { destruct (IH b fuel st Hwf Hm Hr Hst Han Hl) as (st' & E & H1 & H2 & H3). exists st'.
    split_and!; [done..|]. intros sid g. rewrite H3, has_among_cons. unfold gs_has.
    rewrite Ei, in_ivs_nil. tauto. }
  rewrite <- Ei in *. set (rest := sids_to_string gs m default_string_format false sorted) in *.
  pose proof (sidno_to_sid_wf m sidno Hm Hs) as Hsid.
  change (copy (gno_sid_separator default_string_format) (gno_sid_separator_length default_string_format))
    with [COMMA; NEWLINE] in *.
  destruct (text_sid_print gs m sidno rest st) as (st1 & E1 & W1 & A1 & N1 & H1); try done.
  { apply sids_to_string_ends. }
  { by rewrite Ei. }
  rewrite !length_app, Uuid_to_string_length in Hl by done.
  destruct fuel as [|fuel]; [unfold TEXT_LENGTH in Hl; lia|].
  destruct (IH false fuel st1) as (st' & E & W2 & N2 & H2); try done.
  { fold rest. unfold TEXT_LENGTH in Hl. lia. }
  exists st'. split_and!; [|done|congruence|].
  - cbn [text_sids]. rewrite skip_commas_sep by done.
    set (t := Uuid_to_string _ ++ _) in *.
    assert (Ht : t <> []).
    { intros Et. apply (f_equal length) in Et. unfold t in Et.
      rewrite length_app, Uuid_to_string_length in Et by done. discriminate Et. }
    destruct t as [|c r]; [done|]. rewrite E1. cbn [obind]. fold rest in E.
    destruct (sids_to_string_ends gs m sorted) as [Er|[r' Er]]; fold rest in Er; rewrite Er in *; [done|].
    by rewrite Z.eqb_refl.
  - intros sid g. rewrite H2, H1, has_among_cons. intuition congruence.
Qed.
End print.

(** ** The announced length *)

(** The lengths a format states are those of its strings. *)
Definition sf_wf (sf : String_format) : Prop :=
  Z.of_nat (length (sf_begin sf)) = begin_length sf /\
  Z.of_nat (length (sf_end sf)) = end_length sf /\
  Z.of_nat (length (sid_gno_separator sf)) = sid_gno_separator_length sf /\
  Z.of_nat (length (gno_start_end_separator sf)) = gno_start_end_separator_length sf /\
  Z.of_nat (length (gno_gno_separator sf)) = gno_gno_separator_length sf /\
  Z.of_nat (length (gno_sid_separator sf)) = gno_sid_separator_length sf /\
  match empty_set_string sf with
  | Some text => Z.of_nat (length text) = empty_set_string_length sf
  | None => True
  end.

Lemma string_formats_wf :
  sf_wf default_string_format /\ sf_wf sql_string_format /\ sf_wf commented_string_format.
Proof. unfold sf_wf. by split_and!. Qed.

Section length.
Context (sf : String_format) (Hsf : sf_wf sf).
Implicit Types (l : list Interval) (lists : list (list Interval)) (gs : Gtid_set) (m : Sid_map).

Lemma copy_all (s : list Z) len : Z.of_nat (length s) = len -> copy s len = s.
Proof. intros <-. unfold copy. rewrite Nat2Z.id. by apply take_ge. Qed.

Lemma digits_step n :
  0 < n -> digits 10 n = (if n / 10 =? 0 then [] else digits 10 (n / 10)) ++ [n mod 10].
Proof.
  intros Hn. pose proof (Z.log2_spec n Hn) as [_ Hl]. pose proof (Z.log2_nonneg n).
  set (f := Z.to_nat (Z.log2 n)).
  assert (Hb : n < 2 ^ Z.of_nat (S f)).
  { unfold f. rewrite Nat2Z.inj_succ, Z2Nat.id by lia. done. }
  rewrite (digits_fuel (S f)), digits_acc_S by lia.
  rewrite (proj2 (Z.eqb_neq n 0)), digits_acc_app by lia. f_equal.
  destruct (Z.eqb_spec (n / 10) 0) as [->|E]; [by destruct f|].
  rewrite Nat2Z.inj_succ, Z.pow_succ_r in Hb by lia. pose proof (Z.div_pos n 10 ltac:(lia) ltac:(lia)).
  symmetry. apply digits_fuel; [lia|]. split; [lia|]. apply Z.div_lt_upper_bound; lia.
Qed.

Lemma gno_string_length_spec fuel : forall gno,
  0 < gno < 10 ^ Z.of_nat (S fuel) ->
  gno_string_length fuel gno = Z.of_nat (length (digits 10 gno)).
Proof.
  induction fuel as [|fuel IH]; intros gno Hg; cbn [gno_string_length];
    rewrite digits_step, length_app by lia; simpl length;
    rewrite Nat2Z.inj_succ, Z.pow_succ_r in Hg by lia.
  - assert (E : gno / 10 = 0) by (apply Z.div_small; simpl in Hg; lia). by rewrite E.
  - rewrite Z.quot_div_nonneg by lia. pose proof (Z.div_pos gno 10 ltac:(lia) ltac:(lia)).
    destruct (Z.eqb_spec (gno / 10) 0); [done|]. rewrite IH; [simpl; lia|].
    split; [lia|]. apply Z.div_lt_upper_bound; lia.
Qed.

Lemma format_gno_length gno :
  0 < gno < GNO_END -> Z.of_nat (length (format_gno gno)) = gno_string_length 20 gno.
Proof.
  unfold GNO_END, INT64_MAX. intros Hg.
  rewrite format_gno_digits, length_map, gno_string_length_spec by lia. done.
Qed.

#[local] Opaque gno_string_length.

(** What one interval, and the list of one SID, contribute. *)
Definition is_long (iv : Interval) : Z := if iv_start iv <? iv_end iv - 1 then 1 else 0.
Definition interval_length (iv : Interval) : Z :=
  gno_string_length 20 (iv_start iv) +
  (if iv_start iv <? iv_end iv - 1 then gno_string_length 20 (iv_end iv - 1) else 0).
Definition sid_count l : Z := match l with [] => 0 | _ :: _ => 1 end.
Definition ivs_length l : Z := Z.of_nat (length l).
Definition sid_length l : Z :=
  zsum interval_length l +
  sid_count l * (Z.of_nat TEXT_LENGTH + sid_gno_separator_length sf) +
  (ivs_length l - sid_count l) * gno_gno_separator_length sf +
  zsum is_long l * gno_start_end_separator_length sf.

Lemma sid_length_nil : sid_length [] = 0.
Proof. unfold sid_length, ivs_length. simpl. lia. Qed.

Lemma foldl_count_interval l : forall c,
  foldl count_interval c l =
    mk_counters (n_sids c) (n_intervals c + ivs_length l) (n_long_intervals c + zsum is_long l)
      (total_interval_length c + zsum interval_length l).
Proof.
  unfold ivs_length. induction l as [|iv l IH]; intros [a b c d]; cbn [foldl length].
  { cbn [n_sids n_intervals n_long_intervals total_interval_length]. f_equal; simpl; lia. }
  rewrite IH, !zsum_cons. unfold count_interval, is_long at 2, interval_length at 2.
  destruct (iv_start iv <? iv_end iv - 1);
    cbn [n_sids n_intervals n_long_intervals total_interval_length]; f_equal; lia.
Qed.

Lemma foldl_count_sidno lists : forall c,
  foldl count_sidno c lists =
    mk_counters (n_sids c + zsum sid_count lists) (n_intervals c + zsum ivs_length lists)
      (n_long_intervals c + zsum (zsum is_long) lists)
      (total_interval_length c + zsum (zsum interval_length) lists).
Proof.
  induction lists as [|l lists IH]; intros [a b c d]; cbn [foldl].
  { simpl. f_equal; lia. }
  rewrite IH, !zsum_cons. destruct l as [|iv l]; cbn [count_sidno]; [simpl; f_equal; lia|].
  rewrite foldl_count_interval.
  cbn [n_sids n_intervals n_long_intervals total_interval_length sid_count]. f_equal; lia.
Qed.

Lemma zsum_sid_length lists :
  zsum sid_length lists =
    zsum (zsum interval_length) lists +
    zsum sid_count lists * (Z.of_nat TEXT_LENGTH + sid_gno_separator_length sf) +
    (zsum ivs_length lists - zsum sid_count lists) * gno_gno_separator_length sf +
    zsum (zsum is_long) lists * gno_start_end_separator_length sf.
Proof.
  induction lists as [|l lists IH]; [simpl; lia|].
  rewrite !zsum_cons, IH. unfold sid_length. lia.
Qed.

Lemma interval_to_string_length iv :
  0 < iv_start iv < iv_end iv -> iv_end iv <= GNO_END ->
  Z.of_nat (length (interval_to_string sf iv)) =
    interval_length iv + is_long iv * gno_start_end_separator_length sf.
Proof.
  intros Hs He. destruct Hsf as (_ & _ & _ & H4 & _). unfold interval_to_string, interval_length, is_long.
  rewrite length_app, Nat2Z.inj_add, format_gno_length by lia.
  destruct (Z.ltb_spec (iv_start iv + 1) (iv_end iv)), (Z.ltb_spec (iv_start iv) (iv_end iv - 1)); try lia.
  - rewrite copy_all, length_app, Nat2Z.inj_add, format_gno_length by (done || lia). lia.
  - simpl. lia.
Qed.

Lemma intervals_to_string_exact l : forall b lo,
  ivs_wf lo l -> 0 <= lo ->
  Z.of_nat (length (intervals_to_string sf b l)) =
    zsum interval_length l + zsum is_long l * gno_start_end_separator_length sf +
    (if b then sid_count l * sid_gno_separator_length sf +
               (ivs_length l - sid_count l) * gno_gno_separator_length sf
     else ivs_length l * gno_gno_separator_length sf).
Proof.
  destruct Hsf as (_ & _ & H3 & _ & H5 & _). unfold ivs_length.
  induction l as [|iv l IH]; intros b lo Hl Hlo; [destruct b; simpl; lia|].
  destruct Hl as (H1 & H2 & Hl). cbn [intervals_to_string length sid_count].
  rewrite !length_app, !Nat2Z.inj_add, interval_to_string_length, (IH false (iv_end iv)), !zsum_cons
    by (done || lia).
  destruct b; rewrite copy_all by done; lia.
Qed.

Lemma sids_to_string_length gs m sorted : forall b,
  gs_wf gs -> sid_map_wf m -> Forall (fun k : nat => 1 <= k <= sid_map_max_sidno m)%nat sorted ->
  let n := zsum (fun k => sid_count (intervals_of gs k)) sorted in
  Z.of_nat (length (sids_to_string gs m sf b sorted)) =
    zsum (fun k => sid_length (intervals_of gs k)) sorted +
    (if b then Z.max 0 (n - 1) else n) * gno_sid_separator_length sf.
Proof.
  destruct Hsf as (_ & _ & _ & _ & _ & H6 & _).
  induction sorted as [|k sorted IH]; intros b Hwf Hm Hr; cbv zeta; [destruct b; simpl; lia|].
  apply Forall_cons in Hr as [Hk Hr]. cbn [sids_to_string].
  rewrite contains_sidno_intervals, !zsum_cons.
  assert (Hn : 0 <= zsum (fun k => sid_count (intervals_of gs k)) sorted).
  { apply zsum_nonneg. intros x _. destruct (intervals_of gs x); simpl; lia. }
  destruct (intervals_of gs k) as [|iv l] eqn:Ei.
  { rewrite IH, sid_length_nil by done. cbn [sid_count]. cbv zeta. by rewrite !Z.add_0_l. }
  rewrite <- Ei. rewrite !length_app, !Nat2Z.inj_add, (IH false) by done.
  rewrite Uuid_to_string_length by (by apply sidno_to_sid_wf).
  rewrite (intervals_to_string_exact _ true 0) by (by apply intervals_of_wf || lia).
  unfold sid_length at 2. rewrite Ei. cbn [sid_count]. destruct b; [simpl length|rewrite copy_all by done]; lia.
Qed.
End length.

Section to_string.
Implicit Types (gs : Gtid_set) (m : Sid_map) (F : list Interval -> Z).

Lemma map_intervals_of gs : map (intervals_of gs) (seq 1 (get_max_sidno gs)) = m_intervals gs.
Proof.
  unfold get_max_sidno. rewrite <- seq_shift, map_map.
  apply list_eq_same_length with (length (m_intervals gs)); [done|by rewrite length_map, length_seq|].
  intros i x y Hi Hx Hy. change (map ?f ?l) with (f <$> l) in Hx.
  apply list_lookup_fmap_Some in Hx as (j & -> & Hj). apply lookup_seq in Hj as [-> _].
  simpl. by apply list_lookup_total_correct.
Qed.

(** Summing over the SIDNOs of the map or over the array is the same. *)
Lemma zsum_sidnos F gs m :
  sid_map_wf m -> gs_fits m gs -> F [] = 0 ->
  zsum (fun k => F (intervals_of gs k)) (_sorted m) = zsum F (m_intervals gs).
Proof.
  intros Hm Hf H0. rewrite (swf_perm m Hm). fold (sid_map_max_sidno m). red in Hf.
  replace (sid_map_max_sidno m) with (get_max_sidno gs + (sid_map_max_sidno m - get_max_sidno gs))%nat by lia.
  rewrite seq_app, zsum_app, (zsum_zero _ (seq (1 + get_max_sidno gs) _)).
  - transitivity (zsum F (map (intervals_of gs) (seq 1 (get_max_sidno gs)))).
    + rewrite zsum_map. apply Z.add_0_r.
    + by rewrite map_intervals_of.
  - intros k Hk%elem_of_seq. rewrite intervals_of_out by lia. done.
Qed.

Lemma zsum_sid_length_none sf lists :
  zsum sid_count lists = 0 -> zsum (sid_length sf) lists = 0.
Proof.
  induction lists as [|l lists IH]; [done|]. rewrite !zsum_cons. intros E.
  assert (0 <= zsum sid_count lists) by (apply zsum_nonneg; intros [|? ?] _; simpl; lia).
  destruct l as [|iv l]; cbn [sid_count] in E; [|lia].
  rewrite IH, sid_length_nil by lia. done.
Qed.

Lemma is_empty_sid_count gs : Gtid_set_is_empty gs = true <-> zsum sid_count (m_intervals gs) = 0.
Proof.
  unfold Gtid_set_is_empty, git_new, git_next_sidno. rewrite drop_0.
  generalize 0%nat. induction (m_intervals gs) as [|[|iv l] lists IH]; intros k; [done|apply IH|].
  rewrite zsum_cons. simpl. split; [done|]. intros E.
  assert (0 <= zsum sid_count lists); [|lia]. apply zsum_nonneg. intros [|? ?] _; simpl; lia.
Qed.

Lemma to_string_length gs m sf :
  sid_map_wf m -> gs_wf gs -> gs_fits m gs -> sf_wf (default default_string_format sf) ->
  Z.of_nat (length (Gtid_set_to_string gs m sf)) =
    compute_string_length gs (default default_string_format sf).
Proof.
  intros Hm Hwf Hf Hsf. unfold Gtid_set_to_string, compute_string_length.
  set (f := default default_string_format sf) in *. rewrite foldl_count_sidno.
  cbn [n_sids n_intervals n_long_intervals total_interval_length]. rewrite !Z.add_0_l.
  pose proof (is_empty_sid_count gs) as He. pose proof Hsf as (H1 & H2 & H3 & H4 & H5 & H6 & H7).
  set (n := zsum sid_count (m_intervals gs)) in *.
  assert (Hn : 0 <= n) by (apply zsum_nonneg; intros [|? ?] _; simpl; lia).
  assert (Hbody : Z.of_nat (length (copy (sf_begin f) (begin_length f) ++
      sids_to_string gs m f true (_sorted m) ++ copy (sf_end f) (end_length f))) =
    begin_length f + end_length f +
    (zsum (sid_length f) (m_intervals gs) + Z.max 0 (n - 1) * gno_sid_separator_length f)).
  { rewrite !length_app, !Nat2Z.inj_add, !copy_all, (sids_to_string_length f Hsf) by
      (done || apply (sid_sorted_map m Hm)).
    cbv zeta. rewrite !zsum_sidnos by (done || apply sid_length_nil). fold n. lia. }
  rewrite zsum_sid_length in Hbody. fold n in Hbody.
  pose proof (zsum_sid_length_none f (m_intervals gs)) as Hz. fold n in Hz.
  rewrite zsum_sid_length in Hz. fold n in Hz.
  destruct (Gtid_set_is_empty gs) eqn:E.
  - assert (E0 : n = 0) by (by apply He). specialize (Hz E0). rewrite E0 in *. simpl in *.
    destruct (empty_set_string f) as [text|]; [by rewrite copy_all|].
    rewrite bool_decide_eq_false_2 by (by intros [? ?]). lia.
  - assert (E0 : n <> 0) by (by intros ?%He).
    rewrite (proj2 (Z.eqb_neq n 0) E0). cbn [andb]. destruct (Z.ltb_spec 0 n); [|lia].
    replace (match empty_set_string f with Some _ => _ | None => _ end)
      with (copy (sf_begin f) (begin_length f) ++ sids_to_string gs m f true (_sorted m) ++
            copy (sf_end f) (end_length f)) by (by destruct (empty_set_string f)).
    rewrite Hbody, (Z.max_r 0 (n - 1)) by lia. lia.
Qed.
End to_string.

(** ** The cached length *)

Definition cache_ok (gs : Gtid_set) : Prop :=
  match cached_string (gs_store gs) with
  | Some (sf, len) => len = compute_string_length gs sf
  | None => True
  end.

Section cache.
Implicit Types (gs other : Gtid_set) (m : Sid_map).

(** An edit resets the cache, or changes neither the cache nor anything the
    length depends on. *)
Definition cache_edit gs gs' : Prop :=
  cached_string (gs_store gs') = None \/
  cached_string (gs_store gs') = cached_string (gs_store gs) /\
  forall F : list Interval -> Z, F [] = 0 -> zsum F (m_intervals gs') = zsum F (m_intervals gs).

Lemma cache_edit_ok gs gs' : cache_edit gs gs' -> cache_ok gs -> cache_ok gs'.
Proof.
  unfold cache_ok. intros [->|[-> HF]]; [done|]. destruct (cached_string (gs_store gs)) as [[sf len]|]; [|done].
  intros ->. unfold compute_string_length. by rewrite !foldl_count_sidno, !HF.
Qed.

Lemma cache_edit_refl gs : cache_edit gs gs.
Proof. by right. Qed.

Lemma cache_edit_trans gs gs1 gs2 : cache_edit gs gs1 -> cache_edit gs1 gs2 -> cache_edit gs gs2.
Proof.
  intros H1 [H2|[H2 F2]]; [by left|]. destruct H1 as [H1|[H1 F1]]; [left; congruence|].
  right. split; [congruence|]. intros F HF. by rewrite F2, F1.
Qed.

Lemma add_gno_intervals_loop_cached (other : list Interval) : forall it p it' p',
  add_gno_intervals_loop it other p = Some (it', p') ->
  cached_string p' = None \/ it' = it /\ p' = p.
Proof.
  induction other as [|iv other IH]; intros it p it' p'; simpl; [intros [= <- <-]; by right|].
  destruct (add_gno_interval it (iv_start iv) (iv_end iv) p) as [[it1 p1]|] eqn:E; [|done]. simpl.
  intros [H|[-> ->]]%IH; left; [done|]. by eapply add_gno_interval_cached.
Qed.

Lemma remove_gno_intervals_loop_cached (other : list Interval) : forall it p it' p',
  remove_gno_intervals_loop it other p = Some (it', p') ->
  cached_string p' = None \/ it' = it /\ p' = p.
Proof.
  induction other as [|iv other IH]; intros it p it' p'; simpl; [intros [= <- <-]; by right|].
  destruct (remove_gno_interval it (iv_start iv) (iv_end iv) p) as [[it1 p1]|] eqn:E; [|done]. simpl.
  apply remove_gno_interval_cached in E.
  destruct (ivit_get it1); [|intros [= <- <-]; by left].
  intros [H|[-> ->]]%IH; by left.
Qed.

Lemma write_back_edit gs sidno l it p :
  iterate gs sidno = Some l ->
  cached_string p = None \/ it = ivit_init l /\ p = gs_store gs ->
  cache_edit gs (write_back gs sidno (it, p)).
Proof.
  intros Hl [H|[-> ->]]; [by left|]. right. split; [done|]. intros F HF. unfold write_back. simpl.
  unfold ivit_list, ivit_init. simpl. destruct sidno as [|k]; [done|]. simpl in Hl.
  replace (S k - 1)%nat with k by lia. by rewrite list_insert_id.
Qed.

Lemma add_gno_intervals_edit gs sidno l gs' : add_gno_intervals gs sidno l = Some gs' -> cache_edit gs gs'.
Proof.
  unfold add_gno_intervals. destruct (iterate gs sidno) as [l0|] eqn:El; [|done]. simpl.
  destruct (add_gno_intervals_loop _ _ _) as [[it p]|] eqn:E; [|done]. intros [= <-].
  eapply write_back_edit; [done|]. by eapply add_gno_intervals_loop_cached.
Qed.

Lemma remove_gno_intervals_edit gs sidno l gs' :
  remove_gno_intervals gs sidno l = Some gs' -> cache_edit gs gs'.
Proof.
  unfold remove_gno_intervals. destruct (iterate gs sidno) as [l0|] eqn:El; [|done]. simpl.
  destruct (remove_gno_intervals_loop _ _ _) as [[it p]|] eqn:E; [|done]. intros [= <-].
  eapply write_back_edit; [done|]. by eapply remove_gno_intervals_loop_cached.
Qed.

Lemma add_same_loop_edit other sidnos : forall gs gs',
  add_same_loop gs other sidnos = Some gs' -> cache_edit gs gs'.
Proof.
  induction sidnos as [|s sidnos IH]; intros gs gs'; simpl; [intros [= <-]; apply cache_edit_refl|].
  destruct (iterate other s) as [l|]; [|done]. simpl.
  destruct (add_gno_intervals gs s l) as [gs1|] eqn:E; [|done]. simpl. intros H.
  eapply cache_edit_trans; [by eapply add_gno_intervals_edit|by apply IH].
Qed.

Lemma remove_same_loop_edit other sidnos : forall gs gs',
  remove_same_loop gs other sidnos = Some gs' -> cache_edit gs gs'.
Proof.
  induction sidnos as [|s sidnos IH]; intros gs gs'; simpl; [intros [= <-]; apply cache_edit_refl|].
  destruct (iterate other s) as [l|]; [|done]. simpl.
  destruct (remove_gno_intervals gs s l) as [gs1|] eqn:E; [|done]. simpl. intros H.
  eapply cache_edit_trans; [by eapply remove_gno_intervals_edit|by apply IH].
Qed.

Lemma ensure_sidno_edit gs sidno : cache_edit gs (ensure_sidno gs sidno).
Proof.
  right. split; [done|]. intros F HF. unfold ensure_sidno. simpl. rewrite zsum_app.
  rewrite (zsum_zero F (replicate _ _)); [lia|]. intros l Hl%elem_of_replicate.
  by destruct Hl as [-> _].
Qed.

Lemma run_op_edit gs op gs' : run_op gs op = Some gs' -> cache_edit gs gs'.
Proof.
  destruct op; simpl.
  - intros [= <-]. apply ensure_sidno_edit.
  - unfold _add_gtid. destruct (iterate gs sidno) as [l|] eqn:El; [|done]. simpl.
    destruct (add_gno_interval _ _ _ _) as [[it p]|] eqn:E; [|done]. intros [= <-].
    eapply write_back_edit; [done|]. left. by eapply add_gno_interval_cached.
  - unfold _remove_gtid. case_decide; [|intros [= <-]; apply cache_edit_refl].
    destruct (iterate gs sidno) as [l|] eqn:El; [|done]. simpl.
    destruct (remove_gno_interval _ _ _ _) as [[it p]|] eqn:E; [|done]. intros [= <-].
    eapply write_back_edit; [done|]. left. by eapply remove_gno_interval_cached.
  - destruct (add_same_loop _ _ _) as [gs1|] eqn:E; [|done]. simpl. intros [= <-].
    eapply cache_edit_trans; [apply ensure_sidno_edit|by eapply add_same_loop_edit].
  - apply remove_same_loop_edit.
  - intros [= <-]. by left.
Qed.

Lemma run_ops_edit ops : forall gs gs', run_ops gs ops = Some gs' -> cache_edit gs gs'.
Proof.
  induction ops as [|op ops IH]; intros gs gs'; simpl; [intros [= <-]; apply cache_edit_refl|].
  destruct (run_op gs op) as [gs1|] eqn:E; [|done]. simpl. intros H.
  eapply cache_edit_trans; [by eapply run_op_edit|by apply IH].
Qed.

Lemma get_string_length_ok gs sf :
  cache_ok gs ->
  fst (get_string_length gs sf) = compute_string_length gs (default default_string_format sf) /\
  cache_ok (snd (get_string_length gs sf)) /\
  m_intervals (snd (get_string_length gs sf)) = m_intervals gs.
Proof.
  unfold get_string_length, cache_ok. intros H.
  destruct (cached_string (gs_store gs)) as [[sf' len]|] eqn:E.
  - case_decide as Hd; simpl; [|done]. subst. by rewrite E.
  - done.
Qed.
End cache.

(** ** Properties *)

Lemma create_new_chunk_grows m gs n p :
  sid_map_wf m -> gs_wf gs -> gs_fits m gs -> create_new_chunk n (gs_store gs) = Some p ->
  gs_grows m gs m (mk_Gtid_set (m_intervals gs) p).
Proof.
  intros Hm Hwf Hf. unfold create_new_chunk. destruct (Z.ltb_spec n 1); [done|]. intros [= <-].
  unfold gs_grows. split_and!; try done. unfold gs_nodes, balance. simpl.
  rewrite length_app, length_replicate. lia.
Qed.

Lemma COLON_skip s : COLON ∈ s -> COLON ∈ SKIP_WHITESPACE s.
Proof.
  unfold SKIP_WHITESPACE. induction s as [|c s IH]; simpl; [done|].
  destruct (my_isspace c) eqn:E; [|done]. intros [<-|H]%elem_of_cons; [by vm_compute in E|by apply IH].
Qed.

Lemma count_colons_spec s : COLON ∈ s <-> 1 <= count_colons s.
Proof.
  unfold count_colons. induction s as [|c s IH]; [split; [intros []%elem_of_nil|simpl; lia]|].
  rewrite elem_of_cons, filter_cons, IH. case_decide as Hd; simpl; [|intuition congruence].
  split; [lia|]. intros _. by left.
Qed.

(** C38: The parser and the validator agree: called without a place for the word
    ANONYMOUS, [add_gtid_text] succeeds on texts [is_valid] accepts and fails on
    texts [is_valid] rejects, and in both cases the invariants of set and map
    hold afterwards, nothing is lost from the set and no interval node leaks.  The
    only other outcome is the chunk without nodes that is written to when the set
    has no chunk yet and the text no colon; see [add_gtid_text_empty_chunk]. *)
Theorem add_gtid_text_is_valid text gs m :
  sid_map_wf m -> gs_wf gs -> gs_fits m gs -> Forall is_byte text ->
  match add_gtid_text text (mk_text_state gs m None) with
  | Ok st' _ => Gtid_set_is_valid text = true /\ gs_grows m gs (ts_map st') (ts_set st')
  | Err st' => Gtid_set_is_valid text = false /\ gs_grows m gs (ts_map st') (ts_set st')
  | UB => chunks (gs_store gs) = [] /\ COLON ∉ text
  end.
Proof.
  intros Hm Hwf Hf Hb. unfold add_gtid_text, Gtid_set_is_valid. cbn [ts_set ts_map ts_anonymous].
  assert (Hb' : Forall is_byte (SKIP_WHITESPACE text)).
  { eapply Forall_suffix; [apply SKIP_WHITESPACE_suffix|done]. }
  pose proof (COLON_skip text) as Hcol.
  set (s := SKIP_WHITESPACE text) in *. destruct s as [|c r] eqn:Es.
  { split; [done|]. by apply gs_grows_refl. }
  assert (Hgo : forall gs1, gs_grows m gs m gs1 ->
    match text_sids (length (c :: r)) (c :: r) (mk_text_state gs1 m None) with
    | Ok st' _ => valid_sids (length (c :: r)) (c :: r) = true /\ gs_grows m gs (ts_map st') (ts_set st')
    | Err st' => valid_sids (length (c :: r)) (c :: r) = false /\ gs_grows m gs (ts_map st') (ts_set st')
    | UB => chunks (gs_store gs) = [] /\ COLON ∉ text
    end).
  { intros gs1 Hg. pose proof Hg as (W1 & M1 & F1 & _).
    pose proof (text_sids_spec (length (c :: r)) (c :: r) (mk_text_state gs1 m None)
      ltac:(by split_and!) Hb' (le_n _)) as H.
    destruct (text_sids _ _ _) as [st' ?|st'|]; [| |done]; destruct H as [H1 H2];
      (split; [by apply H2|]); by eapply gs_grows_trans. }
  destruct (chunks (gs_store gs)) as [|n ns] eqn:Ec; [|by apply Hgo, gs_grows_refl].
  destruct (create_new_chunk _ (gs_store gs)) as [p|] eqn:Ep; simpl.
  - by apply Hgo, (create_new_chunk_grows m gs (count_colons (c :: r))).
  - split; [done|]. intros Hch%Hcol%count_colons_spec. unfold create_new_chunk in Ep. destruct (Z.ltb_spec (count_colons (c :: r)) 1); [lia|done].
Qed.

(** "03030303-0303-0303-0303-030303030303:5-7:2" *)
Definition ex_text : list Z :=
  Uuid_to_string (ex_sid 3) ++ [COLON; 53; DASH; 55; COLON; 50].

Lemma add_gtid_text_is_valid_witness :
  exists st', add_gtid_text ex_text (mk_text_state Gtid_set_new ex_map None) = Ok st' tt /\
    Gtid_set_is_valid ex_text = true /\ gs_grows ex_map Gtid_set_new (ts_map st') (ts_set st').
Proof.
  pose proof (add_gtid_text_is_valid ex_text Gtid_set_new ex_map ex_map_wf) as H.
  assert (Hb : Forall is_byte ex_text) by (apply bytes_check; vm_compute; reflexivity).
  specialize (H (Forall_nil_2 _) (new_fits _) Hb).
  destruct (add_gtid_text ex_text (mk_text_state Gtid_set_new ex_map None)) as [st' []|st'|] eqn:E.
  - exists st'. split; [reflexivity|exact H].
  - vm_compute in E. discriminate E.
  - vm_compute in E. discriminate E.
Defined.

(** If no chunk is allocated yet and the text has no colon, [add_gtid_text]
    allocates a chunk for zero intervals and writes in front of its first
    node, even for texts [is_valid] rejects. *)
Theorem add_gtid_text_empty_chunk text gs m anonymous :
  chunks (gs_store gs) = [] -> SKIP_WHITESPACE text <> [] -> (COLON ∉ text) ->
  add_gtid_text text (mk_text_state gs m anonymous) = UB.
Proof.
  intros Hc Hs Hcol. unfold add_gtid_text. cbn [ts_set ts_map ts_anonymous]. rewrite Hc.
  destruct (SKIP_WHITESPACE text) as [|c r] eqn:E; [done|].
  unfold create_new_chunk. destruct (Z.ltb_spec (count_colons (c :: r)) 1) as [_|H]; [done|].
  exfalso. apply Hcol. rewrite <- E in H. apply count_colons_spec in H.
  by eapply elem_of_suffix; [|apply SKIP_WHITESPACE_suffix].
Qed.

Lemma add_gtid_text_empty_chunk_witness :
  add_gtid_text [COMMA] (mk_text_state Gtid_set_new Sid_map_new None) = UB.
Proof.
  apply add_gtid_text_empty_chunk; [reflexivity|discriminate|].
  intros H%count_colons_spec. vm_compute in H. by apply H.
Defined.

Lemma sids_to_string_first gs m sorted :
  sid_map_wf m -> Forall (fun k : nat => 1 <= k <= sid_map_max_sidno m)%nat sorted ->
  let t := sids_to_string gs m default_string_format true sorted in
  t = [] \/ SKIP_WHITESPACE t = t /\ COLON ∈ t.
Proof.
  intros Hm. induction sorted as [|k sorted IH]; intros Hr; [by left|]. cbv zeta in *.
  apply Forall_cons in Hr as [Hk Hr]. cbn [sids_to_string]. rewrite contains_sidno_intervals.
  destruct (intervals_of gs k) as [|iv l]; [by apply IH|]. right. cbn [app].
  pose proof (sidno_to_sid_wf m k Hm Hk) as Hu. split.
  - apply SKIP_WHITESPACE_stop. intros c r E.
    match type of E with _ ++ ?s = _ => destruct (Uuid_to_string_head _ s Hu) as (c' & r' & E' & _ & Hsp) end.
    rewrite E' in E. by injection E as <- <-.
  - apply elem_of_app. right. by left.
Qed.

Lemma to_string_default gs m :
  sid_map_wf m -> gs_wf gs -> gs_fits m gs ->
  Gtid_set_to_string gs m None = sids_to_string gs m default_string_format true (_sorted m).
Proof.
  intros Hm Hwf Hf. unfold Gtid_set_to_string. simpl. rewrite app_nil_r.
  destruct (Gtid_set_is_empty gs) eqn:E; [|done].
  pose proof (to_string_length gs m None Hm Hwf Hf (proj1 string_formats_wf)) as Hl.
  pose proof (sids_to_string_length default_string_format (proj1 string_formats_wf) gs m (_sorted m)
    true Hwf Hm (proj2 (sid_sorted_map m Hm))) as Hb. cbv zeta in Hb.
  rewrite !zsum_sidnos in Hb by (done || apply sid_length_nil).
  apply is_empty_sid_count in E. rewrite (zsum_sid_length_none _ _ E), E in Hb.
  symmetry. apply nil_length_inv. simpl in Hb. lia.
Qed.

(** C33: Parsing is the inverse of printing.  [add_gtid_text], given what
    [to_string] prints in the default format, adds to any set, over any other
    map, exactly the identifiers of the printed set. *)
Theorem to_string_parse_roundtrip gs m gs0 m0 :
  sid_map_wf m -> gs_wf gs -> gs_fits m gs ->
  sid_map_wf m0 -> gs_wf gs0 -> gs_fits m0 gs0 ->
  exists st',
    add_gtid_text (Gtid_set_to_string gs m None) (mk_text_state gs0 m0 None) = Ok st' tt /\
    ts_wf st' /\ gs_nodes (ts_set st') = gs_nodes gs0 /\
    forall sid g, gs_has_sid (ts_map st') (ts_set st') sid g <->
      gs_has_sid m0 gs0 sid g \/ gs_has_sid m gs sid g.
Proof.
  intros Hm Hwf Hf Hm0 Hwf0 Hf0. rewrite to_string_default by done.
  pose proof (sid_sorted_map m Hm) as [_ Hr].
  set (t := sids_to_string gs m default_string_format true (_sorted m)).
  assert (Hgo : forall gs1, gs_grows m0 gs0 m0 gs1 ->
    (forall sid g, gs_has_sid m0 gs1 sid g <-> gs_has_sid m0 gs0 sid g) -> exists st',
      text_sids (length t) t (mk_text_state gs1 m0 None) = Ok st' tt /\
      ts_wf st' /\ gs_nodes (ts_set st') = gs_nodes gs0 /\
      forall sid g, gs_has_sid (ts_map st') (ts_set st') sid g <->
        gs_has_sid m0 gs0 sid g \/ gs_has_sid m gs sid g).
  { intros gs1 (W1 & M1 & F1 & N1 & _) H1.
    destruct (text_sids_print gs m (_sorted m) true (length t) (mk_text_state gs1 m0 None))
      as (st' & E & W & N & H); try done.
    exists st'. split_and!; [done|done|by rewrite N|]. intros sid g.
    rewrite H, has_among_sorted by done. cbn [ts_map ts_set]. by rewrite H1. }
  unfold add_gtid_text. cbn [ts_set ts_map ts_anonymous].
  destruct (sids_to_string_first gs m (_sorted m) Hm Hr) as [E|[E Hc]]; fold t in E |- *.
  { destruct (Hgo gs0) as (st' & Es & H); [by apply gs_grows_refl|done|].
    rewrite E in *. simpl in *. injection Es as <-. by eexists. }
  fold t in Hc. rewrite E. apply count_colons_spec in Hc.
  destruct t as [|c r] eqn:Et; [by vm_compute in Hc|]. rewrite <- Et in *.
  destruct (chunks (gs_store gs0)) as [|n ns] eqn:Ec; [|apply Hgo; [by apply gs_grows_refl|done]].
  destruct (create_new_chunk (count_colons t) (gs_store gs0)) as [p|] eqn:Ep; simpl.
  - apply Hgo; [by apply (create_new_chunk_grows m0 gs0 (count_colons t))|done].
  - unfold create_new_chunk in Ep. destruct (Z.ltb_spec (count_colons t) 1); [lia|done].
Qed.

Lemma to_string_parse_roundtrip_witness :
  exists st',
    add_gtid_text (Gtid_set_to_string ex_set ex_map None) (mk_text_state ex_set' ex_map' None) =
      Ok st' tt /\
    ts_wf st' /\ gs_nodes (ts_set st') = gs_nodes ex_set' /\
    forall sid g, gs_has_sid (ts_map st') (ts_set st') sid g <->
      gs_has_sid ex_map' ex_set' sid g \/ gs_has_sid ex_map ex_set sid g.
Proof.
  apply to_string_parse_roundtrip;
    [apply ex_map_wf|apply ex_set_wf|vm_compute; lia|apply ex_map'_wf|apply ex_set'_wf|vm_compute; lia].
Defined.

(** After any sequence of edits, [get_string_length] returns the number of
    characters [to_string] writes, for each of the formats: the cached length
    is dropped by every edit that could change it. *)
Theorem get_string_length_exact ops gs gs' m sf :
  sid_map_wf m -> gs_wf gs -> cache_ok gs -> ops_ok (get_max_sidno gs) ops ->
  run_ops gs ops = Some gs' -> gs_fits m gs' -> sf_wf (default default_string_format sf) ->
  fst (get_string_length gs' sf) = Z.of_nat (length (Gtid_set_to_string gs' m sf)) /\
  cache_ok (snd (get_string_length gs' sf)).
Proof.
  intros Hm Hwf Hc Hops E Hf Hsf.
  destruct (run_ops_spec ops gs Hwf Hops) as (gs1 & E1 & Hw1 & _). rewrite E in E1. injection E1 as <-.
  destruct (get_string_length_ok gs' sf) as (H1 & H2 & _).
  { eapply cache_edit_ok; [by eapply run_ops_edit|done]. }
  split; [|done]. by rewrite H1, to_string_length.
Qed.

(** The set has the length of its old text cached when it is edited. *)
Lemma get_string_length_exact_witness :
  exists gs', run_ops (snd (get_string_length ex_set None)) [Op_add_gtid 2 5] = Some gs' /\
    cached_string (gs_store (snd (get_string_length ex_set None))) <> None /\
    fst (get_string_length gs' None) = Z.of_nat (length (Gtid_set_to_string gs' ex_map None)) /\
    cache_ok (snd (get_string_length gs' None)).
Proof.
  eexists. split; [vm_compute; reflexivity|]. split; [discriminate|].
  apply (get_string_length_exact [Op_add_gtid 2 5] (snd (get_string_length ex_set None)) _ ex_map None).
  - apply ex_map_wf.
  - by apply gs_wfb_true.
  - vm_compute. reflexivity.
  - simpl. unfold GNO_END, INT64_MAX. repeat split; vm_compute; (lia || discriminate || reflexivity).
  - vm_compute. reflexivity.
  - vm_compute. lia.
  - apply string_formats_wf.
Defined.

Lemma delimited_prefix_skip (s : list Z) : delimited (COLON :: s).
Proof. apply delimited_cons. by right; left. Qed.

(** A printed number starts with a digit, so no blank is skipped before it. *)
Lemma format_gno_skip gno s : 0 < gno < GNO_END -> SKIP_WHITESPACE (format_gno gno ++ s) = format_gno gno ++ s.
Proof.
  unfold GNO_END, INT64_MAX. intros Hg. rewrite format_gno_digits by lia.
  destruct (digits_head 10 gno) as (d & ds & -> & Hd); [lia..|].
  apply SKIP_WHITESPACE_stop. intros c r [= <- _].
  rewrite (decimal_digit d true) by lia. unfold my_isspace. zcases.
Qed.

(** For single identifiers, [Gtid::parse] succeeds exactly on the texts
    [Gtid::is_valid] accepts, and reads back every identifier [Gtid::to_string]
    prints, entering its SID into the map if needed. *)
Lemma Gtid_parse_print m :
  sid_map_wf m ->
  (forall text, Gtid_is_valid text = true <-> exists m' gtid, Gtid_parse m text = Ok m' gtid) /\
  (forall m0 gtid, sid_map_wf m0 -> (1 <= gtid_sidno gtid <= sid_map_max_sidno m0)%nat ->
     0 < gtid_gno gtid < GNO_END ->
     exists m' gtid', Gtid_parse m (Gtid_to_string m0 gtid) = Ok m' gtid' /\ sid_map_wf m' /\
       sidno_to_sid m' (gtid_sidno gtid') = sidno_to_sid m0 (gtid_sidno gtid) /\
       gtid_gno gtid' = gtid_gno gtid).
Proof.
  intros Hm. split.
  - intros text. unfold Gtid_is_valid, Gtid_parse. set (s := SKIP_WHITESPACE text).
    pose proof (Uuid_is_valid_spec s) as Hv. destruct (Uuid_parse s) as [sid|].
    + rewrite (proj2 Hv) by done. simpl. destruct (add_sid m sid) as [sidno m1].
      destruct (SKIP_WHITESPACE (drop TEXT_LENGTH s)) as [|c r]; [split; [done|by intros (? & ? & ?)]|].
      destruct (c =? COLON); simpl; [|split; [done|by intros (? & ? & ?)]].
      destruct (parse_gno (SKIP_WHITESPACE r)) as [gno s1].
      destruct (Z.leb_spec gno 0), (Z.ltb_spec 0 gno); try lia; [split; [done|by intros (? & ? & ?)]|].
      destruct (SKIP_WHITESPACE s1); [|split; [done|by intros (? & ? & ?)]]. split; [eauto|done].
    + destruct (Uuid_is_valid s); [by destruct (proj1 Hv eq_refl)|]. simpl.
      split; [done|by intros (? & ? & ?)].
  - intros m0 gtid Hm0 Hs Hg. pose proof (sidno_to_sid_wf m0 _ Hm0 Hs) as Hu.
    unfold Gtid_parse, Gtid_to_string.
    rewrite (SKIP_WHITESPACE_stop (Uuid_to_string _ ++ _)); cycle 1.
    { intros c r E.
      destruct (Uuid_to_string_head _ ([COLON] ++ format_gno (gtid_gno gtid)) Hu) as (c' & r' & E' & _ & Hsp).
      rewrite E' in E. by injection E as <- <-. }
    rewrite Uuid_parse_to_string by done.
    pose proof (add_sid_spec m _ Hm Hu) as Ha.
    destruct (add_sid m _) as [sidno m1]. destruct Ha as (Hm1 & _ & Hto & _).
    rewrite drop_app_length' by (symmetry; by apply Uuid_to_string_length).
    rewrite delimited_skip by apply delimited_prefix_skip. cbn [app]. rewrite Z.eqb_refl.
    pose proof (format_gno_skip (gtid_gno gtid) [] Hg) as Hskip. rewrite app_nil_r in Hskip. rewrite Hskip.
    pose proof (parse_format_gno (gtid_gno gtid) [] Hg delimited_nil) as Hp. rewrite app_nil_r in Hp.
    rewrite Hp. destruct (Z.ltb_spec 0 (gtid_gno gtid)); [|lia]. simpl. eauto 10.
Qed.
