(* ===== verification/GtidState.v ===== *)
(** * Ownership and execution of GTIDs

    [Owned_gtids] ([sql/rpl_gtid_owned.cc]), [Gtid_state]
    ([sql/rpl_gtid_state.cc]) and the part of [sql/rpl_gtid_execution.cc] that
    sets GTID_NEXT: which GTIDs were executed, which session owns a GTID, and
    how ownership is acquired, turned into execution at commit, and released at
    rollback.

    Every operation runs under [global_sid_lock] and the lock of the SIDNO it
    works on, so it is one atomic step; a session that has to wait releases the
    locks, other steps happen, and it starts over.  GTID_NEXT_LIST is compiled
    out of the server and not modelled; nor are allocation failures, the
    performance schema and the session trackers.  [None] is an access outside
    of an array, or a use of an uninitialised search state. *)

From Stdlib Require Import ZArith Lia.
From stdpp Require Import sorting base numbers option gmap tactics list.
From S2P Require Import Prelude GtidInterval Uuid SidMap GtidSet GtidText.

#[local] Open Scope Z_scope.

(** ** Owned_gtids

    One hash per SIDNO, from GNO to owner; several nodes may have one GNO.  A
    hash is the list of its nodes in the order a search meets them. *)

Record Node := mk_Node { node_gno : Z; node_owner : Z }.

#[export] Instance Node_eq_dec : EqDecision Node.
Proof. solve_decision. Defined.

Abbreviation Owned_gtids := (list (list Node)).

Definition get_hash (og : Owned_gtids) (sidno : rpl_sidno) : option (list Node) :=
  match sidno with O => None | S i => og !! i end.

Definition owned_max_sidno (og : Owned_gtids) : rpl_sidno := length og.

Definition owned_ensure_sidno (og : Owned_gtids) (sidno : rpl_sidno) : Owned_gtids :=
  og ++ replicate (sidno - owned_max_sidno og) [].

Definition set_hash (og : Owned_gtids) (sidno : rpl_sidno) (hash : list Node) : Owned_gtids :=
  <[(sidno - 1)%nat := hash]> og.

Definition add_gtid_owner (og : Owned_gtids) (gtid : Gtid) (owner : Z) : option Owned_gtids :=
  hash ← get_hash og (gtid_sidno gtid);
  Some (set_hash og (gtid_sidno gtid) (hash ++ [mk_Node (gtid_gno gtid) owner])).

Fixpoint hash_delete (node : Node) (hash : list Node) : list Node :=
  match hash with
  | [] => []
  | n :: r => if decide (n = node) then r else n :: hash_delete node r
  end.

(** The loop starts with [my_hash_search] and goes on with [my_hash_next] on a
    search state that was never initialised: only the first node is safe. *)
Definition remove_gtid (og : Owned_gtids) (gtid : Gtid) (owner : Z) : option Owned_gtids :=
  hash ← get_hash og (gtid_sidno gtid);
  match filter (fun n => node_gno n = gtid_gno gtid) hash with
  | [] => Some og
  | n :: _ =>
      if node_owner n =? owner then Some (set_hash og (gtid_sidno gtid) (hash_delete n hash))
      else None
  end.

Definition is_owned_by (og : Owned_gtids) (gtid : Gtid) (thd_id : Z) : option bool :=
  hash ← get_hash og (gtid_sidno gtid);
  let nodes := filter (fun n => node_gno n = gtid_gno gtid) hash in
  Some (if thd_id =? 0 then match nodes with [] => true | _ :: _ => false end
        else existsb (fun n => node_owner n =? thd_id) nodes).

Definition owned_is_empty (og : Owned_gtids) : bool :=
  forallb (fun hash => match hash with [] => true | _ :: _ => false end) og.

Definition thread_owns_anything (og : Owned_gtids) (thd_id : Z) : bool :=
  existsb (existsb (fun n => node_owner n =? thd_id)) og.

(** [Gtid_iterator] over the hashes, in SIDNO order. *)
Fixpoint owned_list (sidno : rpl_sidno) (og : Owned_gtids) : list Gtid :=
  match og with
  | [] => []
  | hash :: og => map (fun n => mk_Gtid sidno (node_gno n)) hash ++ owned_list (S sidno) og
  end.

Definition owned_is_intersection_nonempty (og : Owned_gtids) (other : Gtid_set) : bool :=
  existsb (fun g => contains_gtid other (gtid_sidno g) (gtid_gno g)) (owned_list 1 og).

Definition owned_get_gtids (og : Owned_gtids) (gs : Gtid_set) : option Gtid_set :=
  foldl (fun gs g => gs ← gs; _add_gtid gs (gtid_sidno g) (gtid_gno g)) (Some gs) (owned_list 1 og).

(** ** Sessions *)

Inductive enum_gtid_mode :=
  GTID_MODE_OFF | GTID_MODE_OFF_PERMISSIVE | GTID_MODE_ON_PERMISSIVE | GTID_MODE_ON.

#[export] Instance enum_gtid_mode_eq_dec : EqDecision enum_gtid_mode.
Proof. solve_decision. Defined.

Inductive enum_group_type :=
  AUTOMATIC_GROUP | GTID_GROUP | ANONYMOUS_GROUP | UNDEFINED_GROUP | NOT_YET_DETERMINED_GROUP.

#[export] Instance enum_group_type_eq_dec : EqDecision enum_group_type.
Proof. solve_decision. Defined.

Record Gtid_specification := mk_spec { spec_type : enum_group_type; spec_gtid : Gtid }.

(** [owned_gtid]: SIDNO 0 for nothing, [OWNED_SIDNO_ANONYMOUS], or a GTID. *)
Inductive owned_state :=
| Owned_nothing
| Owned_anonymous
| Owned_gtid (gtid : Gtid).

#[export] Instance Gtid_eq_dec : EqDecision Gtid.
Proof. solve_decision. Defined.

#[export] Instance owned_state_eq_dec : EqDecision owned_state.
Proof. solve_decision. Defined.

(** The members of a THD the code looks at. *)
Record THD := mk_THD {
  thread_id : Z;
  owned_gtid : owned_state;
  gtid_next : Gtid_specification;
  has_gtid_consistency_violation : bool;
  is_commit_in_middle_of_statement : bool;
  skip_gtid_rollback : bool;
  commit_error : bool;
  slave_thread : bool;
  is_binlog_cache_empty : bool
}.

Definition with_owned (thd : THD) (o : owned_state) : THD :=
  mk_THD (thread_id thd) o (gtid_next thd) (has_gtid_consistency_violation thd)
    (is_commit_in_middle_of_statement thd) (skip_gtid_rollback thd) (commit_error thd)
    (slave_thread thd) (is_binlog_cache_empty thd).

Definition clear_owned_gtids (thd : THD) : THD := with_owned thd Owned_nothing.

Definition with_gtid_next (thd : THD) (spec : Gtid_specification) : THD :=
  mk_THD (thread_id thd) (owned_gtid thd) spec (has_gtid_consistency_violation thd)
    (is_commit_in_middle_of_statement thd) (skip_gtid_rollback thd) (commit_error thd)
    (slave_thread thd) (is_binlog_cache_empty thd).

Definition set_type (thd : THD) (type : enum_group_type) : THD :=
  with_gtid_next thd (mk_spec type (spec_gtid (gtid_next thd))).

Definition without_violation (thd : THD) : THD :=
  mk_THD (thread_id thd) (owned_gtid thd) (gtid_next thd) false
    (is_commit_in_middle_of_statement thd) (skip_gtid_rollback thd) (commit_error thd)
    (slave_thread thd) (is_binlog_cache_empty thd).

(** ** Gtid_state *)

Record Gtid_state := mk_Gtid_state {
  executed_gtids : Gtid_set;
  lost_gtids : Gtid_set;
  gtids_only_in_table : Gtid_set;
  previous_gtids_logged : Gtid_set;
  owned_gtids : Owned_gtids;
  server_sidno : rpl_sidno;
  next_free_gno : Z;
  anonymous_gtid_count : Z;
  automatic_gtid_violation_count : Z;
  anonymous_gtid_violation_count : Z
}.

Definition with_sets (g : Gtid_state) (executed lost only_in_table previous : Gtid_set) : Gtid_state :=
  mk_Gtid_state executed lost only_in_table previous (owned_gtids g) (server_sidno g)
    (next_free_gno g) (anonymous_gtid_count g) (automatic_gtid_violation_count g)
    (anonymous_gtid_violation_count g).

Definition with_owned_gtids (g : Gtid_state) (og : Owned_gtids) : Gtid_state :=
  mk_Gtid_state (executed_gtids g) (lost_gtids g) (gtids_only_in_table g) (previous_gtids_logged g)
    og (server_sidno g) (next_free_gno g) (anonymous_gtid_count g)
    (automatic_gtid_violation_count g) (anonymous_gtid_violation_count g).

Definition with_next_free (g : Gtid_state) (gno : Z) : Gtid_state :=
  mk_Gtid_state (executed_gtids g) (lost_gtids g) (gtids_only_in_table g) (previous_gtids_logged g)
    (owned_gtids g) (server_sidno g) gno (anonymous_gtid_count g)
    (automatic_gtid_violation_count g) (anonymous_gtid_violation_count g).

Definition with_counts (g : Gtid_state) (anonymous automatic_violation anonymous_violation : Z)
  : Gtid_state :=
  mk_Gtid_state (executed_gtids g) (lost_gtids g) (gtids_only_in_table g) (previous_gtids_logged g)
    (owned_gtids g) (server_sidno g) (next_free_gno g) anonymous automatic_violation
    anonymous_violation.

Definition acquire_anonymous_ownership (g : Gtid_state) : Gtid_state :=
  with_counts g (anonymous_gtid_count g + 1) (automatic_gtid_violation_count g)
    (anonymous_gtid_violation_count g).

Definition release_anonymous_ownership (g : Gtid_state) : Gtid_state :=
  with_counts g (anonymous_gtid_count g - 1) (automatic_gtid_violation_count g)
    (anonymous_gtid_violation_count g).

Definition is_executed (g : Gtid_state) (gtid : Gtid) : bool :=
  contains_gtid (executed_gtids g) (gtid_sidno gtid) (gtid_gno gtid).

Definition is_owned (g : Gtid_state) (gtid : Gtid) : option bool :=
  b ← is_owned_by (owned_gtids g) gtid 0;
  Some (negb (b : bool)).

Definition Gtid_state_ensure_sidno (g : Gtid_state) (sidno : rpl_sidno) : Gtid_state :=
  with_owned_gtids
    (with_sets g (ensure_sidno (executed_gtids g) sidno) (ensure_sidno (lost_gtids g) sidno)
       (ensure_sidno (gtids_only_in_table g) sidno) (ensure_sidno (previous_gtids_logged g) sidno))
    (owned_ensure_sidno (owned_gtids g) sidno).

(** RESET MASTER; the table of executed GTIDs is reset by the persistor. *)
Definition Gtid_state_clear (g : Gtid_state) : Gtid_state :=
  with_next_free
    (with_sets g (Gtid_set_clear (executed_gtids g)) (Gtid_set_clear (lost_gtids g))
       (Gtid_set_clear (gtids_only_in_table g)) (Gtid_set_clear (previous_gtids_logged g))) 1.

Definition acquire_ownership (g : Gtid_state) (thd : THD) (gtid : Gtid)
  : option (Gtid_state * THD) :=
  og ← add_gtid_owner (owned_gtids g) gtid (thread_id thd);
  Some (with_owned_gtids g og, with_owned thd (Owned_gtid gtid)).

(** [while (next_candidate.gno < next_interval_start)]: the first candidate
    nobody owns, or the start of the interval. *)
Fixpoint automatic_candidate (fuel : nat) (hash : list Node) (gno limit : Z) : option (Z + Z) :=
  if gno <? limit then
    if existsb (fun n => node_gno n =? gno) hash then
      match fuel with
      | O => None
      | S fuel => automatic_candidate fuel hash (gno + 1) limit
      end
    else Some (inl gno)
  else Some (inr gno).

(** [-1] when the range of group numbers is exhausted.  Each candidate that is
    passed over belongs to a node of the hash, which bounds the search. *)
Fixpoint automatic_gno_loop (hash : list Node) (ivs : list Interval) (gno : Z) : option Z :=
  let limit := match ivs with [] => GNO_END | iv :: _ => iv_start iv end in
  r ← automatic_candidate (length hash) hash gno limit;
  match r with
  | inl gno => Some gno
  | inr gno =>
      match ivs with
      | [] => Some (-1)
      | iv :: ivs => automatic_gno_loop hash ivs (if gno <? iv_end iv then iv_end iv else gno)
      end
  end.

Definition get_automatic_gno (g : Gtid_state) (sidno : rpl_sidno) : option Z :=
  ivs ← iterate (executed_gtids g) sidno;
  hash ← get_hash (owned_gtids g) sidno;
  automatic_gno_loop hash ivs (if decide (sidno = server_sidno g) then next_free_gno g else 1).

Definition mode_ge_on_permissive (mode : enum_gtid_mode) : bool :=
  match mode with GTID_MODE_ON_PERMISSIVE | GTID_MODE_ON => true | _ => false end.

(** The flag is the return status, false for an error. *)
Definition generate_automatic_gtid (mode : enum_gtid_mode) (g : Gtid_state) (thd : THD)
    (specified_sidno : rpl_sidno) (specified_gno : Z) : option (Gtid_state * THD * bool) :=
  if mode_ge_on_permissive mode then
    let sidno := if decide (specified_sidno = 0%nat) then server_sidno g else specified_sidno in
    '(g, gno) ← (if specified_gno =? 0 then
                   gno ← get_automatic_gno g sidno;
                   Some (if bool_decide (sidno = server_sidno g) && negb (gno =? -1)
                         then with_next_free g (gno + 1) else g, gno)
                 else Some (g, specified_gno));
    if negb (gno =? -1) then
      '(g, thd) ← acquire_ownership g thd (mk_Gtid sidno gno);
      Some (g, thd, true)
    else Some (g, thd, false)
  else Some (acquire_anonymous_ownership g, with_owned thd Owned_anonymous, true).

(** ** The end of a transaction *)

Definition update_gtids_impl_do_nothing (thd : THD) : bool :=
  bool_decide (owned_gtid thd = Owned_nothing) && negb (has_gtid_consistency_violation thd).

(** What it does to the session in that case. *)
Definition do_nothing_thd (thd : THD) : THD :=
  if decide (spec_type (gtid_next thd) = GTID_GROUP) then set_type thd UNDEFINED_GROUP else thd.

Definition end_gtid_violating_transaction (g : Gtid_state) (thd : THD) : Gtid_state * THD :=
  if has_gtid_consistency_violation thd then
    (if decide (spec_type (gtid_next thd) = AUTOMATIC_GROUP)
     then with_counts g (anonymous_gtid_count g) (automatic_gtid_violation_count g - 1)
            (anonymous_gtid_violation_count g)
     else with_counts g (anonymous_gtid_count g) (automatic_gtid_violation_count g)
            (anonymous_gtid_violation_count g - 1),
     without_violation thd)
  else (g, thd).

Definition update_gtids_impl_end (g : Gtid_state) (thd : THD) (more_trx : bool)
  : Gtid_state * THD :=
  if more_trx then (g, thd) else end_gtid_violating_transaction g thd.

Section commit.
Context (opt_bin_log opt_log_slave_updates : bool).

Definition add_executed (g : Gtid_state) (thd : THD) (gtid : Gtid) : option Gtid_state :=
  executed ← _add_gtid (executed_gtids g) (gtid_sidno gtid) (gtid_gno gtid);
  if slave_thread thd && opt_bin_log && negb opt_log_slave_updates then
    lost ← _add_gtid (lost_gtids g) (gtid_sidno gtid) (gtid_gno gtid);
    only_in_table ← _add_gtid (gtids_only_in_table g) (gtid_sidno gtid) (gtid_gno gtid);
    Some (with_sets g executed lost only_in_table (previous_gtids_logged g))
  else Some (with_sets g executed (lost_gtids g) (gtids_only_in_table g) (previous_gtids_logged g)).

Definition update_gtids_impl_own_gtid (g : Gtid_state) (thd : THD) (gtid : Gtid)
    (is_commit : bool) : option (Gtid_state * THD) :=
  og ← remove_gtid (owned_gtids g) gtid (thread_id thd);
  let g := with_owned_gtids g og in
  g ← (if is_commit then add_executed g thd gtid
       else Some (if bool_decide (gtid_sidno gtid = server_sidno g) && (gtid_gno gtid <? next_free_gno g)
                  then with_next_free g (gtid_gno gtid) else g));
  let thd := clear_owned_gtids thd in
  Some (g, if decide (spec_type (gtid_next thd) = GTID_GROUP)
           then set_type thd UNDEFINED_GROUP else thd).

Definition update_gtids_impl_own_anonymous (g : Gtid_state) (thd : THD) (more_trx : bool)
  : Gtid_state * THD * bool :=
  let more_trx := more_trx || (opt_bin_log && negb (is_binlog_cache_empty thd)) in
  if negb (more_trx && bool_decide (spec_type (gtid_next thd) = ANONYMOUS_GROUP))
  then (release_anonymous_ownership g, clear_owned_gtids thd, more_trx)
  else (g, thd, more_trx).

(** The body shared by [update_gtids_impl] and [update_commit_group]. *)
Definition update_gtids_thd (g : Gtid_state) (thd : THD) (is_commit : bool)
  : option (Gtid_state * THD) :=
  if update_gtids_impl_do_nothing thd then Some (g, do_nothing_thd thd)
  else
    let more_trx := is_commit_in_middle_of_statement thd in
    '(g, thd, more_trx) ←
      (match owned_gtid thd with
       | Owned_gtid gtid =>
           '(g, thd) ← update_gtids_impl_own_gtid g thd gtid is_commit; Some (g, thd, more_trx)
       | Owned_anonymous => Some (update_gtids_impl_own_anonymous g thd more_trx)
       | Owned_nothing => Some (g, thd, more_trx)
       end);
    Some (update_gtids_impl_end g thd more_trx).

Definition update_on_commit (g : Gtid_state) (thd : THD) : option (Gtid_state * THD) :=
  update_gtids_thd g thd true.

Definition update_on_rollback (g : Gtid_state) (thd : THD) : option (Gtid_state * THD) :=
  if skip_gtid_rollback thd then Some (g, thd) else update_gtids_thd g thd false.

Fixpoint update_commit_group (g : Gtid_state) (thds : list THD)
  : option (Gtid_state * list THD) :=
  match thds with
  | [] => Some (g, [])
  | thd :: thds =>
      let is_commit := negb (commit_error thd) in
      '(g, thd) ←
        (if update_gtids_impl_do_nothing thd then Some (g, do_nothing_thd thd)
         else if negb is_commit && skip_gtid_rollback thd then Some (g, thd)
         else update_gtids_thd g thd is_commit);
      '(g, thds) ← update_commit_group g thds;
      Some (g, thd :: thds)
  end.
End commit.

(** ** GTID_NEXT *)

Inductive next_result :=
| Next_error
| Next_wait                (* the locks are released; the loop starts over *)
| Next_done (g : Gtid_state) (thd : THD).

(** One round of [set_gtid_next], from taking the locks to releasing them. *)
Definition set_gtid_next (mode : enum_gtid_mode) (g : Gtid_state) (thd : THD)
    (spec : Gtid_specification) : option next_result :=
  match owned_gtid thd with
  | Owned_gtid _ | Owned_anonymous => Some Next_error
  | Owned_nothing =>
      match spec_type spec with
      | AUTOMATIC_GROUP => Some (Next_done g (set_type thd AUTOMATIC_GROUP))
      | ANONYMOUS_GROUP =>
          if decide (mode = GTID_MODE_ON) then Some Next_error
          else Some (Next_done (acquire_anonymous_ownership g)
                      (with_owned (set_type thd ANONYMOUS_GROUP) Owned_anonymous))
      | _ =>
          if decide (mode = GTID_MODE_OFF) then Some Next_error
          else if is_executed g (spec_gtid spec) then Some (Next_done g (with_gtid_next thd spec))
          else
            owned ← is_owned g (spec_gtid spec);
            if negb (owned : bool) then
              '(g, thd) ← acquire_ownership g thd (spec_gtid spec);
              Some (Next_done g (with_gtid_next thd spec))
            else Some Next_wait
      end
  end.

Definition is_already_logged_transaction (thd : THD) : bool :=
  bool_decide (spec_type (gtid_next thd) = GTID_GROUP) &&
  bool_decide (owned_gtid thd = Owned_nothing).

Definition gtid_reacquire_ownership_if_anonymous (mode : enum_gtid_mode) (g : Gtid_state)
    (thd : THD) : option next_result :=
  if bool_decide (spec_type (gtid_next thd) = NOT_YET_DETERMINED_GROUP) ||
     (bool_decide (spec_type (gtid_next thd) = ANONYMOUS_GROUP) &&
      bool_decide (owned_gtid thd = Owned_nothing))
  then set_gtid_next mode g thd (mk_spec ANONYMOUS_GROUP (mk_Gtid 0 0))
  else Some (Next_done g thd).

(** What the checks look at in the statement. *)
Inductive enum_sql_command :=
  SQLCOM_COMMIT | SQLCOM_BEGIN | SQLCOM_ROLLBACK | SQLCOM_SET_OPTION | SQLCOM_SELECT
| SQLCOM_DO | SQLCOM_EMPTY_QUERY | SQLCOM_CHANGE_DB | SQLCOM_BINLOG_BASE64_EVENT | SQLCOM_OTHER.

#[export] Instance enum_sql_command_eq_dec : EqDecision enum_sql_command.
Proof. solve_decision. Defined.

Record statement := mk_statement {
  sql_command : enum_sql_command;
  cf_status_command : bool;
  is_set_password_sql : bool;
  uses_stored_routines : bool;
  stmt_causes_implicit_commit : bool;
  in_active_multi_stmt_transaction : bool
}.

Inductive enum_gtid_statement_status :=
  GTID_STATEMENT_EXECUTE | GTID_STATEMENT_CANCEL | GTID_STATEMENT_SKIP.

Definition is_stmt_innocent (st : statement) : bool :=
  let is_show := cf_status_command st && negb (bool_decide (sql_command st = SQLCOM_BINLOG_BASE64_EVENT)) in
  let is_set := bool_decide (sql_command st = SQLCOM_SET_OPTION) && negb (is_set_password_sql st) in
  let is_select := bool_decide (sql_command st = SQLCOM_SELECT) in
  let is_do := bool_decide (sql_command st = SQLCOM_DO) in
  let is_empty := bool_decide (sql_command st = SQLCOM_EMPTY_QUERY) in
  let is_use := bool_decide (sql_command st = SQLCOM_CHANGE_DB) in
  (is_set || is_select || is_do || is_show || is_empty || is_use) && negb (uses_stored_routines st).

Definition gtid_pre_statement_checks (thd : THD) (st : statement) : enum_gtid_statement_status :=
  if (stmt_causes_implicit_commit st || bool_decide (sql_command st = SQLCOM_BEGIN)) &&
     in_active_multi_stmt_transaction st && bool_decide (spec_type (gtid_next thd) = GTID_GROUP)
  then GTID_STATEMENT_CANCEL
  else if bool_decide (sql_command st = SQLCOM_COMMIT) || bool_decide (sql_command st = SQLCOM_BEGIN) ||
          bool_decide (sql_command st = SQLCOM_ROLLBACK) || is_stmt_innocent st
  then GTID_STATEMENT_EXECUTE
  else if decide (spec_type (gtid_next thd) = UNDEFINED_GROUP) then GTID_STATEMENT_CANCEL
  else if is_already_logged_transaction thd then GTID_STATEMENT_SKIP
  else GTID_STATEMENT_EXECUTE.

(** The flag is false for an error; [is_ddl_gtid_compatible] is a method of THD. *)
Definition gtid_pre_statement_post_implicit_commit_checks (is_ddl_gtid_compatible : bool)
    (mode : enum_gtid_mode) (g : Gtid_state) (thd : THD) (st : statement)
  : option (Gtid_state * THD * bool) :=
  r ← (if negb (is_stmt_innocent st) then gtid_reacquire_ownership_if_anonymous mode g thd
       else Some (Next_done g thd));
  match r with
  | Next_done g thd => Some (g, thd, is_ddl_gtid_compatible)
  | _ => Some (g, thd, false)
  end.

(** ** Sets of executed GTIDs *)

(** [save_ok]: the table of executed GTIDs took the set. *)
Definition add_lost_gtids (save_ok : bool) (g : Gtid_state) (gtid_set : Gtid_set)
  : option (Gtid_state * bool) :=
  if negb (Gtid_set_is_empty (executed_gtids g)) then Some (g, false)
  else if negb (owned_is_empty (owned_gtids g)) then Some (g, false)
  else if negb save_ok then Some (g, false)
  else
    '(only_in_table, _) ← add_gtid_set Same_maps (gtids_only_in_table g) gtid_set;
    '(lost, _) ← add_gtid_set Same_maps (lost_gtids g) gtid_set;
    '(executed, _) ← add_gtid_set Same_maps (executed_gtids g) gtid_set;
    Some (with_sets g executed lost only_in_table (previous_gtids_logged g), true).

(** The set handed to the table, if any, with the map it is numbered by; the
    global map, because adding to [previous_gtids_logged] may extend it. *)
Definition save_gtids_of_last_binlog_into_table (global_map : Sid_map) (g : Gtid_state)
    (on_rotation rotating_caused_by_incident : bool)
  : option (Gtid_state * Sid_map * option (Sid_map * Gtid_set)) :=
  '(logged, maps) ← add_gtid_set (Distinct_maps Sid_map_new global_map) Gtid_set_new (executed_gtids g);
  let sid_map := match maps with Distinct_maps m _ => m | Same_maps => Sid_map_new end in
  logged ← remove_gtid_set (Distinct_maps sid_map global_map) logged (previous_gtids_logged g);
  logged ← remove_gtid_set (Distinct_maps sid_map global_map) logged (gtids_only_in_table g);
  if negb (Gtid_set_is_empty logged) || rotating_caused_by_incident then
    '(previous, global_map) ←
      (if on_rotation then
         '(previous, maps) ← add_gtid_set (Distinct_maps global_map sid_map)
                               (previous_gtids_logged g) logged;
         Some (previous, match maps with Distinct_maps m _ => m | Same_maps => global_map end)
       else Some (previous_gtids_logged g, global_map));
    Some (with_sets g (executed_gtids g) (lost_gtids g) (gtids_only_in_table g) previous,
          global_map, Some (sid_map, logged))
  else Some (g, global_map, None).

(** ** Waiting for a set of GTIDs

    The procedure holds [global_sid_lock] for reading, which keeps RESET MASTER and
    SET GTID_PURGED out but lets other sessions commit; a wait releases it.  The
    rest of the server is a list of events, one for each time the procedure looks
    at the executed set under the lock of a SIDNO: the GTIDs committed since the
    last time, and, if the procedure has to wait then, the executed set it finds
    afterwards and whether the wait ended by a timeout or by killing the session.
    At the end of the list it is still at work ([Wait_blocked]). *)

Record wait_event := mk_event { ev_committed : Gtid_set; ev_after : Gtid_set; ev_failed : bool }.

Record wait_state := mk_wait {
  w_todo : Gtid_set;
  w_executed : Gtid_set;
  w_events : list wait_event;
  w_verified : bool
}.

Inductive wait_outcome (A : Type) :=
| Wait_go (a : A)
| Wait_failed
| Wait_blocked.
Arguments Wait_go {A} a.
Arguments Wait_failed {A}.
Arguments Wait_blocked {A}.

(** [while (todo.contains_sidno(sidno))] *)
Fixpoint wait_sidno_loop (sidno : rpl_sidno) (events : list wait_event) (todo executed : Gtid_set)
    (verified : bool) : option (wait_outcome wait_state) :=
  if contains_sidno todo sidno then
    match events with
    | [] => Some Wait_blocked
    | ev :: events =>
        '(executed, _) ← add_gtid_set Same_maps executed (ev_committed ev);
        todo ← remove_intervals_for_sidno todo executed sidno;
        if contains_sidno todo sidno then
          if ev_failed ev then Some Wait_failed
          else wait_sidno_loop sidno events todo (ev_after ev) false
        else Some (Wait_go (mk_wait todo executed events verified))
    end
  else Some (Wait_go (mk_wait todo executed events verified)).

Fixpoint wait_sidnos (sidnos : list rpl_sidno) (w : wait_state) : option (wait_outcome wait_state) :=
  match sidnos with
  | [] => Some (Wait_go w)
  | sidno :: sidnos =>
      r ← wait_sidno_loop sidno (w_events w) (w_todo w) (w_executed w) (w_verified w);
      match r with
      | Wait_go w => wait_sidnos sidnos w
      | r => Some r
      end
  end.

(** [while (!verified)]: a round that is not the last takes at least one look. *)
Fixpoint wait_rounds (fuel : nat) (wait_for todo executed : Gtid_set) (events : list wait_event)
  : option (wait_outcome Gtid_set) :=
  '(todo, _) ← add_gtid_set Same_maps todo wait_for;
  r ← wait_sidnos (seq 1 (get_max_sidno todo)) (mk_wait todo executed events true);
  match r with
  | Wait_failed => Some Wait_failed
  | Wait_blocked => Some Wait_blocked
  | Wait_go w =>
      if w_verified w then Some (Wait_go (w_executed w))
      else match fuel with
           | O => None
           | S fuel => wait_rounds fuel wait_for (w_todo w) (w_executed w) (w_events w)
           end
  end.

(** The result of a wait that succeeds is the executed set it returns under. *)
Definition wait_for_gtid_set (wait_for executed : Gtid_set) (events : list wait_event)
  : option (wait_outcome Gtid_set) :=
  wait_rounds (length events) wait_for Gtid_set_new executed events.

(** ** The hashes *)

Definition owned_nodes (og : Owned_gtids) (sidno : rpl_sidno) : list Node :=
  default [] (get_hash og sidno).

Section owned.
Implicit Types (og : Owned_gtids) (s : rpl_sidno) (h : list Node) (n : Node).

Lemma get_hash_Some og s :
  (1 <= s <= owned_max_sidno og)%nat -> get_hash og s = Some (owned_nodes og s).
Proof.
  intros H. destruct s as [|i]; [lia|]. unfold owned_nodes. simpl.
  destruct (lookup_lt_is_Some_2 og i) as [h ->]; [unfold owned_max_sidno in *; lia|done].
Qed.

Lemma owned_nodes_range og s n : n ∈ owned_nodes og s -> (1 <= s <= owned_max_sidno og)%nat.
Proof.
  destruct s as [|i]; unfold owned_nodes; simpl; [by intros []%elem_of_nil|].
  destruct (og !! i) eqn:E; [|by intros []%elem_of_nil].
  apply lookup_lt_Some in E. unfold owned_max_sidno. lia.
Qed.

Lemma set_hash_max og s h : owned_max_sidno (set_hash og s h) = owned_max_sidno og.
Proof. apply length_insert. Qed.

Lemma owned_nodes_set_hash og s h s' :
  (1 <= s <= owned_max_sidno og)%nat ->
  owned_nodes (set_hash og s h) s' = if decide (s' = s) then h else owned_nodes og s'.
Proof.
  intros Hs. unfold owned_nodes, set_hash. destruct s' as [|i]; simpl.
  { case_decide; [lia|done]. }
  case_decide as Hd.
  - subst s. replace (S i - 1)%nat with i by lia. rewrite list_lookup_insert_eq; [done|]. unfold owned_max_sidno in *. lia.
  - rewrite list_lookup_insert_ne by lia. done.
Qed.

Lemma owned_nodes_ensure og sidno s : owned_nodes (owned_ensure_sidno og sidno) s = owned_nodes og s.
Proof.
  destruct s as [|i]; [done|]. unfold owned_nodes, owned_ensure_sidno. simpl.
  destruct (decide (i < length og)%nat) as [H|H]; [by rewrite lookup_app_l|].
  rewrite lookup_app_r by lia. rewrite (lookup_ge_None_2 og) by lia.
  destruct (replicate _ _ !! _) eqn:E; [|done]. by apply lookup_replicate in E as [-> _].
Qed.

Lemma owned_ensure_max og sidno :
  owned_max_sidno (owned_ensure_sidno og sidno) = max (owned_max_sidno og) sidno.
Proof.
  unfold owned_ensure_sidno, owned_max_sidno. rewrite length_app, length_replicate.
  unfold owned_max_sidno. lia.
Qed.

Lemma filter_gno_nil h g :
  filter (fun n => node_gno n = g) h = [] <-> g ∉ map node_gno h.
Proof.
  split.
  - intros E Hin. apply list_elem_of_fmap in Hin as (n & -> & Hn).
    apply (elem_of_nil n). rewrite <- E. by apply list_elem_of_filter.
  - intros Hn. destruct (filter _ h) as [|n l] eqn:E; [done|]. exfalso. apply Hn.
    assert (Hin : n ∈ filter (fun n => node_gno n = g) h) by (rewrite E; left).
    apply list_elem_of_filter in Hin as [<- Hin]. by apply list_elem_of_fmap_2.
Qed.

Lemma hash_delete_perm n h : n ∈ h -> h ≡ₚ n :: hash_delete n h.
Proof.
  induction h as [|a h IH]; intros Hin; [by apply elem_of_nil in Hin|]. simpl. case_decide as Hd.
  - by subst.
  - apply elem_of_cons in Hin as [->|Hin]; [done|]. rewrite (IH Hin) at 1. apply Permutation_swap.
Qed.

(** The first node with the number is the only one when numbers are unique. *)
Lemma filter_unique h g o :
  NoDup (map node_gno h) -> mk_Node g o ∈ h ->
  exists l, filter (fun n => node_gno n = g) h = mk_Node g o :: l.
Proof.
  induction h as [|a h IH]; intros Hnd Hin; [by apply elem_of_nil in Hin|].
  apply NoDup_cons in Hnd as [Ha Hnd]. rewrite filter_cons.
  apply elem_of_cons in Hin as [<-|Hin].
  - simpl. rewrite decide_True by done. by eexists.
  - rewrite decide_False; [by apply IH|]. intros <-. apply Ha.
    apply (list_elem_of_fmap_2 node_gno) in Hin. by destruct a.
Qed.
End owned.

(** ** The next automatic GNO *)

Section automatic.
Implicit Types (h : list Node) (ivs : list Interval) (gno limit : Z).

Lemma existsb_gno h gno :
  existsb (fun n => node_gno n =? gno) h = true <-> gno ∈ map node_gno h.
Proof.
  rewrite existsb_exists. split.
  - intros (n & Hn & E%Z.eqb_eq). subst gno. apply list_elem_of_fmap_2. by apply list_elem_of_In.
  - intros (n & -> & Hn)%list_elem_of_fmap. exists n. split; [by apply list_elem_of_In|]. lia.
Qed.

Lemma later_nodes h gno :
  gno ∈ map node_gno h ->
  (length (filter (fun n => (gno + 1 <= node_gno n)%Z) h) <
   length (filter (fun n => (gno <= node_gno n)%Z) h))%nat.
Proof.
  intros Hin. assert (Hle : forall h', (length (filter (fun n => (gno + 1 <= node_gno n)%Z) h') <=
    length (filter (fun n => (gno <= node_gno n)%Z) h'))%nat).
  { induction h' as [|n h' IH]; simpl; [done|]. rewrite !filter_cons. repeat case_decide; simpl; lia. }
  induction h as [|n h IH]; [by apply elem_of_nil in Hin|].
  rewrite !filter_cons. simpl in Hin. apply elem_of_cons in Hin as [->|Hin].
  - rewrite decide_False, decide_True by lia. simpl. pose proof (Hle h). lia.
  - specialize (IH Hin). repeat case_decide; simpl; lia.
Qed.

Lemma automatic_candidate_spec h limit fuel : forall gno,
  (length (filter (fun n => (gno <= node_gno n)%Z) h) <= fuel)%nat ->
  exists r, automatic_candidate fuel h gno limit = Some r /\
    match r with
    | inl c => gno <= c < limit /\ (c ∉ map node_gno h) /\
               forall x, gno <= x < c -> x ∈ map node_gno h
    | inr c => c = Z.max gno limit /\ forall x, gno <= x < limit -> x ∈ map node_gno h
    end.
Proof.
  induction fuel as [|fuel IH]; intros gno Hf; simpl.
  all: destruct (Z.ltb_spec gno limit) as [Hl|Hl];
    [|exists (inr gno); split; [done|]; split; [lia|intros; lia]].
  all: destruct (existsb _ h) eqn:E;
    [apply existsb_gno in E; pose proof (later_nodes h gno E) as Hlt|].
  - lia.
  - exists (inl gno). split; [done|]. split_and!; [lia..| |intros; lia].
    rewrite <- existsb_gno. by rewrite E.
  - destruct (IH (gno + 1)) as (r & Er & Hr); [lia|]. exists r. split; [done|].
    destruct r as [c|c]; destruct Hr as (H1 & H2).
    + destruct H2 as [H2 H3]. split_and!; [lia..|done|]. intros x Hx.
      destruct (decide (x = gno)) as [->|]; [done|]. apply H3. lia.
    + split; [lia|]. intros x Hx. destruct (decide (x = gno)) as [->|]; [done|]. apply H2. lia.
  - exists (inl gno). split; [done|]. split_and!; [lia..| |intros; lia].
    rewrite <- existsb_gno. by rewrite E.
Qed.

(** Numbers in use: executed or owned. *)
Definition gno_used ivs h (x : Z) : Prop := in_ivs ivs x \/ x ∈ map node_gno h.

Lemma automatic_gno_loop_spec h ivs : forall lo gno,
  ivs_wf lo ivs -> lo <= gno -> gno <= GNO_END ->
  exists r, automatic_gno_loop h ivs gno = Some r /\
    (r = -1 /\ (forall x, gno <= x < GNO_END -> gno_used ivs h x) \/
     gno <= r < GNO_END /\ ~ gno_used ivs h r /\ forall x, gno <= x < r -> gno_used ivs h x).
Proof.
  unfold gno_used. induction ivs as [|iv ivs IH]; intros lo gno Hwf Hlo Hend; simpl.
  - destruct (automatic_candidate_spec h GNO_END (length h) gno) as ([c|c] & -> & Hr);
      [apply length_filter| |]; simpl; setoid_rewrite in_ivs_nil.
    + exists c. split; [done|]. right. split_and!; [lia..|tauto|]. intros x Hx. right. by apply Hr.
    + exists (-1). split; [done|]. left. split; [done|]. intros x Hx. right. by apply Hr.
  - destruct Hwf as (H1 & H2 & H3).
    destruct (automatic_candidate_spec h (iv_start iv) (length h) gno) as ([c|c] & -> & Hr);
      [apply length_filter| |]; simpl; setoid_rewrite in_ivs_cons; unfold in_interval.
    + destruct Hr as (Hc & Hn & Hx). exists c. split; [done|]. right. split_and!; [lia..| |].
      * intros [[?|Hin]|?]; [lia| |done].
        apply (ivs_wf_in (iv_end iv)) in Hin; [lia|done].
      * intros x Hx'. right. apply Hx. lia.
    + destruct Hr as (-> & Hx).
      assert (E : (if Z.max gno (iv_start iv) <? iv_end iv then iv_end iv
                   else Z.max gno (iv_start iv)) = Z.max gno (iv_end iv)).
      { destruct (Z.ltb_spec (Z.max gno (iv_start iv)) (iv_end iv)); lia. }
      rewrite E. destruct (IH (iv_end iv) (Z.max gno (iv_end iv))) as (r & -> & Hr); [done|lia|lia|].
      exists r. split; [done|].
      assert (Hlow : forall x, gno <= x < Z.max gno (iv_end iv) ->
        (iv_start iv <= x < iv_end iv \/ in_ivs ivs x) \/ x ∈ map node_gno h).
      { intros x Hx'. destruct (decide (x < iv_start iv)); [right; apply Hx; lia|left; left; lia]. }
      destruct Hr as [[-> Hr]|(Hb & Hn & Hr)]; [left; split; [done|]|right; split_and!; [lia|lia| |]].
      * intros x Hx'. destruct (decide (x < Z.max gno (iv_end iv))); [apply Hlow; lia|].
        destruct (Hr x) as [?|?]; [lia|tauto..].
      * intros [[?|?]|?]; [lia|tauto..].
      * intros x Hx'. destruct (decide (x < Z.max gno (iv_end iv))); [apply Hlow; lia|].
        destruct (Hr x) as [?|?]; [lia|tauto..].
Qed.

(** The search always ends.  It finds the least free number from where it
    starts, or [-1] when there is none. *)
Lemma get_automatic_gno_spec g sidno :
  gs_wf (executed_gtids g) -> (1 <= sidno <= get_max_sidno (executed_gtids g))%nat ->
  (sidno <= owned_max_sidno (owned_gtids g))%nat -> 1 <= next_free_gno g <= GNO_END ->
  let start := if decide (sidno = server_sidno g) then next_free_gno g else 1 in
  let used := gno_used (intervals_of (executed_gtids g) sidno) (owned_nodes (owned_gtids g) sidno) in
  exists r, get_automatic_gno g sidno = Some r /\
    (r = -1 /\ (forall x, start <= x < GNO_END -> used x) \/
     start <= r < GNO_END /\ ~ used r /\ forall x, start <= x < r -> used x).
Proof.
  intros Hwf Hs Ho Hn start used. unfold get_automatic_gno.
  rewrite (iterate_Some _ _ Hs), (get_hash_Some _ sidno) by lia. simpl.
  apply (automatic_gno_loop_spec _ _ 0); [by apply intervals_of_wf|..]; subst start; case_decide; lia || done.
Qed.
End automatic.
