(* ===== verification/GtidSpec.v ===== *)
(** * The text of GTID_NEXT

    [Gtid_specification] of [sql/rpl_gtid_specification.cc]: parsing, checking
    and printing the value of GTID_NEXT, with the case-insensitive comparison
    of [strings/ctype-simple.c] over the table of [strings/ctype-latin1.c].
    Text is a list of byte values without the terminating zero. *)

From Stdlib Require Import ZArith Lia.
From stdpp Require Import sorting base numbers option gmap tactics list.
From S2P Require Import Prelude GtidInterval Uuid SidMap GtidSet GtidText GtidState.

#[local] Open Scope Z_scope.
#[local] Open Scope mysql_scope.

Definition to_upper_latin1_table : list Z :=
  map Z.of_nat (seq 0 97) ++ map Z.of_nat (seq 65 26) ++ map Z.of_nat (seq 123 101) ++
  map Z.of_nat (seq 192 23) ++ [247] ++ map Z.of_nat (seq 216 7) ++ [255].

Definition to_upper_latin1 (c : Z) : Z := to_upper_latin1_table !!! Z.to_nat c.

Fixpoint my_strcasecmp_8bit (map : Z -> Z) (s t : list Z) : Z :=
  if map (hd 0 s) =? map (hd 0 t) then
    match s with
    | [] => 0
    | c :: s => if c =? 0 then 0 else my_strcasecmp_8bit map s (tl t)
    end
  else map (hd 0 s) - map (hd 0 t).

Definition my_strcasecmp_latin1 (s t : list Z) : Z := my_strcasecmp_8bit to_upper_latin1 s t.

Definition AUTOMATIC_text : list Z := [65; 85; 84; 79; 77; 65; 84; 73; 67].
Definition NOT_YET_DETERMINED_text : list Z :=
  [78; 79; 84; 95; 89; 69; 84; 95; 68; 69; 84; 69; 82; 77; 73; 78; 69; 68].

Definition Gtid_specification_parse (m : Sid_map) (text : list Z)
  : outcome Sid_map Gtid_specification :=
  if my_strcasecmp_latin1 text AUTOMATIC_text =? 0 then Ok m (mk_spec AUTOMATIC_GROUP (mk_Gtid 0 0))
  else if my_strcasecmp_latin1 text ANONYMOUS_text =? 0
  then Ok m (mk_spec ANONYMOUS_GROUP (mk_Gtid 0 0))
  else let? (m, gtid) := Gtid_parse m text in Ok m (mk_spec GTID_GROUP gtid).

Definition Gtid_specification_is_valid (text : list Z) : bool :=
  if my_strcasecmp_latin1 text AUTOMATIC_text =? 0 then true
  else if my_strcasecmp_latin1 text ANONYMOUS_text =? 0 then true
  else Gtid_is_valid text.

Definition Gtid_specification_to_string (m : Sid_map) (spec : Gtid_specification) : list Z :=
  match spec_type spec with
  | AUTOMATIC_GROUP => AUTOMATIC_text
  | NOT_YET_DETERMINED_GROUP => NOT_YET_DETERMINED_text
  | ANONYMOUS_GROUP => ANONYMOUS_text
  | UNDEFINED_GROUP | GTID_GROUP => Gtid_to_string m (spec_gtid spec)
  end.

(** ** The words are not UUIDs *)

Section words.
Implicit Types (s t : list Z).

(** The letters U and N, in either case, are not hexadecimal digits. *)
Lemma upper_not_hex c : to_upper_latin1 c = 85 \/ to_upper_latin1 c = 78 -> hex_to_byte c = -1.
Proof.
  unfold to_upper_latin1, hex_to_byte. generalize (Z.to_nat c). clear c. intros n.
  destruct (decide (n < 256)%nat) as [Hn|Hn].
  - assert (Hall : forallb (fun n => negb ((to_upper_latin1_table !!! n =? 85) ||
      (to_upper_latin1_table !!! n =? 78)) || (hex_to_byte_table !!! n =? -1)) (seq 0 256) = true)
      by (vm_compute; reflexivity).
    rewrite forallb_forall in Hall. specialize (Hall n ltac:(apply in_seq; lia)).
    intros H. apply orb_true_iff in Hall as [Hall|Hall]; [|lia].
    apply negb_true_iff, orb_false_iff in Hall. lia.
  - rewrite (list_lookup_total_alt to_upper_latin1_table), lookup_ge_None_2; [by intros [?|?]|].
    change (length to_upper_latin1_table) with 256%nat. lia.
Qed.

Lemma second_letter s t c :
  my_strcasecmp_latin1 s t = 0 -> t !! 1%nat = Some c -> to_upper_latin1 c <> 0 ->
  Forall (fun x => to_upper_latin1 x <> 0) t ->
  exists a b r, s = a :: b :: r /\ to_upper_latin1 b = to_upper_latin1 c.
Proof.
  intros E Hc Hc0 Ht. destruct t as [|t0 [|t1 t]]; try done. simpl in Hc. injection Hc as ->.
  apply Forall_cons in Ht as [Ht0 _]. cbv beta in Ht0. change (to_upper_latin1 0) with 0 in *.
  unfold my_strcasecmp_latin1 in E. destruct s as [|a s]; simpl in E.
  { by destruct (to_upper_latin1 t0). }
  destruct (Z.eqb_spec (to_upper_latin1 a) (to_upper_latin1 t0)) as [Ea|]; [|lia].
  destruct (Z.eqb_spec a 0) as [->|]; [by change (to_upper_latin1 0) with 0 in Ea|].
  destruct s as [|b s]; simpl in E.
  { by destruct (to_upper_latin1 c). }
  destruct (Z.eqb_spec (to_upper_latin1 b) (to_upper_latin1 c)) as [Eb|]; [|lia]. by exists a, b, s.
Qed.

Lemma words_not_uuid s :
  my_strcasecmp_latin1 s AUTOMATIC_text = 0 \/ my_strcasecmp_latin1 s ANONYMOUS_text = 0 ->
  Uuid_parse s = None.
Proof.
  intros H. assert (Hs : exists a b r, s = a :: b :: r /\ hex_to_byte b = -1).
  { destruct H as [H|H]; eapply second_letter in H as (a & b & r & -> & E); try reflexivity; try done.
    2,4: repeat (apply Forall_cons; split; [vm_compute; congruence|]); apply Forall_nil_2.
    all: exists a, b, r; split; [done|]; apply upper_not_hex; rewrite E; vm_compute; tauto. }
  destruct Hs as (a & b & r & -> & Hb). unfold Uuid_parse, bytes_per_section. cbn [parse_sections].
  assert (E : parse_section 4 (a :: b :: r) = None)
    by (cbn [parse_section]; rewrite Hb; by destruct (hex_to_byte a =? -1)).
  cbn [option_bind mbind]. by rewrite E.
Qed.
End words.

(** The value of GTID_NEXT as text.  [parse] succeeds exactly on the texts
    [is_valid] accepts, and reads back what [to_string] prints for AUTOMATIC,
    ANONYMOUS and any GTID; a UUID is never taken for one of the two words,
    although the comparison ignores case and A is a hexadecimal digit. *)
Theorem Gtid_specification_roundtrip m :
  sid_map_wf m ->
  (forall text, Gtid_specification_is_valid text = true <->
    exists m' spec, Gtid_specification_parse m text = Ok m' spec) /\
  (forall m0, Gtid_specification_parse m (Gtid_specification_to_string m0
     (mk_spec AUTOMATIC_GROUP (mk_Gtid 0 0))) = Ok m (mk_spec AUTOMATIC_GROUP (mk_Gtid 0 0)) /\
   Gtid_specification_parse m (Gtid_specification_to_string m0
     (mk_spec ANONYMOUS_GROUP (mk_Gtid 0 0))) = Ok m (mk_spec ANONYMOUS_GROUP (mk_Gtid 0 0))) /\
  (forall m0 gtid, sid_map_wf m0 -> (1 <= gtid_sidno gtid <= sid_map_max_sidno m0)%nat ->
     0 < gtid_gno gtid < GNO_END ->
     exists m' gtid', Gtid_specification_parse m (Gtid_specification_to_string m0 (mk_spec GTID_GROUP gtid)) =
       Ok m' (mk_spec GTID_GROUP gtid') /\ sid_map_wf m' /\
       sidno_to_sid m' (gtid_sidno gtid') = sidno_to_sid m0 (gtid_sidno gtid) /\
       gtid_gno gtid' = gtid_gno gtid).
Proof.
  intros Hm. destruct (Gtid_parse_print m Hm) as [Hv Hp]. split_and!.
  - intros text. unfold Gtid_specification_is_valid, Gtid_specification_parse.
    destruct (_ =? 0); [split; [eauto|done]|]. destruct (_ =? 0); [split; [eauto|done]|]. rewrite Hv.
    split; [intros (m' & gtid & ->); simpl; eauto|].
    destruct (Gtid_parse m text) as [m' gtid| |]; simpl; [eauto|by intros (? & ? & ?)..].
  - intros m0. split; vm_compute; reflexivity.
  - intros m0 gtid Hm0 Hs Hg. destruct (Hp m0 gtid Hm0 Hs Hg) as (m' & gtid' & E & H).
    exists m', gtid'. split; [|done]. unfold Gtid_specification_parse, Gtid_specification_to_string. simpl.
    assert (Hnot : forall t, t = AUTOMATIC_text \/ t = ANONYMOUS_text ->
      (my_strcasecmp_latin1 (Gtid_to_string m0 gtid) t =? 0) = false).
    { intros t Ht. apply Z.eqb_neq. intros Ec. unfold Gtid_to_string in Ec.
      pose proof (sidno_to_sid_wf m0 _ Hm0 Hs) as Hu.
      pose proof (Uuid_parse_to_string _ ([COLON] ++ format_gno (gtid_gno gtid)) Hu) as Hpu.
      rewrite words_not_uuid in Hpu; [done|]. destruct Ht as [->| ->]; tauto. }
    rewrite !Hnot by tauto. rewrite E. done.
Qed.

Lemma Gtid_specification_roundtrip_witness :
  exists m' gtid', Gtid_specification_parse ex_map'
      (Gtid_specification_to_string ex_map (mk_spec GTID_GROUP (mk_Gtid 2 5))) =
    Ok m' (mk_spec GTID_GROUP gtid') /\ gtid_gno gtid' = 5.
Proof.
  destruct (Gtid_specification_roundtrip ex_map' ex_map'_wf) as (_ & _ & H).
  destruct (H ex_map (mk_Gtid 2 5)) as (m' & gtid' & E & _ & _ & Eg);
    [apply ex_map_wf|vm_compute; lia|simpl; unfold GNO_END, INT64_MAX; lia|]. by exists m', gtid'.
Defined.
