(* ===== verification/GtidSystem.v ===== *)
(** * The server's GTID state under all interleavings

    The sessions of a server and its [Gtid_state] as a transition system.  A
    step is one critical section of the code: a round of [set_gtid_next], the
    generation of an automatic GTID, the end of a transaction or of a group of
    transactions, RESET MASTER, SET GTID_PURGED, a new SID, a session that
    connects or disconnects.  The invariant relates what sessions believe they
    own to the shared hashes, and ownership to execution.

    An automatic GTID is the next number of the server, or one that Group
    Replication specifies.  The server does not check whether another session owns
    a specified GTID, and [Owned_gtids] may then have two owners for it.  The system
    has the specified GTIDs that are free ([specified_ok]); for all others
    [specified_gtid_second_owner] shows what happens. *)

From Stdlib Require Import ZArith Lia.
From stdpp Require Import sorting base numbers option gmap tactics list.
From S2P Require Import Prelude GtidInterval Uuid SidMap GtidSet GtidText GtidState.

#[local] Open Scope Z_scope.

Abbreviation sessions := (gmap Z THD).

Definition anonymous_owners (thds : sessions) : Z :=
  Z.of_nat (size (filter (fun kv => owned_gtid (snd kv) = Owned_anonymous) thds)).

Record gtid_inv (g : Gtid_state) (thds : sessions) : Prop := mk_gtid_inv {
  inv_wf : gs_wf (executed_gtids g) /\ gs_wf (lost_gtids g) /\ gs_wf (gtids_only_in_table g);
  inv_max : get_max_sidno (executed_gtids g) = owned_max_sidno (owned_gtids g) /\
    get_max_sidno (lost_gtids g) = owned_max_sidno (owned_gtids g) /\
    get_max_sidno (gtids_only_in_table g) = owned_max_sidno (owned_gtids g);
  inv_server : (1 <= server_sidno g <= owned_max_sidno (owned_gtids g))%nat;
  inv_ids : forall t thd, thds !! t = Some thd -> thread_id thd = t /\ t <> 0;
  (** A session and the hashes agree on what it owns. *)
  inv_own : forall s x o, mk_Node x o ∈ owned_nodes (owned_gtids g) s <->
    exists thd, thds !! o = Some thd /\ owned_gtid thd = Owned_gtid (mk_Gtid s x);
  (** No GTID has two owners. *)
  inv_once : forall s, NoDup (map node_gno (owned_nodes (owned_gtids g) s));
  (** What is owned was not executed. *)
  inv_fresh : forall s n, n ∈ owned_nodes (owned_gtids g) s ->
    0 < node_gno n < GNO_END /\ ~ gs_has (executed_gtids g) s (node_gno n);
  inv_lost : forall s x, gs_has (lost_gtids g) s x \/ gs_has (gtids_only_in_table g) s x ->
    gs_has (executed_gtids g) s x;
  (** Nothing below [next_free_gno] is free. *)
  inv_free : 1 <= next_free_gno g <= GNO_END /\
    forall x, 1 <= x < next_free_gno g ->
      gno_used (intervals_of (executed_gtids g) (server_sidno g))
        (owned_nodes (owned_gtids g) (server_sidno g)) x;
  inv_anonymous : anonymous_gtid_count g = anonymous_owners thds
}.

(** ** Counting the sessions that own ANONYMOUS *)

Definition anonymous_bit (thd : THD) : Z :=
  if decide (owned_gtid thd = Owned_anonymous) then 1 else 0.

Section counting.
Implicit Types (thds : sessions) (thd : THD).

Lemma anonymous_owners_fresh thds t thd :
  thds !! t = None -> anonymous_owners (<[t:=thd]> thds) = anonymous_owners thds + anonymous_bit thd.
Proof.
  intros Ht. unfold anonymous_owners, anonymous_bit. case_decide as Hd.
  - rewrite map_filter_insert_True by done. rewrite map_size_insert_None; [lia|].
    apply map_lookup_filter_None. by left.
  - rewrite map_filter_insert_False by done. rewrite delete_id by done. lia.
Qed.

Lemma anonymous_owners_delete thds t thd :
  thds !! t = Some thd ->
  anonymous_owners (delete t thds) = anonymous_owners thds - anonymous_bit thd.
Proof.
  intros Ht. rewrite <- (insert_delete_id thds t thd Ht) at 2.
  rewrite anonymous_owners_fresh by apply lookup_delete_eq. lia.
Qed.

Lemma anonymous_owners_insert thds t thd thd' :
  thds !! t = Some thd ->
  anonymous_owners (<[t:=thd']> thds) = anonymous_owners thds - anonymous_bit thd + anonymous_bit thd'.
Proof.
  intros Ht. rewrite <- insert_delete_eq, anonymous_owners_fresh by apply lookup_delete_eq.
  by rewrite (anonymous_owners_delete thds t thd).
Qed.
End counting.

(** ** One session changes *)

Section sessions.
Implicit Types (g : Gtid_state) (thds : sessions) (thd : THD) (t : Z).

Lemma inv_ids_insert g thds t thd' :
  gtid_inv g thds -> t <> 0 -> thread_id thd' = t ->
  forall o thd, <[t:=thd']> thds !! o = Some thd -> thread_id thd = o /\ o <> 0.
Proof.
  intros Hi Ht Hid o thd. rewrite lookup_insert_Some.
  intros [[<- <-]|[_ Ho]]; [done|]. by apply (inv_ids g thds).
Qed.

(** The session's ownership stays as it is. *)
Lemma gtid_inv_same g thds t thd thd' :
  gtid_inv g thds -> thds !! t = Some thd -> thread_id thd' = thread_id thd ->
  owned_gtid thd' = owned_gtid thd -> gtid_inv g (<[t:=thd']> thds).
Proof.
  intros Hi Ht Hid Ho. destruct (inv_ids g thds Hi t thd Ht) as [Hid' Hne].
  split; try apply Hi.
  - eapply inv_ids_insert; [done..|congruence].
  - intros s x o. rewrite (inv_own g thds Hi). split; intros (thd0 & H1 & H2).
    + destruct (decide (t = o)) as [<-|Hn].
      * exists thd'. rewrite lookup_insert_eq. split; [done|congruence].
      * exists thd0. by rewrite lookup_insert_ne.
    + destruct (decide (t = o)) as [<-|Hn].
      * rewrite lookup_insert_eq in H1. simplify_eq. exists thd. split; [done|congruence].
      * rewrite lookup_insert_ne in H1 by done. by exists thd0.
  - rewrite (anonymous_owners_insert _ _ thd) by done. unfold anonymous_bit. rewrite Ho.
    rewrite (inv_anonymous g thds Hi). case_decide; lia.
Qed.

(** Only the counters of violations differ. *)
Lemma gtid_inv_counts g thds b c :
  gtid_inv g thds -> gtid_inv (with_counts g (anonymous_gtid_count g) b c) thds.
Proof. intros Hi. split; apply Hi. Qed.

(** The session acquires or releases ANONYMOUS. *)
Lemma gtid_inv_anonymous g thds t thd thd' b c :
  gtid_inv g thds -> thds !! t = Some thd -> thread_id thd' = thread_id thd ->
  (forall gt, owned_gtid thd <> Owned_gtid gt) -> (forall gt, owned_gtid thd' <> Owned_gtid gt) ->
  gtid_inv (with_counts g (anonymous_gtid_count g - anonymous_bit thd + anonymous_bit thd') b c)
    (<[t:=thd']> thds).
Proof.
  intros Hi Ht Hid Ho Ho'. destruct (inv_ids g thds Hi t thd Ht) as [Hid' Hne].
  split; try apply Hi.
  - eapply inv_ids_insert; [done..|congruence].
  - intros s x o. simpl. rewrite (inv_own g thds Hi). split; intros (thd0 & H1 & H2).
    + exists thd0. rewrite lookup_insert_ne; [done|]. intros <-. rewrite Ht in H1. simplify_eq. by apply (Ho (mk_Gtid s x)).
    + rewrite lookup_insert_Some in H1. destruct H1 as [[<- <-]|[_ H1]]; [by apply Ho' in H2|by exists thd0].
  - simpl. rewrite (anonymous_owners_insert _ _ thd) by done. by rewrite (inv_anonymous g thds Hi).
Qed.
End sessions.

(** ** A session acquires a GTID *)

Section ownership.
Implicit Types (g : Gtid_state) (thds : sessions) (thd : THD) (t : Z) (gt : Gtid).

(** A GTID a session may take. *)
Definition gtid_free g gt : Prop :=
  (1 <= gtid_sidno gt <= owned_max_sidno (owned_gtids g))%nat /\ 0 < gtid_gno gt < GNO_END /\
  ~ gno_used (intervals_of (executed_gtids g) (gtid_sidno gt))
      (owned_nodes (owned_gtids g) (gtid_sidno gt)) (gtid_gno gt).

Lemma owned_after_insert thds t thd thd' s x o (og : Owned_gtids) :
  thds !! t = Some thd ->
  (forall s x o, mk_Node x o ∈ owned_nodes og s <->
    exists thd, thds !! o = Some thd /\ owned_gtid thd = Owned_gtid (mk_Gtid s x)) ->
  (exists thd0, <[t:=thd']> thds !! o = Some thd0 /\ owned_gtid thd0 = Owned_gtid (mk_Gtid s x)) <->
  if decide (o = t) then owned_gtid thd' = Owned_gtid (mk_Gtid s x) else mk_Node x o ∈ owned_nodes og s.
Proof.
  intros Ht Hown. case_decide as Hd.
  - subst o. rewrite lookup_insert_eq. split; [intros (? & ? & ?); by simplify_eq|by exists thd'].
  - by rewrite lookup_insert_ne, Hown.
Qed.

Lemma gtid_inv_acquire g thds t thd gt :
  gtid_inv g thds -> thds !! t = Some thd -> owned_gtid thd = Owned_nothing -> gtid_free g gt ->
  exists og, add_gtid_owner (owned_gtids g) gt t = Some og /\
    forall thd', thread_id thd' = thread_id thd -> owned_gtid thd' = Owned_gtid gt ->
      gtid_inv (with_owned_gtids g og) (<[t:=thd']> thds).
Proof.
  intros Hi Ht Ho (Hs & Hg & Hu). unfold add_gtid_owner. rewrite (get_hash_Some _ _ Hs). simpl.
  eexists. split; [done|]. intros thd' Hid Ho'.
  destruct (inv_ids g thds Hi t thd Ht) as [Hid' Hne].
  set (hash := owned_nodes (owned_gtids g) (gtid_sidno gt)) in *.
  set (og := set_hash _ _ _).
  assert (Hn : forall s, owned_nodes og s = if decide (s = gtid_sidno gt)
    then hash ++ [mk_Node (gtid_gno gt) t] else owned_nodes (owned_gtids g) s)
    by (intros s; by apply owned_nodes_set_hash).
  assert (Hm : owned_max_sidno og = owned_max_sidno (owned_gtids g)) by apply set_hash_max.
  destruct Hi as [Hwf Hmax Hsrv Hids Hown Hone Hfr Hlost [Hf1 Hf2] Han].
  split; simpl; rewrite ?Hm; try done.
  - intros o thd0. rewrite lookup_insert_Some. intros [[<- <-]|[_ ?]]; [split; congruence|by auto].
  - intros s x o. rewrite (owned_after_insert thds t thd thd' s x o (owned_gtids g)) by done.
    rewrite Hn. destruct gt as [s0 x0]. simpl in *. rewrite Ho'. case_decide as Hd.
    + subst s. rewrite elem_of_app, list_elem_of_singleton. case_decide as Hd; [subst o|].
      * split; [intros [Hin|Hin]; [|congruence]|intros [= ->]; by right].
        apply Hown in Hin as (? & ? & ?). congruence.
      * split; [intros [?|?]; [done|congruence]|by left].
    + case_decide as Hd'; [subst o|done]. split; [|congruence].
      intros Hin. apply Hown in Hin as (? & ? & ?). congruence.
  - intros s. rewrite Hn. case_decide; [|done]. subst s. rewrite map_app. apply NoDup_app.
    split_and!; [apply Hone| |by apply NoDup_singleton].
    intros y Hy Hin%list_elem_of_singleton. subst y. apply Hu. by right.
  - intros s n. rewrite Hn. case_decide; [subst s|by apply Hfr].
    intros [Hin| ->%list_elem_of_singleton]%elem_of_app; [by apply Hfr|]. simpl.
    split; [done|]. intros Hin. apply Hu. by left.
  - split; [done|]. intros x Hx. destruct (Hf2 x Hx) as [?|Hin]; [by left|right]. rewrite Hn.
    case_decide as Hd; [|done]. rewrite map_app, elem_of_app. left. by rewrite Hd in Hin.
  - rewrite (anonymous_owners_insert _ _ thd) by done. unfold anonymous_bit. rewrite Ho, Ho'. simpl. lia.
Qed.

(** ** A session gives up a GTID *)

Lemma remove_owned g thds t thd gt :
  gtid_inv g thds -> thds !! t = Some thd -> owned_gtid thd = Owned_gtid gt ->
  exists og, remove_gtid (owned_gtids g) gt t = Some og /\
    owned_max_sidno og = owned_max_sidno (owned_gtids g) /\
    (forall s n, n ∈ owned_nodes og s <->
      n ∈ owned_nodes (owned_gtids g) s /\ ~ (s = gtid_sidno gt /\ n = mk_Node (gtid_gno gt) t)) /\
    (forall s, NoDup (map node_gno (owned_nodes og s))) /\
    0 < gtid_gno gt < GNO_END /\ (1 <= gtid_sidno gt <= owned_max_sidno (owned_gtids g))%nat.
Proof.
  intros Hi Ht Ho. set (n0 := mk_Node (gtid_gno gt) t).
  assert (Hin : n0 ∈ owned_nodes (owned_gtids g) (gtid_sidno gt)).
  { apply (inv_own g thds Hi). exists thd. split; [done|]. by destruct gt. }
  pose proof (owned_nodes_range _ _ _ Hin) as Hs.
  destruct (inv_fresh g thds Hi _ _ Hin) as [Hg _]. simpl in Hg.
  pose proof (inv_once g thds Hi (gtid_sidno gt)) as Hnd.
  destruct (filter_unique _ _ _ Hnd Hin) as [l Hl].
  unfold remove_gtid. rewrite (get_hash_Some _ _ Hs). simpl. rewrite Hl. simpl. rewrite Z.eqb_refl.
  pose proof (hash_delete_perm _ _ Hin) as Hp. fold n0.
  eexists. split_and!; [done|apply set_hash_max| | |lia..].
  - intros s n. rewrite owned_nodes_set_hash by done. case_decide as Hd; [subst s|tauto].
    rewrite Hp in Hnd. simpl in Hnd. apply NoDup_cons in Hnd as [Hnd _].
    split; [intros Hn; split; [rewrite Hp; by right|]|].
    + intros [_ ->]. apply Hnd. by apply (list_elem_of_fmap_2 node_gno) in Hn.
    + intros [Hn Hne]. rewrite Hp in Hn. apply elem_of_cons in Hn as [->|?]; [tauto|done].
  - intros s. rewrite owned_nodes_set_hash by done. case_decide; [subst s|apply (inv_once g thds Hi)].
    rewrite Hp in Hnd. simpl in Hnd. by apply NoDup_cons in Hnd as [_ ?].
Qed.
End ownership.

Section release.
Implicit Types (g : Gtid_state) (thds : sessions) (thd : THD) (t : Z) (gt : Gtid).
Context (opt_bin_log opt_log_slave_updates : bool).

(** What becomes of the invariant when a session loses its GTID, the other
    parts of the state changing as [g'] says. *)
Lemma gtid_inv_release g thds t thd gt og g' thd' :
  gtid_inv g thds -> thds !! t = Some thd -> owned_gtid thd = Owned_gtid gt ->
  remove_gtid (owned_gtids g) gt t = Some og ->
  owned_gtids g' = og -> server_sidno g' = server_sidno g ->
  anonymous_gtid_count g' = anonymous_gtid_count g ->
  gs_wf (executed_gtids g') /\ gs_wf (lost_gtids g') /\ gs_wf (gtids_only_in_table g') ->
  get_max_sidno (executed_gtids g') = get_max_sidno (executed_gtids g) /\
    get_max_sidno (lost_gtids g') = get_max_sidno (lost_gtids g) /\
    get_max_sidno (gtids_only_in_table g') = get_max_sidno (gtids_only_in_table g) ->
  (forall s x, gs_has (executed_gtids g) s x -> gs_has (executed_gtids g') s x) ->
  (forall s x, gs_has (executed_gtids g') s x ->
    gs_has (executed_gtids g) s x \/ mk_Gtid s x = gt) ->
  (forall s x, gs_has (lost_gtids g') s x \/ gs_has (gtids_only_in_table g') s x ->
    gs_has (executed_gtids g') s x) ->
  1 <= next_free_gno g' <= next_free_gno g ->
  (gs_has (executed_gtids g') (gtid_sidno gt) (gtid_gno gt) \/
   gtid_sidno gt <> server_sidno g \/ next_free_gno g' <= gtid_gno gt) ->
  thread_id thd' = thread_id thd -> owned_gtid thd' = Owned_nothing ->
  gtid_inv g' (<[t:=thd']> thds).
Proof.
  intros Hi Ht Ho Hr Hog Hsv Hac Hwf Hmax He1 He2 Hl Hf Hf' Hid Ho'.
  destruct (remove_owned g thds t thd gt Hi Ht Ho) as (og' & Hr' & Hm & Hn & Hnd & Hg & Hs).
  rewrite Hr in Hr'. simplify_eq.
  destruct (inv_ids g thds Hi t thd Ht) as [Hid' Hne].
  destruct Hi as [Hwf0 Hmax0 Hsrv Hids Hown Hone Hfr Hlost [Hf1 Hf2] Han].
  split; rewrite ?Hm, ?Hsv; try done.
  - intuition congruence.
  - intros o thd0. rewrite lookup_insert_Some. intros [[<- <-]|[_ ?]]; [split; congruence|by auto].
  - intros s x o. rewrite (owned_after_insert thds t thd thd' s x o (owned_gtids g)) by done.
    rewrite Hn, Ho'. destruct gt as [s0 x0]. simpl. case_decide as Hd.
    + subst o. split; [|done]. intros [Hin Hnot]. exfalso. apply Hnot.
      apply Hown in Hin as (thd0 & E1 & E2). rewrite Ht in E1. simplify_eq. rewrite Ho in E2.
      by simplify_eq.
    + split; [tauto|]. intros ?. split; [done|]. by intros [_ [= _ ?]].
  - intros s n Hin. apply Hn in Hin as [Hin Hnot]. destruct (Hfr s n Hin) as [? Hx].
    split; [done|]. intros Hh. apply He2 in Hh as [Hh|E]; [done|]. apply Hnot.
    destruct gt as [s0 x0]. injection E as -> <-. simpl. split; [done|]. destruct n as [x o]. f_equal.
    assert (Hin' : mk_Node x t ∈ owned_nodes (owned_gtids g) s0) by (apply Hown; by exists thd).
    destruct (filter_unique _ _ _ (Hone s0) Hin) as [l1 E1].
    destruct (filter_unique _ _ _ (Hone s0) Hin') as [l2 E2]. rewrite E1 in E2. by injection E2.
  - split; [lia|]. intros x Hx. destruct (Hf2 x ltac:(lia)) as [Hin|Hin]; [left; by apply He1|].
    apply list_elem_of_fmap in Hin as ([x' o] & -> & Hin). simpl in *.
    destruct (decide (server_sidno g = gtid_sidno gt /\ mk_Node x' o = mk_Node (gtid_gno gt) t))
      as [[E E']|Hd].
    + simplify_eq. left. rewrite E. destruct Hf' as [?|[?|?]]; [done|congruence|lia].
    + right. apply (list_elem_of_fmap_2 node_gno _ (mk_Node x' o)). by apply Hn.
  - rewrite (anonymous_owners_insert _ _ thd) by done. unfold anonymous_bit. rewrite Ho, Ho'. simpl. lia.
Qed.

Lemma add_executed_spec g thds thd gt :
  gtid_inv g thds -> (1 <= gtid_sidno gt <= owned_max_sidno (owned_gtids g))%nat ->
  0 < gtid_gno gt < GNO_END ->
  forall og, exists executed lost only_in_table,
    add_executed opt_bin_log opt_log_slave_updates (with_owned_gtids g og) thd gt =
      Some (with_sets (with_owned_gtids g og) executed lost only_in_table (previous_gtids_logged g)) /\
    gs_wf executed /\ gs_wf lost /\ gs_wf only_in_table /\
    get_max_sidno executed = get_max_sidno (executed_gtids g) /\
    get_max_sidno lost = get_max_sidno (lost_gtids g) /\
    get_max_sidno only_in_table = get_max_sidno (gtids_only_in_table g) /\
    (forall s x, gs_has executed s x <-> gs_has (executed_gtids g) s x \/ mk_Gtid s x = gt) /\
    (forall s x, gs_has lost s x \/ gs_has only_in_table s x ->
      gs_has (lost_gtids g) s x \/ gs_has (gtids_only_in_table g) s x \/ mk_Gtid s x = gt).
Proof.
  intros Hi Hs Hg og. destruct gt as [s0 x0]. simpl in *.
  destruct (inv_wf g thds Hi) as (W1 & W2 & W3). destruct (inv_max g thds Hi) as (M1 & M2 & M3).
  unfold add_executed. simpl.
  destruct (_add_gtid_spec (executed_gtids g) s0 x0) as (e & -> & Me & We & He & _); [done|lia..|].
  assert (Eq : forall s x, mk_Gtid s x = mk_Gtid s0 x0 <-> s = s0 /\ x = x0) 
    by (intros s x; split; [by intros [= -> ->]|by intros [-> ->]]).
  simpl. destruct (slave_thread thd && opt_bin_log && negb opt_log_slave_updates); simpl.
  - destruct (_add_gtid_spec (lost_gtids g) s0 x0) as (l & -> & Ml & Wl & Hl & _); [done|lia..|].
    destruct (_add_gtid_spec (gtids_only_in_table g) s0 x0) as (o & -> & Mo & Wo & Hol & _); [done|lia..|].
    simpl. exists e, l, o. split_and!; try done; intros s x; rewrite ?He, ?Hl, ?Hol, ?Eq; tauto.
  - exists e, (lost_gtids g), (gtids_only_in_table g).
    split_and!; try done; intros s x; rewrite ?He, ?Eq; tauto.
Qed.

(** Committing or rolling back what a session owns: defined, and it keeps the
    invariant; the GTID is executed exactly when it was a commit. *)
Lemma own_gtid_spec g thds t thd gt (is_commit : bool) :
  gtid_inv g thds -> thds !! t = Some thd -> owned_gtid thd = Owned_gtid gt ->
  exists g' thd',
    update_gtids_impl_own_gtid opt_bin_log opt_log_slave_updates g thd gt is_commit = Some (g', thd') /\
    thread_id thd' = thread_id thd /\ owned_gtid thd' = Owned_nothing /\
    gtid_inv g' (<[t:=thd']> thds) /\
    owned_max_sidno (owned_gtids g') = owned_max_sidno (owned_gtids g) /\
    forall s x, gs_has (executed_gtids g') s x <->
      gs_has (executed_gtids g) s x \/ is_commit = true /\ mk_Gtid s x = gt.
Proof.
  intros Hi Ht Ho. destruct (inv_ids g thds Hi t thd Ht) as [Hid _].
  destruct (remove_owned g thds t thd gt Hi Ht Ho) as (og & Hr & Hm & Hn & Hnd & Hg & Hs).
  unfold update_gtids_impl_own_gtid. rewrite Hid, Hr. simpl. destruct is_commit.
  - destruct (add_executed_spec g thds thd gt Hi Hs Hg og)
      as (e & l & o & -> & We & Wl & Wo & Me & Ml & Mo & He & Hl).
    simpl. eexists _, _. split_and!; [done|by case_decide|by case_decide| |done|].
    + eapply gtid_inv_release; try done; simpl; try done.
      * intros s x ?. apply He. tauto.
      * intros s x. by rewrite He.
      * intros s x Hin. apply He. apply Hl in Hin. pose proof (inv_lost g thds Hi s x). tauto.
      * pose proof (inv_free g thds Hi). lia.
      * left. apply He. right. by destruct gt.
      * by case_decide.
      * by case_decide.
    + intros s x. simpl. rewrite He. tauto.
  - simpl. eexists _, _. split_and!; [done|by case_decide|by case_decide| |by destruct (_ && _)|].
    + pose proof (inv_free g thds Hi) as [Hf _].
      eapply gtid_inv_release; try done; try (by case_decide); destruct (bool_decide _ && _) eqn:E;
        simpl; try done; try apply Hi; try tauto; try lia.
      apply andb_false_iff in E as [E%bool_decide_eq_false|E%Z.ltb_ge]; [tauto|].
      right. right. lia.
    + intros s x. destruct (bool_decide _ && _); simpl;
        (split; [by left|intros [?|[? _]]; [done|discriminate]]).
Qed.
End release.

(** ** The end of transactions *)

Section transactions.
Implicit Types (g : Gtid_state) (thds : sessions) (thd : THD) (t : Z) (gt : Gtid).
Context (opt_bin_log opt_log_slave_updates : bool).
#[local] Abbreviation update_thd := (update_gtids_thd opt_bin_log opt_log_slave_updates).

(** What the end of a transaction does, as its callers see it. *)
Definition ends_transaction g thds thd (is_commit : bool) g' thd' : Prop :=
  thread_id thd' = thread_id thd /\ commit_error thd' = commit_error thd /\
  skip_gtid_rollback thd' = skip_gtid_rollback thd /\
  owned_max_sidno (owned_gtids g') = owned_max_sidno (owned_gtids g) /\
  gtid_inv g' (<[thread_id thd:=thd']> thds) /\
  forall s x, gs_has (executed_gtids g') s x <->
    gs_has (executed_gtids g) s x \/ is_commit = true /\ owned_gtid thd = Owned_gtid (mk_Gtid s x).

Lemma end_violating_spec g thds thd :
  gtid_inv g thds -> thds !! thread_id thd = Some thd -> forall more_trx,
  let '(g', thd') := update_gtids_impl_end g thd more_trx in
  executed_gtids g' = executed_gtids g /\ owned_gtids g' = owned_gtids g /\ owned_gtid thd' = owned_gtid thd /\
  thread_id thd' = thread_id thd /\ commit_error thd' = commit_error thd /\
  skip_gtid_rollback thd' = skip_gtid_rollback thd /\ gtid_inv g' (<[thread_id thd:=thd']> thds).
Proof.
  intros Hi Ht more_trx. unfold update_gtids_impl_end, end_gtid_violating_transaction.
  destruct more_trx; [|destruct (has_gtid_consistency_violation thd)].
  - split_and!; try done. by rewrite insert_id.
  - split_and!; try done; [by case_decide..|].
    eapply gtid_inv_same; [|done..]. case_decide; by apply gtid_inv_counts.
  - split_and!; try done. by rewrite insert_id.
Qed.

Lemma own_gtid_frame g thd gt b g' thd' :
  update_gtids_impl_own_gtid opt_bin_log opt_log_slave_updates g thd gt b = Some (g', thd') ->
  commit_error thd' = commit_error thd /\ skip_gtid_rollback thd' = skip_gtid_rollback thd.
Proof.
  unfold update_gtids_impl_own_gtid. intros (og & _ & H)%bind_Some.
  apply bind_Some in H as (g1 & _ & [= _ <-]). by case_decide.
Qed.

Lemma own_anonymous_spec g thds thd :
  gtid_inv g thds -> thds !! thread_id thd = Some thd -> owned_gtid thd = Owned_anonymous ->
  forall more_trx, let '(g', thd', _) := update_gtids_impl_own_anonymous opt_bin_log g thd more_trx in
  executed_gtids g' = executed_gtids g /\ owned_gtids g' = owned_gtids g /\ thread_id thd' = thread_id thd /\
  commit_error thd' = commit_error thd /\ skip_gtid_rollback thd' = skip_gtid_rollback thd /\
  gtid_inv g' (<[thread_id thd:=thd']> thds).
Proof.
  intros Hi Ht Ho more_trx. unfold update_gtids_impl_own_anonymous.
  destruct (negb (_ && _)); split_and!; try done; [|by rewrite insert_id].
  unfold release_anonymous_ownership.
  replace (anonymous_gtid_count g - 1) with (anonymous_gtid_count g - anonymous_bit thd +
    anonymous_bit (clear_owned_gtids thd)) by (unfold anonymous_bit; rewrite Ho; simpl; lia).
  eapply gtid_inv_anonymous; try done. by rewrite Ho.
Qed.

Lemma update_gtids_thd_spec g thds thd (is_commit : bool) :
  gtid_inv g thds -> thds !! thread_id thd = Some thd ->
  exists g' thd', update_thd g thd is_commit = Some (g', thd') /\
    ends_transaction g thds thd is_commit g' thd'.
Proof.
  intros Hi Ht. unfold update_gtids_thd, ends_transaction.
  destruct (update_gtids_impl_do_nothing thd) eqn:Ed.
  { apply andb_true_iff in Ed as [Ed%bool_decide_eq_true _].
    eexists _, _. unfold do_nothing_thd. split_and!; [done|by case_decide|by case_decide|by case_decide|done| |].
    - eapply gtid_inv_same; [done..|by case_decide|by case_decide].
    - intros s x. rewrite Ed. split; [tauto|intros [?|[_ ?]]; done]. }
  destruct (owned_gtid thd) as [| |gt] eqn:Eo; simpl.
  - pose proof (end_violating_spec g thds thd Hi Ht (is_commit_in_middle_of_statement thd)) as He.
    destruct (update_gtids_impl_end _ _ _) as [g' thd']. destruct He as (E1 & E0 & _ & E2 & E3 & E4 & Hi').
    eexists _, _. split_and!; try done; try congruence. intros s x. rewrite E1. split; [tauto|intros [?|[_ ?]]; done].
  - pose proof (own_anonymous_spec g thds thd Hi Ht Eo (is_commit_in_middle_of_statement thd)) as Ha.
    destruct (update_gtids_impl_own_anonymous _ _ _ _) as [[g1 thd1] more].
    destruct Ha as (E1 & E0 & E2 & E3 & E4 & Hi1).
    pose proof (end_violating_spec g1 _ thd1 Hi1) as He. rewrite E2, lookup_insert_eq in He.
    specialize (He eq_refl more).
    destruct (update_gtids_impl_end _ _ _) as [g' thd']. destruct He as (F1 & F0 & _ & F2 & F3 & F4 & Hi').
    eexists _, _. rewrite insert_insert_eq in Hi'. split_and!; try done; try congruence.
    intros s x. rewrite F1, E1. split; [tauto|intros [?|[_ ?]]; done].
  - destruct (own_gtid_spec opt_bin_log opt_log_slave_updates g thds _ thd gt is_commit Hi Ht Eo)
      as (g1 & thd1 & Eu & E2 & _ & Hi1 & E0 & Hex). rewrite Eu. simpl.
    apply own_gtid_frame in Eu as [E3 E4].
    pose proof (end_violating_spec g1 _ thd1 Hi1) as He. rewrite E2, lookup_insert_eq in He.
    specialize (He eq_refl (is_commit_in_middle_of_statement thd)).
    destruct (update_gtids_impl_end _ _ _) as [g' thd']. destruct He as (F1 & F0 & _ & F2 & F3 & F4 & Hi').
    eexists _, _. rewrite insert_insert_eq in Hi'. split_and!; try done; try congruence.
    intros s x. rewrite F1, Hex. split; (intros [?|[-> ?]]; [by left|right; split; [done|congruence]]).
Qed.

Lemma update_gtids_thd_owned g thd gt is_commit g' thd' :
  update_thd g thd is_commit = Some (g', thd') -> owned_gtid thd = Owned_gtid gt ->
  owned_gtid thd' = Owned_nothing.
Proof.
  intros E Ho. unfold update_gtids_thd in E. rewrite Ho in E.
  assert (Ed : update_gtids_impl_do_nothing thd = false) by (unfold update_gtids_impl_do_nothing; by rewrite Ho).
  rewrite Ed in E. simpl in E. destruct (update_gtids_impl_own_gtid _ _ _ _ _ _) as [[g1 thd1]|] eqn:E1; [|done].
  unfold update_gtids_impl_own_gtid in E1. apply bind_Some in E1 as (og & _ & E1).
  apply bind_Some in E1 as (g2 & _ & [= _ <-]). simpl in E.
  unfold update_gtids_impl_end, end_gtid_violating_transaction in E. repeat case_match; by simplify_eq.
Qed.

(** ** Group commit *)

Definition store_sessions (thds : sessions) (l : list THD) : sessions :=
  foldl (fun m thd => <[thread_id thd:=thd]> m) thds l.

(** Sessions of a commit group: distinct, and each as the server has it. *)
Definition sessions_of (thds : sessions) (l : list THD) : Prop :=
  NoDup (map thread_id l) /\ Forall (fun thd => thds !! thread_id thd = Some thd) l.

(** One session of a group, as [update_commit_group] treats it. *)
Definition commit_one g thd : option (Gtid_state * THD) :=
  if commit_error thd then update_on_rollback opt_bin_log opt_log_slave_updates g thd
  else update_on_commit opt_bin_log opt_log_slave_updates g thd.

Lemma commit_one_spec g thds thd :
  gtid_inv g thds -> thds !! thread_id thd = Some thd ->
  exists g' thd', commit_one g thd = Some (g', thd') /\
    ends_transaction g thds thd (negb (commit_error thd)) g' thd'.
Proof.
  intros Hi Ht. unfold commit_one, update_on_rollback, update_on_commit.
  destruct (commit_error thd) eqn:Ec; [destruct (skip_gtid_rollback thd) eqn:Es|].
  - exists g, thd. split; [done|]. unfold ends_transaction. rewrite insert_id by done.
    split_and!; try done. intros s x. split; [tauto|intros [?|[? _]]; done].
  - by apply update_gtids_thd_spec.
  - by apply update_gtids_thd_spec.
Qed.

(** Processing a group under one lock is processing its sessions one by one,
    except that a session that owns nothing has its GTID_NEXT reset even when
    its rollback is to be skipped. *)
Lemma update_commit_group_cons g thd l :
  update_commit_group opt_bin_log opt_log_slave_updates g (thd :: l) =
  '(g, thd) ← (if update_gtids_impl_do_nothing thd then Some (g, do_nothing_thd thd) else commit_one g thd);
  '(g, l) ← update_commit_group opt_bin_log opt_log_slave_updates g l;
  Some (g, thd :: l).
Proof.
  cbn [update_commit_group]. unfold commit_one, update_on_rollback, update_on_commit.
  destruct (update_gtids_impl_do_nothing thd); [done|]. by destruct (commit_error thd), (skip_gtid_rollback thd).
Qed.

Lemma group_one_spec g thds thd :
  gtid_inv g thds -> thds !! thread_id thd = Some thd ->
  exists g' thd',
    (if update_gtids_impl_do_nothing thd then Some (g, do_nothing_thd thd) else commit_one g thd) =
      Some (g', thd') /\ ends_transaction g thds thd (negb (commit_error thd)) g' thd'.
Proof.
  intros Hi Ht. destruct (update_gtids_impl_do_nothing thd) eqn:Ed; [|by apply commit_one_spec].
  destruct (update_gtids_thd_spec g thds thd (negb (commit_error thd)) Hi Ht) as (g' & thd' & E & He).
  unfold update_gtids_thd in E. rewrite Ed in E. by exists g', thd'.
Qed.

Lemma update_commit_group_spec l : forall g thds,
  gtid_inv g thds -> sessions_of thds l ->
  exists g' l', update_commit_group opt_bin_log opt_log_slave_updates g l = Some (g', l') /\
    map thread_id l' = map thread_id l /\ gtid_inv g' (store_sessions thds l') /\
    owned_max_sidno (owned_gtids g') = owned_max_sidno (owned_gtids g) /\
    forall s x, gs_has (executed_gtids g') s x <-> gs_has (executed_gtids g) s x \/
      exists thd, thd ∈ l /\ commit_error thd = false /\ owned_gtid thd = Owned_gtid (mk_Gtid s x).
Proof.
  induction l as [|thd l IH]; intros g thds Hi [Hnd Hl].
  { exists g, []. split_and!; try done. intros s x. split; [tauto|].
    intros [?|(? & []%elem_of_nil & _)]. done. }
  apply NoDup_cons in Hnd as [Hn Hnd]. apply Forall_cons in Hl as [Ht Hl].
  destruct (group_one_spec g thds thd Hi Ht) as (g1 & thd1 & E1 & Eid & _ & _ & Eo & Hi1 & Hx1).
  destruct (IH g1 _ Hi1) as (g' & l' & E2 & Em & Hi' & Eo' & Hx').
  { split; [done|]. rewrite Forall_forall in Hl |- *. intros thd2 Hin. rewrite lookup_insert_ne; [by apply Hl|].
    intros E. apply Hn. rewrite E. by apply list_elem_of_fmap_2. }
  rewrite update_commit_group_cons, E1. simpl. rewrite E2. simpl.
  exists g', (thd1 :: l'). split_and!; [done|simpl; congruence|simpl; by rewrite Eid|congruence|].
  intros s x. rewrite Hx', Hx1. split.
  - intros [[?|[Hc ?]]|(thd2 & ? & ?)]; [by left|right; exists thd|right; exists thd2].
    + split; [left|]. split; [by destruct (commit_error thd)|done].
    + split; [by right|done].
  - intros [?|(thd2 & [->|?]%elem_of_cons & Hc & ?)]; [tauto| |].
    + left. right. by rewrite Hc.
    + right. by exists thd2.
Qed.
End transactions.

(** ** GTID_NEXT and automatic GTIDs *)

Section next.
Implicit Types (g : Gtid_state) (thds : sessions) (thd : THD) (t : Z) (gt : Gtid).

Lemma is_owned_spec g gt :
  (1 <= gtid_sidno gt <= owned_max_sidno (owned_gtids g))%nat ->
  exists b, is_owned g gt = Some b /\
    (b = true <-> gtid_gno gt ∈ map node_gno (owned_nodes (owned_gtids g) (gtid_sidno gt))).
Proof.
  intros Hs. unfold is_owned, is_owned_by. rewrite (get_hash_Some _ _ Hs). simpl.
  pose proof (filter_gno_nil (owned_nodes (owned_gtids g) (gtid_sidno gt)) (gtid_gno gt)) as Hf.
  destruct (filter _ _) as [|n l]; simpl; eexists; (split; [done|]); split; try done.
  - intros Hin. by apply Hf in Hin.
  - intros _. destruct (decide (gtid_gno gt ∈ map node_gno (owned_nodes (owned_gtids g) (gtid_sidno gt))));
      [done|]. by apply Hf in n0.
Qed.

Lemma acquire_ownership_spec g thds thd gt :
  gtid_inv g thds -> thds !! thread_id thd = Some thd -> owned_gtid thd = Owned_nothing ->
  gtid_free g gt ->
  exists g', acquire_ownership g thd gt = Some (g', with_owned thd (Owned_gtid gt)) /\
    executed_gtids g' = executed_gtids g /\ next_free_gno g' = next_free_gno g /\
    server_sidno g' = server_sidno g /\
    forall thd', thread_id thd' = thread_id thd -> owned_gtid thd' = Owned_gtid gt ->
      gtid_inv g' (<[thread_id thd:=thd']> thds).
Proof.
  intros Hi Ht Ho Hf. unfold acquire_ownership.
  destruct (gtid_inv_acquire g thds _ thd gt Hi Ht Ho Hf) as (og & -> & H). simpl.
  eexists. by split_and!.
Qed.

Lemma gtid_inv_acquire_anonymous g thds t thd thd' :
  gtid_inv g thds -> thds !! t = Some thd -> thread_id thd' = thread_id thd ->
  owned_gtid thd = Owned_nothing -> owned_gtid thd' = Owned_anonymous ->
  gtid_inv (acquire_anonymous_ownership g) (<[t:=thd']> thds).
Proof.
  intros Hi Ht Hid Ho Ho'. unfold acquire_anonymous_ownership.
  replace (anonymous_gtid_count g + 1) with (anonymous_gtid_count g - anonymous_bit thd + anonymous_bit thd')
    by (unfold anonymous_bit; rewrite Ho, Ho'; simpl; lia).
  eapply gtid_inv_anonymous; try done; [by rewrite Ho|by rewrite Ho'].
Qed.

(** What a round of [set_gtid_next] leads to. *)
Definition next_spec g thds thd (spec : Gtid_specification) (r : next_result) : Prop :=
  match r with
  | Next_error => True
  | Next_wait => exists t, t <> thread_id thd /\
      mk_Node (gtid_gno (spec_gtid spec)) t ∈ owned_nodes (owned_gtids g) (gtid_sidno (spec_gtid spec))
  | Next_done g' thd' =>
      thread_id thd' = thread_id thd /\ spec_type (gtid_next thd') = spec_type spec /\
      executed_gtids g' = executed_gtids g /\ gtid_inv g' (<[thread_id thd:=thd']> thds) /\
      (spec_type spec = GTID_GROUP -> gtid_next thd' = spec /\
        (owned_gtid thd' = Owned_nothing <-> is_executed g (spec_gtid spec) = true) /\
        (owned_gtid thd' = Owned_gtid (spec_gtid spec) <-> is_executed g (spec_gtid spec) = false))
  end.

(** The specifications [set_gtid_next] may be called with. *)
Definition spec_ok g (spec : Gtid_specification) : Prop :=
  match spec_type spec with
  | AUTOMATIC_GROUP | ANONYMOUS_GROUP => True
  | GTID_GROUP =>
      (1 <= gtid_sidno (spec_gtid spec) <= owned_max_sidno (owned_gtids g))%nat /\
      0 < gtid_gno (spec_gtid spec) < GNO_END
  | _ => False
  end.

Lemma set_gtid_next_gtid mode g thds thd gt :
  gtid_inv g thds -> thds !! thread_id thd = Some thd -> owned_gtid thd = Owned_nothing ->
  (1 <= gtid_sidno gt <= owned_max_sidno (owned_gtids g))%nat -> 0 < gtid_gno gt < GNO_END ->
  exists r, set_gtid_next mode g thd (mk_spec GTID_GROUP gt) = Some r /\
    next_spec g thds thd (mk_spec GTID_GROUP gt) r.
Proof.
  intros Hi Ht Ho Hs Hg. unfold set_gtid_next. rewrite Ho. cbn [spec_type spec_gtid].
  case_decide; [by exists Next_error|].
  destruct (is_executed g gt) eqn:Ee.
  { eexists. split; [done|]. split_and!; try done; [by eapply gtid_inv_same|].
    intros _. simpl. rewrite Ee, Ho. split_and!; done. }
  destruct (is_owned_spec g gt Hs) as (b & -> & Hb). simpl. destruct b; simpl.
  - exists Next_wait. split; [done|]. destruct Hb as [Hb _]. specialize (Hb eq_refl).
    apply list_elem_of_fmap in Hb as ([x o] & Ex & Hin). exists o. simpl in *. subst x. split; [|done].
    intros ->. apply (inv_own g thds Hi) in Hin as (thd0 & E & E'). congruence.
  - destruct (acquire_ownership_spec g thds thd gt Hi Ht Ho) as (g' & -> & Ex & _ & _ & Hi').
    { split_and!; [lia..|]. intros [Hin|Hin]; [|by apply Hb in Hin].
      apply contains_gtid_spec in Hin; [|by apply (inv_wf g thds Hi)].
      unfold is_executed in Ee. congruence. }
    simpl. eexists. split; [done|]. split_and!; try done; [by apply Hi'|]. intros _. simpl.
    rewrite Ee. split_and!; done.
Qed.

Lemma set_gtid_next_spec mode g thds thd spec :
  gtid_inv g thds -> thds !! thread_id thd = Some thd -> spec_ok g spec ->
  exists r, set_gtid_next mode g thd spec = Some r /\ next_spec g thds thd spec r.
Proof.
  intros Hi Ht Hok. destruct (owned_gtid thd) as [| |gt] eqn:Eo.
  2,3: exists Next_error; unfold set_gtid_next; by rewrite Eo.
  destruct spec as [[] gt]; try done.
  - unfold set_gtid_next. rewrite Eo. simpl. eexists. split; [done|].
    split_and!; try done. by eapply gtid_inv_same.
  - by apply set_gtid_next_gtid; [..|apply Hok|apply Hok].
  - unfold set_gtid_next. rewrite Eo. simpl. case_decide; [by exists Next_error|].
    eexists. split; [done|]. split_and!; try done.
    by eapply gtid_inv_acquire_anonymous.
Qed.

Lemma gtid_inv_next_free g thds gno :
  gtid_inv g thds -> 1 <= gno <= GNO_END ->
  (forall x, 1 <= x < gno -> gno_used (intervals_of (executed_gtids g) (server_sidno g))
    (owned_nodes (owned_gtids g) (server_sidno g)) x) ->
  gtid_inv (with_next_free g gno) thds.
Proof. intros Hi H1 H2. split; try apply Hi. by split. Qed.

(** An automatic GTID is the least one of the server that is free. *)
Lemma generate_automatic_gtid_spec mode g thds thd :
  gtid_inv g thds -> thds !! thread_id thd = Some thd -> owned_gtid thd = Owned_nothing ->
  let used := gno_used (intervals_of (executed_gtids g) (server_sidno g))
                (owned_nodes (owned_gtids g) (server_sidno g)) in
  exists g' thd' ok, generate_automatic_gtid mode g thd 0 0 = Some (g', thd', ok) /\
    thread_id thd' = thread_id thd /\ executed_gtids g' = executed_gtids g /\
    gtid_inv g' (<[thread_id thd:=thd']> thds) /\
    if mode_ge_on_permissive mode then
      if ok then exists gno, owned_gtid thd' = Owned_gtid (mk_Gtid (server_sidno g) gno) /\
        0 < gno < GNO_END /\ ~ used gno /\ forall x, 0 < x < gno -> used x
      else thd' = thd /\ g' = g /\ forall x, 0 < x < GNO_END -> used x
    else owned_gtid thd' = Owned_anonymous /\ ok = true.
Proof.
  intros Hi Ht Ho used. unfold generate_automatic_gtid. destruct (mode_ge_on_permissive mode).
  2: { eexists _, _, _. split_and!; try done. by eapply gtid_inv_acquire_anonymous. }
  simpl. destruct (inv_max g thds Hi) as (Hm & _). pose proof (inv_server g thds Hi) as Hs.
  destruct (inv_free g thds Hi) as [Hf1 Hf2].
  destruct (get_automatic_gno_spec g (server_sidno g)) as (r & -> & Hr);
    [apply (inv_wf g thds Hi)|lia|lia|lia|]. rewrite decide_True in Hr by done. simpl.
  rewrite bool_decide_true by done. destruct Hr as [[-> Hr]|(Hb & Hu & Hr)].
  - simpl. exists g, thd, false. split_and!; try done; [by rewrite insert_id|].
    intros x Hx. destruct (decide (x < next_free_gno g)); [apply Hf2|apply Hr]; lia.
  - assert (Hall : forall x, 0 < x < r -> used x).
    { intros x Hx. destruct (decide (x < next_free_gno g)); [apply Hf2|apply Hr]; lia. }
    destruct (Z.eqb_spec r (-1)); [lia|]. simpl.
    destruct (acquire_ownership_spec g thds thd (mk_Gtid (server_sidno g) r) Hi Ht Ho)
      as (g1 & E1 & Ex & _ & Esv & Hi1); [split_and!; simpl; (lia || done)|].
    unfold acquire_ownership in *. simpl in *. destruct (add_gtid_owner _ _ _) as [og|]; [|done].
    simpl in *. simplify_eq. simpl in *. eexists _, _, true. split_and!; try done; [|exists r; split_and!; done || lia].
    specialize (Hi1 (with_owned thd (Owned_gtid (mk_Gtid (server_sidno g) r))) eq_refl eq_refl).
    apply (gtid_inv_next_free (with_owned_gtids g og) _ (r + 1)); [done|lia|]. simpl.
    intros x Hx. destruct (decide (x = r)) as [->|].
    + right. apply (list_elem_of_fmap_2 node_gno _ (mk_Node r (thread_id thd))).
      apply (inv_own _ _ Hi1). eexists. split; [apply lookup_insert_eq|]. done.
    + destruct (Hall x ltac:(lia)) as [?|Hin]; [by left|right].
      apply list_elem_of_fmap in Hin as ([x' o] & -> & Hin).
      apply (list_elem_of_fmap_2 node_gno _ (mk_Node x' o)).
      apply (inv_own _ _ Hi1). apply (inv_own _ _ Hi) in Hin as (thd0 & E & E').
      exists thd0. rewrite lookup_insert_ne; [done|]. intros <-. congruence.
Qed.

(** A GTID that is specified becomes the session's, when it is free. *)
Lemma generate_specified_spec mode g thds thd gt :
  gtid_inv g thds -> thds !! thread_id thd = Some thd -> owned_gtid thd = Owned_nothing -> gtid_free g gt ->
  exists g' thd', generate_automatic_gtid mode g thd (gtid_sidno gt) (gtid_gno gt) = Some (g', thd', true) /\
    thread_id thd' = thread_id thd /\ executed_gtids g' = executed_gtids g /\
    gtid_inv g' (<[thread_id thd:=thd']> thds) /\
    owned_gtid thd' = if mode_ge_on_permissive mode then Owned_gtid gt else Owned_anonymous.
Proof.
  intros Hi Ht Ho Hf. unfold generate_automatic_gtid. destruct (mode_ge_on_permissive mode).
  2: { eexists _, _. split_and!; try done. by eapply gtid_inv_acquire_anonymous. }
  destruct (acquire_ownership_spec g thds thd gt Hi Ht Ho Hf) as (g' & E & Ex & _ & _ & Hi').
  destruct Hf as (Hs & Hg & _). rewrite decide_False by lia. destruct (Z.eqb_spec (gtid_gno gt) 0); [lia|]. simpl.
  destruct (Z.eqb_spec (gtid_gno gt) (-1)); [lia|]. simpl. destruct gt as [s x]. simpl. rewrite E. simpl.
  eexists _, _. split_and!; try done. by apply Hi'.
Qed.

(** What Group Replication may specify for a transaction: nothing, or a GTID that
    is free ([Rpl_transaction_ctx::set_rpl_transaction_ctx] refuses one of the two
    numbers without the other). *)
Definition specified_ok g (sidno : rpl_sidno) (gno : Z) : Prop :=
  sidno = 0%nat /\ gno = 0 \/ gtid_free g (mk_Gtid sidno gno).

Lemma generate_gtid_inv mode g thds thd sidno gno g' thd' ok :
  gtid_inv g thds -> thds !! thread_id thd = Some thd -> owned_gtid thd = Owned_nothing -> specified_ok g sidno gno ->
  generate_automatic_gtid mode g thd sidno gno = Some (g', thd', ok) ->
  executed_gtids g' = executed_gtids g /\ gtid_inv g' (<[thread_id thd:=thd']> thds).
Proof.
  intros Hi Ht Ho [[-> ->]|Hf] E.
  - destruct (generate_automatic_gtid_spec mode g thds thd Hi Ht Ho) as (g1 & thd1 & b & E' & _ & Ex & Hi' & _).
    rewrite E in E'. by simplify_eq.
  - destruct (generate_specified_spec mode g thds thd _ Hi Ht Ho Hf) as (g1 & thd1 & E' & _ & Ex & Hi' & _).
    simpl in E'. rewrite E in E'. by simplify_eq.
Qed.

(** The generation itself is defined whatever is specified. *)
Lemma generate_defined mode g thds thd sidno gno :
  gtid_inv g thds -> (sidno <= owned_max_sidno (owned_gtids g))%nat ->
  is_Some (generate_automatic_gtid mode g thd sidno gno).
Proof.
  intros Hi Hs. unfold generate_automatic_gtid. destruct (mode_ge_on_permissive mode); [|by eexists].
  destruct (inv_max g thds Hi) as (Hm & _). pose proof (inv_server g thds Hi).
  set (s := if decide _ then _ else _). assert (1 <= s <= owned_max_sidno (owned_gtids g))%nat by (unfold s; case_decide; lia).
  assert (forall (g' : Gtid_state) gno, owned_gtids g' = owned_gtids g -> is_Some (acquire_ownership g' thd (mk_Gtid s gno))) as Ha.
  { intros g' x E. unfold acquire_ownership, add_gtid_owner. rewrite E. simpl. rewrite get_hash_Some by done. by eexists. }
  destruct (gno =? 0).
  - destruct (get_automatic_gno_spec g s) as (x & -> & _); [apply (inv_wf g thds Hi)|lia|lia|apply (inv_free g thds Hi)|]. simpl.
    destruct (x =? -1); simpl; [by eexists|].
    destruct (Ha (if bool_decide (s = server_sidno g) && true then with_next_free g (x + 1) else g) x) as [[g' t'] ->];
      [by destruct (_ && _)|by eexists].
  - simpl. destruct (gno =? -1); simpl; [by eexists|]. destruct (Ha g gno eq_refl) as [[g' t'] ->]. by eexists.
Qed.
End next.

(** ** Operations on the whole state *)

#[local] Arguments add_gtid_set : simpl never.
#[local] Arguments remove_gtid_set : simpl never.

Section global.
Implicit Types (g : Gtid_state) (thds : sessions) (thd : THD) (n : rpl_sidno).

Lemma gtid_inv_clear g thds : gtid_inv g thds -> gtid_inv (Gtid_state_clear g) thds.
Proof.
  intros Hi. destruct (Gtid_set_clear_becomes (executed_gtids g)) as ((W1 & H1 & _) & M1).
  destruct (Gtid_set_clear_becomes (lost_gtids g)) as ((W2 & H2 & _) & M2).
  destruct (Gtid_set_clear_becomes (gtids_only_in_table g)) as ((W3 & H3 & _) & M3).
  split; simpl; try apply Hi; try done.
  - rewrite M1, M2, M3. apply Hi.
  - intros s x Hin. split; [by apply (inv_fresh g thds Hi s)|]. by intros []%H1.
  - intros s x. rewrite H1, H2, H3. tauto.
  - split; [done|]. intros x Hx. lia.
Qed.

Lemma gtid_inv_ensure g thds n : gtid_inv g thds -> gtid_inv (Gtid_state_ensure_sidno g n) thds.
Proof.
  intros Hi. destruct (inv_wf g thds Hi) as (W1 & W2 & W3). destruct (inv_max g thds Hi) as (M1 & M2 & M3).
  destruct (ensure_sidno_becomes (executed_gtids g) n W1) as (V1 & H1 & _).
  destruct (ensure_sidno_becomes (lost_gtids g) n W2) as (V2 & H2 & _).
  destruct (ensure_sidno_becomes (gtids_only_in_table g) n W3) as (V3 & H3 & _).
  split; simpl; try apply Hi; try done.
  - rewrite !ensure_sidno_max, owned_ensure_max. lia.
  - rewrite owned_ensure_max. pose proof (inv_server g thds Hi). lia.
  - intros s x o. rewrite owned_nodes_ensure. apply Hi.
  - intros s. rewrite owned_nodes_ensure. apply Hi.
  - intros s x. rewrite owned_nodes_ensure, H1. apply Hi.
  - intros s x. rewrite H1, H2, H3. apply Hi.
  - rewrite owned_nodes_ensure, intervals_of_ensure_sidno. apply Hi.
Qed.

Lemma owned_is_empty_nodes og s :
  owned_is_empty og = true -> owned_nodes og s = [].
Proof.
  unfold owned_is_empty. rewrite forallb_forall. intros H.
  destruct s as [|i]; [done|]. unfold owned_nodes. simpl.
  destruct (og !! i) as [h|] eqn:E; [|done]. specialize (H h). simpl.
  destruct h; [done|]. discriminate H. apply list_elem_of_In. by eapply list_elem_of_lookup_2.
Qed.

(** GTID_PURGED: defined; refused unless nothing was executed and nothing is
    owned; otherwise the set is executed, purged and only in the table. *)
Lemma add_lost_gtids_spec g thds save_ok gtid_set :
  gtid_inv g thds -> gs_wf gtid_set ->
  (get_max_sidno gtid_set <= owned_max_sidno (owned_gtids g))%nat ->
  exists g' ok, add_lost_gtids save_ok g gtid_set = Some (g', ok) /\ gtid_inv g' thds /\
    if ok then (forall s x, gs_has (executed_gtids g') s x <->
                  gs_has (executed_gtids g) s x \/ gs_has gtid_set s x) /\
               (forall s x, gs_has (lost_gtids g') s x <->
                  gs_has (lost_gtids g) s x \/ gs_has gtid_set s x)
    else g' = g.
Proof.
  intros Hi Hw Hm. unfold add_lost_gtids.
  destruct (negb (Gtid_set_is_empty _)); [by exists g, false|].
  destruct (owned_is_empty (owned_gtids g)) eqn:Eo; simpl; [|by exists g, false].
  destruct save_ok; simpl; [|by exists g, false].
  destruct (inv_wf g thds Hi) as (W1 & W2 & W3). destruct (inv_max g thds Hi) as (M1 & M2 & M3).
  destruct (add_gtid_set_same_spec _ _ W3 Hw) as (o & -> & Mo & Wo & Ho & _). simpl.
  destruct (add_gtid_set_same_spec _ _ W2 Hw) as (l & -> & Ml & Wl & Hl & _). simpl.
  destruct (add_gtid_set_same_spec _ _ W1 Hw) as (e & -> & Me & We & He & _). simpl.
  eexists _, true. split_and!; [done| |done|done].
  split; simpl; try apply Hi; try done; [lia|..].
  - intros s x. by rewrite (owned_is_empty_nodes _ s Eo), elem_of_nil.
  - intros s x. rewrite He, Hl, Ho. pose proof (inv_lost g thds Hi s x). tauto.
  - split; [apply Hi|]. intros x Hx. apply (inv_free g thds Hi) in Hx as [Hx|Hx]; [left|by right].
    apply He. by left.
Qed.

Lemma gtid_inv_connect g thds thd :
  gtid_inv g thds -> thds !! thread_id thd = None -> thread_id thd <> 0 ->
  owned_gtid thd = Owned_nothing -> gtid_inv g (<[thread_id thd:=thd]> thds).
Proof.
  intros Hi Ht Hne Ho. split; try apply Hi.
  - by eapply inv_ids_insert.
  - intros s x o. rewrite (inv_own g thds Hi). split; intros (thd0 & H1 & H2); exists thd0.
    + rewrite lookup_insert_ne; [done|]. intros <-. congruence.
    + rewrite lookup_insert_Some in H1. destruct H1 as [[_ <-]|[_ ?]]; [congruence|done].
  - rewrite anonymous_owners_fresh by done. unfold anonymous_bit. rewrite Ho. simpl.
    rewrite (inv_anonymous g thds Hi). lia.
Qed.

Lemma gtid_inv_disconnect g thds t thd :
  gtid_inv g thds -> thds !! t = Some thd -> owned_gtid thd = Owned_nothing ->
  gtid_inv g (delete t thds).
Proof.
  intros Hi Ht Ho. split; try apply Hi.
  - intros o thd0 [_ H]%lookup_delete_Some. by apply (inv_ids g thds Hi).
  - intros s x o. rewrite (inv_own g thds Hi). split; intros (thd0 & H1 & H2); exists thd0.
    + rewrite lookup_delete_ne; [done|]. intros <-. congruence.
    + by apply lookup_delete_Some in H1 as [_ ?].
  - rewrite (anonymous_owners_delete _ _ thd) by done. unfold anonymous_bit. rewrite Ho. simpl.
    rewrite (inv_anonymous g thds Hi). lia.
Qed.
End global.

(** ** The transition system *)

Section system.
Context (opt_bin_log opt_log_slave_updates : bool).
#[local] Abbreviation commit := (update_on_commit opt_bin_log opt_log_slave_updates).
#[local] Abbreviation rollback := (update_on_rollback opt_bin_log opt_log_slave_updates).
#[local] Abbreviation commit_group := (update_commit_group opt_bin_log opt_log_slave_updates).

Inductive gtid_step : Gtid_state * sessions -> Gtid_state * sessions -> Prop :=
| step_set_gtid_next mode g thds thd spec g' thd' :
    thds !! thread_id thd = Some thd -> spec_ok g spec ->
    set_gtid_next mode g thd spec = Some (Next_done g' thd') ->
    gtid_step (g, thds) (g', <[thread_id thd:=thd']> thds)
| step_reacquire mode g thds thd g' thd' :
    thds !! thread_id thd = Some thd ->
    gtid_reacquire_ownership_if_anonymous mode g thd = Some (Next_done g' thd') ->
    gtid_step (g, thds) (g', <[thread_id thd:=thd']> thds)
| step_generate mode g thds thd sidno gno g' thd' ok :
    thds !! thread_id thd = Some thd -> owned_gtid thd = Owned_nothing ->
    spec_type (gtid_next thd) = AUTOMATIC_GROUP -> specified_ok g sidno gno ->
    generate_automatic_gtid mode g thd sidno gno = Some (g', thd', ok) ->
    gtid_step (g, thds) (g', <[thread_id thd:=thd']> thds)
| step_commit g thds thd g' thd' :
    thds !! thread_id thd = Some thd -> commit g thd = Some (g', thd') ->
    gtid_step (g, thds) (g', <[thread_id thd:=thd']> thds)
| step_rollback g thds thd g' thd' :
    thds !! thread_id thd = Some thd -> rollback g thd = Some (g', thd') ->
    gtid_step (g, thds) (g', <[thread_id thd:=thd']> thds)
| step_commit_group g thds l g' l' :
    sessions_of thds l -> commit_group g l = Some (g', l') ->
    gtid_step (g, thds) (g', store_sessions thds l')
| step_reset_master g thds : gtid_step (g, thds) (Gtid_state_clear g, thds)
| step_new_sid g thds n : gtid_step (g, thds) (Gtid_state_ensure_sidno g n, thds)
| step_purged g thds save_ok gtid_set g' ok :
    gs_wf gtid_set -> (get_max_sidno gtid_set <= owned_max_sidno (owned_gtids g))%nat ->
    add_lost_gtids save_ok g gtid_set = Some (g', ok) ->
    gtid_step (g, thds) (g', thds)
| step_connect g thds thd :
    thds !! thread_id thd = None -> thread_id thd <> 0 -> owned_gtid thd = Owned_nothing ->
    gtid_step (g, thds) (g, <[thread_id thd:=thd]> thds)
| step_disconnect g thds thd :
    thds !! thread_id thd = Some thd -> owned_gtid thd = Owned_nothing ->
    gtid_step (g, thds) (g, delete (thread_id thd) thds)
(** The session runs statements, which touch its other members. *)
| step_statement g thds thd thd' :
    thds !! thread_id thd = Some thd -> thread_id thd' = thread_id thd ->
    owned_gtid thd' = owned_gtid thd ->
    gtid_step (g, thds) (g, <[thread_id thd:=thd']> thds).

(** A server that has read its executed set, before any session connects. *)
Definition gtid_initial (st : Gtid_state * sessions) : Prop :=
  let g := fst st in
  snd st = ∅ /\
  (gs_wf (executed_gtids g) /\ gs_wf (lost_gtids g) /\ gs_wf (gtids_only_in_table g)) /\
  (get_max_sidno (executed_gtids g) = owned_max_sidno (owned_gtids g) /\
   get_max_sidno (lost_gtids g) = owned_max_sidno (owned_gtids g) /\
   get_max_sidno (gtids_only_in_table g) = owned_max_sidno (owned_gtids g)) /\
  (1 <= server_sidno g <= owned_max_sidno (owned_gtids g))%nat /\
  owned_is_empty (owned_gtids g) = true /\
  (forall s x, gs_has (lost_gtids g) s x \/ gs_has (gtids_only_in_table g) s x ->
    gs_has (executed_gtids g) s x) /\
  next_free_gno g = 1 /\ anonymous_gtid_count g = 0.

Definition gtid_reachable (st : Gtid_state * sessions) : Prop :=
  exists st0, gtid_initial st0 /\ rtc gtid_step st0 st.

Lemma gtid_inv_initial st : gtid_initial st -> gtid_inv (fst st) (snd st).
Proof.
  destruct st as [g thds]. intros (E & Hwf & Hm & Hs & Ho & Hl & Hf & Ha). simpl in *. subst thds.
  split; try done.
  - intros s x o. rewrite (owned_is_empty_nodes _ s Ho). split; [by intros []%elem_of_nil|].
    by intros (thd & ? & _).
  - intros s. rewrite (owned_is_empty_nodes _ s Ho). constructor.
  - intros s n. rewrite (owned_is_empty_nodes _ s Ho). by intros []%elem_of_nil.
  - rewrite Hf. split; [done|]. intros; lia.
Qed.

Lemma gtid_inv_step st st' :
  gtid_step st st' -> gtid_inv (fst st) (snd st) -> gtid_inv (fst st') (snd st').
Proof.
  destruct 1; simpl; intros Hi.
  - destruct (set_gtid_next_spec mode g thds thd spec Hi) as (r & E & Hr); [done..|].
    rewrite H1 in E. simplify_eq. by apply Hr.
  - unfold gtid_reacquire_ownership_if_anonymous in *. case_match; [|simplify_eq; by rewrite insert_id].
    destruct (set_gtid_next_spec mode g thds thd (mk_spec ANONYMOUS_GROUP (mk_Gtid 0 0)) Hi)
      as (r & E & Hr); [done..|]. rewrite H0 in E. simplify_eq. by apply Hr.
  - by eapply generate_gtid_inv.
  - destruct (update_gtids_thd_spec opt_bin_log opt_log_slave_updates g thds thd true Hi)
      as (g1 & thd1 & E & He); [done|]. unfold update_on_commit in *. rewrite H0 in E. simplify_eq.
    by apply He.
  - unfold update_on_rollback in *. case_match; [simplify_eq; by rewrite insert_id|].
    destruct (update_gtids_thd_spec opt_bin_log opt_log_slave_updates g thds thd false Hi)
      as (g1 & thd1 & E & He); [done|]. rewrite H0 in E. simplify_eq. by apply He.
  - destruct (update_commit_group_spec opt_bin_log opt_log_slave_updates l g thds Hi)
      as (g1 & l1 & E & _ & Hi' & _); [done|]. by rewrite H0 in E; simplify_eq.
  - by apply gtid_inv_clear.
  - by apply gtid_inv_ensure.
  - destruct (add_lost_gtids_spec g thds save_ok gtid_set Hi) as (g1 & b & E & Hi' & _); [done..|].
    by rewrite H1 in E; simplify_eq.
  - by apply gtid_inv_connect.
  - by eapply gtid_inv_disconnect.
  - by eapply gtid_inv_same.
Qed.

Lemma gtid_inv_reachable st : gtid_reachable st -> gtid_inv (fst st) (snd st).
Proof.
  intros (st0 & H0 & Hs). apply gtid_inv_initial in H0. induction Hs as [|x y z Hxy _ IH]; [done|].
  apply IH. by eapply gtid_inv_step.
Qed.
End system.

(** ** Rotation of the binary log *)

Section rotation.
Implicit Types (g : Gtid_state) (m : Sid_map).

(** Every set of the state is numbered by the global map. *)
Definition sets_fit m g : Prop :=
  sid_map_wf m /\ gs_wf (executed_gtids g) /\ gs_wf (previous_gtids_logged g) /\
  gs_wf (gtids_only_in_table g) /\ gs_fits m (executed_gtids g) /\
  gs_fits m (previous_gtids_logged g) /\ gs_fits m (gtids_only_in_table g).

(** The set computed in the local map, with room for all its SIDs. *)
Lemma logged_last_binlog m g :
  sets_fit m g ->
  exists logged0 lm logged1 logged,
    add_gtid_set (Distinct_maps Sid_map_new m) Gtid_set_new (executed_gtids g) =
      Some (logged0, Distinct_maps lm m) /\
    remove_gtid_set (Distinct_maps lm m) logged0 (previous_gtids_logged g) = Some logged1 /\
    remove_gtid_set (Distinct_maps lm m) logged1 (gtids_only_in_table g) = Some logged /\
    gs_wf logged /\ sid_map_wf lm /\ gs_fits lm logged /\
    forall sid x, gs_has_sid lm logged sid x <->
      gs_has_sid m (executed_gtids g) sid x /\ ~ gs_has_sid m (previous_gtids_logged g) sid x /\
      ~ gs_has_sid m (gtids_only_in_table g) sid x.
Proof.
  intros (Hm & W1 & W2 & W3 & F1 & F2 & F3).
  assert (W0 : gs_wf Gtid_set_new) by constructor.
  destruct (add_gtid_set_distinct_spec Gtid_set_new (executed_gtids g) Sid_map_new m)
    as (l0 & lm & E0 & Wl & Wm & Fl & _ & H0); [done|done|apply Sid_map_new_wf|done|apply new_fits|done|].
  assert (Hmax : get_max_sidno l0 = sid_map_max_sidno lm).
  { unfold add_gtid_set in E0. apply bind_Some in E0 as ([gs' m'] & E0 & [= -> ->]).
    eapply add_distinct_loop_max; [exact E0|done|]. intros sid n. simpl. by rewrite lookup_empty. }
  destruct (remove_gtid_set_sids lm m l0 (previous_gtids_logged g)) as (l1 & E1 & Wl1 & M1 & _ & H1); [done..|].
  destruct (remove_gtid_set_sids lm m l1 (gtids_only_in_table g)) as (l2 & E2 & Wl2 & M2 & _ & H2);
    [done..|congruence|done|].
  exists l0, lm, l1, l2. split_and!; try done; [unfold gs_fits in *; congruence|].
  intros sid x. rewrite H2, H1, H0.
  assert (~ gs_has_sid Sid_map_new Gtid_set_new sid x) 
    by (intros Hx%gs_has_range; [change (get_max_sidno Gtid_set_new) with 0%nat in Hx; lia|done]).
  tauto.
Qed.

(** What rotation of the binary log saves into the table: by SID, the
    executed GTIDs that are neither in earlier logs nor only in the table; it
    saves nothing exactly when there is none and no incident forces it.  On
    rotation these GTIDs join [previous_gtids_logged].  The sets are combined
    across two SID maps and no access is out of bounds. *)
Theorem save_gtids_of_last_binlog_spec m g (on_rotation incident : bool) :
  sets_fit m g ->
  exists g' m' saved,
    save_gtids_of_last_binlog_into_table m g on_rotation incident = Some (g', m', saved) /\
    match saved with
    | None => g' = g /\ m' = m /\ incident = false /\
        forall sid x, gs_has_sid m (executed_gtids g) sid x ->
          ~ (~ gs_has_sid m (previous_gtids_logged g) sid x /\
             ~ gs_has_sid m (gtids_only_in_table g) sid x)
    | Some (lm, logged) =>
        (forall sid x, gs_has_sid lm logged sid x <->
          gs_has_sid m (executed_gtids g) sid x /\ ~ gs_has_sid m (previous_gtids_logged g) sid x /\
          ~ gs_has_sid m (gtids_only_in_table g) sid x) /\
        (forall sid x, gs_has_sid m' (previous_gtids_logged g') sid x <->
          gs_has_sid m (previous_gtids_logged g) sid x \/
          on_rotation = true /\ gs_has_sid lm logged sid x) /\
        sid_map_wf m' /\ gs_wf (previous_gtids_logged g') /\ gs_fits m' (previous_gtids_logged g')
    end.
Proof.
  intros Hf. destruct (logged_last_binlog m g Hf) as (l0 & lm & l1 & logged & E0 & E1 & E2 & W & Wm & F & H).
  unfold save_gtids_of_last_binlog_into_table. rewrite E0. simpl. rewrite E1. simpl. rewrite E2. simpl.
  destruct Hf as (Hm & _ & W2 & _ & _ & F2 & _).
  destruct (Gtid_set_is_empty logged) eqn:Ee, incident; simpl.
  2: { eexists _, _, None. split; [done|]. split_and!; try done. intros sid x Hx Hno.
       eapply Gtid_set_is_empty_spec; [done..|]. apply H. by split. }
  all: destruct on_rotation; simpl;
    [destruct (add_gtid_set_distinct_spec (previous_gtids_logged g) logged m lm)
       as (p & m' & -> & Wp & Wm' & Fp & _ & Hp); [done..|]; simpl;
     eexists _, _, (Some _); split; [done|]; split_and!; try done; simpl; intros sid x; rewrite Hp; tauto
    |eexists _, _, (Some _); split; [done|]; split_and!; try done; simpl; intros sid x;
     split; [tauto|intros [?|[? _]]; done]].
Qed.
End rotation.

(** ** What holds in every reachable state *)

Section reachable.
Context (opt_bin_log opt_log_slave_updates : bool).
Implicit Types (g : Gtid_state) (thds : sessions) (thd : THD) (gt : Gtid).
#[local] Abbreviation commit := (update_on_commit opt_bin_log opt_log_slave_updates).
#[local] Abbreviation rollback := (update_on_rollback opt_bin_log opt_log_slave_updates).
#[local] Abbreviation commit_group := (update_commit_group opt_bin_log opt_log_slave_updates).

Lemma owned_by_session g thds thd gt :
  gtid_inv g thds -> thds !! thread_id thd = Some thd -> owned_gtid thd = Owned_gtid gt ->
  mk_Node (gtid_gno gt) (thread_id thd) ∈ owned_nodes (owned_gtids g) (gtid_sidno gt).
Proof. intros Hi Ht Ho. apply (inv_own g thds Hi). exists thd. split; [done|]. by destruct gt. Qed.

Lemma is_owned_by_spec (og : Owned_gtids) gt t :
  t <> 0 -> mk_Node (gtid_gno gt) t ∈ owned_nodes og (gtid_sidno gt) -> is_owned_by og gt t = Some true.
Proof.
  intros Ht Hin. unfold is_owned_by. rewrite get_hash_Some by by eapply owned_nodes_range. simpl.
  destruct (Z.eqb_spec t 0); [done|]. f_equal. apply existsb_exists. exists (mk_Node (gtid_gno gt) t).
  split; [|simpl; lia]. apply list_elem_of_In, list_elem_of_filter. done.
Qed.

Lemma same_gno_same_owner g thds s x o1 o2 :
  gtid_inv g thds -> mk_Node x o1 ∈ owned_nodes (owned_gtids g) s ->
  mk_Node x o2 ∈ owned_nodes (owned_gtids g) s -> o1 = o2.
Proof.
  intros Hi H1 H2. destruct (filter_unique _ _ _ (inv_once g thds Hi s) H1) as [l1 E1].
  destruct (filter_unique _ _ _ (inv_once g thds Hi s) H2) as [l2 E2]. rewrite E1 in E2. by injection E2.
Qed.

(** C2: As long as the GTIDs that Group Replication specifies for transactions are
    free when they are taken, in every reachable state of the server, whatever the
    interleaving of sessions, a GTID that a session owns has no other owner, the
    shared hash knows the owner, the GTID has not been executed and is not purged;
    and the counter of anonymous transactions, which SET GTID_MODE waits for, is
    the number of sessions that own ANONYMOUS. *)
Theorem gtid_ownership_exclusive g thds :
  gtid_reachable opt_bin_log opt_log_slave_updates (g, thds) ->
  anonymous_gtid_count g = anonymous_owners thds /\
  forall t thd gt, thds !! t = Some thd -> owned_gtid thd = Owned_gtid gt ->
    is_owned_by (owned_gtids g) gt t = Some true /\ is_executed g gt = false /\
    ~ gs_has (lost_gtids g) (gtid_sidno gt) (gtid_gno gt) /\
    forall t' thd', thds !! t' = Some thd' -> owned_gtid thd' = Owned_gtid gt -> t' = t.
Proof.
  intros Hi%gtid_inv_reachable. simpl in Hi. split; [apply Hi|]. intros t thd gt Ht Ho.
  destruct (inv_ids g thds Hi t thd Ht) as [Hid Hne]. rewrite <- Hid in Ht, Hne |- *. clear t Hid.
  pose proof (owned_by_session g thds thd gt Hi Ht Ho) as Hin.
  destruct (inv_fresh g thds Hi _ _ Hin) as [_ Hx]. simpl in Hx. split_and!.
  - by apply is_owned_by_spec.
  - apply not_true_is_false. intros E. apply Hx. apply contains_gtid_spec; [apply Hi|done].
  - intros Hl. apply Hx. apply (inv_lost g thds Hi). by left.
  - intros t' thd' Ht' Ho'. destruct (inv_ids g thds Hi t' thd' Ht') as [<- _].
    eapply same_gno_same_owner; [done|by eapply owned_by_session|done].
Qed.

(** C3: A group commit in a reachable state is always defined, and executes
    exactly the GTIDs of the sessions of the group without commit error, each
    for the first time; the state it leaves is reachable. *)
Theorem commit_group_executes_once g thds l :
  gtid_reachable opt_bin_log opt_log_slave_updates (g, thds) -> sessions_of thds l ->
  exists g' l', commit_group g l = Some (g', l') /\ map thread_id l' = map thread_id l /\
    gtid_reachable opt_bin_log opt_log_slave_updates (g', store_sessions thds l') /\
    (forall s x, gs_has (executed_gtids g') s x <-> gs_has (executed_gtids g) s x \/
      exists thd, thd ∈ l /\ commit_error thd = false /\ owned_gtid thd = Owned_gtid (mk_Gtid s x)) /\
    (forall thd s x, thd ∈ l -> owned_gtid thd = Owned_gtid (mk_Gtid s x) ->
      ~ gs_has (executed_gtids g) s x).
Proof.
  intros Hr Hl. pose proof (gtid_inv_reachable _ _ _ Hr) as Hi. simpl in Hi.
  destruct (update_commit_group_spec opt_bin_log opt_log_slave_updates l g thds Hi Hl)
    as (g' & l' & E & Em & Hi' & _ & Hx). exists g', l'. split_and!; try done.
  - destruct Hr as (st0 & H0 & Hs). exists st0. split; [done|]. eapply rtc_r; [done|]. by econstructor.
  - intros thd s x Hin Ho. destruct Hl as [_ Hl]. rewrite Forall_forall in Hl. apply Hl in Hin.
    pose proof (owned_by_session g thds thd _ Hi Hin Ho) as Hn. by apply (inv_fresh g thds Hi) in Hn as [_ ?].
Qed.

(** C31: In every state that is reachable with specified GTIDs that were free, the
    operations on the GTID state have a result: none of them leaves an array, and
    none uses the uninitialised search state of [remove_gtid], which finds the
    session's node first.  The operations are commit, rollback, group commit, the
    generation of an automatic GTID (with no, a free, or a taken specified GTID),
    SET GTID_NEXT, the reacquisition of ANONYMOUS, and SET GTID_PURGED. *)
Theorem gtid_operations_defined g thds thd :
  gtid_reachable opt_bin_log opt_log_slave_updates (g, thds) -> thds !! thread_id thd = Some thd ->
  is_Some (commit g thd) /\ is_Some (rollback g thd) /\
  (forall l, sessions_of thds l -> is_Some (commit_group g l)) /\
  (owned_gtid thd = Owned_nothing -> forall mode sidno gno, (sidno <= owned_max_sidno (owned_gtids g))%nat ->
    is_Some (generate_automatic_gtid mode g thd sidno gno)) /\
  (forall mode spec, spec_ok g spec -> is_Some (set_gtid_next mode g thd spec)) /\
  (forall mode, is_Some (gtid_reacquire_ownership_if_anonymous mode g thd)) /\
  (forall save_ok gtid_set, gs_wf gtid_set ->
    (get_max_sidno gtid_set <= owned_max_sidno (owned_gtids g))%nat ->
    is_Some (add_lost_gtids save_ok g gtid_set)).
Proof.
  intros Hi%gtid_inv_reachable Ht. simpl in Hi. split_and!.
  - destruct (update_gtids_thd_spec opt_bin_log opt_log_slave_updates g thds thd true Hi Ht)
      as (? & ? & E & _). by eexists.
  - unfold update_on_rollback. case_match; [by eexists|].
    destruct (update_gtids_thd_spec opt_bin_log opt_log_slave_updates g thds thd false Hi Ht)
      as (? & ? & E & _). by eexists.
  - intros l Hl. destruct (update_commit_group_spec opt_bin_log opt_log_slave_updates l g thds Hi Hl)
      as (? & ? & E & _). by eexists.
  - intros _ mode sidno gno Hs. by eapply generate_defined.
  - intros mode spec Hok. destruct (set_gtid_next_spec mode g thds thd spec Hi Ht Hok) as (r & E & _).
    by eexists.
  - intros mode. unfold gtid_reacquire_ownership_if_anonymous. case_match; [|by eexists].
    destruct (set_gtid_next_spec mode g thds thd (mk_spec ANONYMOUS_GROUP (mk_Gtid 0 0)) Hi Ht I) as (r & E & _).
    by eexists.
  - intros save_ok gs W M. destruct (add_lost_gtids_spec g thds save_ok gs Hi W M) as (? & ? & E & _).
    by eexists.
Qed.

(** A GTID that is specified although another session owns it: the server takes it
    all the same, and the second owner's commit meets the other node first and goes
    on with a search state that was never initialised. *)
Theorem specified_gtid_second_owner mode g thds thd owner gt :
  gtid_reachable opt_bin_log opt_log_slave_updates (g, thds) -> thds !! thread_id thd = Some thd -> owned_gtid thd = Owned_nothing ->
  thds !! thread_id owner = Some owner -> owned_gtid owner = Owned_gtid gt -> mode_ge_on_permissive mode = true ->
  exists g' thd', generate_automatic_gtid mode g thd (gtid_sidno gt) (gtid_gno gt) = Some (g', thd', true) /\
    owned_gtid thd' = Owned_gtid gt /\ is_owned_by (owned_gtids g') gt (thread_id owner) = Some true /\
    is_owned_by (owned_gtids g') gt (thread_id thd) = Some true /\ commit g' thd' = None.
Proof.
  intros Hi%gtid_inv_reachable Ht Ho Hto Hoo Hm. simpl in Hi.
  pose proof (owned_by_session g thds owner gt Hi Hto Hoo) as Hin. pose proof (owned_nodes_range _ _ _ Hin) as Hs.
  destruct (inv_fresh g thds Hi _ _ Hin) as [Hg _]. simpl in Hg.
  destruct (inv_ids g thds Hi _ _ Ht) as [_ Hne]. destruct (inv_ids g thds Hi _ _ Hto) as [_ Hne'].
  assert (thread_id owner <> thread_id thd) as Hd by (intros E; rewrite E in Hto; congruence).
  destruct (filter_unique _ _ _ (inv_once g thds Hi _) Hin) as [l Hl].
  unfold generate_automatic_gtid. rewrite Hm, decide_False by lia. destruct (Z.eqb_spec (gtid_gno gt) 0); [lia|].
  simpl. destruct (Z.eqb_spec (gtid_gno gt) (-1)); [lia|]. simpl. unfold acquire_ownership, add_gtid_owner. simpl.
  rewrite (get_hash_Some _ _ Hs). simpl. eexists _, _. split; [done|]. simpl.
  set (hash := owned_nodes (owned_gtids g) (gtid_sidno gt)) in *. set (og := set_hash _ _ _).
  assert (owned_nodes og (gtid_sidno gt) = hash ++ [mk_Node (gtid_gno gt) (thread_id thd)]) as En
    by (unfold og; rewrite owned_nodes_set_hash by done; by rewrite decide_True).
  assert (Hs' : (1 <= gtid_sidno gt <= owned_max_sidno og)%nat) by (unfold og; by rewrite set_hash_max).
  split_and!; [by destruct gt|apply is_owned_by_spec; [done|rewrite En; apply elem_of_app; by left]
    |apply is_owned_by_spec; [done|rewrite En; apply elem_of_app; right; left]|].
  unfold update_on_commit, update_gtids_thd, update_gtids_impl_do_nothing, update_gtids_impl_own_gtid, remove_gtid. simpl.
  rewrite (get_hash_Some _ _ Hs'), En. simpl. rewrite filter_app, Hl. simpl.
  destruct (Z.eqb_spec (thread_id owner) (thread_id thd)); done.
Qed.

(** C30: In a reachable state, generating a GTID when GTIDs are on gives the
    session the least number of the server's SID that is neither executed nor
    owned, although the search starts at [next_free_gno] and not at 1; it fails
    only when every number is taken.  When GTIDs are off the session becomes
    anonymous. *)
Theorem generate_automatic_gtid_least mode g thds thd :
  gtid_reachable opt_bin_log opt_log_slave_updates (g, thds) -> thds !! thread_id thd = Some thd -> owned_gtid thd = Owned_nothing ->
  let used x := gs_has (executed_gtids g) (server_sidno g) x \/
    x ∈ map node_gno (owned_nodes (owned_gtids g) (server_sidno g)) in
  exists g' thd' ok, generate_automatic_gtid mode g thd 0 0 = Some (g', thd', ok) /\
    if mode_ge_on_permissive mode then
      if ok then exists gno, owned_gtid thd' = Owned_gtid (mk_Gtid (server_sidno g) gno) /\
        0 < gno < GNO_END /\ ~ used gno /\ forall x, 0 < x < gno -> used x
      else thd' = thd /\ g' = g /\ forall x, 0 < x < GNO_END -> used x
    else owned_gtid thd' = Owned_anonymous /\ ok = true.
Proof.
  intros Hi%gtid_inv_reachable Ht Ho used. simpl in Hi.
  destruct (generate_automatic_gtid_spec mode g thds thd Hi Ht Ho) as (g' & thd' & ok & E & _ & _ & _ & H).
  by exists g', thd', ok.
Qed.

(** C32: SET GTID_NEXT to a GTID and the check before each statement, for every
    statement.  The session owns the GTID, or nothing when the GTID had been
    executed.  BEGIN and statements with an implicit commit are cancelled inside of a
    transaction; COMMIT, BEGIN, ROLLBACK and innocent statements run; every other
    statement is skipped exactly when the GTID had been executed at that moment, and
    runs otherwise. *)
Theorem gtid_next_skips_executed mode g thds thd gt g' thd' st :
  gtid_reachable opt_bin_log opt_log_slave_updates (g, thds) -> thds !! thread_id thd = Some thd ->
  spec_ok g (mk_spec GTID_GROUP gt) ->
  set_gtid_next mode g thd (mk_spec GTID_GROUP gt) = Some (Next_done g' thd') ->
  owned_gtid thd' = (if is_executed g gt then Owned_nothing else Owned_gtid gt) /\
  (in_active_multi_stmt_transaction st = true -> stmt_causes_implicit_commit st = true \/ sql_command st = SQLCOM_BEGIN ->
     gtid_pre_statement_checks thd' st = GTID_STATEMENT_CANCEL) /\
  (in_active_multi_stmt_transaction st = false \/ stmt_causes_implicit_commit st = false /\ sql_command st <> SQLCOM_BEGIN ->
     gtid_pre_statement_checks thd' st =
       if decide (sql_command st ∈ [SQLCOM_COMMIT; SQLCOM_BEGIN; SQLCOM_ROLLBACK] \/ is_stmt_innocent st = true) then GTID_STATEMENT_EXECUTE
       else if is_executed g gt then GTID_STATEMENT_SKIP else GTID_STATEMENT_EXECUTE).
Proof.
  intros Hi%gtid_inv_reachable Ht Hok E. simpl in Hi.
  destruct (set_gtid_next_spec mode g thds thd _ Hi Ht Hok) as (r & E' & Hr). rewrite E in E'. simplify_eq.
  destruct Hr as (_ & _ & _ & _ & Hg). destruct (Hg eq_refl) as (Hn & H1 & H2). simpl in H1, H2.
  assert (Ho : owned_gtid thd' = if is_executed g gt then Owned_nothing else Owned_gtid gt)
    by (destruct (is_executed g gt); [by apply H1|by apply H2]).
  split; [done|]. unfold gtid_pre_statement_checks, is_already_logged_transaction. rewrite Hn, Ho. simpl. split.
  - intros -> Hb. destruct Hb as [-> | ->]; simpl; [done|]. by rewrite orb_true_r.
  - intros Hb. assert ((stmt_causes_implicit_commit st || bool_decide (sql_command st = SQLCOM_BEGIN)) &&
      in_active_multi_stmt_transaction st = false) as ->.
    { destruct Hb as [-> |[-> Hb]]; [apply andb_false_r|]. by rewrite bool_decide_false. }
    simpl. case_decide as Hd.
    + rewrite !elem_of_cons, elem_of_nil in Hd.
      destruct Hd as [[->|[->|[->|[]]]]| ->]; simpl; rewrite ?orb_true_r; done.
    + rewrite !elem_of_cons, elem_of_nil in Hd. rewrite !bool_decide_false by tauto.
      destruct (is_stmt_innocent st); [tauto|]. simpl. by destruct (is_executed g gt).
Qed.

(** Releasing a GTID frees it; nobody else can have owned it. *)
Lemma release_frees g thds thd gt g' thds' :
  gtid_inv g thds -> gtid_inv g' thds' -> thds !! thread_id thd = Some thd ->
  owned_gtid thd = Owned_gtid gt ->
  (forall o thd0, thds' !! o = Some thd0 -> owned_gtid thd0 = Owned_gtid gt ->
    o <> thread_id thd /\ thds !! o = Some thd0) ->
  gtid_gno gt ∉ map node_gno (owned_nodes (owned_gtids g') (gtid_sidno gt)).
Proof.
  intros Hi Hi' Ht Ho Hsub Hin. apply list_elem_of_fmap in Hin as ([x o] & E & Hin). simpl in E. subst x.
  apply (inv_own g' thds' Hi') in Hin as (thd0 & Hl & Ho0). destruct gt as [s x]. simpl in *.
  destruct (Hsub o thd0 Hl Ho0) as [Hne Hl']. apply Hne.
  eapply (same_gno_same_owner g thds s x); [done| |by apply (owned_by_session g thds thd (mk_Gtid s x))].
  apply (inv_own g thds Hi). by exists thd0.
Qed.

(** A session that waits for a GTID waits for a session that owns it.  In the state
    that this session's end of transaction leads to, a round of [set_gtid_next]
    succeeds: after a commit it finds the GTID executed and owns nothing; after a
    rollback it owns the GTID. *)
Theorem gtid_retry_after_end mode g thds thd gt owner (is_commit : bool) g' owner' :
  gtid_reachable opt_bin_log opt_log_slave_updates (g, thds) -> thds !! thread_id thd = Some thd ->
  spec_ok g (mk_spec GTID_GROUP gt) ->
  set_gtid_next mode g thd (mk_spec GTID_GROUP gt) = Some Next_wait ->
  thds !! thread_id owner = Some owner -> owned_gtid owner = Owned_gtid gt ->
  update_gtids_thd opt_bin_log opt_log_slave_updates g owner is_commit = Some (g', owner') ->
  thread_id owner <> thread_id thd /\
  exists g'' thd'', set_gtid_next mode g' thd (mk_spec GTID_GROUP gt) = Some (Next_done g'' thd'') /\
    owned_gtid thd'' = if is_commit then Owned_nothing else Owned_gtid gt.
Proof.
  intros Hi%gtid_inv_reachable Ht Hok Hw Htw Hown Hu. simpl in Hi.
  assert (Hne : thread_id owner <> thread_id thd).
  { intros E. rewrite E, Ht in Htw. simplify_eq. unfold set_gtid_next in Hw. by rewrite Hown in Hw. }
  split; [done|].
  destruct (update_gtids_thd_spec opt_bin_log opt_log_slave_updates g thds owner is_commit Hi Htw)
    as (g1 & o1 & E1 & Eid & _ & _ & Em & Hi' & Hx). rewrite Hu in E1. injection E1 as <- <-.
  assert (Ht' : <[thread_id owner:=owner']> thds !! thread_id thd = Some thd)
    by by rewrite lookup_insert_ne.
  pose proof (update_gtids_thd_owned _ _ _ _ _ _ _ _ Hu Hown) as Ho'.
  assert (Hok' : spec_ok g' (mk_spec GTID_GROUP gt)) by (unfold spec_ok in *; simpl in *; by rewrite Em).
  destruct (set_gtid_next_spec mode g' _ thd _ Hi' Ht' Hok') as (r & Er & Hr).
  assert (Hfree : gtid_gno gt ∉ map node_gno (owned_nodes (owned_gtids g') (gtid_sidno gt))).
  { eapply (release_frees g thds owner); [done..|]. intros o thd0 Hl Ho0.
    apply lookup_insert_Some in Hl as [[_ <-]|[? ?]]; [congruence|done]. }
  assert (Hex : is_executed g' gt = is_commit).
  { apply eq_true_iff_eq. unfold is_executed. rewrite contains_gtid_spec by apply Hi'. rewrite Hx.
    pose proof (owned_by_session g thds owner gt Hi Htw Hown) as Hin.
    apply (inv_fresh g thds Hi) in Hin as [_ Hin]. simpl in Hin.
    split; [intros [?|[? _]]; done|]. intros ->. right. split; [done|]. by destruct gt. }
  rewrite Er. destruct r as [| |g'' thd''].
  - exfalso. unfold set_gtid_next in Hw, Er. destruct (owned_gtid thd); try done. simpl in *.
    case_decide; [done|]. rewrite Hex in Er. destruct is_commit; [done|].
    destruct (is_owned g' gt) as [b|]; [|done]. simpl in Er. destruct (negb b); [|done].
    by destruct (acquire_ownership g' thd gt) as [[]|].
  - exfalso. destruct Hr as (t & _ & Hin). apply Hfree.
    by apply (list_elem_of_fmap_2 node_gno) in Hin.
  - exists g'', thd''. split; [done|]. destruct Hr as (_ & _ & _ & _ & Hg).
    destruct (Hg eq_refl) as (_ & H1 & H2). simpl in H1, H2. rewrite Hex in H1, H2.
    destruct is_commit; [by apply H1|by apply H2].
Qed.

(** ** Runs without end

    A run is an infinite sequence of states, each reached from the one before by a
    step of the system or by doing nothing. *)

Definition gtid_run (run : nat -> Gtid_state * sessions) : Prop :=
  gtid_reachable opt_bin_log opt_log_slave_updates (run 0%nat) /\
  forall i, run (S i) = run i \/ gtid_step opt_bin_log opt_log_slave_updates (run i) (run (S i)).

Definition owns (st : Gtid_state * sessions) (t : Z) gt : Prop :=
  exists thd, snd st !! t = Some thd /\ owned_gtid thd = Owned_gtid gt.

Lemma gtid_run_inv run i : gtid_run run -> gtid_inv (fst (run i)) (snd (run i)).
Proof.
  intros [H0 Hs]. induction i as [|i IH]; [by eapply gtid_inv_reachable|].
  destruct (Hs i) as [->|H]; [done|]. by eapply gtid_inv_step.
Qed.

Lemma executed_same_max g thds g' thds' :
  gtid_inv g thds -> gtid_inv g' thds' -> executed_gtids g' = executed_gtids g ->
  owned_max_sidno (owned_gtids g') = owned_max_sidno (owned_gtids g).
Proof. intros Hi Hi' E. destruct (inv_max g thds Hi) as [<- _]. destruct (inv_max g' thds' Hi') as [<- _]. by rewrite E. Qed.

(** SIDNOs are never given up. *)
Lemma gtid_step_max st st' : gtid_inv (fst st) (snd st) -> gtid_step opt_bin_log opt_log_slave_updates st st' ->
  (owned_max_sidno (owned_gtids (fst st)) <= owned_max_sidno (owned_gtids (fst st')))%nat.
Proof.
  intros Hi Hs. pose proof (gtid_inv_step _ _ _ _ Hs Hi) as Hi'. destruct Hs; simpl in *; try done.
  - destruct (set_gtid_next_spec mode g thds thd spec Hi) as (r & E & Hr); [done..|].
    rewrite H1 in E. simplify_eq. destruct Hr as (_ & _ & Ex & _). by rewrite (executed_same_max g thds g' _ Hi Hi' Ex).
  - unfold gtid_reacquire_ownership_if_anonymous in *. case_match; [|by simplify_eq].
    destruct (set_gtid_next_spec mode g thds thd (mk_spec ANONYMOUS_GROUP (mk_Gtid 0 0)) Hi) as (r & E & Hr); [done..|].
    rewrite H0 in E. simplify_eq. destruct Hr as (_ & _ & Ex & _). by rewrite (executed_same_max g thds g' _ Hi Hi' Ex).
  - destruct (generate_gtid_inv mode g thds thd sidno gno g' thd' ok) as [Ex _]; [done..|].
    by rewrite (executed_same_max g thds g' _ Hi Hi' Ex).
  - destruct (update_gtids_thd_spec opt_bin_log opt_log_slave_updates g thds thd true Hi) as (g1 & thd1 & E & He); [done|].
    unfold update_on_commit in *. rewrite H0 in E. simplify_eq. destruct He as (_ & _ & _ & -> & _). done.
  - unfold update_on_rollback in *. case_match; [by simplify_eq|].
    destruct (update_gtids_thd_spec opt_bin_log opt_log_slave_updates g thds thd false Hi) as (g1 & thd1 & E & He); [done|].
    rewrite H0 in E. simplify_eq. destruct He as (_ & _ & _ & -> & _). done.
  - destruct (update_commit_group_spec opt_bin_log opt_log_slave_updates l g thds Hi) as (g1 & l1 & E & _ & _ & Em & _); [done|].
    rewrite H0 in E. simplify_eq. by rewrite Em.
  - rewrite owned_ensure_max. lia.
  - unfold add_lost_gtids in *. repeat (case_match; simplify_eq; try done).
    apply bind_Some in H1 as ([] & _ & ([] & _ & ([] & _ & E)%bind_Some)%bind_Some). by simplify_eq.
Qed.

Lemma gtid_run_max run i gt : gtid_run run -> spec_ok (fst (run 0%nat)) (mk_spec GTID_GROUP gt) ->
  spec_ok (fst (run i)) (mk_spec GTID_GROUP gt).
Proof.
  intros Hr [H0 Hg]. split; [|done]. simpl in *. induction i as [|i IH]; [done|].
  destruct Hr as [Hr0 Hs]. destruct (Hs i) as [->|H]; [done|].
  pose proof (gtid_step_max _ _ (gtid_run_inv run i (conj Hr0 Hs)) H). lia.
Qed.

(** A round of [set_gtid_next] waits exactly when a session owns the GTID. *)
Lemma set_gtid_next_round mode st thd gt :
  gtid_inv (fst st) (snd st) -> snd st !! thread_id thd = Some thd -> owned_gtid thd = Owned_nothing ->
  mode <> GTID_MODE_OFF -> spec_ok (fst st) (mk_spec GTID_GROUP gt) ->
  (exists t, owns st t gt) /\ set_gtid_next mode (fst st) thd (mk_spec GTID_GROUP gt) = Some Next_wait \/
  (forall t, ~ owns st t gt) /\ exists g' thd', set_gtid_next mode (fst st) thd (mk_spec GTID_GROUP gt) = Some (Next_done g' thd') /\
    owned_gtid thd' = if is_executed (fst st) gt then Owned_nothing else Owned_gtid gt.
Proof.
  intros Hi Ht Ho Hm Hok. destruct st as [g thds]. simpl in *.
  destruct (set_gtid_next_spec mode g thds thd _ Hi Ht Hok) as (r & E & Hr). rewrite E.
  assert (Hown : forall t, owns (g, thds) t gt <-> mk_Node (gtid_gno gt) t ∈ owned_nodes (owned_gtids g) (gtid_sidno gt))
    by (intros t; rewrite (inv_own g thds Hi); by destruct gt).
  unfold set_gtid_next in E. rewrite Ho in E. simpl in E. rewrite decide_False in E by done.
  destruct (is_executed g gt) eqn:Ee.
  - simplify_eq. right. split; [|by eexists _, _]. intros t Hin%Hown. apply (inv_fresh g thds Hi) in Hin as [_ Hin].
    apply Hin. apply contains_gtid_spec; [apply Hi|done].
  - destruct (is_owned_spec g gt) as (b & Eb & Hb); [apply Hok|]. rewrite Eb in E. simpl in E. destruct b; simpl in E.
    + simplify_eq. left. split; [|done]. destruct Hr as (t & _ & Hin). exists t. by apply Hown.
    + right. split.
      * intros t Hin%Hown. assert (false = true); [|done]. apply Hb. by apply (list_elem_of_fmap_2 node_gno) in Hin.
      * apply bind_Some in E as ([g' thd'] & E & [= <-]). eexists _, _. split; [done|].
        unfold acquire_ownership in E. apply bind_Some in E as (og & _ & [= _ <-]). done.
Qed.

(** C4: Waiting for a GTID, in every infinite run of the system in which the session
    stays in its wait.  A round of [set_gtid_next] waits exactly in the states in
    which another session owns the GTID; in all others it succeeds, owning the
    GTID, or nothing when it is executed.  If every owner of the GTID ends its
    transaction sooner or later, and the others stop taking the GTID from some point
    on, then from some point on every round succeeds. *)
Theorem gtid_wait_progress mode run thd gt :
  gtid_run run -> (forall i, snd (run i) !! thread_id thd = Some thd) -> owned_gtid thd = Owned_nothing ->
  mode <> GTID_MODE_OFF -> spec_ok (fst (run 0%nat)) (mk_spec GTID_GROUP gt) ->
  let round i := set_gtid_next mode (fst (run i)) thd (mk_spec GTID_GROUP gt) in
  let succeeds i := exists g' thd', round i = Some (Next_done g' thd') /\
    owned_gtid thd' = if is_executed (fst (run i)) gt then Owned_nothing else Owned_gtid gt in
  (forall i, (exists t, t <> thread_id thd /\ owns (run i) t gt) /\ round i = Some Next_wait \/
             (forall t, ~ owns (run i) t gt) /\ succeeds i) /\
  ((forall i t, owns (run i) t gt -> exists j, (i <= j)%nat /\ ~ owns (run j) t gt) ->
   (exists n, forall i t, (n <= i)%nat -> owns (run (S i)) t gt -> owns (run i) t gt) ->
   exists m, forall i, (m <= i)%nat -> succeeds i).
Proof.
  intros Hr Ht Ho Hm Hok round succeeds.
  assert (Hround : forall i, (exists t, t <> thread_id thd /\ owns (run i) t gt) /\ round i = Some Next_wait \/
             (forall t, ~ owns (run i) t gt) /\ succeeds i).
  { intros i. destruct (set_gtid_next_round mode (run i) thd gt) as [[[t Hown] E]|H];
      [by apply gtid_run_inv|done..|by apply gtid_run_max|left; split; [|done]|by right].
    exists t. split; [|done]. intros ->. destruct Hown as (thd' & E1 & E2). rewrite Ht in E1. congruence. }
  split; [done|]. intros Hend [n Hstop].
  assert (Hfree : forall j, (n <= j)%nat -> (forall t, ~ owns (run j) t gt) -> forall i, (j <= i)%nat -> succeeds i).
  { intros j Hj Hno i Hi. assert (forall t, ~ owns (run i) t gt) as Hn.
    { induction Hi as [|i Hi IH]; [done|]. intros t Hown. apply (IH t). apply Hstop; [lia|done]. }
    destruct (Hround i) as [[(t & _ & Hown) _]|[_ ?]]; [by apply Hn in Hown|done]. }
  destruct (Hround n) as [[(t & _ & Hown) _]|[Hno _]]; [|by exists n; apply Hfree].
  destruct (Hend n t Hown) as (j & Hj & Hnot). exists j. apply (Hfree j Hj). intros t' Hown'. apply Hnot.
  assert (owns (run n) t' gt) as Hown2.
  { clear Hnot. induction Hj as [|j Hj IH]; [done|]. apply IH. apply Hstop; [lia|done]. }
  destruct Hown as (o1 & E1 & F1), Hown2 as (o2 & E2 & F2). pose proof (gtid_run_inv run n Hr) as Hi.
  assert (t = t') as ->; [|done]. destruct gt as [s x].
  eapply (same_gno_same_owner _ _ s x); [exact Hi|apply (inv_own _ _ Hi); by exists o1|apply (inv_own _ _ Hi); by exists o2].
Qed.



End reachable.

(** ** A run of the system

    A server with two SIDs and some executed GTIDs; sessions 7 and 8 connect,
    and session 8 sets GTID_NEXT to number 9 of the second SID. *)

Definition ex_thd (id : Z) : THD :=
  mk_THD id Owned_nothing (mk_spec AUTOMATIC_GROUP (mk_Gtid 0 0)) false false false false false true.

Definition ex_gst : Gtid_state :=
  mk_Gtid_state ex_set (ensure_sidno Gtid_set_new 2) (ensure_sidno Gtid_set_new 2)
    (ensure_sidno Gtid_set_new 2) [[]; []] 1 1 0 0 0.

Definition ex_sessions : sessions := <[8:=ex_thd 8]> (<[7:=ex_thd 7]> ∅).

Definition ex_spec : Gtid_specification := mk_spec GTID_GROUP (mk_Gtid 2 9).

Definition ex_owner : THD :=
  with_gtid_next (with_owned (ex_thd 8) (Owned_gtid (mk_Gtid 2 9))) ex_spec.

Definition ex_gst_owned : Gtid_state := with_owned_gtids ex_gst [[]; [mk_Node 9 8]].

Definition ex_sessions_owned : sessions := <[8:=ex_owner]> ex_sessions.

Lemma ex_connected b1 b2 : gtid_reachable b1 b2 (ex_gst, ex_sessions).
Proof.
  exists (ex_gst, ∅). split.
  - split; [done|]. split_and!; try done; try (apply gs_wfb_true; reflexivity); try (simpl; lia).
    intros s x [H|H]; apply gs_has_range in H as H'; try (apply gs_wfb_true; reflexivity);
      destruct H' as [H' _]; change (get_max_sidno _) with 2%nat in H'; exfalso;
      destruct s as [|[|[|s]]]; try lia; by apply in_ivs_nil in H.
  - eapply rtc_l; [apply (step_connect _ _ ex_gst ∅ (ex_thd 7)); done|].
    apply rtc_once. by apply (step_connect _ _ ex_gst _ (ex_thd 8)).
Qed.

Lemma ex_owning b1 b2 : gtid_reachable b1 b2 (ex_gst_owned, ex_sessions_owned).
Proof.
  destruct (ex_connected b1 b2) as (st0 & H0 & Hs). exists st0. split; [done|].
  eapply rtc_r; [exact Hs|].
  apply (step_set_gtid_next _ _ GTID_MODE_ON ex_gst ex_sessions (ex_thd 8) ex_spec ex_gst_owned ex_owner);
    [done|split; simpl; [lia|done]|reflexivity].
Qed.

Lemma save_gtids_of_last_binlog_spec_witness :
  exists g' m' saved,
    save_gtids_of_last_binlog_into_table ex_map ex_gst true false = Some (g', m', saved) /\
    match saved with None => False | Some _ => True end.
Proof.
  destruct (save_gtids_of_last_binlog_spec ex_map ex_gst true false) as (g' & m' & saved & E & H).
  { split; [apply ex_map_wf|]. split_and!; try (apply gs_wfb_true; reflexivity); vm_compute; lia. }
  exists g', m', saved. split; [done|]. destruct saved as [[lm logged]|]; [done|].
  vm_compute in E. discriminate E.
Defined.

Lemma gtid_ownership_exclusive_witness :
  anonymous_gtid_count ex_gst_owned = anonymous_owners ex_sessions_owned /\
  is_owned_by (owned_gtids ex_gst_owned) (mk_Gtid 2 9) 8 = Some true /\
  is_executed ex_gst_owned (mk_Gtid 2 9) = false.
Proof.
  destruct (gtid_ownership_exclusive true false ex_gst_owned ex_sessions_owned (ex_owning true false)) as [H1 H2].
  destruct (H2 8 ex_owner (mk_Gtid 2 9) eq_refl eq_refl) as (H3 & H4 & _). by split_and!.
Defined.

Lemma commit_group_executes_once_witness :
  exists g' l', update_commit_group true false ex_gst_owned [ex_owner] = Some (g', l') /\
    gs_has (executed_gtids g') 2 9 /\ ~ gs_has (executed_gtids ex_gst_owned) 2 9.
Proof.
  destruct (commit_group_executes_once true false ex_gst_owned ex_sessions_owned [ex_owner])
    as (g' & l' & E & _ & _ & H1 & H2); [apply ex_owning|split; [apply NoDup_singleton|by apply Forall_singleton]|].
  exists g', l'. split_and!; [done| |].
  - apply H1. right. exists ex_owner. split; [by left|done].
  - apply (H2 ex_owner); [by left|done].
Defined.

Lemma gtid_operations_defined_witness :
  is_Some (update_on_commit true false ex_gst_owned ex_owner) /\
  is_Some (update_on_rollback true false ex_gst_owned ex_owner).
Proof.
  destruct (gtid_operations_defined true false ex_gst_owned ex_sessions_owned ex_owner) as (H1 & H2 & _);
    [apply ex_owning|reflexivity|]. by split.
Defined.

Lemma generate_automatic_gtid_least_witness :
  exists g' thd' ok,
    generate_automatic_gtid GTID_MODE_ON ex_gst_owned (ex_thd 7) 0 0 = Some (g', thd', ok) /\
    owned_gtid thd' = Owned_gtid (mk_Gtid 1 4).
Proof.
  destruct (generate_automatic_gtid_least true false GTID_MODE_ON ex_gst_owned ex_sessions_owned (ex_thd 7))
    as (g' & thd' & ok & E & _); [apply ex_owning|reflexivity..|].
  exists g', thd', ok. split; [done|]. vm_compute in E. by injection E as <- <- <-.
Defined.

Lemma gtid_next_skips_executed_witness :
  gtid_pre_statement_checks ex_owner (mk_statement SQLCOM_OTHER false false false false false) =
    GTID_STATEMENT_EXECUTE /\ owned_gtid ex_owner = Owned_gtid (mk_Gtid 2 9).
Proof.
  destruct (gtid_next_skips_executed true false GTID_MODE_ON ex_gst ex_sessions (ex_thd 8) (mk_Gtid 2 9)
    ex_gst_owned ex_owner (mk_statement SQLCOM_OTHER false false false false false)) as (H1 & _ & H2);
    [apply ex_connected|reflexivity|split; simpl; [lia|done]|reflexivity|].
  split; [|exact H1]. rewrite H2 by by left. reflexivity.
Defined.

Lemma gtid_retry_after_end_witness :
  thread_id ex_owner <> thread_id (ex_thd 7) /\
  exists g' owner', update_gtids_thd true false ex_gst_owned ex_owner true = Some (g', owner') /\
  exists g'' thd'', set_gtid_next GTID_MODE_ON g' (ex_thd 7) ex_spec = Some (Next_done g'' thd'') /\
    owned_gtid thd'' = Owned_nothing.
Proof.
  destruct (update_gtids_thd true false ex_gst_owned ex_owner true) as [[g' owner']|] eqn:E;
    [|vm_compute in E; discriminate E].
  destruct (gtid_retry_after_end true false GTID_MODE_ON ex_gst_owned ex_sessions_owned (ex_thd 7)
    (mk_Gtid 2 9) ex_owner true g' owner') as [H1 H2];
    [apply ex_owning|reflexivity|split; simpl; [lia|done]|reflexivity..|exact E|].
  split; [done|]. exists g', owner'. by split.
Defined.

(** Session 7 waits for the GTID of session 8, which commits. *)
Definition ex_committed : Gtid_state * THD := default (ex_gst_owned, ex_owner) (update_on_commit true false ex_gst_owned ex_owner).

Definition ex_run (i : nat) : Gtid_state * sessions :=
  match i with
  | O => (ex_gst_owned, ex_sessions_owned)
  | S _ => (fst ex_committed, <[8:=snd ex_committed]> ex_sessions_owned)
  end.

Lemma ex_run_run : gtid_run true false ex_run.
Proof.
  split; [apply ex_owning|]. intros [|i]; [right|by left].
  by apply (step_commit true false ex_gst_owned ex_sessions_owned ex_owner).
Qed.

Lemma ex_run_free i t : ~ owns (ex_run (S i)) t (mk_Gtid 2 9).
Proof.
  intros (thd & E & Ho). simpl in E. unfold ex_sessions_owned, ex_sessions in E.
  rewrite insert_insert_eq in E.
  repeat (apply lookup_insert_Some in E as [[_ <-]|[? E]]; [vm_compute in Ho; discriminate Ho|]; try done).
Qed.

Lemma gtid_wait_progress_witness :
  exists m, forall i, (m <= i)%nat -> exists g' thd', set_gtid_next GTID_MODE_ON (fst (ex_run i)) (ex_thd 7) ex_spec = Some (Next_done g' thd') /\
    owned_gtid thd' = if is_executed (fst (ex_run i)) (mk_Gtid 2 9) then Owned_nothing else Owned_gtid (mk_Gtid 2 9).
Proof.
  apply (gtid_wait_progress true false GTID_MODE_ON ex_run (ex_thd 7) (mk_Gtid 2 9)).
  - apply ex_run_run.
  - by intros [|i].
  - reflexivity.
  - discriminate.
  - split; simpl; [lia|done].
  - intros i t _. exists (S i). split; [lia|apply ex_run_free].
  - exists 1%nat. intros i t _ H. by apply ex_run_free in H.
Defined.
