(* ===== verification/GtidWait.v ===== *)
(** * Waiting for a set of GTIDs

    [Gtid_state::wait_for_gtid_set] against every behaviour of the rest of the
    server, commits between the SIDNOs it looks at and RESET MASTER during its waits
    included: its result, when it ends, and when it does not have to wait. *)

From Stdlib Require Import ZArith Lia.
From stdpp Require Import sorting base numbers option gmap tactics list.
From S2P Require Import Prelude GtidInterval Uuid SidMap GtidSet GtidText GtidState.

#[local] Open Scope Z_scope.
#[local] Arguments add_gtid_set : simpl never.

(** What the server guarantees of an executed set: it is well formed and has
    room for the SIDNOs waited for. *)
Definition set_fits (n : rpl_sidno) (gs : Gtid_set) : Prop := gs_wf gs /\ (n <= get_max_sidno gs)%nat.

(** The executed set after some events: with the commits of an event, or what was
    found after a wait. *)
Fixpoint in_force (executed : Gtid_set) (events : list wait_event) (now : Gtid_set) : Prop :=
  match events with
  | [] => now = executed
  | ev :: events => exists e,
      ((forall s x, gs_has e s x <-> gs_has executed s x \/ gs_has (ev_committed ev) s x) \/ e = ev_after ev) /\
      in_force e events now
  end.

Lemma in_force_app e1 e2 e3 l1 l2 : in_force e1 l1 e2 -> in_force e2 l2 e3 -> in_force e1 (l1 ++ l2) e3.
Proof.
  revert e1. induction l1 as [|ev l1 IH]; simpl; intros e1.
  - by intros ->.
  - intros (e & H & Hf) H2. exists e. split; [done|]. by apply IH.
Qed.

Section wait.
Context (wait_for : Gtid_set).
Implicit Types (todo executed : Gtid_set) (events : list wait_event) (sidno : rpl_sidno) (w : wait_state).
#[local] Abbreviation n := (get_max_sidno wait_for).

Definition event_ok (ev : wait_event) : Prop := gs_wf (ev_committed ev) /\ set_fits n (ev_after ev).

(** All that is waited for is executed. *)
Definition covers (e : Gtid_set) : Prop := forall s x, gs_has wait_for s x -> gs_has e s x.

(** A wait that ends for good: by failing, or with everything executed. *)
Definition wait_settled (ev : wait_event) : Prop := ev_failed ev = true \/ covers (ev_after ev).

Definition todo_ok todo : Prop :=
  gs_wf todo /\ get_max_sidno todo = n /\ forall s x, gs_has todo s x -> gs_has wait_for s x.

Lemma remove_for_sidno sidno todo executed :
  todo_ok todo -> set_fits n executed -> (1 <= sidno <= n)%nat ->
  exists todo', remove_intervals_for_sidno todo executed sidno = Some todo' /\ todo_ok todo' /\
    forall s x, gs_has todo' s x <-> gs_has todo s x /\ ~ (s = sidno /\ gs_has executed sidno x).
Proof.
  intros (Ht & Hn & Hw) [He Hm] Hs. unfold remove_intervals_for_sidno. rewrite iterate_Some by lia. simpl.
  destruct (remove_gno_intervals_spec todo sidno (intervals_of executed sidno))
    as (todo' & -> & M & W & H & _); [done|lia|by apply intervals_of_wf|].
  exists todo'. split; [done|]. split; [|done]. split_and!; [done|congruence|]. intros s x [Hx _]%H. by apply Hw.
Qed.

(** A look at the executed set: the commits so far, and what is left to do. *)
Lemma look_spec sidno todo executed ev :
  todo_ok todo -> set_fits n executed -> event_ok ev -> (1 <= sidno <= n)%nat ->
  exists e maps todo', add_gtid_set Same_maps executed (ev_committed ev) = Some (e, maps) /\
    remove_intervals_for_sidno todo e sidno = Some todo' /\ todo_ok todo' /\ set_fits n e /\
    (forall s x, gs_has e s x <-> gs_has executed s x \/ gs_has (ev_committed ev) s x) /\
    (forall s x, gs_has todo' s x <-> gs_has todo s x /\ ~ (s = sidno /\ gs_has e sidno x)) /\
    (contains_sidno todo' sidno = false -> forall x, gs_has todo sidno x -> gs_has e sidno x) /\
    (contains_sidno todo' sidno = true -> ~ covers e).
Proof.
  intros Ht [We Me] [Wc _] Hs. destruct (add_gtid_set_same_spec executed (ev_committed ev) We Wc) as (e & Ea & M & W & H & _).
  assert (set_fits n e) as He by (split; [done|lia]).
  destruct (remove_for_sidno sidno todo e Ht He Hs) as (todo' & Er & Ht' & H'). exists e, Same_maps, todo'.
  split_and!; try done.
  - intros Hc x Hx. destruct (contains_gtid e sidno x) eqn:E; [by apply contains_gtid_spec in E|exfalso].
    assert (contains_sidno todo' sidno = true); [|congruence]. apply contains_sidno_spec; [apply Ht'|]. exists x.
    apply H'. split; [done|]. intros [_ Hin]. apply contains_gtid_spec in Hin; [congruence|done].
  - intros Hc Hall. apply contains_sidno_spec in Hc as (x & Hx); [|apply Ht']. apply H' in Hx as [Hx Hn].
    apply Hn. split; [done|]. apply Hall. by apply Ht.
Qed.

(** What the loop for one SIDNO ends with. *)
Definition loop_done (P : rpl_sidno -> Prop) todo executed events (verified : bool) w : Prop :=
  todo_ok (w_todo w) /\ set_fits n (w_executed w) /\
  (forall s x, gs_has (w_todo w) s x <-> gs_has todo s x /\ ~ P s) /\
  exists pre, events = pre ++ w_events w /\ in_force executed pre (w_executed w) /\
    (w_verified w = true -> verified = true /\ (forall s x, gs_has executed s x -> gs_has (w_executed w) s x) /\
       forall s x, P s -> gs_has todo s x -> gs_has (w_executed w) s x) /\
    (w_verified w = false -> verified = false \/ pre <> []).

Lemma wait_sidno_loop_spec sidno events : forall todo executed verified,
  todo_ok todo -> set_fits n executed -> Forall event_ok events -> (1 <= sidno <= n)%nat ->
  exists r, wait_sidno_loop sidno events todo executed verified = Some r /\
    match r with
    | Wait_go w => loop_done (fun s => s = sidno) todo executed events verified w
    | Wait_failed => exists ev, ev ∈ events /\ ev_failed ev = true
    | Wait_blocked => True
    end.
Proof.
  induction events as [|ev events IH]; intros todo executed verified Ht He Hv Hs; simpl.
  all: destruct (contains_sidno todo sidno) eqn:Hc; [|eexists; split; [done|]].
  2,4: assert (Hno : forall x, ~ gs_has todo sidno x) by
    (intros x Hx; assert (contains_sidno todo sidno = true); [|congruence]; apply contains_sidno_spec; [apply Ht|by exists x]);
    split_and!; [done..| |];
      [intros s x; simpl; split; [intros Hx; split; [done|]; intros ->; by apply Hno in Hx|tauto]
      |exists []; split_and!; simpl; try done; [intros ->; split_and!; try done; intros s x -> Hx; by apply Hno in Hx|by left]].
  { by exists Wait_blocked. }
  apply Forall_cons in Hv as [Hv1 Hv2].
  destruct (look_spec sidno todo executed ev Ht He Hv1 Hs) as (e & maps & todo' & -> & E & Ht' & He' & Hx & H' & Hdone & _).
  simpl. rewrite E. simpl. destruct (contains_sidno todo' sidno) eqn:Hc'.
  - destruct (ev_failed ev) eqn:Ef; [exists Wait_failed; split; [done|]; exists ev; split; [left|done]|].
    destruct (IH todo' (ev_after ev) false) as (r & Er & Hr); [done|apply Hv1|done..|]. exists r. split; [done|].
    destruct r as [w| |]; [|destruct Hr as (ev' & ? & ?); exists ev'; split; [by right|done]|done].
    destruct Hr as (A & B & C & pre & -> & F & D1 & D2). split_and!; [done..| |].
    + intros s x. rewrite C, H'. tauto.
    + exists (ev :: pre). split_and!; [done| |intros [Hf _]%D1; done|by right].
      exists (ev_after ev). split; [by right|done].
  - eexists. split; [done|]. assert (Hno : forall x, ~ gs_has todo' sidno x).
    { intros x Hx'. assert (contains_sidno todo' sidno = true); [|congruence]. apply contains_sidno_spec; [apply Ht'|by exists x]. }
    split_and!; [done..| |].
    + intros s x. simpl. split; [|intros [Hx' Hs']; apply H'; tauto]. intros Hx'.
      split; [by apply H' in Hx' as [? _]|]. intros ->. by apply Hno in Hx'.
    + exists [ev]. split_and!; simpl; [done|exists e; split; [by left|done]| |by right].
      intros ->. split_and!; [done|intros s x ?; apply Hx; by left|]. intros s x -> Hx'. by apply Hdone.
Qed.

(** The loops one after the other. *)
Lemma loop_done_cons s0 sidnos todo executed events verified w w' :
  loop_done (fun s => s = s0) todo executed events verified w ->
  loop_done (fun s => s ∈ sidnos) (w_todo w) (w_executed w) (w_events w) (w_verified w) w' ->
  loop_done (fun s => s ∈ s0 :: sidnos) todo executed events verified w'.
Proof.
  intros (_ & _ & H1 & p1 & E1 & F1 & V1 & N1) (T2 & S2 & H2 & p2 & E2 & F2 & V2 & N2). split_and!; [done..| |].
  - intros s x. rewrite H2, H1, elem_of_cons. tauto.
  - exists (p1 ++ p2). split_and!; [by rewrite E1, E2, app_assoc|by eapply in_force_app| |].
    + intros Hv. destruct (V2 Hv) as (Hv1 & G2 & D2). destruct (V1 Hv1) as (Hv0 & G1 & D1).
      split_and!; [done|auto|]. intros s x Hs Hx. destruct (decide (s = s0)) as [->|Hne]; [by apply G2, D1|].
      apply elem_of_cons in Hs as [?|Hs]; [done|]. apply D2; [done|]. by apply H1.
    + intros Hv. destruct (N2 Hv) as [Hv1|Hne]; [destruct (N1 Hv1) as [?|?]; [by left|right]|right]; by destruct p1.
Qed.

Lemma wait_sidnos_spec sidnos : forall w,
  todo_ok (w_todo w) -> set_fits n (w_executed w) -> Forall event_ok (w_events w) ->
  Forall (fun s => 1 <= s <= n)%nat sidnos ->
  exists r, wait_sidnos sidnos w = Some r /\
    match r with
    | Wait_go w' => loop_done (fun s => s ∈ sidnos) (w_todo w) (w_executed w) (w_events w) (w_verified w) w'
    | Wait_failed => exists ev, ev ∈ w_events w /\ ev_failed ev = true
    | Wait_blocked => True
    end.
Proof.
  induction sidnos as [|s0 sidnos IH]; intros w Ht He Hv Hs; simpl.
  { eexists. split; [done|]. split_and!; [done..| |].
    - intros s x. rewrite elem_of_nil. tauto.
    - exists []. split_and!; simpl; try done; [|by left]. intros Hw. split_and!; try done. by intros s x []%elem_of_nil. }
  apply Forall_cons in Hs as [Hs0 Hs].
  destruct (wait_sidno_loop_spec s0 (w_events w) (w_todo w) (w_executed w) (w_verified w)) as (r & -> & Hr); [done..|]. simpl.
  destruct r as [w1| |]; [|by eexists..]. pose proof Hr as (T1 & F1 & _ & pre & Ep & _).
  assert (Forall event_ok (w_events w1)) as Hv1 by (rewrite Ep in Hv; by apply Forall_app in Hv as [_ ?]).
  destruct (IH w1) as (r & -> & Hr'); [done..|]. eexists. split; [done|]. destruct r as [w2| |]; [|by destruct Hr' as (ev & ? & ?);
    exists ev; rewrite Ep, elem_of_app; split; [by right|]|done].
  by eapply loop_done_cons.
Qed.

(** ** How long it takes

    From the event number [k] on every wait is settled.  [c] counts the looks. *)

Lemma wait_sidno_loop_ends sidno events : forall k todo executed verified,
  todo_ok todo -> set_fits n executed -> Forall event_ok events -> (1 <= sidno <= n)%nat -> Forall wait_settled (drop k events) ->
  match wait_sidno_loop sidno events todo executed verified with
  | Some (Wait_go w) => exists c, w_events w = drop c events /\ (c <= k + 2)%nat /\ (c <= length events)%nat /\
      (covers executed -> (c <= 1)%nat /\ w_verified w = verified /\ covers (w_executed w)) /\
      (k = 0%nat -> w_verified w = verified \/ covers (w_executed w))
  | Some Wait_failed => ~ covers executed
  | Some Wait_blocked => (length events < k + 2)%nat /\ (covers executed -> length events < 1)%nat
  | None => False
  end.
Proof.
  induction events as [|ev events IH]; intros k todo executed verified Ht He Hv Hs Hd; simpl.
  all: destruct (contains_sidno todo sidno) eqn:Hc; [|exists 0%nat; split_and!; simpl; [done|lia|lia|intros ?; split_and!; [lia|done..]|by left]].
  { split; lia. }
  apply Forall_cons in Hv as [Hv1 Hv2].
  destruct (look_spec sidno todo executed ev Ht He Hv1 Hs) as (e & maps & todo' & -> & E & Ht' & He' & Hx & _ & _ & Hmiss).
  simpl. rewrite E. simpl. assert (Hgrow : covers executed -> covers e) by (intros Hall s x ?; apply Hx; left; by apply Hall).
  destruct (contains_sidno todo' sidno) eqn:Hc'.
  2: { exists 1%nat. split_and!; simpl; [done|lia|lia|intros ?; split_and!; [lia|done|auto]|by left]. }
  specialize (Hmiss eq_refl). destruct (ev_failed ev) eqn:Ef; [tauto|].
  specialize (IH (k - 1)%nat todo' (ev_after ev) false Ht' (proj2 Hv1) Hv2 Hs).
  assert (Forall wait_settled (drop (k - 1) events)) as Hd' by (destruct k as [|k]; simpl in *; [by apply Forall_cons in Hd as [_ ?]|by rewrite Nat.sub_0_r]).
  assert (k = 0%nat -> covers (ev_after ev)) as Hcov.
  { intros ->. simpl in Hd. apply Forall_cons in Hd as [[?|?] _]; [congruence|done]. }
  specialize (IH Hd'). destruct (wait_sidno_loop _ _ _ _ _) as [[w| |]|]; [| | |done].
  - destruct IH as (c & Ec & B1 & B2 & C1 & C2). exists (S c). split_and!; simpl; [done| |lia|tauto|].
    + destruct k; [|lia]. destruct (C1 (Hcov eq_refl)) as [? _]. lia.
    + intros ->. right. by apply C1, Hcov.
  - tauto.
  - destruct IH as [B1 B2]. split; [|tauto]. destruct k; [specialize (B2 (Hcov eq_refl)); lia|lia].
Qed.

Lemma wait_sidnos_ends sidnos : forall k w,
  todo_ok (w_todo w) -> set_fits n (w_executed w) -> Forall event_ok (w_events w) ->
  Forall (fun s => 1 <= s <= n)%nat sidnos -> Forall wait_settled (drop k (w_events w)) ->
  match wait_sidnos sidnos w with
  | Some (Wait_go w') => exists c, w_events w' = drop c (w_events w) /\ (c <= k + 2 * length sidnos)%nat /\ (c <= length (w_events w))%nat /\
      (covers (w_executed w) -> (c <= length sidnos)%nat /\ w_verified w' = w_verified w /\ covers (w_executed w')) /\
      (k = 0%nat -> w_verified w' = w_verified w \/ covers (w_executed w'))
  | Some Wait_failed => ~ covers (w_executed w)
  | Some Wait_blocked => (length (w_events w) < k + 2 * length sidnos)%nat /\
      (covers (w_executed w) -> length (w_events w) < length sidnos)%nat
  | None => False
  end.
Proof.
  induction sidnos as [|s0 sidnos IH]; intros k w Ht He Hv Hs Hd; simpl.
  { exists 0%nat. split_and!; simpl; [done|lia|lia|intros ?; split_and!; [lia|done..]|by left]. }
  apply Forall_cons in Hs as [Hs0 Hs].
  pose proof (wait_sidno_loop_ends s0 (w_events w) k (w_todo w) (w_executed w) (w_verified w) Ht He Hv Hs0 Hd) as H1.
  destruct (wait_sidno_loop_spec s0 (w_events w) (w_todo w) (w_executed w) (w_verified w)) as (r & Er & Hr); [done..|].
  rewrite Er in *. simpl. destruct r as [w1| |]; [|done|destruct H1; split; [lia|intros Hc; specialize (H0 Hc); lia]].
  destruct H1 as (c & Ec & B1 & B2 & C1 & C2). destruct Hr as (T1 & F1 & _).
  assert (Forall event_ok (w_events w1)) as Hv1 by (rewrite Ec; by apply Forall_drop).
  assert (Forall wait_settled (drop (k - c) (w_events w1))) as Hd1.
  { rewrite Ec, drop_drop. destruct (Nat.le_gt_cases c k) as [Hle|Hgt]; [by replace (c + (k - c))%nat with k by lia|].
    replace (c + (k - c))%nat with (k + (c - k))%nat by lia. rewrite <- drop_drop. by apply Forall_drop. }
  specialize (IH (k - c)%nat w1 T1 F1 Hv1 Hs Hd1). destruct (wait_sidnos sidnos w1) as [[w2| |]|]; [| | |done].
  - destruct IH as (c' & Ec' & B1' & B2' & C1' & C2'). rewrite Ec, length_drop in B2'.
    exists (c + c')%nat. split_and!; [by rewrite Ec', Ec, drop_drop|lia|lia| |].
    + intros Hc. destruct (C1 Hc) as (X1 & X2 & X3). destruct (C1' X3) as (Y1 & Y2 & Y3). split_and!; [lia|congruence|done].
    + intros ->. destruct (C2 eq_refl) as [X|X]; [|right; by apply C1'].
      destruct (C2' eq_refl) as [Y|Y]; [left; congruence|by right].
  - intros Hc. apply IH. by apply C1.
  - rewrite Ec, length_drop in IH. destruct IH as [Y1 Y2]. split; [lia|]. intros Hc. destruct (C1 Hc) as (X1 & _ & X3). specialize (Y2 X3). lia.
Qed.

(** The start of a round: everything is to do. *)
Lemma round_start todo :
  gs_wf wait_for -> gs_wf todo -> (get_max_sidno todo <= n)%nat -> (forall s x, ~ gs_has todo s x) ->
  exists todo1 maps, add_gtid_set Same_maps todo wait_for = Some (todo1, maps) /\ todo_ok todo1 /\
    (forall s x, gs_has wait_for s x -> gs_has todo1 s x) /\
    Forall (fun s => 1 <= s <= n)%nat (seq 1 (get_max_sidno todo1)) /\ get_max_sidno todo1 = n.
Proof.
  intros Hw Ht Hm Hno. destruct (add_gtid_set_same_spec todo wait_for Ht Hw) as (todo1 & E & M & W & H & _).
  assert (get_max_sidno todo1 = n) as Em by lia. exists todo1, Same_maps. split_and!; try done.
  - split_and!; [done..|]. intros s x [Hx|Hx]%H; [by apply Hno in Hx|done].
  - intros s x Hx. apply H. by right.
  - apply Forall_forall. intros s. rewrite elem_of_seq. lia.
Qed.

(** The end of a round: nothing is left to do. *)
Lemma round_end todo executed events verified w :
  get_max_sidno todo = n -> gs_wf todo ->
  loop_done (fun s => s ∈ seq 1 (get_max_sidno todo)) todo executed events verified w -> forall s x, ~ gs_has (w_todo w) s x.
Proof.
  intros Em W (_ & _ & H & _) s x Hx. apply H in Hx as [Hx Hs]. apply Hs. apply gs_has_range in Hx as [? _]; [|done]. apply elem_of_seq. lia.
Qed.

Lemma wait_rounds_spec fuel : forall todo executed events,
  (length events <= fuel)%nat -> gs_wf wait_for -> gs_wf todo -> (get_max_sidno todo <= n)%nat ->
  (forall s x, ~ gs_has todo s x) -> set_fits n executed -> Forall event_ok events ->
  exists r, wait_rounds fuel wait_for todo executed events = Some r /\
    match r with
    | Wait_go e => covers e /\ exists pre post, events = pre ++ post /\ in_force executed pre e
    | Wait_failed => exists ev, ev ∈ events /\ ev_failed ev = true
    | Wait_blocked => True
    end.
Proof.
  induction fuel as [|fuel IH]; intros todo executed events Hf Hw Ht Hm Hno He Hv; simpl.
  all: destruct (round_start todo Hw Ht Hm Hno) as (todo1 & maps & -> & T1 & H1 & R1 & M1); simpl.
  all: destruct (wait_sidnos_spec (seq 1 (get_max_sidno todo1)) (mk_wait todo1 executed events true)) as (r & -> & Hr); [done..|]; simpl in *.
  all: destruct r as [w| |]; [|by eexists..].
  all: pose proof (round_end _ _ _ _ _ M1 (proj1 T1) Hr) as Hleft; destruct Hr as (T2 & F2 & _ & pre & Ep & Fp & V2 & N2).
  all: destruct (w_verified w); [eexists; split; [done|]; split; [|by exists pre, (w_events w)]; intros s x Hx;
    apply (proj2 (proj2 (V2 eq_refl))); [|by apply H1]; apply gs_has_range in Hx as [? _]; [apply elem_of_seq; lia|done]|].
  all: destruct (N2 eq_refl) as [?|Hne]; [done|].
  { destruct events; [|simpl in Hf; lia]. by destruct pre. }
  assert (length (w_events w) <= fuel)%nat as Hf' by (rewrite Ep, length_app in Hf; destruct pre; [done|simpl in Hf; lia]).
  assert (Forall event_ok (w_events w)) as Hv' by (rewrite Ep in Hv; by apply Forall_app in Hv as [_ ?]).
  destruct (IH (w_todo w) (w_executed w) (w_events w)) as (r & -> & Hr); [done|done|apply T2|by rewrite (proj1 (proj2 T2))|done..|].
  eexists. split; [done|]. destruct r as [e| |]; [| |done].
  - destruct Hr as (Hc & pre2 & post & E2 & F3). split; [done|]. exists (pre ++ pre2), post.
    split; [by rewrite Ep, E2, app_assoc|by eapply in_force_app].
  - destruct Hr as (ev & ? & ?). exists ev. rewrite Ep, elem_of_app. split; [by right|done].
Qed.

Lemma wait_rounds_ends fuel : forall k todo executed events,
  gs_wf wait_for -> gs_wf todo -> (get_max_sidno todo <= n)%nat ->
  (forall s x, ~ gs_has todo s x) -> set_fits n executed -> Forall event_ok events -> Forall wait_settled (drop k events) ->
  match wait_rounds fuel wait_for todo executed events with
  | Some Wait_failed => ~ covers executed
  | Some Wait_blocked => (length events < k + 5 * n)%nat /\ (k = 0%nat -> length events < 3 * n)%nat /\ (covers executed -> length events < n)%nat
  | _ => True
  end.
Proof.
  induction fuel as [|fuel IH]; intros k todo executed events Hw Ht Hm Hno He Hv Hd; simpl.
  all: destruct (round_start todo Hw Ht Hm Hno) as (todo1 & maps & -> & T1 & H1 & R1 & M1); simpl.
  all: pose proof (wait_sidnos_ends (seq 1 (get_max_sidno todo1)) k (mk_wait todo1 executed events true) T1 He Hv R1 Hd) as Hr.
  all: destruct (wait_sidnos_spec (seq 1 (get_max_sidno todo1)) (mk_wait todo1 executed events true)) as (r & Er & Hs); [done..|].
  all: rewrite Er in *; simpl in *; rewrite length_seq, M1 in Hr.
  all: destruct r as [w| |]; [|done|destruct Hr as [X1 X2]; split_and!; [lia|lia|done]].
  all: destruct Hr as (c & Ec & B1 & B2 & C1 & C2); destruct (w_verified w) eqn:Ev; [done|].
  { done. }
  pose proof (round_end _ _ _ _ _ M1 (proj1 T1) Hs) as Hleft. destruct Hs as (T2 & F2 & _).
  assert (Forall event_ok (w_events w)) as Hv' by (rewrite Ec; by apply Forall_drop).
  assert (Forall wait_settled (drop (k - c) (w_events w))) as Hd1.
  { rewrite Ec, drop_drop. destruct (Nat.le_gt_cases c k) as [Hle|Hgt]; [by replace (c + (k - c))%nat with k by lia|].
    replace (c + (k - c))%nat with (k + (c - k))%nat by lia. rewrite <- drop_drop. by apply Forall_drop. }
  specialize (IH (k - c)%nat (w_todo w) (w_executed w) (w_events w) Hw (proj1 T2)).
  rewrite (proj1 (proj2 T2)) in IH. specialize (IH ltac:(done) Hleft F2 Hv' Hd1).
  assert (~ covers executed) as Hnc by (intros Hc; by destruct (C1 Hc) as (_ & ? & _)).
  destruct (wait_rounds _ _ _ _ _) as [[e| |]|]; [done|done| |done]. rewrite Ec, length_drop in IH. destruct IH as (X1 & X2 & X3).
  split_and!; [lia| |tauto]. intros ->. destruct (C2 eq_refl) as [?|Hc]; [done|]. specialize (X3 Hc). lia.
Qed.
End wait.

(** C5: Waiting for a set of GTIDs, whatever other sessions commit meanwhile and RESET
    MASTER does during waits.  Success means that the whole set is in the executed
    set in force at that moment; failure means a timeout or a kill.  The procedure
    ends: if from the look number [k] on every wait fails or ends with the whole set
    executed, it has returned after at most [k + 5 * max_sidno] looks.  When
    nothing is missing at the start it succeeds without a wait, after at most
    [max_sidno] looks. *)
Theorem wait_for_gtid_set_correct wait_for executed events :
  let n := get_max_sidno wait_for in
  gs_wf wait_for -> set_fits n executed -> Forall (event_ok wait_for) events ->
  exists r, wait_for_gtid_set wait_for executed events = Some r /\
    match r with
    | Wait_go e => covers wait_for e /\ exists pre post, events = pre ++ post /\ in_force executed pre e
    | Wait_failed => exists ev, ev ∈ events /\ ev_failed ev = true
    | Wait_blocked => True
    end /\
    (forall k, Forall (wait_settled wait_for) (drop k events) -> (k + 5 * n <= length events)%nat -> r <> Wait_blocked) /\
    (covers wait_for executed -> (n <= length events)%nat -> exists e, r = Wait_go e).
Proof.
  intros n Hw He Hv. unfold wait_for_gtid_set.
  assert (gs_wf Gtid_set_new) as W0 by constructor.
  assert (forall s x, ~ gs_has Gtid_set_new s x) as H0.
  { intros s x [Hx _]%gs_has_range; [change (get_max_sidno Gtid_set_new) with 0%nat in Hx; lia|done]. }
  destruct (wait_rounds_spec wait_for (length events) Gtid_set_new executed events) as (r & E & Hr); [done|done|done|apply Nat.le_0_l|done..|].
  assert (Hend : forall k, Forall (wait_settled wait_for) (drop k events) -> _) by
    (intros k Hk; exact (wait_rounds_ends wait_for (length events) k Gtid_set_new executed events Hw W0 (Nat.le_0_l _) H0 He Hv Hk)).
  rewrite E in *. exists r. split_and!; [done..| |].
  - intros k Hk Hlen ->. destruct (Hend k Hk) as [? _]. unfold n in Hlen. lia.
  - intros Hc Hlen. specialize (Hend (length events)). rewrite drop_all in Hend. specialize (Hend ltac:(constructor)).
    destruct r as [e| |]; [by exists e|done|]. destruct Hend as (_ & _ & Hn). specialize (Hn Hc). unfold n in Hlen. lia.
Qed.

(** Number 3 of the first SID and number 1 of the second are waited for.  The
    first is executed and then lost to RESET MASTER while the second is waited
    for; the procedure notices and waits again. *)
Definition ex_two (first second : list Interval) : Gtid_set :=
  mk_Gtid_set [first; second] (mk_store [] [8] None).

Definition ex_wait_events : list wait_event :=
  let none := ex_two [] [] in let all := ex_two [mk_Interval 1 4] [mk_Interval 1 2] in
  [mk_event none (ex_two [mk_Interval 3 4] []) false; mk_event none none false; mk_event none (ex_two [] [mk_Interval 1 2]) false] ++
  replicate 12 (mk_event none all false).

Lemma wait_for_gtid_set_correct_witness :
  exists e, wait_for_gtid_set (ex_two [mk_Interval 3 4] [mk_Interval 1 2]) (ex_two [] []) ex_wait_events = Some (Wait_go e) /\
    covers (ex_two [mk_Interval 3 4] [mk_Interval 1 2]) e.
Proof.
  destruct (wait_for_gtid_set_correct (ex_two [mk_Interval 3 4] [mk_Interval 1 2]) (ex_two [] []) ex_wait_events) as (r & E & Hr & Hb & _).
  - apply gs_wfb_true. reflexivity.
  - split; [apply gs_wfb_true; reflexivity|vm_compute; lia].
  - unfold ex_wait_events. simpl. repeat (apply Forall_cons; split; [split; [apply gs_wfb_true; reflexivity|split; [apply gs_wfb_true; reflexivity|vm_compute; lia]]|]).
    apply Forall_nil_2.
  - destruct r as [e| |]; [exists e; split; [exact E|apply Hr]|vm_compute in E; discriminate E..].
Defined.
