(* ===== verification/Decimal.v ===== *)
(** * Fixed-point decimals: representation

    [decimal_t] of [strings/decimal.c], the numbers behind the SQL type
    DECIMAL: words of nine decimal digits, most significant first, [intg] digits
    before the point and [frac] after it.

    Pointers into the array of words are indices.  A range of words is a list,
    and a loop that runs a pointer down a range recurses on the reversed list,
    consing what it stores, since it stores downwards too.  [None] is an access
    outside of an array.  Arithmetic on [dec1] wraps at 32 bits.  The result
    never shares its array with an operand. *)

From Stdlib Require Import ZArith Lia QArith.
From stdpp Require Import base numbers option tactics list.
From S2P Require Import Prelude.

#[local] Open Scope Z_scope.

Definition DIG_PER_DEC1 : Z := 9.
Definition DIG_MASK : Z := 100000000.
Definition DIG_BASE : Z := 1000000000.
Definition DIG_MAX : Z := DIG_BASE - 1.
Definition ROUND_UP (x : Z) : Z := Z.quot (x + DIG_PER_DEC1 - 1) DIG_PER_DEC1.

Definition powers10_table : list Z :=
  [1; 10; 100; 1000; 10000; 100000; 1000000; 10000000; 100000000; 1000000000].
Definition powers10 (i : Z) : Z := powers10_table !!! Z.to_nat i.

Definition dig2bytes_table : list Z := [0; 1; 1; 2; 2; 3; 3; 4; 4; 4].
Definition dig2bytes (i : Z) : Z := dig2bytes_table !!! Z.to_nat i.

Definition frac_max_table : list Z :=
  [900000000; 990000000; 999000000; 999900000; 999990000; 999999000; 999999900; 999999990].
Definition frac_max (i : Z) : Z := frac_max_table !!! Z.to_nat i.

Definition E_DEC_OK : Z := 0.
Definition E_DEC_TRUNCATED : Z := 1.
Definition E_DEC_OVERFLOW : Z := 2.
Definition E_DEC_BAD_NUM : Z := 8.

Record decimal_t := mk_decimal {
  d_intg : Z;
  d_frac : Z;
  d_len : Z;
  d_sign : bool;
  d_buf : list Z
}.

Definition with_buf (d : decimal_t) (buf : list Z) : decimal_t :=
  mk_decimal (d_intg d) (d_frac d) (d_len d) (d_sign d) buf.

(** ** Access to the words *)

Definition rd (buf : list Z) (i : Z) : option Z :=
  if (0 <=? i) && (i <? Z.of_nat (length buf)) then Some (buf !!! Z.to_nat i) else None.

Definition wr (buf : list Z) (i x : Z) : option (list Z) :=
  if (0 <=? i) && (i <? Z.of_nat (length buf)) then Some (<[Z.to_nat i:=x]> buf) else None.

(** The words from index [a] up to, not including, [b]. *)
Definition words (buf : list Z) (a b : Z) : option (list Z) :=
  if (0 <=? a) && (a <=? b) && (b <=? Z.of_nat (length buf))
  then Some (take (Z.to_nat (b - a)) (drop (Z.to_nat a) buf)) else None.

(** Words stored downwards from index [b]. *)
Definition store_down (buf : list Z) (b : Z) (acc : list Z) : option (list Z) :=
  if (Z.of_nat (length acc) <=? b) && (b <=? Z.of_nat (length buf))
  then Some (take (Z.to_nat b - length acc) buf ++ acc ++ drop (Z.to_nat b) buf) else None.

(** Bounds the size of a result to its array. *)
Definition FIX_INTG_FRAC_ERROR (len intg1 frac1 : Z) : Z * Z * Z :=
  if len <? intg1 + frac1 then
    if len <? intg1 then (len, 0, E_DEC_OVERFLOW) else (intg1, len - intg1, E_DEC_TRUNCATED)
  else (intg1, frac1, E_DEC_OK).

Definition decimal_make_zero (d : decimal_t) : option decimal_t :=
  buf ← wr (d_buf d) 0 0;
  Some (mk_decimal 1 0 (d_len d) false buf).

(** The words [max_decimal] stores, from the first one on. *)
Definition max_decimal_words (precision frac : Z) : list Z :=
  let intpart := precision - frac in
  let firstdigits := Z.rem intpart DIG_PER_DEC1 in
  let lastdigits := Z.rem frac DIG_PER_DEC1 in
  (if intpart =? 0 then [] else
     (if firstdigits =? 0 then [] else [powers10 firstdigits - 1]) ++
     replicate (Z.to_nat (Z.quot intpart DIG_PER_DEC1)) DIG_MAX) ++
  (if frac =? 0 then [] else
     replicate (Z.to_nat (Z.quot frac DIG_PER_DEC1)) DIG_MAX ++
     (if lastdigits =? 0 then [] else [frac_max (lastdigits - 1)])).

Definition max_decimal (precision frac : Z) (to : decimal_t) : option decimal_t :=
  let ws := max_decimal_words precision frac in
  buf ← store_down (d_buf to) (Z.of_nat (length ws)) ws;
  Some (mk_decimal (precision - frac) frac (d_len to) false buf).

(** ** Counting zeroes *)

(** The switch, entered at case [i]: each case falls through to the next. *)
Fixpoint count_leading_zeroes_from (i : nat) (val : Z) : Z :=
  if powers10 (Z.of_nat i) <=? val then 0
  else 1 + match i with O => 0 | S i => count_leading_zeroes_from i val end.

Definition count_leading_zeroes (i val : Z) : Z := count_leading_zeroes_from (Z.to_nat i) val.

(** [fuel] is the number of cases after [i]. *)
Fixpoint count_trailing_zeroes_from (fuel : nat) (i val : Z) : Z :=
  if negb (Z.rem val (powers10 i) =? 0) then 0
  else 1 + match fuel with O => 0 | S fuel => count_trailing_zeroes_from fuel (i + 1) val end.

Definition count_trailing_zeroes (i val : Z) : Z :=
  count_trailing_zeroes_from (Z.to_nat (9 - i)) i val.

(** The loop of [remove_leading_zeroes] on the words from [buf0] on: what is
    left of [intg], and how many words were passed.  [None] reads too far. *)
Fixpoint leading_zero_words (ws : list Z) (intg i : Z) : option (Z * Z) :=
  if 0 <? intg then
    match ws with
    | [] => None
    | w :: ws =>
        if w =? 0 then
          '(intg, n) ← leading_zero_words ws (intg - i) DIG_PER_DEC1; Some (intg, n + 1)
        else Some (intg, 0)
    end
  else Some (intg, 0).

(** The index of the first word that counts, and the digits from there. *)
Definition remove_leading_zeroes (from : decimal_t) : option (Z * Z) :=
  let intg := d_intg from in
  '(intg, buf0) ← leading_zero_words (d_buf from) intg (Z.rem (intg - 1) DIG_PER_DEC1 + 1);
  if 0 <? intg then
    w ← rd (d_buf from) buf0;
    Some (buf0, intg - count_leading_zeroes (Z.rem (intg - 1) DIG_PER_DEC1) w)
  else Some (buf0, 0).

Definition decimal_intg (from : decimal_t) : option Z :=
  '(_, intg) ← remove_leading_zeroes from; Some intg.

(** The loop of [decimal_actual_fraction], on the words before [buf0 + 1], last
    one first. *)
Fixpoint trailing_zero_words (ws : list Z) (frac i : Z) : option (Z * list Z) :=
  if 0 <? frac then
    match ws with
    | [] => None
    | w :: ws' => if w =? 0 then trailing_zero_words ws' (frac - i) DIG_PER_DEC1 else Some (frac, ws)
    end
  else Some (frac, ws).

Definition decimal_actual_fraction (from : decimal_t) : option Z :=
  let frac := d_frac from in
  if frac =? 0 then Some 0
  else
    ws ← words (d_buf from) 0 (ROUND_UP (d_intg from) + ROUND_UP frac);
    '(frac, ws) ← trailing_zero_words (rev ws) frac (Z.rem (frac - 1) DIG_PER_DEC1 + 1);
    if 0 <? frac then
      w ← head ws;
      Some (frac - count_trailing_zeroes (DIG_PER_DEC1 - Z.rem (frac - 1) DIG_PER_DEC1) w)
    else Some frac.

Definition decimal_is_zero (from : decimal_t) : option bool :=
  ws ← words (d_buf from) 0 (ROUND_UP (d_intg from) + ROUND_UP (d_frac from));
  Some (forallb (fun w => w =? 0) ws).

Definition decimal_size (precision scale : Z) : Z := ROUND_UP (precision - scale) + ROUND_UP scale.

Definition decimal_bin_size (precision scale : Z) : Z :=
  let intg := precision - scale in
  let intg0 := Z.quot intg DIG_PER_DEC1 in
  let frac0 := Z.quot scale DIG_PER_DEC1 in
  let intg0x := intg - intg0 * DIG_PER_DEC1 in
  let frac0x := scale - frac0 * DIG_PER_DEC1 in
  intg0 * 4 + dig2bytes intg0x + frac0 * 4 + dig2bytes frac0x.

(** The operations by their character, 43 for plus, 45 for minus, 42 for times
    and 47 for division; [None] is the assertion. *)
Definition decimal_result_size (from1 from2 : decimal_t) (op param : Z) : option Z :=
  if op =? 45 then
    Some (ROUND_UP (Z.max (d_intg from1) (d_intg from2)) + ROUND_UP (Z.max (d_frac from1) (d_frac from2)))
  else if op =? 43 then
    Some (ROUND_UP (Z.max (d_intg from1) (d_intg from2) + 1) + ROUND_UP (Z.max (d_frac from1) (d_frac from2)))
  else if op =? 42 then
    Some (ROUND_UP (d_intg from1 + d_intg from2) + ROUND_UP (d_frac from1) + ROUND_UP (d_frac from2))
  else if op =? 47 then
    Some (ROUND_UP (d_intg from1 + d_intg from2 + 1 + d_frac from1 + d_frac from2 + param))
  else None.

(** ** Values *)

(** The number a list of words spells in base [DIG_BASE]. *)
Definition dval (ws : list Z) : Z := foldl (fun a w => a * DIG_BASE + w) 0 ws.

Definition word_ok (w : Z) : Prop := 0 <= w < DIG_BASE.

(** The words of the number, and its absolute value in units of the last word. *)
Definition dec_words (d : decimal_t) : list Z :=
  take (Z.to_nat (ROUND_UP (d_intg d) + ROUND_UP (d_frac d))) (d_buf d).
Definition dec_val (d : decimal_t) : Z := dval (dec_words d).
Definition dec_sval (d : decimal_t) : Z := if d_sign d then - dec_val d else dec_val d.

(** The rational number a decimal stands for. *)
Definition dec_Q (d : decimal_t) : Q :=
  Qmake (dec_sval d) (Z.to_pos (DIG_BASE ^ ROUND_UP (d_frac d))).

(** A buffer of the length it claims. *)
Definition dec_room (d : decimal_t) : Prop := 0 < d_len d /\ d_len d = Z.of_nat (length (d_buf d)).

(** A well-formed decimal: its words are in its buffer and in range, it has at
    least one digit, no digit before its [intg] digits nor after its [frac]. *)
Record dec_wf (d : decimal_t) : Prop := {
  wf_room : dec_room d;
  wf_intg : 0 <= d_intg d;
  wf_frac : 0 <= d_frac d;
  wf_some : 0 < d_intg d + d_frac d;
  wf_fit : ROUND_UP (d_intg d) + ROUND_UP (d_frac d) <= d_len d;
  wf_words : Forall word_ok (dec_words d);
  wf_top : dec_val d < 10 ^ (d_intg d + 9 * ROUND_UP (d_frac d));
  wf_aligned : (10 ^ (9 * ROUND_UP (d_frac d) - d_frac d) | dec_val d)
}.

(** ** Lemmas *)

Lemma ROUND_UP_nonneg x : 0 <= x -> ROUND_UP x = (x + 8) / 9.
Proof. intros. unfold ROUND_UP, DIG_PER_DEC1. rewrite Z.quot_div_nonneg by lia. f_equal. lia. Qed.

Lemma ROUND_UP_bounds x : 0 <= x -> x <= 9 * ROUND_UP x < x + 9.
Proof. intros. rewrite ROUND_UP_nonneg by done. Z.to_euclidean_division_equations. lia. Qed.

Lemma ROUND_UP_mono x y : 0 <= x <= y -> ROUND_UP x <= ROUND_UP y.
Proof. intros H. rewrite !ROUND_UP_nonneg by lia. apply Z.div_le_mono; lia. Qed.

Lemma ROUND_UP_mul9 x : 0 <= x -> ROUND_UP (x * 9) = x.
Proof. intros. rewrite ROUND_UP_nonneg by lia. Z.to_euclidean_division_equations. lia. Qed.

Lemma ROUND_UP_max x y : 0 <= x -> 0 <= y -> ROUND_UP (Z.max x y) = Z.max (ROUND_UP x) (ROUND_UP y).
Proof.
  intros. rewrite !ROUND_UP_nonneg by lia.
  destruct (Z.max_spec x y) as [[? ->]|[? ->]];
    Z.to_euclidean_division_equations; lia.
Qed.

Lemma DIG_BASE_pow k : 0 <= k -> DIG_BASE ^ k = 10 ^ (9 * k).
Proof. intros. rewrite Z.pow_mul_r by lia. done. Qed.

Lemma DIG_BASE_pow_pos k : 0 <= k -> 0 < DIG_BASE ^ k.
Proof. intros. unfold DIG_BASE. lia. Qed.

Lemma dval_foldl a ws :
  foldl (fun a w => a * DIG_BASE + w) a ws = a * DIG_BASE ^ Z.of_nat (length ws) + dval ws.
Proof.
  unfold dval. revert a. induction ws as [|w ws IH]; intros a; simpl foldl.
  - simpl. lia.
  - rewrite (IH (a * _ + w)), (IH (0 * _ + w)). simpl length.
    rewrite Nat2Z.inj_succ, Z.pow_succ_r by lia. ring.
Qed.

Lemma dval_app l1 l2 : dval (l1 ++ l2) = dval l1 * DIG_BASE ^ Z.of_nat (length l2) + dval l2.
Proof. unfold dval at 1. rewrite foldl_app. by rewrite dval_foldl. Qed.

Lemma dval_cons w ws : dval (w :: ws) = w * DIG_BASE ^ Z.of_nat (length ws) + dval ws.
Proof. change (w :: ws) with ([w] ++ ws). rewrite dval_app. f_equal. Qed.

Lemma dval_snoc ws w : dval (ws ++ [w]) = dval ws * DIG_BASE + w.
Proof. rewrite dval_app. unfold dval at 2. simpl length. simpl foldl. change (DIG_BASE ^ Z.of_nat 1) with DIG_BASE. lia. Qed.

Lemma dval_nil : dval [] = 0.
Proof. done. Qed.

Lemma dval_zeroes n : dval (replicate n 0) = 0.
Proof. induction n as [|n IH]; [done|]. simpl replicate. rewrite dval_cons, IH. lia. Qed.

Lemma dval_bounds ws : Forall word_ok ws -> 0 <= dval ws < DIG_BASE ^ Z.of_nat (length ws).
Proof.
  induction ws as [|w ws IH]; intros H; [done|].
  inversion H as [|?? Hw Hws]; subst. specialize (IH Hws).
  rewrite dval_cons. simpl length. rewrite Nat2Z.inj_succ, Z.pow_succ_r by lia.
  unfold word_ok, DIG_BASE in *. nia.
Qed.

(** The value of words with the least significant one first. *)
Definition rval (r : list Z) : Z := dval (rev r).

Lemma rval_cons w r : rval (w :: r) = w + DIG_BASE * rval r.
Proof. unfold rval. simpl rev. rewrite dval_snoc. lia. Qed.

Lemma rval_bounds r : Forall word_ok r -> 0 <= rval r < DIG_BASE ^ Z.of_nat (length r).
Proof.
  intros H. unfold rval. rewrite <- (length_rev r). apply dval_bounds.
  by apply List.Forall_rev.
Qed.

Lemma word_ok_0 : word_ok 0.
Proof. done. Qed.

Lemma word_ok_zeroes n : Forall word_ok (replicate n 0).
Proof. by apply Forall_replicate. Qed.

(** *** Ranges of words *)

Lemma words_app l1 l2 l3 a b :
  a = Z.of_nat (length l1) -> b = Z.of_nat (length l1 + length l2) ->
  words (l1 ++ l2 ++ l3) a b = Some l2.
Proof.
  intros -> ->. unfold words. rewrite !length_app. zcases. f_equal.
  rewrite Nat2Z.id, drop_app_length. apply take_app_length'. lia.
Qed.

(** The range of a decomposed list, whatever comes before and after. *)
Lemma words_split l a b :
  0 <= a -> a <= b -> b <= Z.of_nat (length l) ->
  exists l1 l2 l3, l = l1 ++ l2 ++ l3 /\ Z.of_nat (length l1) = a /\
    Z.of_nat (length l2) = b - a /\ words l a b = Some l2.
Proof.
  intros Ha Hab Hb.
  set (l1 := take (Z.to_nat a) l). set (l2 := take (Z.to_nat (b - a)) (drop (Z.to_nat a) l)).
  set (l3 := drop (Z.to_nat (b - a)) (drop (Z.to_nat a) l)).
  assert (l = l1 ++ l2 ++ l3) as E by (unfold l1, l2, l3; by rewrite !take_drop).
  exists l1, l2, l3. assert (Z.of_nat (length l1) = a /\ Z.of_nat (length l2) = b - a) as [H1 H2].
  { unfold l1, l2. autorewrite with mysql_simpl. lia. }
  split_and!; [done..|]. rewrite E. apply words_app; lia.
Qed.

(** Words split in the first [a] ones, the next [b] ones, and the rest. *)
Lemma split_words (ws : list Z) (a b : Z) : 0 <= a -> 0 <= b -> a + b <= Z.of_nat (length ws) ->
  exists h m l, ws = h ++ m ++ l /\ Z.of_nat (length h) = a /\ Z.of_nat (length m) = b.
Proof.
  intros Ha Hb H. destruct (words_split ws a (a + b)) as (h & m & l & E & ? & ? & _); [lia..|].
  exists h, m, l. split_and!; try done; lia.
Qed.

Lemma words_slice buf a b : 0 <= a -> a <= b -> b <= Z.of_nat (length buf) ->
  words buf a b = Some (take (Z.to_nat (b - a)) (drop (Z.to_nat a) buf)).
Proof. intros. unfold words. zcases. Qed.

Lemma rd_head w ws : rd (w :: ws) 0 = Some w.
Proof. unfold rd. simpl length. zcases. Qed.

Lemma rd_middle l1 w l2 i : i = Z.of_nat (length l1) -> rd (l1 ++ w :: l2) i = Some w.
Proof.
  intros ->. unfold rd. rewrite length_app. simpl length.
  rewrite (proj2 (Z.leb_le _ _)), (proj2 (Z.ltb_lt _ _)) by lia. simpl.
  by rewrite Nat2Z.id, list_lookup_total_middle.
Qed.

Lemma wr_middle l1 w l2 i x : i = Z.of_nat (length l1) -> wr (l1 ++ w :: l2) i x = Some (l1 ++ x :: l2).
Proof.
  intros ->. unfold wr. rewrite length_app. simpl length.
  rewrite (proj2 (Z.leb_le _ _)), (proj2 (Z.ltb_lt _ _)) by lia. simpl.
  by rewrite Nat2Z.id, insert_app_r_alt, Nat.sub_diag by lia.
Qed.

Lemma powers10_pow i : 0 <= i <= 9 -> powers10 i = 10 ^ i.
Proof.
  intros Hi. assert (i = 0 \/ i = 1 \/ i = 2 \/ i = 3 \/ i = 4 \/ i = 5 \/ i = 6 \/ i = 7 \/ i = 8 \/ i = 9)
    as Hc by lia. by repeat destruct Hc as [-> |Hc]; [..|subst i].
Qed.

Lemma store_down_spec buf b acc :
  Z.of_nat (length acc) <= b -> b <= Z.of_nat (length buf) ->
  exists buf', store_down buf b acc = Some buf' /\ length buf' = length buf /\
    take (Z.to_nat b) buf' = take (Z.to_nat b - length acc) buf ++ acc.
Proof.
  intros H1 H2. unfold store_down. zcases. eexists. split; [done|]. split.
  - autorewrite with mysql_simpl. lia.
  - rewrite app_assoc. apply take_app_length'. autorewrite with mysql_simpl. lia.
Qed.

Lemma store_middle l1 m l2 b acc : b = Z.of_nat (length l1 + length m) -> length m = length acc ->
  store_down (l1 ++ m ++ l2) b acc = Some (l1 ++ acc ++ l2).
Proof.
  intros -> Hl. unfold store_down. rewrite !length_app.
  rewrite (proj2 (Z.leb_le _ _)), (proj2 (Z.leb_le _ _)) by lia. cbn [andb].
  rewrite take_app_length' by lia. rewrite (app_assoc l1 m), drop_app_length' by (rewrite length_app; lia). done.
Qed.

(** *** Decimals *)

Lemma dec_buf_words d : d_buf d = dec_words d ++ drop (length (dec_words d)) (d_buf d).
Proof.
  unfold dec_words. rewrite length_take.
  destruct (Nat.le_ge_cases (Z.to_nat (ROUND_UP (d_intg d) + ROUND_UP (d_frac d))) (length (d_buf d))).
  - rewrite Nat.min_l by done. by rewrite take_drop.
  - rewrite Nat.min_r by done. rewrite drop_all, take_ge by done. by rewrite app_nil_r.
Qed.

Section well_formed.
Context (d : decimal_t) (Hd : dec_wf d).

Lemma wf_intg_words : 0 <= ROUND_UP (d_intg d).
Proof. destruct Hd. pose proof (ROUND_UP_bounds (d_intg d)). lia. Qed.

Lemma wf_frac_words : 0 <= ROUND_UP (d_frac d).
Proof. destruct Hd. pose proof (ROUND_UP_bounds (d_frac d)). lia. Qed.

Lemma dec_words_length :
  Z.of_nat (length (dec_words d)) = ROUND_UP (d_intg d) + ROUND_UP (d_frac d).
Proof.
  pose proof wf_intg_words. pose proof wf_frac_words.
  unfold dec_words. rewrite length_take. destruct Hd as [[]]. lia.
Qed.

Lemma dec_words_some : 0 < ROUND_UP (d_intg d) + ROUND_UP (d_frac d).
Proof.
  destruct Hd. pose proof (ROUND_UP_bounds (d_intg d)). pose proof (ROUND_UP_bounds (d_frac d)). lia.
Qed.

Lemma dec_val_nonneg : 0 <= dec_val d.
Proof. apply dval_bounds, Hd. Qed.

Lemma rd_first_word : exists w ws, dec_words d = w :: ws /\ rd (d_buf d) 0 = Some w /\ word_ok w.
Proof.
  pose proof dec_words_some. pose proof dec_words_length.
  destruct (dec_words d) as [|w ws] eqn:E; [simpl in *; lia|].
  exists w, ws. rewrite dec_buf_words, E. split_and!; [done|apply rd_head|].
  pose proof (wf_words d Hd) as F. rewrite E in F. by inversion F.
Qed.
End well_formed.

(** The first word holds no more digits than [d_intg] leaves for it. *)
Lemma first_word_digits d w t : dec_wf d -> dec_words d = w :: t -> 0 < d_intg d ->
  w < 10 ^ (d_intg d - 9 * (ROUND_UP (d_intg d) - 1)).
Proof.
  intros Hd E Hp. pose proof (ROUND_UP_bounds (d_intg d) ltac:(lia)) as B.
  pose proof (wf_frac_words d Hd). pose proof (dec_words_length d Hd) as L. rewrite E in L. simpl length in L.
  pose proof (wf_top d Hd) as T. pose proof (wf_words d Hd) as F. unfold dec_val in T. rewrite E in T, F.
  inversion_clear F as [|?? Hw Ft]. pose proof (dval_bounds t Ft) as Bt. rewrite dval_cons in T.
  rewrite DIG_BASE_pow in T by lia.
  destruct (Z.lt_ge_cases w (10 ^ (d_intg d - 9 * (ROUND_UP (d_intg d) - 1)))) as [|Hge]; [done|].
  assert (10 ^ (d_intg d + 9 * ROUND_UP (d_frac d)) <= w * 10 ^ (9 * Z.of_nat (length t))); [|lia].
  replace (d_intg d + 9 * ROUND_UP (d_frac d))
    with (d_intg d - 9 * (ROUND_UP (d_intg d) - 1) + 9 * Z.of_nat (length t)) by (clear T Hge Bt; lia).
  rewrite Z.pow_add_r by (clear T Hge Bt; lia). apply Z.mul_le_mono_nonneg_r; [by apply Z.pow_nonneg|done].
Qed.

(** A decimal cut, or extended, to [k] fraction words, in units of the last. *)
Definition dec_cut (k : Z) (d : decimal_t) : Z :=
  dec_val d * DIG_BASE ^ k / DIG_BASE ^ ROUND_UP (d_frac d).

Lemma dec_cut_extend k d : dec_wf d -> ROUND_UP (d_frac d) <= k ->
  dec_cut k d = dec_val d * DIG_BASE ^ (k - ROUND_UP (d_frac d)).
Proof.
  intros Hd Hk. pose proof (wf_frac_words d Hd). unfold dec_cut.
  replace k with (k - ROUND_UP (d_frac d) + ROUND_UP (d_frac d)) at 1 by lia.
  rewrite Z.pow_add_r, Z.mul_assoc by lia. apply Z.div_mul.
  pose proof (DIG_BASE_pow_pos (ROUND_UP (d_frac d))). lia.
Qed.

Lemma dec_cut_nonneg k d : dec_wf d -> 0 <= dec_cut k d.
Proof.
  intros Hd. pose proof (dec_val_nonneg d Hd). pose proof (wf_frac_words d Hd).
  apply Z.div_pos; [|by apply DIG_BASE_pow_pos]. apply Z.mul_nonneg_nonneg; [done|by apply Z.pow_nonneg].
Qed.

Lemma dec_cut_words k d ws rest : dec_wf d -> 0 <= k ->
  dec_words d = ws ++ rest ->
  Z.of_nat (length ws) = ROUND_UP (d_intg d) + Z.min (ROUND_UP (d_frac d)) k ->
  dval ws * DIG_BASE ^ (k - Z.min (ROUND_UP (d_frac d)) k) = dec_cut k d.
Proof.
  intros Hd Hk E Hl. pose proof (wf_frac_words d Hd). pose proof (dec_words_length d Hd) as L.
  rewrite E, length_app in L. pose proof (wf_words d Hd) as F. rewrite E in F.
  apply Forall_app in F as [_ F]. pose proof (dval_bounds rest F).
  destruct (Z.min_spec (ROUND_UP (d_frac d)) k) as [[? Em]|[? Em]]; rewrite Em in *.
  - rewrite dec_cut_extend by (try done; lia). unfold dec_val. rewrite E.
    destruct rest; [by rewrite app_nil_r|simpl in *; lia].
  - rewrite Z.sub_diag, Z.mul_1_r. unfold dec_cut, dec_val. rewrite E, dval_app.
    replace (ROUND_UP (d_frac d)) with (Z.of_nat (length rest) + k) by lia.
    rewrite Z.pow_add_r by lia. pose proof (DIG_BASE_pow_pos k Hk).
    rewrite Z.div_mul_cancel_r by lia. apply Z.div_unique with (dval rest); lia.
Qed.

(** A decimal cut to [k] fraction words has no digit beyond [frac], when it had
    none. *)
Lemma dec_cut_aligned k frac d : dec_wf d -> ROUND_UP (d_frac d) <= k -> d_frac d <= frac <= 9 * k ->
  (10 ^ (9 * k - frac) | dec_cut k d).
Proof.
  intros Hd Hk Hf. pose proof (wf_frac_words d Hd). pose proof (ROUND_UP_bounds (d_frac d) (wf_frac d Hd)).
  rewrite dec_cut_extend, DIG_BASE_pow by (try done; lia).
  destruct (wf_aligned d Hd) as [q ->].
  exists (q * 10 ^ (frac - d_frac d)). rewrite <- !Z.mul_assoc. f_equal.
  rewrite <- !Z.pow_add_r by lia. f_equal. lia.
Qed.

(** A decimal from its words. *)
Lemma mk_decimal_wf intg frac len sign ws rest :
  0 <= intg -> 0 <= frac -> 0 < intg + frac ->
  Z.of_nat (length ws) = ROUND_UP intg + ROUND_UP frac -> len = Z.of_nat (length (ws ++ rest)) ->
  Forall word_ok ws -> dval ws < 10 ^ (intg + 9 * ROUND_UP frac) -> (10 ^ (9 * ROUND_UP frac - frac) | dval ws) ->
  dec_wf (mk_decimal intg frac len sign (ws ++ rest)) /\ dec_val (mk_decimal intg frac len sign (ws ++ rest)) = dval ws.
Proof.
  intros Hi Hf Hs Hl Hb Hok Ht Ha. pose proof (ROUND_UP_bounds intg Hi). pose proof (ROUND_UP_bounds frac Hf).
  assert (dec_words (mk_decimal intg frac len sign (ws ++ rest)) = ws) as EW.
  { unfold dec_words. simpl. apply take_app_length'. lia. }
  split; [|by unfold dec_val; rewrite EW].
  rewrite length_app in Hb. split; unfold dec_val, dec_room; rewrite ?EW; simpl; rewrite ?length_app; try done; lia.
Qed.

(** Words stored at the start of an array, as a decimal of full integer words. *)
Lemma stored_wf len sign buf intg frac v :
  0 < len -> len = Z.of_nat (length buf) -> 0 <= intg -> 0 <= frac -> 0 < intg + ROUND_UP frac ->
  intg + ROUND_UP frac <= len ->
  dval (take (Z.to_nat (intg + ROUND_UP frac)) buf) = v ->
  Forall word_ok (take (Z.to_nat (intg + ROUND_UP frac)) buf) ->
  (10 ^ (9 * ROUND_UP frac - frac) | v) ->
  dec_wf (mk_decimal (intg * 9) frac len sign buf) /\ dec_val (mk_decimal (intg * 9) frac len sign buf) = v.
Proof.
  intros Hl Hb Hi Hf Hs Hfit Hv Hok Ha. unfold dec_val.
  pose proof (ROUND_UP_bounds frac Hf). pose proof (dval_bounds _ Hok) as B.
  rewrite length_take, Nat2Z.inj_min, <- Hb, Z2Nat.id, Z.min_l in B by lia.
  split; [|unfold dec_words; simpl; by rewrite ROUND_UP_mul9].
  split; unfold dec_val, dec_words, dec_room; simpl; rewrite ?ROUND_UP_mul9, ?Hv by done; try done.
  - lia.
  - clear B. lia.
  - replace (intg * 9 + 9 * ROUND_UP frac) with (9 * (intg + ROUND_UP frac)) by lia.
    rewrite <- DIG_BASE_pow by lia. rewrite Hv in B. apply B.
Qed.

Lemma dval_replicate_max n : dval (replicate n DIG_MAX) = DIG_BASE ^ Z.of_nat n - 1.
Proof.
  induction n as [|n IH]; [done|]. simpl replicate. rewrite dval_cons, IH, length_replicate.
  rewrite Nat2Z.inj_succ, Z.pow_succ_r by lia. unfold DIG_MAX. lia.
Qed.

(** The greatest number of a whole array. *)
Lemma max_decimal_full to tobuf : dec_room to -> length tobuf = length (d_buf to) ->
  exists to', max_decimal (d_len to * DIG_PER_DEC1) 0 (with_buf to tobuf) = Some to' /\
    dec_wf to' /\ d_len to' = d_len to /\ d_frac to' = 0 /\ d_sign to' = false /\
    dec_val to' = DIG_BASE ^ d_len to - 1.
Proof.
  intros [Hl Hlen] Hb. unfold max_decimal, max_decimal_words, DIG_PER_DEC1.
  replace (d_len to * 9 - 0) with (d_len to * 9) by lia.
  rewrite Z.rem_mul, Z.quot_mul by lia. simpl. destruct (Z.eqb_spec (d_len to * 9) 0); [lia|].
  simpl. rewrite app_nil_r. set (ws := replicate (Z.to_nat (d_len to)) DIG_MAX).
  assert (length ws = length tobuf) as Lw by (unfold ws; rewrite length_replicate; lia).
  destruct (store_down_spec tobuf (Z.of_nat (length ws)) ws) as (buf' & -> & L' & T'); [lia..|].
  rewrite Nat2Z.id, Nat.sub_diag in T'. simpl. eexists. split; [done|].
  assert (take (Z.to_nat (d_len to + ROUND_UP 0)) buf' = ws) as E.
  { change (ROUND_UP 0) with 0. replace (Z.to_nat (d_len to + 0)) with (length ws) by lia. by rewrite T'. }
  destruct (stored_wf (d_len to) false buf' (d_len to) 0 (DIG_BASE ^ d_len to - 1)) as [W V];
    try (change (ROUND_UP 0) with 0; lia); [..|by split_and!].
  - rewrite E. unfold ws. rewrite dval_replicate_max, Z2Nat.id by lia. done.
  - rewrite E. apply Forall_replicate. unfold word_ok, DIG_MAX, DIG_BASE. lia.
  - apply Z.divide_1_l.
Qed.

Lemma dec_cut_cut k n d : dec_wf d -> 0 <= k <= n -> ROUND_UP (d_frac d) <= n ->
  dec_cut k d = dec_cut n d / DIG_BASE ^ (n - k).
Proof.
  intros Hd Hk Hn. pose proof (wf_frac_words d Hd). rewrite (dec_cut_extend n) by (try done; lia). unfold dec_cut.
  pose proof (DIG_BASE_pow_pos (n - k) ltac:(lia)). pose proof (DIG_BASE_pow_pos (ROUND_UP (d_frac d)) ltac:(lia)).
  set (f := ROUND_UP (d_frac d)) in *.
  rewrite <- (Z.div_mul_cancel_r (dec_val d * DIG_BASE ^ k) (DIG_BASE ^ f) (DIG_BASE ^ (n - k))) by lia.
  rewrite <- (Z.div_mul_cancel_r (dec_val d * DIG_BASE ^ (n - f)) (DIG_BASE ^ (n - k)) (DIG_BASE ^ f)) by lia.
  rewrite <- !Z.mul_assoc, <- !Z.pow_add_r by lia. f_equal; [|f_equal; lia]. do 2 f_equal. lia.
Qed.

Lemma dec_cut_mono k n d1 d2 : dec_wf d1 -> dec_wf d2 -> 0 <= k <= n ->
  ROUND_UP (d_frac d1) <= n -> ROUND_UP (d_frac d2) <= n -> dec_cut n d1 <= dec_cut n d2 ->
  dec_cut k d1 <= dec_cut k d2.
Proof.
  intros H1 H2 Hk K1 K2 Hle. rewrite (dec_cut_cut k n d1), (dec_cut_cut k n d2) by (try done; lia).
  apply Z.div_le_mono; [apply DIG_BASE_pow_pos; lia|done].
Qed.

(** *** Rational values *)

Definition sgn (d : decimal_t) : Z := if d_sign d then -1 else 1.

(** No negative zero. *)
Definition dec_nz (d : decimal_t) : Prop := d_sign d = true -> dec_val d <> 0.

Lemma dec_Q_at k d : dec_wf d -> ROUND_UP (d_frac d) <= k ->
  (dec_Q d == Qmake (sgn d * dec_cut k d) (Z.to_pos (DIG_BASE ^ k)))%Q.
Proof.
  intros Hd Hk. pose proof (wf_frac_words d Hd). unfold Qeq, dec_Q. simpl.
  rewrite !Z2Pos.id by (apply DIG_BASE_pow_pos; lia). rewrite dec_cut_extend by done.
  replace (DIG_BASE ^ k) with (DIG_BASE ^ (k - ROUND_UP (d_frac d)) * DIG_BASE ^ ROUND_UP (d_frac d))
    by (rewrite <- Z.pow_add_r by lia; f_equal; lia).
  unfold dec_sval, sgn. destruct (d_sign d); ring.
Qed.

Lemma Qmake_add a b p : (Qmake a p + Qmake b p == Qmake (a + b) p)%Q.
Proof. unfold Qeq, Qplus. simpl. rewrite Pos2Z.inj_mul. ring. Qed.

Lemma Qmake_compare a b p : (Qmake a p ?= Qmake b p)%Q = (a ?= b).
Proof. unfold Qcompare. simpl. symmetry. apply Zmult_compare_compat_r. lia. Qed.

Lemma decimal_make_zero_spec to : dec_room to ->
  exists to', decimal_make_zero to = Some to' /\ dec_wf to' /\ d_len to' = d_len to /\
    d_sign to' = false /\ d_frac to' = 0 /\ dec_val to' = 0.
Proof.
  intros [Hl Hb]. unfold decimal_make_zero, wr. destruct (d_buf to) as [|w buf] eqn:E; [simpl in *; lia|].
  simpl length in *. zcases. eexists. split; [done|].
  assert (dec_words (mk_decimal 1 0 (d_len to) false (0 :: buf)) = [0]) as EW by done.
  split_and!; try done. split; unfold dec_val; rewrite ?EW; try done; simpl; try lia.
  - change (ROUND_UP 1 + ROUND_UP 0) with 1. lia.
  - by constructor.
  - apply Z.divide_0_r.
Qed.

Lemma dec_Q_zero d : dec_val d = 0 -> (dec_Q d == 0)%Q.
Proof. intros E. unfold dec_Q, dec_sval, Qeq. rewrite E. simpl. by destruct (d_sign d). Qed.

Lemma dec_Q_zero_inv d : (dec_Q d == 0)%Q -> dec_val d = 0.
Proof. unfold dec_Q, dec_sval, Qeq. simpl. destruct (d_sign d); lia. Qed.

(** *** Deciding well-formedness *)

Definition dec_wfb (d : decimal_t) : bool :=
  (0 <? d_len d) && (d_len d =? Z.of_nat (length (d_buf d))) && (0 <=? d_intg d) && (0 <=? d_frac d) &&
  (0 <? d_intg d + d_frac d) && (ROUND_UP (d_intg d) + ROUND_UP (d_frac d) <=? d_len d) &&
  forallb (fun w => (0 <=? w) && (w <? DIG_BASE)) (dec_words d) &&
  (dec_val d <? 10 ^ (d_intg d + 9 * ROUND_UP (d_frac d))) &&
  (dec_val d mod 10 ^ (9 * ROUND_UP (d_frac d) - d_frac d) =? 0).

Lemma dec_wfb_wf d : dec_wfb d = true -> dec_wf d.
Proof.
  unfold dec_wfb. rewrite !andb_true_iff, forallb_forall, !Z.ltb_lt, !Z.leb_le, !Z.eqb_eq.
  intros ((((((((?&?)&?)&?)&?)&?)&Hw)&?)&?). split; try done.
  - apply Forall_forall. intros w Hin%list_elem_of_In. apply Hw in Hin.
    by rewrite andb_true_iff, Z.leb_le, Z.ltb_lt in Hin.
  - apply Z.mod_divide; [|done]. apply Z.pow_nonzero; [done|].
    pose proof (ROUND_UP_bounds (d_frac d)). lia.
Qed.

Lemma dec_cut_pos k d : dec_wf d -> ROUND_UP (d_frac d) <= k -> dec_val d <> 0 -> 0 < dec_cut k d.
Proof.
  intros Hd Hk Hv. pose proof (dec_val_nonneg d Hd). rewrite dec_cut_extend by done.
  apply Z.mul_pos_pos; [lia|]. apply DIG_BASE_pow_pos. lia.
Qed.
