(* ===== verification/DecimalArith.v ===== *)
(** * Fixed-point decimals: addition, subtraction, comparison

    [do_add], [do_sub], [decimal_add], [decimal_sub] and [decimal_cmp] of
    [strings/decimal.c], and what they compute on the rational numbers the
    decimals stand for. *)

From Stdlib Require Import ZArith Lia QArith.
From stdpp Require Import base numbers option tactics list.
From S2P Require Import Prelude Decimal.

#[local] Open Scope Z_scope.

(** The macros: the word stored, and the new carry. *)
Definition ADD (from1 from2 carry : Z) : Z * Z :=
  let a := wraps 32 (from1 + from2 + carry) in
  if DIG_BASE <=? a then (wraps 32 (a - DIG_BASE), 1) else (a, 0).

Definition SUB (from1 from2 carry : Z) : Z * Z :=
  let a := wraps 32 (from1 - from2 - carry) in
  if a <? 0 then (wraps 32 (a + DIG_BASE), 1) else (a, 0).

(** The loops [ADD( *--buf0, *--buf1, *--buf2, carry)], and with 0 for [buf2]. *)
Fixpoint add_down (r1 r2 acc : list Z) (carry : Z) : list Z * Z :=
  match r1, r2 with
  | w1 :: r1, w2 :: r2 =>
      let '(a, carry) := ADD w1 w2 carry in add_down r1 r2 (a :: acc) carry
  | _, _ => (acc, carry)
  end.

Fixpoint add0_down (r1 acc : list Z) (carry : Z) : list Z * Z :=
  match r1 with
  | w1 :: r1 => let '(a, carry) := ADD w1 0 carry in add0_down r1 (a :: acc) carry
  | [] => (acc, carry)
  end.

(** Likewise for [SUB]: both operands, 0 for the first one, 0 for the second
    one as long as there is a carry, and the rest copied. *)
Fixpoint sub_down (r1 r2 acc : list Z) (carry : Z) : list Z * Z :=
  match r1, r2 with
  | w1 :: r1, w2 :: r2 =>
      let '(a, carry) := SUB w1 w2 carry in sub_down r1 r2 (a :: acc) carry
  | _, _ => (acc, carry)
  end.

Fixpoint sub_from0_down (r2 acc : list Z) (carry : Z) : list Z * Z :=
  match r2 with
  | w2 :: r2 => let '(a, carry) := SUB 0 w2 carry in sub_from0_down r2 (a :: acc) carry
  | [] => (acc, carry)
  end.

Fixpoint sub0_copy_down (r1 acc : list Z) (carry : Z) : list Z * Z :=
  match r1 with
  | w1 :: r1 =>
      if carry =? 0 then (rev_append r1 (w1 :: acc), carry)
      else let '(a, carry) := SUB w1 0 carry in sub0_copy_down r1 (a :: acc) carry
  | [] => (acc, carry)
  end.

(** Parts 1 and 2 of [do_add], [buf1] of the operand with more fraction words:
    the words below the other one's fraction, then the sum down to [stop2]. *)
Definition add_parts (buf1 : list Z) (intg1 frac1 : Z) (buf2 : list Z) (intg2 frac2 : Z)
  : option (list Z * Z) :=
  let stop := intg1 + frac2 in
  let stop2 := if intg2 <? intg1 then intg1 - intg2 else 0 in
  part1 ← words buf1 stop (intg1 + frac1);
  part2 ← words buf1 stop2 stop;
  other ← words buf2 (intg2 + frac2 - (stop - stop2)) (intg2 + frac2);
  Some (add_down (rev part2) (rev other) (rev_append (rev part1) []) 0).

(** The words of part 3. *)
Definition part3_words (buf1 : list Z) (intg1 : Z) (buf2 : list Z) (intg2 : Z) : option (list Z) :=
  if intg2 <? intg1 then words buf1 0 (intg1 - intg2) else words buf2 0 (intg2 - intg1).

(** The first words, whose sum tells whether there may be a carry. *)
Definition first_words (from1 from2 : decimal_t) (intg1 intg2 : Z) : option Z :=
  if intg2 <? intg1 then rd (d_buf from1) 0
  else if intg1 <? intg2 then rd (d_buf from2) 0
  else x1 ← rd (d_buf from1) 0; x2 ← rd (d_buf from2) 0; Some (wraps 32 (x1 + x2)).

(** The three parts, stored below [buf0]. *)
Definition add_words (buf1 buf2 tobuf : list Z) (intg1 frac1 intg2 frac2 buf0 : Z) : option (list Z) :=
  '(acc, carry) ← (if frac2 <? frac1
                   then add_parts buf1 intg1 frac1 buf2 intg2 frac2
                   else add_parts buf2 intg2 frac2 buf1 intg1 frac1);
  part3 ← part3_words buf1 intg1 buf2 intg2;
  let '(acc, carry) := add0_down (rev part3) acc carry in
  let acc := if negb (carry =? 0) then 1 :: acc else acc in
  store_down tobuf buf0 acc.

Definition do_add (from1 from2 to : decimal_t) : option (decimal_t * Z) :=
  let intg1 := ROUND_UP (d_intg from1) in let intg2 := ROUND_UP (d_intg from2) in
  let frac1 := ROUND_UP (d_frac from1) in let frac2 := ROUND_UP (d_frac from2) in
  let frac0 := Z.max frac1 frac2 in
  let intg0 := Z.max intg1 intg2 in
  x ← first_words from1 from2 intg1 intg2;
  '(intg0, tobuf) ← (if DIG_MAX - 1 <? x then
                       tobuf ← wr (d_buf to) 0 0; Some (intg0 + 1, tobuf)
                     else Some (intg0, d_buf to));
  let '(intg0, frac0, error) := FIX_INTG_FRAC_ERROR (d_len to) intg0 frac0 in
  if error =? E_DEC_OVERFLOW then
    to ← max_decimal (d_len to * DIG_PER_DEC1) 0 (with_buf to tobuf);
    Some (to, error)
  else
    let to_frac := Z.max (d_frac from1) (d_frac from2) in
    let to_intg := intg0 * DIG_PER_DEC1 in
    let '(to_frac, frac1, frac2, intg1, intg2) :=
      if negb (error =? 0) then
        (Z.min to_frac (frac0 * DIG_PER_DEC1), Z.min frac1 frac0, Z.min frac2 frac0,
         Z.min intg1 intg0, Z.min intg2 intg0)
      else (to_frac, frac1, frac2, intg1, intg2) in
    tobuf ← add_words (d_buf from1) (d_buf from2) tobuf intg1 frac1 intg2 frac2 (intg0 + frac0);
    Some (mk_decimal to_intg to_frac (d_len to) (d_sign from1) tobuf, error).

(** ** Subtraction *)

(** [while (buf < stop && *buf == 0) buf++]. *)
Fixpoint skip_zero_words (ws : list Z) : Z :=
  match ws with
  | w :: ws => if w =? 0 then 1 + skip_zero_words ws else 0
  | [] => 0
  end.

(** The loop over equal words and the decision after it: [None] when both ends
    are reached, otherwise the new [carry]. *)
Fixpoint compare_words (ws1 ws2 : list Z) : option Z :=
  match ws1, ws2 with
  | w1 :: ws1, w2 :: ws2 => if w1 =? w2 then compare_words ws1 ws2
                            else Some (if w1 <? w2 then 1 else 0)
  | _ :: _, [] => Some 0
  | [], _ :: _ => Some 1
  | [], [] => None
  end.

(** How [do_sub] sees an operand: the index of the first word that counts, the
    number of integer words from there, the number of fraction words. *)
Record operand := mk_operand { o_start : Z; o_intg : Z; o_frac : Z }.

Definition operand_of (from : decimal_t) : option operand :=
  let intg := ROUND_UP (d_intg from) in
  let frac := ROUND_UP (d_frac from) in
  w ← rd (d_buf from) 0;
  if w =? 0 then
    ws ← words (d_buf from) 0 intg;
    let n := skip_zero_words ws in
    Some (mk_operand n (intg - n) frac)
  else Some (mk_operand 0 intg frac).

(** Drops the zero words at the end: [frac] may become negative. *)
Definition trim_operand (from : decimal_t) (o : operand) : option (operand * list Z) :=
  ws ← words (d_buf from) (o_start o) (o_start o + o_intg o + o_frac o);
  let n := skip_zero_words (rev ws) in
  Some (mk_operand (o_start o) (o_intg o) (o_frac o - n),
        take (length ws - Z.to_nat n) ws).

(** The first half: [inl] when the operands are equal, otherwise the operands and
    whether the second one is greater in absolute value. *)
Definition sub_prepare (from1 from2 : decimal_t) : option (unit + operand * operand * Z) :=
  o1 ← operand_of from1;
  o2 ← operand_of from2;
  if o_intg o1 <? o_intg o2 then Some (inr (o1, o2, 1))
  else if o_intg o2 =? o_intg o1 then
    '(o1, ws1) ← trim_operand from1 o1;
    '(o2, ws2) ← trim_operand from2 o2;
    Some match compare_words ws1 ws2 with
         | None => inl tt
         | Some carry => inr (o1, o2, carry)
         end
  else Some (inr (o1, o2, 0)).

(** Part 1 of the second half: the words below the shorter fraction. *)
Definition sub_low (buf1 buf2 : list Z) (end1 end2 frac1 frac2 frac0 : Z) : option (list Z * Z) :=
  let acc := replicate (Z.to_nat (frac0 - Z.max frac1 frac2)) 0 in
  if frac2 <? frac1 then
    ws ← words buf1 (end1 + frac2) (end1 + frac1);
    Some (rev_append (rev ws) acc, 0)
  else
    ws ← words buf2 (end2 + frac1) (end2 + frac2);
    Some (sub_from0_down (rev ws) acc 0).

(** The second half, [from1] the greater operand: the words of the result. *)
Definition sub_words (from1 from2 : decimal_t) (o1 o2 : operand) (intg1 intg2 frac1 frac2 frac0 : Z)
  : option (list Z) :=
  let end1 := o_start o1 + intg1 in
  let end2 := o_start o2 + intg2 in
  let low := Z.min frac1 frac2 in
  '(acc, carry) ← sub_low (d_buf from1) (d_buf from2) end1 end2 frac1 frac2 frac0;
  ws2 ← words (d_buf from2) (o_start o2) (end2 + low);
  ws1 ← words (d_buf from1) (end1 + low - Z.of_nat (length ws2)) (end1 + low);
  let '(acc, carry) := sub_down (rev ws1) (rev ws2) acc carry in
  rest ← words (d_buf from1) (o_start o1) (end1 + low - Z.of_nat (length ws2));
  let '(acc, _) := sub0_copy_down (rev rest) acc carry in
  Some acc.

(** From the swap on: [from1] is the greater operand. *)
Definition sub_greater (from1 from2 : decimal_t) (o1 o2 : operand) (frac0 : Z) (to_sign : bool)
  (to : decimal_t) : option (decimal_t * Z) :=
  let '(intg1, frac0, error) := FIX_INTG_FRAC_ERROR (d_len to) (o_intg o1) frac0 in
  let to_frac := Z.max (d_frac from1) (d_frac from2) in
  let '(to_frac, frac1, frac2, intg2) :=
    if negb (error =? 0) then
      (Z.min to_frac (frac0 * DIG_PER_DEC1), Z.min (o_frac o1) frac0,
       Z.min (o_frac o2) frac0, Z.min (o_intg o2) intg1)
    else (to_frac, o_frac o1, o_frac o2, o_intg o2) in
  acc ← sub_words from1 from2 o1 o2 intg1 intg2 frac1 frac2 frac0;
  let top := replicate (Z.to_nat (intg1 + frac0) - length acc) 0 in
  tobuf ← store_down (d_buf to) (intg1 + frac0) (top ++ acc);
  Some (mk_decimal (intg1 * DIG_PER_DEC1) to_frac (d_len to) to_sign tobuf, error).

Definition do_sub (from1 from2 to : decimal_t) : option (decimal_t * Z) :=
  r ← sub_prepare from1 from2;
  match r with
  | inl _ => to ← decimal_make_zero to; Some (to, E_DEC_OK)
  | inr (o1, o2, carry) =>
      let frac0 := Z.max (ROUND_UP (d_frac from1)) (ROUND_UP (d_frac from2)) in
      if carry =? 0 then sub_greater from1 from2 o1 o2 frac0 (d_sign from1) to
      else sub_greater from2 from1 o2 o1 frac0 (negb (d_sign from1)) to
  end.

(** [do_sub] with no result to store: the sign of the difference. *)
Definition do_sub_cmp (from1 from2 : decimal_t) : option Z :=
  r ← sub_prepare from1 from2;
  Some match r with
       | inl _ => 0
       | inr (_, _, carry) => if bool_decide (negb (carry =? 0) = d_sign from1) then 1 else -1
       end.

Definition decimal_add (from1 from2 to : decimal_t) : option (decimal_t * Z) :=
  if eqb (d_sign from1) (d_sign from2) then do_add from1 from2 to else do_sub from1 from2 to.

Definition decimal_sub (from1 from2 to : decimal_t) : option (decimal_t * Z) :=
  if eqb (d_sign from1) (d_sign from2) then do_sub from1 from2 to else do_add from1 from2 to.

Definition decimal_cmp (from1 from2 : decimal_t) : option Z :=
  if eqb (d_sign from1) (d_sign from2) then do_sub_cmp from1 from2
  else Some (if d_sign from1 then -1 else 1).

Lemma dval_all_zero ws : Forall (eq 0) ws -> dval ws = 0.
Proof. induction 1 as [|w ws <- _ IH]; [done|]. rewrite dval_cons. lia. Qed.

(** ** The loops *)

Lemma ADD_spec w1 w2 c : word_ok w1 -> word_ok w2 -> 0 <= c <= 1 ->
  exists a c', ADD w1 w2 c = (a, c') /\ word_ok a /\ 0 <= c' <= 1 /\ a + c' * DIG_BASE = w1 + w2 + c.
Proof.
  unfold word_ok, ADD, DIG_BASE. intros H1 H2 Hc.
  rewrite (wraps_id 32 (w1 + w2 + c)) by (unfold in_s; lia).
  destruct (Z.leb_spec 1000000000 (w1 + w2 + c)).
  - rewrite wraps_id by (unfold in_s; lia). eexists _, _. split; [done|]. lia.
  - eexists _, _. split; [done|]. lia.
Qed.

Lemma SUB_spec w1 w2 c : word_ok w1 -> word_ok w2 -> 0 <= c <= 1 ->
  exists a c', SUB w1 w2 c = (a, c') /\ word_ok a /\ 0 <= c' <= 1 /\ a - c' * DIG_BASE = w1 - w2 - c.
Proof.
  unfold word_ok, SUB, DIG_BASE. intros H1 H2 Hc.
  rewrite (wraps_id 32 (w1 - w2 - c)) by (unfold in_s; lia).
  destruct (Z.ltb_spec (w1 - w2 - c) 0).
  - rewrite wraps_id by (unfold in_s; lia). eexists _, _. split; [done|]. lia.
  - eexists _, _. split; [done|]. lia.
Qed.

(** What a loop adds to the words stored: [out], as many words as it runs
    over, that make [v] together with the carry (a borrow when [s] is -1). *)
Definition loop_result (s : Z) (n : nat) (v : Z) (acc : list Z) (r : list Z * Z) : Prop :=
  exists out c, r = (out ++ acc, c) /\ length out = n /\ Forall word_ok out /\ 0 <= c <= 1 /\
    dval out + s * c * DIG_BASE ^ Z.of_nat n = v.

Lemma loop_result_nil s c v acc : 0 <= c <= 1 -> v = s * c -> loop_result s 0 v acc (acc, c).
Proof.
  intros Hc ->. exists [], c. change (dval []) with 0. change (DIG_BASE ^ Z.of_nat 0) with 1.
  split_and!; try done; lia.
Qed.

Lemma loop_result_eq s n n' v v' acc r : loop_result s n v acc r -> n = n' -> v = v' -> loop_result s n' v' acc r.
Proof. by intros ? <- <-. Qed.

(** One more word, less significant than all the others. *)
Lemma loop_result_snoc s n v a acc r : word_ok a ->
  loop_result s n v (a :: acc) r -> loop_result s (S n) (v * DIG_BASE + a) acc r.
Proof.
  intros Ha (out & c & -> & Hl & Ho & Hc & Hv). exists (out ++ [a]), c.
  rewrite dval_snoc, Nat2Z.inj_succ, Z.pow_succ_r by lia. split_and!; try lia.
  - by rewrite <- app_assoc.
  - rewrite length_app. simpl. lia.
  - by apply Forall_app; split; [|constructor].
Qed.

Lemma add_down_spec m1 m2 acc c :
  length m1 = length m2 -> Forall word_ok m1 -> Forall word_ok m2 -> 0 <= c <= 1 ->
  loop_result 1 (length m1) (dval m1 + dval m2 + c) acc (add_down (rev m1) (rev m2) acc c).
Proof.
  revert m2 acc c. induction m1 as [|w1 m1 IH] using rev_ind; intros m2 acc c Hl H1 H2 Hc.
  - destruct m2; [|done]. apply loop_result_nil; [done|]. rewrite dval_nil. lia.
  - destruct m2 as [|w2 m2 _] using rev_ind; [by destruct m1|].
    rewrite !length_app in *. simpl in Hl.
    apply Forall_app in H1 as [H1 Hw1]; apply Forall_app in H2 as [H2 Hw2].
    inversion_clear Hw1. inversion_clear Hw2.
    rewrite !rev_app_distr, !dval_snoc. simpl.
    destruct (ADD_spec w1 w2 c) as (a & c' & -> & Ha & Hc' & E); [done..|].
    replace (length m1 + 1)%nat with (S (length m1)) by lia.
    replace (_ + c) with ((dval m1 + dval m2 + c') * DIG_BASE + a) by (unfold DIG_BASE in *; lia).
    apply loop_result_snoc; [done|]. apply IH; by try lia.
Qed.

Lemma sub_down_spec m1 m2 acc c :
  length m1 = length m2 -> Forall word_ok m1 -> Forall word_ok m2 -> 0 <= c <= 1 ->
  loop_result (-1) (length m1) (dval m1 - dval m2 - c) acc (sub_down (rev m1) (rev m2) acc c).
Proof.
  revert m2 acc c. induction m1 as [|w1 m1 IH] using rev_ind; intros m2 acc c Hl H1 H2 Hc.
  - destruct m2; [|done]. apply loop_result_nil; [done|]. rewrite dval_nil. lia.
  - destruct m2 as [|w2 m2 _] using rev_ind; [by destruct m1|].
    rewrite !length_app in *. simpl in Hl.
    apply Forall_app in H1 as [H1 Hw1]; apply Forall_app in H2 as [H2 Hw2].
    inversion_clear Hw1. inversion_clear Hw2.
    rewrite !rev_app_distr, !dval_snoc. simpl.
    destruct (SUB_spec w1 w2 c) as (a & c' & -> & Ha & Hc' & E); [done..|].
    replace (length m1 + 1)%nat with (S (length m1)) by lia.
    replace (_ - c) with ((dval m1 - dval m2 - c') * DIG_BASE + a) by (unfold DIG_BASE in *; lia).
    apply loop_result_snoc; [done|]. apply IH; by try lia.
Qed.

Lemma add0_down_zeroes r acc c : add0_down r acc c = add_down r (replicate (length r) 0) acc c.
Proof. revert acc c. induction r as [|w r IH]; intros acc c; simpl; [done|]. destruct (ADD w 0 c). apply IH. Qed.

Lemma sub_from0_down_zeroes r acc c :
  sub_from0_down r acc c = sub_down (replicate (length r) 0) r acc c.
Proof. revert acc c. induction r as [|w r IH]; intros acc c; simpl; [done|]. destruct (SUB 0 w c). apply IH. Qed.

Lemma rev_zeroes n : rev (replicate n 0) = replicate n 0.
Proof. induction n as [|n IH]; simpl; [done|]. by rewrite IH, <- replicate_S_end. Qed.

Lemma add0_down_spec m acc c : Forall word_ok m -> 0 <= c <= 1 ->
  loop_result 1 (length m) (dval m + c) acc (add0_down (rev m) acc c).
Proof.
  intros Hm Hc. rewrite add0_down_zeroes, length_rev, <- rev_zeroes.
  replace (dval m + c) with (dval m + dval (replicate (length m) 0) + c) by (rewrite dval_zeroes; lia).
  apply add_down_spec; auto using word_ok_zeroes. by rewrite length_replicate.
Qed.

Lemma sub_from0_down_spec m acc : Forall word_ok m ->
  loop_result (-1) (length m) (- dval m) acc (sub_from0_down (rev m) acc 0).
Proof.
  intros Hm. rewrite sub_from0_down_zeroes, length_rev, <- rev_zeroes.
  replace (- dval m) with (dval (replicate (length m) 0) - dval m - 0) by (rewrite dval_zeroes; lia).
  rewrite <- (length_replicate (length m) 0) at 1.
  apply sub_down_spec; auto using word_ok_zeroes; [|lia]. by rewrite length_replicate.
Qed.

Lemma sub0_copy_down_spec m acc c : Forall word_ok m -> 0 <= c <= 1 ->
  loop_result (-1) (length m) (dval m - c) acc (sub0_copy_down (rev m) acc c).
Proof.
  revert acc c. induction m as [|w m IH] using rev_ind; intros acc c Hm Hc.
  - apply loop_result_nil; [done|]. rewrite dval_nil. lia.
  - apply Forall_app in Hm as Hm'. destruct Hm' as [Hm' Hw]. inversion_clear Hw.
    rewrite rev_app_distr. simpl. destruct (Z.eqb_spec c 0) as [->|].
    + exists (m ++ [w]), 0. rewrite rev_append_rev, rev_involutive, <- app_assoc.
      split_and!; try done; lia.
    + rewrite length_app, dval_snoc. simpl length.
      destruct (SUB_spec w 0 c) as (a & c' & -> & Ha & Hc' & E); [done..|].
      replace (length m + 1)%nat with (S (length m)) by lia.
      replace (_ - c) with ((dval m - c') * DIG_BASE + a) by (unfold DIG_BASE in *; lia).
      apply loop_result_snoc; [done|]. by apply IH.
Qed.

(** Runs of loops compose: the second one continues above the first. *)
Lemma loop_result_seq s1 n1 v1 acc r1 s2 n2 v2 (f : list Z -> Z -> list Z * Z) :
  loop_result s1 n1 v1 acc r1 ->
  (forall acc c, 0 <= c <= 1 -> loop_result s2 n2 (v2 + s1 * c) acc (f acc c)) ->
  loop_result s2 (n1 + n2) (v1 + v2 * DIG_BASE ^ Z.of_nat n1) acc (let '(acc, c) := r1 in f acc c).
Proof.
  intros (o1 & c1 & -> & L1 & F1 & Hc1 & E1) H.
  destruct (H (o1 ++ acc) c1 Hc1) as (o2 & c2 & -> & L2 & F2 & Hc2 & E2).
  exists (o2 ++ o1), c2. rewrite dval_app, length_app, L1, Nat2Z.inj_add, Z.pow_add_r by lia.
  split_and!; try lia; [by rewrite app_assoc|by apply Forall_app].
Qed.

Lemma loop_result_copy s l : Forall word_ok l -> loop_result s (length l) (dval l) [] (rev_append (rev l) [], 0).
Proof.
  intros Hl. exists l, 0. rewrite rev_append_rev, rev_involutive. split_and!; try done; lia.
Qed.

(** ** Addition of words *)

(** An operand as [do_add] uses it: [intg] and [frac] words at the start of its
    buffer. *)
Record operand_words (buf : list Z) (intg frac : Z) (ws : list Z) : Prop := {
  ow_intg : 0 <= intg;
  ow_frac : 0 <= frac;
  ow_buf : exists rest, buf = ws ++ rest;
  ow_length : Z.of_nat (length ws) = intg + frac;
  ow_ok : Forall word_ok ws
}.

Lemma part3_words_comm buf1 intg1 buf2 intg2 :
  part3_words buf1 intg1 buf2 intg2 = part3_words buf2 intg2 buf1 intg1.
Proof.
  unfold part3_words. destruct (Z.lt_trichotomy intg1 intg2) as [?|[->|?]]; zcases.
  rewrite Z.sub_diag. unfold words. zcases.
Qed.

Lemma add_core_le buf1 intg1 frac1 ws1 buf2 intg2 frac2 ws2 :
  operand_words buf1 intg1 frac1 ws1 -> operand_words buf2 intg2 frac2 ws2 -> frac2 <= frac1 ->
  exists acc carry part3,
    add_parts buf1 intg1 frac1 buf2 intg2 frac2 = Some (acc, carry) /\
    part3_words buf1 intg1 buf2 intg2 = Some part3 /\
    loop_result 1 (Z.to_nat (Z.max intg1 intg2 + frac1)) (dval ws1 + dval ws2 * DIG_BASE ^ (frac1 - frac2))
      [] (add0_down (rev part3) acc carry).
Proof.
  intros [? ? [rest1 ->] L1 F1] [? ? [rest2 ->] L2 F2] Hf.
  destruct (split_words ws1 (intg1 - Z.min intg1 intg2) (Z.min intg1 intg2 + frac2))
    as (h1 & m1 & l1 & -> & Hh1 & Hm1); [lia..|].
  destruct (split_words ws2 (intg2 - Z.min intg1 intg2) (Z.min intg1 intg2 + frac2))
    as (h2 & m2 & l2 & -> & Hh2 & Hm2); [lia..|].
  rewrite !length_app in L1, L2. assert (l2 = []) as -> by (destruct l2; [done|simpl in *; lia]).
  apply Forall_app in F1 as [Fh1 [Fm1 Fl1]%Forall_app].
  apply Forall_app in F2 as [Fh2 [Fm2 _]%Forall_app].
  rewrite app_nil_r, <- !app_assoc in *.
  assert (add_parts (h1 ++ m1 ++ l1 ++ rest1) intg1 frac1 (h2 ++ m2 ++ rest2) intg2 frac2 =
    Some (add_down (rev m1) (rev m2) (rev_append (rev l1) []) 0)) as ->.
  { unfold add_parts. rewrite (app_assoc h1 m1), (words_app (h1 ++ m1) l1 rest1 _ (intg1 + frac1))
      by (rewrite ?length_app; lia).
    rewrite <- (app_assoc h1 m1). destruct (Z.ltb_spec intg2 intg1); simpl;
      (rewrite (words_app h1 m1) by lia); simpl; by (rewrite (words_app h2 m2) by lia). }
  assert (part3_words (h1 ++ m1 ++ l1 ++ rest1) intg1 (h2 ++ m2 ++ rest2) intg2 =
    Some (if intg2 <? intg1 then h1 else h2)) as ->.
  { unfold part3_words. destruct (intg2 <? intg1) eqn:?;
      [apply (words_app [] h1)|apply (words_app [] h2)]; simpl; zcases. }
  set (h := if intg2 <? intg1 then h1 else h2).
  destruct (add_down _ _ _ _) as [acc carry] eqn:E. exists acc, carry, h. split_and!; [done..|].
  assert (loop_result 1 (length l1 + length m1)
    (dval l1 + (dval m1 + dval m2) * DIG_BASE ^ Z.of_nat (length l1)) [] (acc, carry)) as R.
  { rewrite <- E. apply (loop_result_seq 1 _ _ _ (rev_append (rev l1) [], 0) 1 _ _
      (add_down (rev m1) (rev m2))); [by apply loop_result_copy|].
    intros acc' c ?. rewrite Z.mul_1_l. apply add_down_spec; by try lia. }
  eapply (loop_result_seq 1 _ _ _ _ 1 _ (dval h) (add0_down (rev h))) in R; last first.
  { intros acc' c ?. rewrite Z.mul_1_l. apply add0_down_spec; [|done]. unfold h. by destruct (intg2 <? intg1). }
  assert (frac1 - frac2 = Z.of_nat (length l1)) as -> by lia.
  rewrite !dval_app, length_app. replace (length m2) with (length m1) by lia.
  rewrite Nat2Z.inj_add, Z.pow_add_r in * by lia.
  unfold h in *. destruct (Z.ltb_spec intg2 intg1).
  - assert (h2 = []) as -> by (destruct h2; [done|simpl in *; lia]). rewrite dval_nil.
    by eapply loop_result_eq; [exact R|lia..].
  - assert (h1 = []) as -> by (destruct h1; [done|simpl in *; lia]). rewrite dval_nil.
    by eapply loop_result_eq; [exact R|lia..].
Qed.

Lemma add_core buf1 intg1 frac1 ws1 buf2 intg2 frac2 ws2 :
  operand_words buf1 intg1 frac1 ws1 -> operand_words buf2 intg2 frac2 ws2 ->
  exists acc carry part3,
    (if frac2 <? frac1 then add_parts buf1 intg1 frac1 buf2 intg2 frac2
     else add_parts buf2 intg2 frac2 buf1 intg1 frac1) = Some (acc, carry) /\
    part3_words buf1 intg1 buf2 intg2 = Some part3 /\
    loop_result 1 (Z.to_nat (Z.max intg1 intg2 + Z.max frac1 frac2))
      (dval ws1 * DIG_BASE ^ (Z.max frac1 frac2 - frac1) + dval ws2 * DIG_BASE ^ (Z.max frac1 frac2 - frac2))
      [] (add0_down (rev part3) acc carry).
Proof.
  intros O1 O2. destruct (Z.ltb_spec frac2 frac1) as [H|H].
  - rewrite (Z.max_l frac1), Z.sub_diag, Z.mul_1_r by lia. apply add_core_le; by try lia.
  - rewrite (Z.max_r frac1), Z.sub_diag, Z.mul_1_r, part3_words_comm, (Z.max_comm intg1) by lia.
    rewrite (Z.add_comm (dval ws1 * _)). apply add_core_le; by try lia.
Qed.

(** The words of a decimal, cut to [k] fraction words. *)
Lemma operand_words_cut d k : dec_wf d -> 0 <= k ->
  exists ws rest, dec_words d = ws ++ rest /\
    operand_words (d_buf d) (ROUND_UP (d_intg d)) (Z.min (ROUND_UP (d_frac d)) k) ws.
Proof.
  intros Hd Hk. pose proof (wf_intg_words d Hd). pose proof (wf_frac_words d Hd).
  pose proof (dec_words_length d Hd).
  destruct (split_words (dec_words d) 0 (ROUND_UP (d_intg d) + Z.min (ROUND_UP (d_frac d)) k))
    as (h & ws & rest & E & Hh & Hws); [lia..|].
  assert (h = []) as -> by (destruct h; [done|simpl in *; lia]). simpl in E. exists ws, rest. split; [done|].
  pose proof (wf_words d Hd) as F. rewrite E in F. apply Forall_app in F as [F _].
  split; try lia; [|done]. rewrite dec_buf_words, E. simpl. rewrite <- app_assoc. by eexists.
Qed.

Lemma DIG_BASE_pow_step i F : 0 < i + F -> DIG_BASE ^ (i + F) = DIG_BASE ^ (i - 1 + F) * DIG_BASE.
Proof.
  intros. replace (i + F) with (Z.succ (i - 1 + F)) by lia. rewrite Z.pow_succ_r by lia. lia.
Qed.

Lemma top_sum a b u v P : a < u * P -> b < v * P -> u + v <= DIG_BASE -> 0 <= P -> a + b < P * DIG_BASE.
Proof. intros. assert ((u + v) * P <= P * DIG_BASE) by nia. lia. Qed.

Lemma top_bound w ws intg frac F : Forall word_ok (w :: ws) ->
  Z.of_nat (length (w :: ws)) = intg + frac -> 0 <= frac <= F ->
  dval (w :: ws) * DIG_BASE ^ (F - frac) < (w + 1) * DIG_BASE ^ (intg - 1 + F).
Proof.
  intros H L Hf. inversion_clear H. rewrite dval_cons. simpl length in L.
  pose proof (dval_bounds ws ltac:(done)).
  replace (intg - 1 + F) with (Z.of_nat (length ws) + (F - frac)) by lia.
  rewrite Z.pow_add_r by lia. pose proof (DIG_BASE_pow_pos (F - frac) ltac:(lia)). nia.
Qed.

Lemma all_bound ws intg frac F : Forall word_ok ws ->
  Z.of_nat (length ws) = intg + frac -> 0 <= frac <= F -> 0 <= intg ->
  0 <= dval ws * DIG_BASE ^ (F - frac) < DIG_BASE ^ (intg + F).
Proof.
  intros H L Hf Hi. pose proof (dval_bounds ws H) as B. rewrite L in B.
  replace (intg + F) with (intg + frac + (F - frac)) by lia.
  rewrite Z.pow_add_r by lia. pose proof (DIG_BASE_pow_pos (F - frac) ltac:(lia)). nia.
Qed.

Lemma low_bound ws intg frac F n : Forall word_ok ws ->
  Z.of_nat (length ws) = intg + frac -> 0 <= frac <= F -> 0 <= intg <= n ->
  dval ws * DIG_BASE ^ (F - frac) < DIG_BASE ^ (n + F).
Proof.
  intros H L Hf Hi. eapply Z.lt_le_trans; [by apply all_bound with (intg := intg); try lia|].
  apply Z.pow_le_mono_r; [done|lia].
Qed.

Lemma first_words_spec from1 from2 k ws1 rest1 ws2 rest2 :
  dec_wf from1 -> dec_wf from2 -> 0 <= k ->
  let intg1 := ROUND_UP (d_intg from1) in let intg2 := ROUND_UP (d_intg from2) in
  let frac1 := Z.min (ROUND_UP (d_frac from1)) k in
  let frac2 := Z.min (ROUND_UP (d_frac from2)) k in
  let F := Z.max frac1 frac2 in
  dec_words from1 = ws1 ++ rest1 -> operand_words (d_buf from1) intg1 frac1 ws1 ->
  dec_words from2 = ws2 ++ rest2 -> operand_words (d_buf from2) intg2 frac2 ws2 ->
  exists x, first_words from1 from2 intg1 intg2 = Some x /\
    (x <= DIG_MAX - 1 ->
     dval ws1 * DIG_BASE ^ (F - frac1) + dval ws2 * DIG_BASE ^ (F - frac2)
       < DIG_BASE ^ (Z.max intg1 intg2 + F)).
Proof.
  intros H1 H2 Hk intg1 intg2 frac1 frac2 F E1 O1 E2 O2.
  destruct (rd_first_word from1 H1) as (w1 & t1 & T1 & R1 & K1).
  destruct (rd_first_word from2 H2) as (w2 & t2 & T2 & R2 & K2).
  pose proof (dec_words_some from1 H1) as S1. pose proof (dec_words_some from2 H2) as S2.
  fold intg1 in S1. fold intg2 in S2.
  destruct O1 as [I1 P1 _ L1 F1], O2 as [I2 P2 _ L2 F2].
  assert (frac1 <= F /\ frac2 <= F /\ (intg1 + frac1 = 0 -> frac2 = 0) /\ (intg2 + frac2 = 0 -> frac1 = 0))
    as (HF1 & HF2 & Hz1 & Hz2) by lia.
  clearbody intg1 intg2 frac1 frac2 F. clear S1 S2 Hk.
  assert (ws1 = [] \/ exists t, ws1 = w1 :: t) as D1.
  { rewrite T1 in E1. destruct ws1; [by left|right]. injection E1 as -> ?. by eexists. }
  assert (ws2 = [] \/ exists t, ws2 = w2 :: t) as D2.
  { rewrite T2 in E2. destruct ws2; [by left|right]. injection E2 as -> ?. by eexists. }
  unfold first_words, DIG_MAX. destruct (Z.ltb_spec intg2 intg1); [|destruct (Z.ltb_spec intg1 intg2)].
  - exists w1. split; [done|]. intros Hx. rewrite Z.max_l by lia.
    destruct D1 as [->|[t ->]]; [simpl in *; lia|]. rewrite (DIG_BASE_pow_step intg1) by lia.
    apply (top_sum _ _ (w1 + 1) 1); [by apply top_bound; try lia| |lia|by apply Z.pow_nonneg].
    rewrite Z.mul_1_l. by apply low_bound with intg2; try lia.
  - exists w2. split; [done|]. intros Hx. rewrite (Z.max_r intg1) by lia.
    destruct D2 as [->|[t ->]]; [simpl in *; lia|]. rewrite (DIG_BASE_pow_step intg2) by lia.
    apply (top_sum _ _ 1 (w2 + 1)); [|by apply top_bound; try lia|lia|by apply Z.pow_nonneg].
    rewrite Z.mul_1_l. by apply low_bound with intg1; try lia.
  - assert (intg1 = intg2) as <- by lia. rewrite R1, R2. simpl.
    rewrite wraps_id by (unfold in_s, word_ok, DIG_BASE in *; lia).
    exists (w1 + w2). split; [done|]. intros Hx. rewrite Z.max_id.
    destruct D1 as [->|[s ->]], D2 as [->|[t ->]]; simpl length in *; try lia.
    + rewrite dval_nil, !Z.mul_0_l. apply DIG_BASE_pow_pos. lia.
    + rewrite (DIG_BASE_pow_step intg1) by lia.
      apply (top_sum _ _ (w1 + 1) (w2 + 1)); [by apply top_bound; simpl; try lia..|lia|by apply Z.pow_nonneg].
Qed.

(** The array [do_add] stores the words to: one more integer word than the
    operands have, zeroed, when there may be a carry. *)
Definition add_target (tobuf : list Z) (x : Z) : Prop :=
  DIG_MAX - 1 < x -> exists rest, tobuf = 0 :: rest.

Definition add_extra (x : Z) : Z := if DIG_MAX - 1 <? x then 1 else 0.

Lemma add_words_spec buf1 intg1 frac1 ws1 buf2 intg2 frac2 ws2 tobuf x :
  let F := Z.max frac1 frac2 in
  let sum := dval ws1 * DIG_BASE ^ (F - frac1) + dval ws2 * DIG_BASE ^ (F - frac2) in
  let buf0 := Z.max intg1 intg2 + add_extra x + F in
  operand_words buf1 intg1 frac1 ws1 -> operand_words buf2 intg2 frac2 ws2 -> add_target tobuf x ->
  (x <= DIG_MAX - 1 -> sum < DIG_BASE ^ (Z.max intg1 intg2 + F)) ->
  buf0 <= Z.of_nat (length tobuf) ->
  exists tobuf', add_words buf1 buf2 tobuf intg1 frac1 intg2 frac2 buf0 = Some tobuf' /\
    length tobuf' = length tobuf /\
    dval (take (Z.to_nat buf0) tobuf') = sum /\ Forall word_ok (take (Z.to_nat buf0) tobuf').
Proof.
  intros F sum buf0 O1 O2 HT Hx HL.
  destruct (add_core _ _ _ _ _ _ _ _ O1 O2) as (acc & carry & part3 & EA & E3 & R).
  unfold add_words. rewrite EA. simpl. rewrite E3. simpl.
  destruct R as (out & c & -> & Lo & Fo & Hc & V). rewrite app_nil_r.
  fold F in Lo, V. fold sum in V.
  assert (0 <= Z.max intg1 intg2 + F) as Hn by (destruct O1, O2; lia).
  pose proof (dval_bounds out Fo) as Bo. rewrite Lo in Bo. rewrite Z2Nat.id in V, Bo by done.
  assert (Z.of_nat (length out) = Z.max intg1 intg2 + F) as Ln by lia.
  assert (buf0 = Z.max intg1 intg2 + F + add_extra x) as Hb by (unfold buf0; lia).
  clearbody sum buf0. set (n := Z.max intg1 intg2 + F) in *. clearbody n. clear O1 O2 EA E3.
  unfold add_extra, add_target in *.
  assert (exists acc, (if negb (c =? 0) then 1 :: out else out) = acc /\ Z.of_nat (length acc) <= buf0 /\
    dval acc = sum /\ Forall word_ok acc /\ Forall (eq 0) (take (Z.to_nat buf0 - length acc) tobuf))
    as (acc' & -> & La & Va & Fa & Ft).
  { eexists. split; [done|]. destruct (Z.eqb_spec c 0) as [->|]; simpl negb; cbv iota.
    - rewrite <- V. destruct (Z.ltb_spec (DIG_MAX - 1) x) as [Hbig|Hsmall]; clear V Bo Hx.
      + destruct HT as [t ->]; [done|]. split_and!; [lia..|done|].
        replace (_ - _)%nat with 1%nat by lia. by repeat constructor.
      + split_and!; [lia..|done|]. replace (_ - _)%nat with 0%nat by lia. constructor.
    - assert (c = 1) as -> by lia. destruct (Z.ltb_spec (DIG_MAX - 1) x) as [Hbig|Hsmall]; [|lia].
      rewrite dval_cons, Ln, <- V. clear V Bo Hx. simpl length. split_and!; [lia..| |].
      + constructor; [by unfold word_ok, DIG_BASE|done].
      + replace (_ - _)%nat with 0%nat by lia. constructor. }
  destruct (store_down_spec tobuf buf0 acc' La HL) as (tobuf' & -> & L' & T').
  exists tobuf'. rewrite T'. split_and!; [done..| |].
  - rewrite dval_app, (dval_all_zero _ Ft). lia.
  - apply Forall_app. split; [|done]. eapply Forall_impl; [exact Ft|]. by intros ? <-.
Qed.

(** What [do_add] makes of the absolute values: exact when the words of the sum
    fit, the sum of the operands cut to the fraction words left otherwise, and
    the greatest number when the integer words do not fit. *)
Definition add_result (from1 from2 to : decimal_t) (x : Z) (to' : decimal_t) (e : Z) : Prop :=
  let intg0 := Z.max (ROUND_UP (d_intg from1)) (ROUND_UP (d_intg from2)) + add_extra x in
  let frac0 := Z.max (ROUND_UP (d_frac from1)) (ROUND_UP (d_frac from2)) in
  if intg0 + frac0 <=? d_len to then
    e = E_DEC_OK /\ d_sign to' = d_sign from1 /\ d_frac to' = Z.max (d_frac from1) (d_frac from2) /\
    dec_val to' = dec_cut frac0 from1 + dec_cut frac0 from2
  else if intg0 <=? d_len to then
    e = E_DEC_TRUNCATED /\ d_sign to' = d_sign from1 /\ d_frac to' = (d_len to - intg0) * 9 /\
    dec_val to' = dec_cut (d_len to - intg0) from1 + dec_cut (d_len to - intg0) from2
  else
    e = E_DEC_OVERFLOW /\ d_sign to' = false /\ d_frac to' = 0 /\ dec_val to' = DIG_BASE ^ d_len to - 1.

Lemma add_words_cut from1 from2 tobuf x k :
  dec_wf from1 -> dec_wf from2 ->
  let intg1 := ROUND_UP (d_intg from1) in let intg2 := ROUND_UP (d_intg from2) in
  let frac1 := ROUND_UP (d_frac from1) in let frac2 := ROUND_UP (d_frac from2) in
  let intg0 := Z.max intg1 intg2 + add_extra x in
  first_words from1 from2 intg1 intg2 = Some x -> add_target tobuf x ->
  0 <= k <= Z.max frac1 frac2 -> intg0 + k <= Z.of_nat (length tobuf) ->
  exists tobuf', add_words (d_buf from1) (d_buf from2) tobuf intg1 (Z.min frac1 k) intg2 (Z.min frac2 k)
      (intg0 + k) = Some tobuf' /\ length tobuf' = length tobuf /\
    dval (take (Z.to_nat (intg0 + k)) tobuf') = dec_cut k from1 + dec_cut k from2 /\
    Forall word_ok (take (Z.to_nat (intg0 + k)) tobuf').
Proof.
  intros H1 H2 intg1 intg2 frac1 frac2 intg0 Ex HT Hk HL.
  destruct (operand_words_cut from1 k H1) as (ws1 & rest1 & E1 & O1); [lia|].
  destruct (operand_words_cut from2 k H2) as (ws2 & rest2 & E2 & O2); [lia|].
  destruct (first_words_spec from1 from2 k ws1 rest1 ws2 rest2) as (x' & Ex' & Hx); try done; [lia|].
  fold intg1 intg2 frac1 frac2 in Ex', Hx, O1, O2. rewrite Ex in Ex'. injection Ex' as <-.
  assert (Z.max (Z.min frac1 k) (Z.min frac2 k) = k) as Ek by (clear Hx; lia). rewrite Ek in Hx.
  destruct (add_words_spec _ _ _ _ _ _ _ _ tobuf x O1 O2 HT) as (tobuf' & E & L & V & F).
  - by rewrite Ek.
  - by rewrite Ek.
  - rewrite Ek in *. exists tobuf'. split_and!; [done..| |done].
    unfold intg0. rewrite V. f_equal.
    + apply (dec_cut_words k from1 ws1 rest1); [done|lia|done|]. apply O1.
    + apply (dec_cut_words k from2 ws2 rest2); [done|lia|done|]. apply O2.
Qed.

Lemma first_words_some from1 from2 : dec_wf from1 -> dec_wf from2 ->
  exists x, first_words from1 from2 (ROUND_UP (d_intg from1)) (ROUND_UP (d_intg from2)) = Some x.
Proof.
  intros H1 H2. destruct (rd_first_word from1 H1) as (w1 & ? & _ & R1 & _).
  destruct (rd_first_word from2 H2) as (w2 & ? & _ & R2 & _).
  unfold first_words. rewrite R1, R2. zcases; eauto.
Qed.

Lemma do_add_target to x n : dec_room to ->
  exists tobuf, (if DIG_MAX - 1 <? x then tobuf ← wr (d_buf to) 0 0; Some (n + 1, tobuf)
                 else Some (n, d_buf to)) = Some (n + add_extra x, tobuf) /\
    add_target tobuf x /\ length tobuf = length (d_buf to).
Proof.
  intros [Hl Hb]. unfold add_extra, add_target. destruct (Z.ltb_spec (DIG_MAX - 1) x).
  - unfold wr. destruct (d_buf to) as [|w buf]; [simpl in *; lia|]. simpl length. zcases.
    eexists. split_and!; [done|by eexists|done].
  - exists (d_buf to). rewrite Z.add_0_r. split_and!; [done|lia|done].
Qed.

Lemma do_add_spec from1 from2 to : dec_wf from1 -> dec_wf from2 -> dec_room to ->
  exists x to' e, first_words from1 from2 (ROUND_UP (d_intg from1)) (ROUND_UP (d_intg from2)) = Some x /\
    do_add from1 from2 to = Some (to', e) /\ dec_wf to' /\ d_len to' = d_len to /\
    add_result from1 from2 to x to' e.
Proof.
  intros H1 H2 HR. destruct (first_words_some from1 from2 H1 H2) as [x Ex]. exists x.
  destruct (do_add_target to x (Z.max (ROUND_UP (d_intg from1)) (ROUND_UP (d_intg from2))) HR)
    as (tobuf & ET & HT & LT).
  pose proof (fun k => add_words_cut from1 from2 tobuf x k H1 H2 Ex HT) as HW. simpl in HW.
  pose proof (wf_intg_words from1 H1). pose proof (wf_frac_words from1 H1).
  pose proof (wf_intg_words from2 H2). pose proof (wf_frac_words from2 H2).
  pose proof (dec_words_some from1 H1).
  unfold do_add, add_result. rewrite Ex. simpl. rewrite ET. simpl. destruct HR as [Hl Hb].
  set (intg0 := Z.max (ROUND_UP (d_intg from1)) (ROUND_UP (d_intg from2)) + add_extra x) in *.
  set (frac0 := Z.max (ROUND_UP (d_frac from1)) (ROUND_UP (d_frac from2))) in *.
  assert (0 <= add_extra x <= 1) by (unfold add_extra; zcases).
  unfold FIX_INTG_FRAC_ERROR. destruct (Z.leb_spec (intg0 + frac0) (d_len to)) as [Hfit|Hno].
  - replace (d_len to <? intg0 + frac0) with false by (symmetry; by apply Z.ltb_ge). simpl.
    destruct (HW frac0) as (tobuf' & E & L & V & F); [lia..|].
    rewrite !Z.min_l in E by lia. rewrite E. simpl. eexists _, _. split; [done|]. split; [done|].
    pose proof (wf_frac from1 H1). pose proof (wf_frac from2 H2).
    assert (ROUND_UP (Z.max (d_frac from1) (d_frac from2)) = frac0) as EF by by apply ROUND_UP_max.
    rewrite <- EF in V at 1. rewrite <- EF in F.
    destruct (stored_wf (d_len to) (d_sign from1) tobuf' intg0 (Z.max (d_frac from1) (d_frac from2))
      _ Hl ltac:(lia) ltac:(lia) ltac:(lia) ltac:(lia) ltac:(lia) V F) as [W1 W2]; [|by split_and!].
    rewrite EF. pose proof (ROUND_UP_bounds (Z.max (d_frac from1) (d_frac from2)) ltac:(lia)).
    apply Z.divide_add_r; apply dec_cut_aligned; by try lia.
  - replace (d_len to <? intg0 + frac0) with true by (symmetry; by apply Z.ltb_lt). simpl.
    destruct (Z.leb_spec intg0 (d_len to)) as [Hfit|Hno'].
    + replace (d_len to <? intg0) with false by (symmetry; by apply Z.ltb_ge). simpl.
      set (k := d_len to - intg0). destruct (HW k) as (tobuf' & E & L & V & F); [lia..|].
      rewrite (Z.min_l _ intg0), (Z.min_l _ intg0) by lia. rewrite E. simpl.
      eexists _, _. split; [done|]. split; [done|].
      assert (Z.min (Z.max (d_frac from1) (d_frac from2)) (k * DIG_PER_DEC1) = k * 9) as EF.
      { pose proof (ROUND_UP_bounds (d_frac from1) (wf_frac from1 H1)).
        pose proof (ROUND_UP_bounds (d_frac from2) (wf_frac from2 H2)). unfold DIG_PER_DEC1. lia. }
      rewrite EF. assert (ROUND_UP (k * 9) = k) as EK by (apply ROUND_UP_mul9; lia).
      rewrite <- EK in V at 1. rewrite <- EK in F.
      destruct (stored_wf (d_len to) (d_sign from1) tobuf' intg0 (k * 9)
        _ Hl ltac:(lia) ltac:(lia) ltac:(lia) ltac:(lia) ltac:(lia) V F) as [W1 W2]; [|by split_and!].
      rewrite EK. replace (9 * k - k * 9) with 0 by lia. apply Z.divide_1_l.
    + replace (d_len to <? intg0) with true by (symmetry; by apply Z.ltb_lt). simpl.
      destruct (max_decimal_full to tobuf (conj Hl Hb) LT) as (to' & -> & W & EL & EF & ES & EV).
      simpl. eexists _, _. by split_and!.
Qed.
