(* ===== verification/DecimalSub.v ===== *)
(** * Fixed-point decimals: correctness of subtraction and comparison

    [do_sub] compares the operands first, ignoring zero words at their ends, and
    then subtracts the smaller absolute value from the greater one. *)

From Stdlib Require Import ZArith Lia QArith Qabs.
From stdpp Require Import base numbers option tactics list.
From S2P Require Import Prelude Decimal DecimalArith.

#[local] Open Scope Z_scope.

(** ** Operands without zero words at their ends *)

(** The words [ws] of an operand, as [do_sub] delimits them. *)
Record op_view (d : decimal_t) (o : operand) (ws : list Z) : Prop := {
  ov_buf : exists z rest, d_buf d = z ++ ws ++ rest /\ Z.of_nat (length z) = o_start o;
  ov_length : Z.of_nat (length ws) = o_intg o + o_frac o;
  ov_intg : 0 <= o_intg o <= ROUND_UP (d_intg d);
  ov_frac : o_frac o <= ROUND_UP (d_frac d);
  ov_ok : Forall word_ok ws;
  ov_val : dval ws * DIG_BASE ^ (ROUND_UP (d_frac d) - o_frac o) = dec_val d;
  ov_head : 0 < o_intg o -> exists w t, ws = w :: t /\ w <> 0
}.

Definition trimmed (ws : list Z) : Prop := last ws <> Some 0.

Lemma skip_zero_words_spec ws :
  exists t, ws = replicate (Z.to_nat (skip_zero_words ws)) 0 ++ t /\ head t <> Some 0 /\
    0 <= skip_zero_words ws <= Z.of_nat (length ws).
Proof.
  induction ws as [|w ws IH]; [by exists []|].
  cbn [skip_zero_words length]. destruct (Z.eqb_spec w 0) as [->|Hw].
  - destruct IH as (t & E & Ht & B). exists t. replace (Z.to_nat (1 + _)) with (S (Z.to_nat (skip_zero_words ws))) by lia.
    simpl. split_and!; [by rewrite <- E|done|lia..].
  - exists (w :: ws). split_and!; [done|by intros [=]|lia..].
Qed.

Lemma dval_zeroes_app n t : dval (replicate n 0 ++ t) = dval t.
Proof. rewrite dval_app, dval_zeroes. lia. Qed.

Lemma operand_of_spec d : dec_wf d ->
  exists o ws, operand_of d = Some o /\ op_view d o ws /\ o_frac o = ROUND_UP (d_frac d).
Proof.
  intros Hd. destruct (rd_first_word d Hd) as (w & t & E & R & Hw).
  pose proof (wf_intg_words d Hd). pose proof (wf_frac_words d Hd). pose proof (dec_words_length d Hd) as L.
  pose proof (wf_words d Hd) as F.
  destruct (split_words (dec_words d) 0 (ROUND_UP (d_intg d))) as (h & m & l & E' & Hh & Hm); [lia..|].
  assert (h = []) as -> by (destruct h; [done|simpl in *; lia]). simpl in E'.
  assert (words (d_buf d) 0 (ROUND_UP (d_intg d)) = Some m) as EW.
  { rewrite dec_buf_words, E', <- app_assoc. apply (words_app []); simpl; lia. }
  unfold operand_of. rewrite R. simpl. rewrite EW. simpl.
  destruct (skip_zero_words_spec m) as (m' & Em & Hhead & B).
  assert (exists o, (if w =? 0 then Some (mk_operand (skip_zero_words m)
     (ROUND_UP (d_intg d) - skip_zero_words m) (ROUND_UP (d_frac d))) else
     Some (mk_operand 0 (ROUND_UP (d_intg d)) (ROUND_UP (d_frac d)))) = Some o /\
     o = mk_operand (skip_zero_words m) (ROUND_UP (d_intg d) - skip_zero_words m) (ROUND_UP (d_frac d)))
    as (o & -> & ->).
  { destruct (Z.eqb_spec w 0); eexists; (split; [done|]); [done|].
    assert (skip_zero_words m = 0) as ->; [|by rewrite Z.sub_0_r].
    destruct m as [|w' m]; [done|]. rewrite E in E'. injection E' as <- _. simpl. zcases. }
  eexists _, (m' ++ l). split; [done|]. split; [|done].
  set (n := skip_zero_words m) in *. rewrite Em in E', Hm. rewrite length_app, length_replicate in Hm.
  rewrite E' in F. apply Forall_app in F as [[_ Fm]%Forall_app Fl].
  split; simpl; try lia.
  - exists (replicate (Z.to_nat n) 0), (drop (length (dec_words d)) (d_buf d)).
    rewrite length_replicate. split; [|lia]. rewrite dec_buf_words at 1. rewrite E', <- !app_assoc. done.
  - rewrite E', !length_app, length_replicate in L. rewrite length_app. lia.
  - by apply Forall_app.
  - rewrite Z.sub_diag, Z.mul_1_r. unfold dec_val. by rewrite E', <- app_assoc, dval_zeroes_app.
  - intros Hpos. destruct m' as [|w' m']; [simpl in *; lia|].
    exists w', (m' ++ l). split; [done|]. intros ->. by apply Hhead.
Qed.

Lemma trim_operand_spec d o ws : op_view d o ws ->
  exists o' ws', trim_operand d o = Some (o', ws') /\ op_view d o' ws' /\ o_intg o' = o_intg o /\ trimmed ws'.
Proof.
  intros [(z & rest & Eb & Hz) L HI HF Fok V Hh]. unfold trim_operand.
  rewrite Eb, (words_app z ws rest) by lia. simpl.
  destruct (skip_zero_words_spec (rev ws)) as (t & Et & Ht & B). set (n := skip_zero_words (rev ws)) in *.
  assert (ws = rev t ++ replicate (Z.to_nat n) 0) as Ew.
  { rewrite <- (rev_involutive ws), Et, rev_app_distr, rev_zeroes. done. }
  rewrite length_rev in B.
  assert (take (length ws - Z.to_nat n) ws = rev t) as ->.
  { rewrite Ew at 2. apply take_app_length'. rewrite Ew, length_app, length_replicate. lia. }
  eexists _, _. split; [done|]. split; [|split; [done|]].
  - rewrite Ew in Fok. apply Forall_app in Fok as [Ft Fz].
    assert (Z.of_nat (length (rev t)) = o_intg o + (o_frac o - n)) as L'.
    { rewrite Ew, length_app, length_replicate in L. lia. }
    split; simpl; try done; try lia.
    + exists z, (replicate (Z.to_nat n) 0 ++ rest). split; [|done].
      rewrite Eb. rewrite Ew at 1. by rewrite <- app_assoc.
    + rewrite <- V. rewrite Ew at 1. rewrite dval_app, dval_zeroes, length_replicate, Z2Nat.id by lia.
      rewrite Z.add_0_r, <- Z.mul_assoc, <- Z.pow_add_r by lia. do 2 f_equal. lia.
    + intros Hpos. destruct (Hh Hpos) as (w & s & Es & Hw). exists w.
      destruct (rev t) as [|w' t']; [|exists t'; rewrite Ew in Es; by injection Es as -> _].
      rewrite Ew in Es. destruct (Z.to_nat n); [done|]. injection Es as <- _. done.
  - unfold trimmed. destruct t as [|w t]; [done|]. simpl. rewrite last_snoc. by simpl in Ht.
Qed.

(** ** Comparison *)

(** The number words make when they are extended to [n] of them. *)
Definition lval (n : Z) (ws : list Z) : Z := dval ws * DIG_BASE ^ (n - Z.of_nat (length ws)).

Lemma lval_cons n w ws : Z.of_nat (length (w :: ws)) <= n ->
  lval n (w :: ws) = w * DIG_BASE ^ (n - 1) + lval (n - 1) ws.
Proof.
  intros H. unfold lval. rewrite dval_cons. simpl length in *.
  replace (n - 1 - Z.of_nat (length ws)) with (n - Z.of_nat (S (length ws))) by lia.
  replace (n - 1) with (Z.of_nat (length ws) + (n - Z.of_nat (S (length ws)))) by lia.
  rewrite Z.pow_add_r by lia. ring.
Qed.

Lemma lval_bounds n ws : Forall word_ok ws -> Z.of_nat (length ws) <= n -> 0 <= lval n ws < DIG_BASE ^ n.
Proof.
  intros H L. unfold lval. pose proof (all_bound ws 0 (Z.of_nat (length ws)) n H) as B.
  rewrite Z.add_0_l in B. apply B; lia.
Qed.

Lemma trimmed_cons w ws : trimmed (w :: ws) -> trimmed ws.
Proof. unfold trimmed. by destruct ws. Qed.

Lemma trimmed_pos n w ws : trimmed (w :: ws) -> Forall word_ok (w :: ws) ->
  Z.of_nat (length (w :: ws)) <= n -> 0 < lval n (w :: ws).
Proof.
  revert n w. induction ws as [|w' ws IH]; intros n w T F L; rewrite lval_cons by done;
    inversion_clear F as [|?? Hw Fws]; simpl length in *.
  - change (lval (n - 1) []) with 0. assert (w <> 0) by (intros ->; by apply T).
    unfold word_ok in Hw. assert (0 < DIG_BASE ^ (n - 1)) by (apply DIG_BASE_pow_pos; lia). nia.
  - assert (0 < lval (n - 1) (w' :: ws)) by (apply IH; [by apply trimmed_cons in T|done|simpl length; lia]).
    unfold word_ok in Hw. assert (0 <= DIG_BASE ^ (n - 1)) by by apply Z.pow_nonneg. nia.
Qed.

Lemma lval_lt n w1 ws1 w2 ws2 : w1 < w2 -> Forall word_ok (w1 :: ws1) -> Forall word_ok (w2 :: ws2) ->
  Z.of_nat (length (w1 :: ws1)) <= n -> Z.of_nat (length (w2 :: ws2)) <= n ->
  lval n (w1 :: ws1) < lval n (w2 :: ws2).
Proof.
  intros Hw F1 F2 L1 L2. inversion_clear F1. inversion_clear F2. rewrite !lval_cons by done.
  simpl length in *. pose proof (lval_bounds (n - 1) ws1 ltac:(done) ltac:(lia)).
  pose proof (lval_bounds (n - 1) ws2 ltac:(done) ltac:(lia)).
  assert ((w1 + 1) * DIG_BASE ^ (n - 1) <= w2 * DIG_BASE ^ (n - 1)).
  { apply Z.mul_le_mono_nonneg_r; [by apply Z.pow_nonneg|lia]. }
  lia.
Qed.

Lemma compare_words_spec n ws1 ws2 : trimmed ws1 -> trimmed ws2 -> Forall word_ok ws1 -> Forall word_ok ws2 ->
  Z.of_nat (length ws1) <= n -> Z.of_nat (length ws2) <= n ->
  match compare_words ws1 ws2 with
  | None => lval n ws1 = lval n ws2
  | Some c => c = 1 /\ lval n ws1 < lval n ws2 \/ c = 0 /\ lval n ws2 < lval n ws1
  end.
Proof.
  revert n ws2. induction ws1 as [|w1 ws1 IH]; intros n [|w2 ws2] T1 T2 F1 F2 L1 L2; simpl; [done|..].
  - left. split; [done|]. by apply trimmed_pos.
  - right. split; [done|]. by apply trimmed_pos.
  - destruct (Z.eqb_spec w1 w2) as [->|Hne].
    + rewrite !lval_cons by done. inversion F1; inversion F2; subst. simpl length in *.
      specialize (IH (n - 1) ws2 (trimmed_cons _ _ T1) (trimmed_cons _ _ T2) ltac:(done) ltac:(done)
        ltac:(lia) ltac:(lia)).
      destruct (compare_words ws1 ws2); lia.
    + destruct (Z.ltb_spec w1 w2); [left|right]; (split; [done|]); apply lval_lt; by try lia.
Qed.

(** The value of an operand, with [k] fraction words, is the one of its words. *)
Lemma op_view_cut d o ws k : dec_wf d -> op_view d o ws -> ROUND_UP (d_frac d) <= k ->
  dec_cut k d = lval (o_intg o + k) ws.
Proof.
  intros Hd [_ L _ HF _ V _] Hk. rewrite dec_cut_extend, <- V by done. unfold lval.
  rewrite <- Z.mul_assoc, <- Z.pow_add_r by lia. f_equal. f_equal. lia.
Qed.

Lemma op_view_lt d1 o1 ws1 d2 o2 ws2 k : dec_wf d1 -> dec_wf d2 -> op_view d1 o1 ws1 -> op_view d2 o2 ws2 ->
  ROUND_UP (d_frac d1) <= k -> ROUND_UP (d_frac d2) <= k -> o_intg o1 < o_intg o2 ->
  dec_cut k d1 < dec_cut k d2.
Proof.
  intros H1 H2 V1 V2 K1 K2 Hlt. pose proof (wf_frac_words d1 H1).
  rewrite (op_view_cut d1 o1 ws1), (op_view_cut d2 o2 ws2) by done.
  destruct V1 as [_ L1 HI1 HF1 O1 _ _], V2 as [_ L2 HI2 HF2 O2 _ Hh].
  destruct Hh as (w & t & -> & Hw); [lia|].
  rewrite lval_cons by lia. simpl length in L2. inversion_clear O2 as [|?? Hok Ht].
  pose proof (lval_bounds (o_intg o1 + k) ws1 O1 ltac:(lia)) as B1.
  pose proof (lval_bounds (o_intg o2 + k - 1) t Ht ltac:(lia)) as B2.
  pose proof (Z.pow_le_mono_r DIG_BASE (o_intg o1 + k) (o_intg o2 + k - 1) ltac:(done) ltac:(lia)).
  clear HI1 HI2 L1 L2 HF1 HF2. unfold word_ok in Hok. assert (1 <= w) by lia. nia.
Qed.

(** What the first half of [do_sub] finds out. *)
Lemma sub_prepare_spec from1 from2 k : dec_wf from1 -> dec_wf from2 ->
  ROUND_UP (d_frac from1) <= k -> ROUND_UP (d_frac from2) <= k ->
  exists r, sub_prepare from1 from2 = Some r /\
    match r with
    | inl _ => dec_cut k from1 = dec_cut k from2
    | inr (o1, o2, carry) =>
        exists ws1 ws2, op_view from1 o1 ws1 /\ op_view from2 o2 ws2 /\
          0 <= o_intg o2 + o_frac o1 /\ 0 <= o_intg o1 + o_frac o2 /\
          (carry = 0 /\ dec_cut k from2 < dec_cut k from1 /\ o_intg o2 <= o_intg o1 \/
           carry = 1 /\ dec_cut k from1 < dec_cut k from2 /\ o_intg o1 <= o_intg o2)
    end.
Proof.
  intros H1 H2 K1 K2. unfold sub_prepare.
  destruct (operand_of_spec from1 H1) as (o1 & ws1 & -> & V1 & F1).
  destruct (operand_of_spec from2 H2) as (o2 & ws2 & -> & V2 & F2). simpl.
  pose proof (wf_frac_words from1 H1). pose proof (wf_frac_words from2 H2).
  pose proof (ov_intg _ _ _ V1). pose proof (ov_intg _ _ _ V2).
  destruct (Z.ltb_spec (o_intg o1) (o_intg o2)) as [Hlt|Hge].
  { eexists. split; [done|]. exists ws1, ws2. split_and!; [done|done|lia..|right]. split_and!; [done| |lia].
    by apply (op_view_lt from1 o1 ws1 from2 o2 ws2). }
  destruct (Z.eqb_spec (o_intg o2) (o_intg o1)) as [Heq|Hne].
  - destruct (trim_operand_spec from1 o1 ws1 V1) as (o1' & ws1' & -> & V1' & E1 & T1).
    destruct (trim_operand_spec from2 o2 ws2 V2) as (o2' & ws2' & -> & V2' & E2 & T2). simpl.
    pose proof (op_view_cut from1 o1' ws1' k H1 V1' K1) as C1.
    pose proof (op_view_cut from2 o2' ws2' k H2 V2' K2) as C2.
    rewrite E2, Heq, <- E1 in C2. rewrite C1, C2.
    pose proof (compare_words_spec (o_intg o1' + k) ws1' ws2' T1 T2 (ov_ok _ _ _ V1') (ov_ok _ _ _ V2')) as C.
    eexists. split; [done|]. destruct (compare_words ws1' ws2') as [c|].
    + exists ws1', ws2'. split_and!; [done|done|destruct V1', V2'; lia..|]. destruct C as [C|C]; [| |right|left]; try lia;
        destruct V1', V2'; lia.
    + apply C; destruct V1', V2'; lia.
  - eexists. split; [done|]. exists ws1, ws2. split_and!; [done|done|lia..|left]. split_and!; [done| |lia].
    apply (op_view_lt from2 o2 ws2 from1 o1 ws1); by try lia.
Qed.

Lemma loop_result_base s n v zs r : Forall word_ok zs -> loop_result s n v zs r ->
  loop_result s (n + length zs) (v * DIG_BASE ^ Z.of_nat (length zs) + dval zs) [] r.
Proof.
  intros Fz (out & c & -> & L & F & Hc & V). exists (out ++ zs), c.
  rewrite app_nil_r, dval_app, length_app, Nat2Z.inj_add, Z.pow_add_r by lia.
  split_and!; try done; try lia. by apply Forall_app.
Qed.

(** ** Subtraction of words *)

(** The words of an operand, cut to [k] fraction words. *)
Lemma op_view_prefix d o ws k : dec_wf d -> op_view d o ws -> 0 <= k ->
  exists z ws' rest, d_buf d = z ++ ws' ++ rest /\ Z.of_nat (length z) = o_start o /\
    Z.of_nat (length ws') = o_intg o + Z.min (o_frac o) k /\ Forall word_ok ws' /\
    lval (o_intg o + k) ws' = dec_cut k d.
Proof.
  intros Hd V Hk. destruct V as [(z & rest & Eb & Hz) L HI HF F Ev _].
  pose proof (wf_frac_words d Hd).
  destruct (split_words ws 0 (o_intg o + Z.min (o_frac o) k)) as (h & m & l & E & Hh & Hm); [lia..|].
  assert (h = []) as -> by (destruct h; [done|simpl in *; lia]). simpl in E. subst ws.
  apply Forall_app in F as [Fm Fl]. rewrite length_app in L.
  exists z, m, (l ++ rest). split_and!; [by rewrite <- app_assoc in Eb|done..|].
  unfold dec_cut, lval. rewrite <- Ev, dval_app, Hm. pose proof (dval_bounds l Fl) as Bl.
  destruct (Z.min_spec (o_frac o) k) as [[? Em]|[? Em]]; rewrite Em in *.
  - assert (l = []) as -> by (destruct l; [done|simpl in *; lia]). rewrite dval_nil, Z.add_0_r, Z.mul_1_r.
    replace (dval m * _ * DIG_BASE ^ k) with
      (dval m * DIG_BASE ^ (o_intg o + k - (o_intg o + o_frac o)) * DIG_BASE ^ ROUND_UP (d_frac d)).
    + rewrite Z.div_mul; [done|]. pose proof (DIG_BASE_pow_pos (ROUND_UP (d_frac d))). lia.
    + rewrite <- !Z.mul_assoc, <- !Z.pow_add_r by lia. do 2 f_equal. lia.
  - replace (o_intg o + k - (o_intg o + k)) with 0 by lia. rewrite Z.mul_1_r.
    rewrite <- Z.mul_assoc, <- Z.pow_add_r by lia.
    replace (ROUND_UP (d_frac d)) with (Z.of_nat (length l) + (ROUND_UP (d_frac d) - o_frac o + k)) at 2 by lia.
    set (e := ROUND_UP (d_frac d) - o_frac o + k).
    rewrite (Z.pow_add_r _ (Z.of_nat (length l)) e) by lia. pose proof (DIG_BASE_pow_pos e ltac:(lia)).
    rewrite Z.div_mul_cancel_r by lia. apply Z.div_unique with (dval l); lia.
Qed.

Lemma sub_low_spec a1 l1 rest1 a2 l2 rest2 end1 end2 frac1 frac2 k :
  Forall word_ok l1 -> Forall word_ok l2 -> frac1 <= k -> frac2 <= k ->
  let low := Z.min frac1 frac2 in
  Z.of_nat (length l1) = frac1 - low -> Z.of_nat (length l2) = frac2 - low ->
  Z.of_nat (length a1) = end1 + low -> Z.of_nat (length a2) = end2 + low ->
  exists acc c, sub_low (a1 ++ l1 ++ rest1) (a2 ++ l2 ++ rest2) end1 end2 frac1 frac2 k = Some (acc, c) /\
    loop_result (-1) (Z.to_nat (k - low))
      (dval l1 * DIG_BASE ^ (k - frac1) - dval l2 * DIG_BASE ^ (k - frac2)) [] (acc, c).
Proof.
  intros Fl1 Fl2 K1 K2 low L1 L2 A1 A2. unfold sub_low.
  set (zs := replicate (Z.to_nat (k - Z.max frac1 frac2)) 0).
  assert (length zs = Z.to_nat (k - Z.max frac1 frac2)) as Lz by apply length_replicate.
  assert (dval zs = 0) as Vz by apply dval_zeroes. assert (Forall word_ok zs) as Fz by apply word_ok_zeroes.
  clearbody zs. destruct (Z.ltb_spec frac2 frac1).
  - assert (l2 = []) as -> by (destruct l2; [done|simpl in *; lia]).
    rewrite words_app by lia. simpl. eexists _, _. split; [done|].
    assert (rev_append (rev l1) zs = rev_append (rev (l1 ++ zs)) []) as ->
      by (rewrite !rev_append_rev, !rev_involutive; by rewrite app_nil_r).
    eapply loop_result_eq; [by apply loop_result_copy, Forall_app|..].
    + rewrite length_app. lia.
    + rewrite dval_app, Vz, dval_nil, Lz, Z2Nat.id, Z.max_l by lia. lia.
  - assert (l1 = []) as -> by (destruct l1; [done|simpl in *; lia]).
    rewrite words_app by lia. simpl.
    pose proof (sub_from0_down_spec l2 zs Fl2) as R. destruct (sub_from0_down (rev l2) zs 0) as [acc c].
    exists acc, c. split; [done|]. apply loop_result_base in R; [|done].
    eapply loop_result_eq; [exact R|lia|]. rewrite Vz, dval_nil, Lz, Z2Nat.id, Z.max_r by lia. lia.
Qed.

Lemma sub_value p m1 l1 m2 l2 intg1 intg2 frac1 frac2 low k :
  Z.of_nat (length (p ++ m1 ++ l1)) = intg1 + frac1 -> Z.of_nat (length (m2 ++ l2)) = intg2 + frac2 ->
  Z.of_nat (length l1) = frac1 - low -> Z.of_nat (length l2) = frac2 - low -> frac1 <= k -> frac2 <= k ->
  dval l1 * DIG_BASE ^ (k - frac1) - dval l2 * DIG_BASE ^ (k - frac2)
    + (dval m1 - dval m2) * DIG_BASE ^ (k - low)
    + dval p * DIG_BASE ^ (k - low + Z.of_nat (length m1)) =
  lval (intg1 + k) (p ++ m1 ++ l1) - lval (intg2 + k) (m2 ++ l2).
Proof.
  intros L1 L2 E1 E2 K1 K2. unfold lval. rewrite L1, L2, !dval_app, length_app.
  replace (intg1 + k - _) with (k - frac1) by lia. replace (intg2 + k - _) with (k - frac2) by lia.
  rewrite Nat2Z.inj_add, !Z.pow_add_r by lia.
  assert (DIG_BASE ^ (k - low) = DIG_BASE ^ Z.of_nat (length l1) * DIG_BASE ^ (k - frac1)) as P1
    by (rewrite <- Z.pow_add_r by lia; f_equal; lia).
  assert (DIG_BASE ^ (k - low) = DIG_BASE ^ Z.of_nat (length l2) * DIG_BASE ^ (k - frac2)) as P2
    by (rewrite <- Z.pow_add_r by lia; f_equal; lia).
  rewrite Z.mul_sub_distr_r, P1 at 1. rewrite P1 at 2. rewrite P2. ring.
Qed.

Lemma sub_words_spec from1 from2 o1 o2 intg1 intg2 frac1 frac2 k z1 ws1 rest1 z2 ws2 rest2 :
  d_buf from1 = z1 ++ ws1 ++ rest1 -> Z.of_nat (length z1) = o_start o1 ->
  Z.of_nat (length ws1) = intg1 + frac1 -> Forall word_ok ws1 ->
  d_buf from2 = z2 ++ ws2 ++ rest2 -> Z.of_nat (length z2) = o_start o2 ->
  Z.of_nat (length ws2) = intg2 + frac2 -> Forall word_ok ws2 ->
  0 <= intg2 <= intg1 -> 0 <= intg2 + frac1 -> frac1 <= k -> frac2 <= k -> 0 <= k ->
  lval (intg2 + k) ws2 <= lval (intg1 + k) ws1 ->
  exists acc, sub_words from1 from2 o1 o2 intg1 intg2 frac1 frac2 k = Some acc /\
    Z.of_nat (length acc) = intg1 + k /\ Forall word_ok acc /\
    dval acc = lval (intg1 + k) ws1 - lval (intg2 + k) ws2.
Proof.
  intros B1 Z1 L1 F1 B2 Z2 L2 F2 Hi Hf K1 K2 Hk Hle. unfold sub_words. rewrite B1, B2.
  set (low := Z.min frac1 frac2).
  destruct (split_words ws1 (intg1 - intg2) (intg2 + low)) as (p & m1 & l1 & -> & Lp & Lm1); [lia..|].
  destruct (split_words ws2 0 (intg2 + low)) as (q & m2 & l2 & -> & Lq & Lm2); [lia..|].
  assert (q = []) as -> by (destruct q; [done|simpl in *; lia]). simpl in *.
  rewrite !length_app in L1. rewrite length_app in L2. apply Forall_app in F1 as [Fp [Fm1 Fl1]%Forall_app].
  apply Forall_app in F2 as [Fm2 Fl2].
  destruct (sub_low_spec (z1 ++ p ++ m1) l1 rest1 (z2 ++ m2) l2 rest2 (o_start o1 + intg1) (o_start o2 + intg2)
    frac1 frac2 k) as (acc & c & EL & R); try done; try (rewrite ?length_app; clear Hle; lia).
  replace (z1 ++ (p ++ m1 ++ l1) ++ rest1) with ((z1 ++ p ++ m1) ++ l1 ++ rest1) by by rewrite <- !app_assoc.
  replace (z2 ++ (m2 ++ l2) ++ rest2) with ((z2 ++ m2) ++ l2 ++ rest2) by by rewrite <- !app_assoc.
  rewrite EL. simpl. rewrite <- !app_assoc.
  rewrite (words_app z2 m2) by lia. simpl.
  rewrite (app_assoc z1 p), (words_app (z1 ++ p) m1 _ _ (o_start o1 + intg1 + low))
    by (rewrite ?length_app; clear Hle; lia). simpl. rewrite <- !app_assoc.
  eapply (loop_result_seq (-1) _ _ _ _ (-1) _ (dval m1 - dval m2) (sub_down (rev m1) (rev m2))) in R; last first.
  { intros acc' c' ?. eapply loop_result_eq; [apply sub_down_spec; by try lia|done|lia]. }
  destruct (sub_down (rev m1) (rev m2) acc c) as [acc2 c2].
  rewrite (words_app z1 p) by lia. simpl.
  eapply (loop_result_seq (-1) _ _ _ _ (-1) _ (dval p) (sub0_copy_down (rev p))) in R; last first.
  { intros acc' c' ?. eapply loop_result_eq; [apply sub0_copy_down_spec; by try lia|done|lia]. }
  destruct R as (out & c3 & -> & Lo & Fo & Hc & V). rewrite app_nil_r. exists out. split; [done|].
  fold low in V, Lo. rewrite !Nat2Z.inj_add, Z2Nat.id, (sub_value p m1 l1 m2 l2 intg1 intg2 frac1 frac2 low k) in V
    by first [done | rewrite ?length_app; clear V Hle; lia].
  pose proof (dval_bounds out Fo) as Bo. rewrite Lo, !Nat2Z.inj_add, Z2Nat.id in Bo by (clear V Hle; lia).
  assert (Z.of_nat (length out) = intg1 + k) as Lk by (rewrite Lo; clear V Hle Bo; lia).
  split_and!; [done..|]. clear - V Bo Hc Hle. assert (c3 = 0 \/ c3 = 1) as [-> | ->] by lia; lia.
Qed.

(** ** The operation *)

(** [sub_greater] when the words of the difference are known. *)
Lemma sub_greater_stores from1 from2 o1 o2 ws1 ws2 sign to acc :
  let F := Z.max (ROUND_UP (d_frac from1)) (ROUND_UP (d_frac from2)) in
  let k := Z.min F (d_len to - o_intg o1) in
  dec_wf from1 -> dec_wf from2 -> dec_room to -> op_view from1 o1 ws1 -> op_view from2 o2 ws2 ->
  o_intg o2 <= o_intg o1 -> o_intg o1 <= d_len to ->
  sub_words from1 from2 o1 o2 (o_intg o1) (o_intg o2) (Z.min (o_frac o1) k) (Z.min (o_frac o2) k) k = Some acc ->
  Z.of_nat (length acc) = o_intg o1 + k ->
  exists tobuf, sub_greater from1 from2 o1 o2 F sign to = Some (mk_decimal (o_intg o1 * 9)
      (if o_intg o1 + F <=? d_len to then Z.max (d_frac from1) (d_frac from2) else k * 9) (d_len to) sign tobuf,
      if o_intg o1 + F <=? d_len to then E_DEC_OK else E_DEC_TRUNCATED) /\
    take (Z.to_nat (o_intg o1 + k)) tobuf = acc /\ length tobuf = length (d_buf to).
Proof.
  intros F k H1 H2 [Hl Hb] V1 V2 Hi Hfit ES LA.
  destruct (store_down_spec (d_buf to) (o_intg o1 + k) acc) as (tobuf & ET & LT & TT); [lia..|].
  replace (Z.to_nat (o_intg o1 + k) - length acc)%nat with 0%nat in TT by lia. simpl in TT.
  exists tobuf. split; [|done]. pose proof (ov_frac _ _ _ V1). pose proof (ov_frac _ _ _ V2).
  pose proof (ROUND_UP_bounds (d_frac from1) (wf_frac from1 H1)).
  pose proof (ROUND_UP_bounds (d_frac from2) (wf_frac from2 H2)).
  unfold sub_greater, FIX_INTG_FRAC_ERROR. destruct (Z.leb_spec (o_intg o1 + F) (d_len to)).
  - replace (d_len to <? o_intg o1 + F) with false by (symmetry; by apply Z.ltb_ge). simpl.
    assert (k = F) as Ek by lia. rewrite Ek, !Z.min_l in ES by lia. rewrite ES. simpl.
    rewrite Ek in *. replace (_ - length acc)%nat with 0%nat by lia. simpl. by rewrite ET.
  - replace (d_len to <? o_intg o1 + F) with true by (symmetry; by apply Z.ltb_lt).
    replace (d_len to <? o_intg o1) with false by (symmetry; by apply Z.ltb_ge). simpl.
    assert (k = d_len to - o_intg o1) as <- by lia. rewrite (Z.min_l (o_intg o2)) by lia. rewrite ES. simpl.
    replace (_ - length acc)%nat with 0%nat by lia. simpl. rewrite ET. simpl.
    unfold DIG_PER_DEC1. do 3 f_equal. lia.
Qed.

Lemma sub_greater_spec from1 from2 o1 o2 ws1 ws2 sign to :
  dec_wf from1 -> dec_wf from2 -> dec_room to -> op_view from1 o1 ws1 -> op_view from2 o2 ws2 ->
  0 <= o_intg o2 + o_frac o1 -> 0 <= o_intg o1 + o_frac o2 -> o_intg o2 <= o_intg o1 -> o_intg o1 <= d_len to ->
  let F := Z.max (ROUND_UP (d_frac from1)) (ROUND_UP (d_frac from2)) in
  let k := Z.min F (d_len to - o_intg o1) in
  dec_cut F from2 < dec_cut F from1 ->
  exists to', sub_greater from1 from2 o1 o2 F sign to =
      Some (to', if o_intg o1 + F <=? d_len to then E_DEC_OK else E_DEC_TRUNCATED) /\
    dec_wf to' /\ d_len to' = d_len to /\ d_sign to' = sign /\
    d_frac to' = (if o_intg o1 + F <=? d_len to then Z.max (d_frac from1) (d_frac from2) else k * 9) /\
    ROUND_UP (d_frac to') = k /\ dec_val to' = dec_cut k from1 - dec_cut k from2.
Proof.
  intros H1 H2 [Hl Hb] V1 V2 Hf1 Hf2 Hi Hfit F k Hlt.
  pose proof (wf_frac_words from1 H1) as W1. pose proof (wf_frac_words from2 H2) as W2.
  pose proof (ov_intg _ _ _ V1) as I1. pose proof (ov_intg _ _ _ V2) as I2.
  pose proof (dec_cut_mono k F from2 from1 H2 H1 ltac:(lia) ltac:(lia) ltac:(lia) ltac:(lia)) as Hle.
  destruct (op_view_prefix from1 o1 ws1 k H1 V1) as (z1 & u1 & r1 & B1 & Z1 & L1 & F1 & C1); [lia|].
  destruct (op_view_prefix from2 o2 ws2 k H2 V2) as (z2 & u2 & r2 & B2 & Z2 & L2 & F2 & C2); [lia|].
  rewrite <- C1, <- C2 in Hle.
  destruct (sub_words_spec from1 from2 o1 o2 (o_intg o1) (o_intg o2) (Z.min (o_frac o1) k) (Z.min (o_frac o2) k) k
    z1 u1 r1 z2 u2 r2) as (acc & ES & LA & FA & VA); try done; try (clear Hle Hlt C1 C2; lia).
  rewrite C1, C2 in VA. clear C1 C2 Hle.
  destruct (sub_greater_stores from1 from2 o1 o2 ws1 ws2 sign to acc) as (tobuf & EG & TT & LT); try done.
  fold F in EG, TT. fold k in EG, TT. rewrite EG. eexists. split; [done|].
  set (frac := if o_intg o1 + F <=? d_len to then Z.max (d_frac from1) (d_frac from2) else k * 9).
  assert (0 <= frac /\ ROUND_UP frac = k) as [Hfrac EK].
  { clear VA Hlt. pose proof (wf_frac from1 H1). pose proof (wf_frac from2 H2). unfold frac.
    destruct (Z.leb_spec (o_intg o1 + F) (d_len to)).
    - rewrite ROUND_UP_max by done. lia.
    - rewrite ROUND_UP_mul9; lia. }
  assert (0 < o_intg o1 + k) as Hpos.
  { pose proof (op_view_cut from1 o1 ws1 F H1 V1 ltac:(clear; lia)) as C.
    destruct (Z.eq_dec (o_intg o1 + F) 0) as [E0|]; [|clear VA C Hlt; lia].
    pose proof (lval_bounds (o_intg o1 + F) ws1 (ov_ok _ _ _ V1)) as B. rewrite <- C, E0 in B.
    pose proof (dec_cut_nonneg F from2 H2). destruct V1. simpl in *. lia. }
  destruct (stored_wf (d_len to) sign tobuf (o_intg o1) frac (dec_cut k from1 - dec_cut k from2)) as [W V];
    rewrite ?EK, ?TT; try done; try (clear VA Hlt; lia).
  unfold frac. destruct (Z.leb_spec (o_intg o1 + F) (d_len to)).
  - assert (k = F) as -> by (clear VA Hlt; lia).
    pose proof (ROUND_UP_bounds (Z.max (d_frac from1) (d_frac from2)) ltac:(pose proof (wf_frac from1 H1); clear VA Hlt; lia)) as B.
    rewrite ROUND_UP_max in B by (apply wf_frac; done). clear VA Hlt.
    apply Z.divide_sub_r; apply dec_cut_aligned; by try lia.
  - replace (9 * k - k * 9) with 0 by (clear; lia). apply Z.divide_1_l.
Qed.

(** What [do_sub] makes of the absolute values: zero when they are equal,
    otherwise the difference, with the sign of the greater operand, of the
    values cut to the fraction words that fit. *)
Definition sub_result (from1 from2 to : decimal_t) (to' : decimal_t) (e : Z) : Prop :=
  let F := Z.max (ROUND_UP (d_frac from1)) (ROUND_UP (d_frac from2)) in
  let k := ROUND_UP (d_frac to') in
  if dec_cut F from1 =? dec_cut F from2 then
    e = E_DEC_OK /\ d_sign to' = false /\ d_frac to' = 0 /\ dec_val to' = 0
  else
    d_sign to' = (if dec_cut F from2 <? dec_cut F from1 then d_sign from1 else negb (d_sign from1)) /\
    dec_val to' = Z.abs (dec_cut k from1 - dec_cut k from2) /\
    (e = E_DEC_OK /\ d_frac to' = Z.max (d_frac from1) (d_frac from2) \/
     e = E_DEC_TRUNCATED /\ d_frac to' = k * 9 /\ k < F /\
     d_len to - Z.max (ROUND_UP (d_intg from1)) (ROUND_UP (d_intg from2)) <= k).

Lemma sub_greater_result from1 from2 o1 o2 ws1 ws2 sign to :
  dec_wf from1 -> dec_wf from2 -> dec_room to -> op_view from1 o1 ws1 -> op_view from2 o2 ws2 ->
  0 <= o_intg o2 + o_frac o1 -> 0 <= o_intg o1 + o_frac o2 -> o_intg o2 <= o_intg o1 ->
  ROUND_UP (d_intg from1) <= d_len to ->
  let F := Z.max (ROUND_UP (d_frac from1)) (ROUND_UP (d_frac from2)) in
  dec_cut F from2 < dec_cut F from1 ->
  exists to' e, sub_greater from1 from2 o1 o2 F sign to = Some (to', e) /\
    dec_wf to' /\ d_len to' = d_len to /\ d_sign to' = sign /\
    let k := ROUND_UP (d_frac to') in
    dec_val to' = Z.abs (dec_cut k from1 - dec_cut k from2) /\
    (e = E_DEC_OK /\ d_frac to' = Z.max (d_frac from1) (d_frac from2) \/
     e = E_DEC_TRUNCATED /\ d_frac to' = k * 9 /\ k < F /\ d_len to - ROUND_UP (d_intg from1) <= k).
Proof.
  intros H1 H2 HR V1 V2 P1 P2 Hi Hl F Hlt. pose proof (ov_intg _ _ _ V1) as J1.
  destruct (sub_greater_spec from1 from2 o1 o2 ws1 ws2 sign to) as (to' & E & W & L & S & Fr & EK & V);
    try done; [clear Hlt; lia|].
  fold F in E, Fr, EK, V. eexists _, _. split; [exact E|]. split_and!; [done..|]. rewrite EK.
  pose proof (dec_val_nonneg to' W) as Hn. rewrite V in Hn. split; [rewrite V; lia|]. clear Hlt Hn V.
  destruct (Z.leb_spec (o_intg o1 + F) (d_len to)); [by left|right]. split_and!; [done..|lia|lia].
Qed.

Lemma do_sub_spec from1 from2 to : dec_wf from1 -> dec_wf from2 -> dec_room to ->
  ROUND_UP (d_intg from1) <= d_len to -> ROUND_UP (d_intg from2) <= d_len to ->
  exists to' e, do_sub from1 from2 to = Some (to', e) /\ dec_wf to' /\ d_len to' = d_len to /\
    sub_result from1 from2 to to' e.
Proof.
  intros H1 H2 HR I1 I2. unfold do_sub, sub_result.
  set (F := Z.max (ROUND_UP (d_frac from1)) (ROUND_UP (d_frac from2))).
  destruct (sub_prepare_spec from1 from2 F H1 H2) as (r & -> & Hr); [lia..|]. simpl.
  destruct r as [u|[[o1 o2] carry]].
  { destruct (decimal_make_zero_spec to HR) as (to' & -> & W & L & S & Fr & V). simpl.
    rewrite Hr, Z.eqb_refl. by eexists _, _. }
  destruct Hr as (ws1 & ws2 & V1 & V2 & P1 & P2 & Hc).
  destruct (Z.eqb_spec (dec_cut F from1) (dec_cut F from2)) as [E|_]; [lia|].
  destruct Hc as [(-> & Hlt & Hi)|(-> & Hlt & Hi)]; simpl.
  - destruct (sub_greater_result from1 from2 o1 o2 ws1 ws2 (d_sign from1) to) as (to' & e & E & W & L & S & V & R);
      try done.
    fold F in E. rewrite E. eexists _, _. do 3 (split; [done|]).
    destruct (Z.ltb_spec (dec_cut F from2) (dec_cut F from1)); [|lia]. split_and!; [done..|].
    fold F in R. clear Hlt V. destruct R as [|(?&?&?&?)]; [by left|right; split_and!; [done..|lia]].
  - unfold F in *. rewrite Z.max_comm in *.
    destruct (sub_greater_result from2 from1 o2 o1 ws2 ws1 (negb (d_sign from1)) to)
      as (to' & e & -> & W & L & S & V & R); try done.
    eexists _, _. do 3 (split; [done|]).
    rewrite (proj2 (Z.ltb_ge _ _)) by lia. split_and!; [done|rewrite V; lia|].
    clear Hlt V. destruct R as [[]|(?&?&?&?)]; [left|right]; split_and!; try done; lia.
Qed.

(** ** Exactness *)

Lemma first_word_small d w t n : dec_wf d -> dec_words d = w :: t -> 0 < d_intg d ->
  d_intg d <= n -> ROUND_UP (d_intg d) = ROUND_UP n -> ROUND_UP (n + 1) = ROUND_UP n -> w < 10 ^ 8.
Proof.
  intros Hd E Hp Hn E1 E2. eapply Z.lt_le_trans; [by eapply first_word_digits|].
  apply Z.pow_le_mono_r; [lia|]. rewrite !ROUND_UP_nonneg in * by lia.
  Z.to_euclidean_division_equations. lia.
Qed.

Lemma add_extra_room from1 from2 x : dec_wf from1 -> dec_wf from2 ->
  first_words from1 from2 (ROUND_UP (d_intg from1)) (ROUND_UP (d_intg from2)) = Some x ->
  Z.max (ROUND_UP (d_intg from1)) (ROUND_UP (d_intg from2)) + add_extra x
    <= ROUND_UP (Z.max (d_intg from1) (d_intg from2) + 1).
Proof.
  intros H1 H2. pose proof (wf_intg from1 H1) as P1. pose proof (wf_intg from2 H2) as P2.
  destruct (rd_first_word from1 H1) as (w1 & t1 & E1 & R1 & K1).
  destruct (rd_first_word from2 H2) as (w2 & t2 & E2 & R2 & K2).
  rewrite <- ROUND_UP_max by done. set (n := Z.max (d_intg from1) (d_intg from2)).
  destruct (Z.eq_dec (ROUND_UP (n + 1)) (ROUND_UP n)) as [E|E]; last first.
  { intros _. unfold add_extra. rewrite !ROUND_UP_nonneg in * by lia.
    destruct (DIG_MAX - 1 <? x); Z.to_euclidean_division_equations; lia. }
  pose proof (fun h => first_word_small from1 w1 t1 n H1 E1 h ltac:(lia)) as S1.
  pose proof (fun h => first_word_small from2 w2 t2 n H2 E2 h ltac:(lia)) as S2.
  assert (0 < n) as Hn.
  { destruct (Z.eq_dec n 0) as [E0|]; [|lia]. rewrite E0 in E. done. }
  pose proof (ROUND_UP_max (d_intg from1) (d_intg from2) P1 P2) as EM. fold n in EM.
  assert (0 < d_intg from1 \/ ROUND_UP (d_intg from1) = 0) as D1.
  { destruct (Z.eq_dec (d_intg from1) 0) as [->|]; [by right|left; lia]. }
  assert (0 < d_intg from2 \/ ROUND_UP (d_intg from2) = 0) as D2.
  { destruct (Z.eq_dec (d_intg from2) 0) as [->|]; [by right|left; lia]. }
  assert (0 < ROUND_UP n) as Hr by (pose proof (ROUND_UP_bounds n); lia).
  intros Hx. assert (x <= DIG_MAX - 1); [|unfold add_extra; rewrite (proj2 (Z.ltb_ge _ _)) by done; lia].
  unfold first_words in Hx. rewrite R1, R2 in Hx. unfold DIG_MAX, DIG_BASE.
  destruct (Z.ltb_spec (ROUND_UP (d_intg from2)) (ROUND_UP (d_intg from1)));
    [|destruct (Z.ltb_spec (ROUND_UP (d_intg from1)) (ROUND_UP (d_intg from2)))];
    simpl in Hx; injection Hx as <-.
  - specialize (S1 ltac:(lia) ltac:(lia) E). lia.
  - specialize (S2 ltac:(lia) ltac:(lia) E). lia.
  - specialize (S1 ltac:(lia) ltac:(lia) E). specialize (S2 ltac:(lia) ltac:(lia) E).
    unfold word_ok in *. rewrite wraps_id by (unfold in_s; lia). lia.
Qed.

Section exact.
Context (from1 from2 to : decimal_t) (size : Z).
Context (H1 : dec_wf from1) (H2 : dec_wf from2) (HR : dec_room to).
Context (Hs : decimal_result_size from1 from2 43 0 = Some size) (Hl : size <= d_len to).

Let F := Z.max (ROUND_UP (d_frac from1)) (ROUND_UP (d_frac from2)).

Lemma result_size_fits :
  ROUND_UP (Z.max (d_intg from1) (d_intg from2) + 1) + F <= d_len to /\
  Z.max (ROUND_UP (d_intg from1)) (ROUND_UP (d_intg from2)) <=
    ROUND_UP (Z.max (d_intg from1) (d_intg from2) + 1).
Proof.
  pose proof (wf_intg from1 H1). pose proof (wf_intg from2 H2).
  pose proof (wf_frac from1 H1). pose proof (wf_frac from2 H2).
  injection Hs as <-. unfold F. rewrite <- !ROUND_UP_max by done. split; [done|].
  rewrite !ROUND_UP_nonneg by lia. Z.to_euclidean_division_equations. lia.
Qed.

(** The value of a result with [F] fraction words, or none when it is zero. *)
Lemma result_Q to' v : dec_wf to' -> ROUND_UP (d_frac to') <= F -> sgn to' * dec_cut F to' = v ->
  (dec_Q to' == Qmake v (Z.to_pos (DIG_BASE ^ F)))%Q.
Proof. intros W E <-. by apply dec_Q_at. Qed.

Lemma frac_words_F to' : d_frac to' = Z.max (d_frac from1) (d_frac from2) -> ROUND_UP (d_frac to') = F.
Proof. intros ->. apply ROUND_UP_max; by apply wf_frac. Qed.

Lemma dec_cut_self d : dec_wf d -> dec_cut (ROUND_UP (d_frac d)) d = dec_val d.
Proof. intros Hd. rewrite dec_cut_extend by done. rewrite Z.sub_diag. lia. Qed.

Lemma do_add_exact : dec_nz from1 -> dec_nz from2 -> exists to', do_add from1 from2 to = Some (to', E_DEC_OK) /\ dec_wf to' /\ dec_nz to' /\
  (dec_Q to' == Qmake (sgn from1 * (dec_cut F from1 + dec_cut F from2)) (Z.to_pos (DIG_BASE ^ F)))%Q.
Proof.
  intros N1 N2. destruct (do_add_spec from1 from2 to H1 H2 HR) as (x & to' & e & Ex & -> & W & L & R).
  pose proof (add_extra_room from1 from2 x H1 H2 Ex). destruct result_size_fits.
  unfold add_result in R. fold F in R.
  rewrite (proj2 (Z.leb_le _ _)) in R by lia. destruct R as (-> & ES & EF & EV).
  apply frac_words_F in EF. exists to'. split_and!; [done..| |].
  - intros S. rewrite ES in S. specialize (N1 S).
    pose proof (dec_cut_nonneg F from2 H2). pose proof (dec_val_nonneg from1 H1).
    rewrite EV, (dec_cut_extend F from1) by (try done; unfold F; lia).
    pose proof (DIG_BASE_pow_pos (F - ROUND_UP (d_frac from1)) ltac:(unfold F; lia)). nia.
  - apply result_Q; [done|lia|]. rewrite <- EF at 1. rewrite dec_cut_self, EV by done. unfold sgn. by rewrite ES.
Qed.

Lemma do_sub_exact : exists to', do_sub from1 from2 to = Some (to', E_DEC_OK) /\ dec_wf to' /\ dec_nz to' /\
  (dec_Q to' == Qmake (sgn from1 * (dec_cut F from1 - dec_cut F from2)) (Z.to_pos (DIG_BASE ^ F)))%Q.
Proof.
  pose proof (wf_frac_words from1 H1). pose proof (wf_frac_words from2 H2).
  destruct result_size_fits. destruct (do_sub_spec from1 from2 to H1 H2 HR) as (to' & e & -> & W & L & R); [lia..|].
  unfold sub_result in R. fold F in R. exists to'.
  destruct (Z.eqb_spec (dec_cut F from1) (dec_cut F from2)) as [E|E].
  - destruct R as (-> & ES & EF & EV). split_and!; [done|done|by intros S; rewrite ES in S|].
    apply result_Q; [done|rewrite EF; unfold F; change (ROUND_UP 0) with 0; lia|]. rewrite E, Z.sub_diag, Z.mul_0_r.
    rewrite dec_cut_extend, EV by (try done; rewrite EF; unfold F; change (ROUND_UP 0) with 0; lia). lia.
  - destruct R as (ES & EV & R). destruct R as [[-> EF]|(_ & _ & ? & ?)]; [|lia].
    apply frac_words_F in EF. rewrite EF in EV. split_and!; [done|done|intros _; lia|].
    apply result_Q; [done|lia|]. rewrite <- EF at 1. rewrite dec_cut_self, EV by done. unfold sgn. rewrite ES.
    destruct (Z.ltb_spec (dec_cut F from2) (dec_cut F from1)), (d_sign from1); simpl; lia.
Qed.
End exact.

Lemma operands_Q from1 from2 : dec_wf from1 -> dec_wf from2 ->
  let F := Z.max (ROUND_UP (d_frac from1)) (ROUND_UP (d_frac from2)) in
  (dec_Q from1 == Qmake (sgn from1 * dec_cut F from1) (Z.to_pos (DIG_BASE ^ F)))%Q /\
  (dec_Q from2 == Qmake (sgn from2 * dec_cut F from2) (Z.to_pos (DIG_BASE ^ F)))%Q.
Proof. intros H1 H2 F. split; apply dec_Q_at; by try lia. Qed.

Lemma Qmake_opp a p : (- Qmake a p == Qmake (- a) p)%Q.
Proof. done. Qed.

(** C6: [decimal_add] is exact in an array of the size [decimal_result_size]
    asks for: the result is a well-formed decimal, never a negative zero, and
    its value is the sum of the values of the operands. *)
Theorem decimal_add_exact from1 from2 to size :
  dec_wf from1 -> dec_wf from2 -> dec_nz from1 -> dec_nz from2 -> dec_room to ->
  decimal_result_size from1 from2 43 0 = Some size -> size <= d_len to ->
  exists to', decimal_add from1 from2 to = Some (to', E_DEC_OK) /\ dec_wf to' /\ dec_nz to' /\
    (dec_Q to' == dec_Q from1 + dec_Q from2)%Q.
Proof.
  intros H1 H2 N1 N2 HR Hs Hl. destruct (operands_Q from1 from2 H1 H2) as [Q1 Q2].
  unfold decimal_add. destruct (eqb_spec (d_sign from1) (d_sign from2)) as [E|E].
  - destruct (do_add_exact from1 from2 to size) as (to' & -> & W & N & Q); try done.
    exists to'. split_and!; [done..|]. rewrite Q, Q1, Q2, Qmake_add. unfold sgn. rewrite E.
    apply eq_subrelation; [typeclasses eauto|]. f_equal. lia.
  - destruct (do_sub_exact from1 from2 to size) as (to' & -> & W & N & Q); try done.
    exists to'. split_and!; [done..|]. rewrite Q, Q1, Q2, Qmake_add.
    apply eq_subrelation; [typeclasses eauto|]. f_equal. unfold sgn.
    destruct (d_sign from1), (d_sign from2); by try lia.
Qed.

(** [decimal_sub] is exact in an array of the size [decimal_result_size]
    asks for an addition. *)
Theorem decimal_sub_exact from1 from2 to size :
  dec_wf from1 -> dec_wf from2 -> dec_nz from1 -> dec_nz from2 -> dec_room to ->
  decimal_result_size from1 from2 43 0 = Some size -> size <= d_len to ->
  exists to', decimal_sub from1 from2 to = Some (to', E_DEC_OK) /\ dec_wf to' /\ dec_nz to' /\
    (dec_Q to' == dec_Q from1 - dec_Q from2)%Q.
Proof.
  intros H1 H2 N1 N2 HR Hs Hl. destruct (operands_Q from1 from2 H1 H2) as [Q1 Q2].
  unfold decimal_sub, Qminus. destruct (eqb_spec (d_sign from1) (d_sign from2)) as [E|E].
  - destruct (do_sub_exact from1 from2 to size) as (to' & -> & W & N & Q); try done.
    exists to'. split_and!; [done..|]. rewrite Q, Q1, Q2, Qmake_opp, Qmake_add. unfold sgn. rewrite E.
    apply eq_subrelation; [typeclasses eauto|]. f_equal. lia.
  - destruct (do_add_exact from1 from2 to size) as (to' & -> & W & N & Q); try done.
    exists to'. split_and!; [done..|]. rewrite Q, Q1, Q2, Qmake_opp, Qmake_add.
    apply eq_subrelation; [typeclasses eauto|]. f_equal. unfold sgn.
    destruct (d_sign from1), (d_sign from2); by try lia.
Qed.

(** [decimal_cmp] decides the order of the values, whatever digits, words
    and zeroes the operands have. *)
Theorem decimal_cmp_correct from1 from2 :
  dec_wf from1 -> dec_wf from2 -> dec_nz from1 -> dec_nz from2 ->
  decimal_cmp from1 from2 =
    Some match (dec_Q from1 ?= dec_Q from2)%Q with Lt => -1 | Eq => 0 | Gt => 1 end.
Proof.
  intros H1 H2 N1 N2. destruct (operands_Q from1 from2 H1 H2) as [Q1 Q2].
  rewrite Q1, Q2, Qmake_compare. clear Q1 Q2. unfold decimal_cmp, sgn, dec_nz in *.
  set (F := Z.max (ROUND_UP (d_frac from1)) (ROUND_UP (d_frac from2))).
  pose proof (dec_cut_nonneg F from1 H1). pose proof (dec_cut_nonneg F from2 H2).
  pose proof (dec_cut_pos F from1 H1 ltac:(lia)). pose proof (dec_cut_pos F from2 H2 ltac:(lia)).
  destruct (eqb_spec (d_sign from1) (d_sign from2)) as [E|E].
  - unfold do_sub_cmp. destruct (sub_prepare_spec from1 from2 F H1 H2) as (r & -> & Hr); [lia..|]. simpl.
    f_equal. destruct r as [u|[[o1 o2] carry]].
    + rewrite Hr, E, Z.compare_refl. done.
    + destruct Hr as (_ & _ & _ & _ & _ & _ & [(-> & Hlt & _)|(-> & Hlt & _)]); rewrite <- E;
        destruct (d_sign from1); case_bool_decide; try done;
        match goal with |- context [?a ?= ?b] => destruct (Z.compare_spec a b) end; by try lia.
  - f_equal. destruct (d_sign from1) eqn:S1, (d_sign from2) eqn:S2; try done.
    + assert (dec_val from1 <> 0) by auto.
      destruct (Z.compare_spec (-1 * dec_cut F from1) (1 * dec_cut F from2)); by try lia.
    + assert (dec_val from2 <> 0) by auto.
      destruct (Z.compare_spec (1 * dec_cut F from1) (-1 * dec_cut F from2)); by try lia.
Qed.

(** ** Arrays with too little room for the fraction *)

Lemma dec_cut_error k n d : dec_wf d -> 0 <= k <= n -> ROUND_UP (d_frac d) <= n ->
  dec_cut k d * DIG_BASE ^ (n - k) <= dec_cut n d < dec_cut k d * DIG_BASE ^ (n - k) + DIG_BASE ^ (n - k).
Proof.
  intros Hd Hk Hn. rewrite (dec_cut_cut k n d) by done.
  pose proof (DIG_BASE_pow_pos (n - k) ltac:(lia)).
  pose proof (Z.div_mod (dec_cut n d) (DIG_BASE ^ (n - k)) ltac:(lia)).
  pose proof (Z.mod_pos_bound (dec_cut n d) (DIG_BASE ^ (n - k)) ltac:(lia)). lia.
Qed.

Section short.
Context (from1 from2 to : decimal_t).
Context (H1 : dec_wf from1) (H2 : dec_wf from2) (HR : dec_room to).
Context (Hl : ROUND_UP (Z.max (d_intg from1) (d_intg from2) + 1) <= d_len to).

Let F := Z.max (ROUND_UP (d_frac from1)) (ROUND_UP (d_frac from2)).
Let v1 := sgn from1 * dec_cut F from1.
Let v2 := sgn from2 * dec_cut F from2.

(** The error of a result, in units of the last fraction word of the operands. *)
Definition short_result (to' : decimal_t) (e : Z) : Prop :=
  dec_wf to' /\ ROUND_UP (d_frac to') <= F /\
  Z.abs (sgn to' * dec_cut F to' - (v1 + v2)) < 2 * DIG_BASE ^ (F - ROUND_UP (d_frac to')) /\
  (e = E_DEC_OK \/ e = E_DEC_TRUNCATED).

Lemma room_intg : Z.max (ROUND_UP (d_intg from1)) (ROUND_UP (d_intg from2)) <= d_len to.
Proof.
  pose proof (wf_intg from1 H1). pose proof (wf_intg from2 H2). etransitivity; [|exact Hl].
  rewrite <- ROUND_UP_max, !ROUND_UP_nonneg by lia. Z.to_euclidean_division_equations. lia.
Qed.

Lemma do_add_short : d_sign from1 = d_sign from2 ->
  exists to' e, do_add from1 from2 to = Some (to', e) /\ short_result to' e.
Proof.
  intros S. destruct (do_add_spec from1 from2 to H1 H2 HR) as (x & to' & e & Ex & -> & W & L & R).
  pose proof (add_extra_room from1 from2 x H1 H2 Ex) as HX. exists to', e. split; [done|].
  unfold add_result in R. fold F in R. rewrite (proj2 (Z.leb_le (_ + add_extra x) _)) in R by lia.
  set (intg0 := _ + add_extra x) in *.
  assert (exists k, 0 <= k <= F /\ ROUND_UP (d_frac to') = k /\ d_sign to' = d_sign from1 /\
    dec_val to' = dec_cut k from1 + dec_cut k from2 /\ (e = E_DEC_OK \/ e = E_DEC_TRUNCATED))
    as (k & Hk & EK & ES & EV & He).
  { pose proof (wf_frac_words from1 H1). pose proof (wf_frac_words from2 H2).
    destruct (Z.leb_spec (intg0 + F) (d_len to)).
    - destruct R as (-> & ES & EF & EV). exists F. split_and!; try done; [lia| |by left].
      rewrite EF. apply ROUND_UP_max; by apply wf_frac.
    - destruct R as (-> & ES & EF & EV). exists (d_len to - intg0). split_and!; try done; [lia..| |by right].
      rewrite EF. apply ROUND_UP_mul9. lia. }
  unfold short_result. rewrite EK. split_and!; [done|lia| |done].
  rewrite dec_cut_extend, EK, EV by (try done; lia). unfold v1, v2, sgn. rewrite ES, <- S.
  pose proof (dec_cut_error k F from1 H1 Hk ltac:(lia)). pose proof (dec_cut_error k F from2 H2 Hk ltac:(lia)).
  destruct (d_sign from1); lia.
Qed.

Lemma do_sub_short : d_sign from1 <> d_sign from2 ->
  exists to' e, do_sub from1 from2 to = Some (to', e) /\ short_result to' e.
Proof.
  intros S. pose proof room_intg. pose proof (wf_frac_words from1 H1). pose proof (wf_frac_words from2 H2).
  destruct (do_sub_spec from1 from2 to H1 H2 HR) as (to' & e & -> & W & L & R); [lia..|].
  exists to', e. split; [done|]. unfold sub_result in R. fold F in R.
  assert (v1 + v2 = sgn from1 * (dec_cut F from1 - dec_cut F from2)) as Ev.
  { unfold v1, v2, sgn. destruct (d_sign from1), (d_sign from2); by try lia. }
  unfold short_result. rewrite Ev. destruct (Z.eqb_spec (dec_cut F from1) (dec_cut F from2)) as [E|E].
  - destruct R as (-> & ES & EF & EV). rewrite EF. change (ROUND_UP 0) with 0. rewrite Z.sub_0_r, E.
    split_and!; [done|lia| |by left].
    rewrite dec_cut_extend, EV by (try done; rewrite EF; change (ROUND_UP 0) with 0; lia).
    pose proof (DIG_BASE_pow_pos F ltac:(lia)). lia.
  - destruct R as (ES & EV & R). set (k := ROUND_UP (d_frac to')) in *.
    assert (0 <= k <= F) as Hk.
    { split; [by apply wf_frac_words|]. destruct R as [(_ & EF)|(_ & _ & ? & _)]; [|lia].
      unfold k. rewrite EF, ROUND_UP_max by (by apply wf_frac). done. }
    split_and!; [done|lia| |destruct R as [[? _]|[? _]]; auto].
    rewrite dec_cut_extend, EV by (try done; lia). fold k.
    pose proof (dec_cut_error k F from1 H1 Hk ltac:(lia)). pose proof (dec_cut_error k F from2 H2 Hk ltac:(lia)).
    pose proof (dec_cut_mono k F from1 from2 H1 H2 Hk ltac:(lia) ltac:(lia)).
    pose proof (dec_cut_mono k F from2 from1 H2 H1 Hk ltac:(lia) ltac:(lia)).
    unfold sgn. rewrite ES.
    destruct (Z.ltb_spec (dec_cut F from2) (dec_cut F from1)).
    + rewrite (Z.abs_eq (dec_cut k from1 - _)) by lia. destruct (d_sign from1); lia.
    + rewrite (Z.abs_neq (dec_cut k from1 - _)) by lia. destruct (d_sign from1); simpl negb; cbv iota; lia.
Qed.
End short.

Lemma Qabs_diff_lt a b c F k : 0 <= k <= F -> Z.abs (a - b) < c * DIG_BASE ^ (F - k) ->
  (Qabs (Qmake a (Z.to_pos (DIG_BASE ^ F)) - Qmake b (Z.to_pos (DIG_BASE ^ F))) <
   Qmake c (Z.to_pos (DIG_BASE ^ k)))%Q.
Proof.
  intros Hk H. unfold Qminus. rewrite Qmake_opp, Qmake_add. unfold Qlt. simpl.
  rewrite !Z2Pos.id by (apply DIG_BASE_pow_pos; lia).
  replace (DIG_BASE ^ F) with (DIG_BASE ^ (F - k) * DIG_BASE ^ k)
    by (rewrite <- Z.pow_add_r by lia; f_equal; lia).
  rewrite Z.mul_assoc. apply Z.mul_lt_mono_pos_r; [apply DIG_BASE_pow_pos; lia|]. by rewrite Z.add_opp_r.
Qed.

(** With room for the integer words only, [decimal_add] never overflows, and
    what it loses of the fraction is less than two units of the last fraction
    word it keeps, also when the signs differ. *)
Theorem decimal_add_short from1 from2 to :
  dec_wf from1 -> dec_wf from2 -> dec_room to ->
  ROUND_UP (Z.max (d_intg from1) (d_intg from2) + 1) <= d_len to ->
  exists to' e, decimal_add from1 from2 to = Some (to', e) /\ dec_wf to' /\
    (e = E_DEC_OK \/ e = E_DEC_TRUNCATED) /\
    (Qabs (dec_Q to' - (dec_Q from1 + dec_Q from2)) <
     Qmake 2 (Z.to_pos (DIG_BASE ^ ROUND_UP (d_frac to'))))%Q.
Proof.
  intros H1 H2 HR Hl. destruct (operands_Q from1 from2 H1 H2) as [Q1 Q2].
  assert (exists to' e, decimal_add from1 from2 to = Some (to', e) /\ short_result from1 from2 to' e)
    as (to' & e & -> & W & K & B & He).
  { unfold decimal_add. destruct (eqb_spec (d_sign from1) (d_sign from2));
      [by apply do_add_short|by apply do_sub_short]. }
  exists to', e. split_and!; [done..|]. rewrite Q1, Q2, Qmake_add.
  rewrite (dec_Q_at (Z.max (ROUND_UP (d_frac from1)) (ROUND_UP (d_frac from2))) to') by done.
  apply Qabs_diff_lt; [|done]. split; [by apply wf_frac_words|done].
Qed.

(** ** Examples *)

(** 999999999.5, -1.25, 0.000000001 and an array. *)
Definition ex_dec1 : decimal_t := mk_decimal 9 1 2 false [999999999; 500000000].
Definition ex_dec2 : decimal_t := mk_decimal 1 2 3 true [1; 250000000; 7].
Definition ex_dec3 : decimal_t := mk_decimal 0 9 1 false [1].
Definition ex_room (n : nat) : decimal_t := mk_decimal 0 0 (Z.of_nat n) false (replicate n (-1)).

Lemma decimal_add_exact_witness :
  (exists to', decimal_add ex_dec1 ex_dec2 (ex_room 3) = Some (to', E_DEC_OK) /\ dec_wf to' /\ dec_nz to' /\
    (dec_Q to' == dec_Q ex_dec1 + dec_Q ex_dec2)%Q) /\
  (exists to', decimal_add ex_dec1 ex_dec1 (ex_room 3) = Some (to', E_DEC_OK) /\ dec_wf to' /\ dec_nz to' /\
    (dec_Q to' == dec_Q ex_dec1 + dec_Q ex_dec1)%Q).
Proof.
  split; (eapply decimal_add_exact;
    [by apply dec_wfb_wf|by apply dec_wfb_wf|done|done|done|reflexivity|done]).
Defined.

Lemma decimal_sub_exact_witness :
  (exists to', decimal_sub ex_dec1 ex_dec2 (ex_room 3) = Some (to', E_DEC_OK) /\ dec_wf to' /\ dec_nz to' /\
    (dec_Q to' == dec_Q ex_dec1 - dec_Q ex_dec2)%Q) /\
  (exists to', decimal_sub ex_dec3 ex_dec1 (ex_room 3) = Some (to', E_DEC_OK) /\ dec_wf to' /\ dec_nz to' /\
    (dec_Q to' == dec_Q ex_dec3 - dec_Q ex_dec1)%Q).
Proof.
  split; (eapply decimal_sub_exact;
    [by apply dec_wfb_wf|by apply dec_wfb_wf|done|done|done|reflexivity|done]).
Defined.

Lemma decimal_cmp_correct_witness :
  decimal_cmp ex_dec1 ex_dec3 =
    Some match (dec_Q ex_dec1 ?= dec_Q ex_dec3)%Q with Lt => -1 | Eq => 0 | Gt => 1 end /\
  decimal_cmp ex_dec2 ex_dec3 = Some (-1).
Proof.
  split; [apply decimal_cmp_correct|rewrite decimal_cmp_correct; [reflexivity|..]];
    try by apply dec_wfb_wf; done.
  all: try done.
Defined.

Lemma decimal_add_short_witness :
  exists to' e, decimal_add ex_dec1 ex_dec3 (ex_room 2) = Some (to', e) /\ dec_wf to' /\
    (e = E_DEC_OK \/ e = E_DEC_TRUNCATED) /\
    (Qabs (dec_Q to' - (dec_Q ex_dec1 + dec_Q ex_dec3)) <
     Qmake 2 (Z.to_pos (DIG_BASE ^ ROUND_UP (d_frac to'))))%Q.
Proof.
  apply decimal_add_short; [by apply dec_wfb_wf|by apply dec_wfb_wf|done|done].
Defined.

(** The size [decimal_result_size] gives for a subtraction is too small when
    the signs differ: [999999999 - (-1)] overflows in it, and the greatest
    number is stored with a positive sign even for [-999999999 - 1]. *)
Theorem decimal_sub_size_short :
  let a := mk_decimal 9 0 1 false [999999999] in
  let b := mk_decimal 1 0 1 true [1] in
  let na := mk_decimal 9 0 1 true [999999999] in
  let nb := mk_decimal 1 0 1 false [1] in
  decimal_result_size a b 45 0 = Some 1 /\
  decimal_sub a b (ex_room 1) = Some (mk_decimal 9 0 1 false [999999999], E_DEC_OVERFLOW) /\
  decimal_sub na nb (ex_room 1) = Some (mk_decimal 9 0 1 false [999999999], E_DEC_OVERFLOW).
Proof. vm_compute. done. Qed.
