(* ===== verification/DecimalMul.v ===== *)
(** * Fixed-point decimals: multiplication

    [decimal_mul] of [strings/decimal.c].  The words of the result are a list
    with the least significant word first, since [start0] moves from there up. *)

From Stdlib Require Import ZArith Lia QArith.
From stdpp Require Import base numbers option tactics list.
From S2P Require Import Prelude Decimal DecimalArith DecimalSub.

#[local] Open Scope Z_scope.

Definition NOT_FIXED_DEC : Z := 31.

Definition ADD2 (from1 from2 carry : Z) : Z * Z :=
  let a := wraps 64 (wraps 64 (from1 + from2) + carry) in
  let '(a, carry) := if DIG_BASE <=? a then (wraps 64 (a - DIG_BASE), 1) else (a, 0) in
  let '(a, carry) := if DIG_BASE <=? a then (wraps 64 (a - DIG_BASE), carry + 1) else (a, carry) in
  (wraps 32 a, carry).

(** [for (buf0--; carry; buf0--)]: the words from [buf0] up, and whether the
    carry ran out of the array. *)
Fixpoint mul_carry (r0 : list Z) (carry : Z) : list Z * bool :=
  if carry =? 0 then (r0, false)
  else match r0 with
       | [] => ([], true)
       | w :: r0 =>
           let '(a, carry) := ADD w 0 carry in
           let '(r0, ovf) := mul_carry r0 carry in (a :: r0, ovf)
       end.

(** The loop over [buf2], and what follows it.  [None] stores out of bounds. *)
Fixpoint mul_row (w1 : Z) (r2 r0 : list Z) (carry : Z) : option (list Z * bool) :=
  match r2 with
  | w2 :: r2 =>
      match r0 with
      | [] => None
      | w0 :: r0 =>
          let p := wraps 64 (w1 * w2) in
          let hi := wraps 32 (Z.quot p DIG_BASE) in
          let lo := wraps 32 (wraps 64 (p - wraps 64 (hi * DIG_BASE))) in
          let '(a, carry) := ADD2 w0 lo carry in
          '(r0, ovf) ← mul_row w1 r2 r0 (wraps 32 (carry + hi));
          Some (a :: r0, ovf)
      end
  | [] =>
      if carry =? 0 then Some (r0, false)
      else match r0 with
           | [] => Some ([], true)
           | w0 :: r0 =>
               let '(a, carry) := ADD2 w0 0 carry in
               let '(r0, ovf) := mul_carry r0 carry in Some (a :: r0, ovf)
           end
  end.

(** The loop over [buf1]; [start0] moves up by one word each time. *)
Fixpoint mul_rows (r1 r2 r0 : list Z) : option (list Z * bool) :=
  match r1 with
  | [] => Some (r0, false)
  | w1 :: r1 =>
      '(r0, ovf) ← mul_row w1 r2 r0 0;
      if (ovf : bool) then Some (r0, true)
      else match r0 with
           | [] => mul_rows r1 r2 []
           | w0 :: r0 => '(r0, ovf) ← mul_rows r1 r2 r0; Some (w0 :: r0, ovf)
           end
  end.

(** The sizes of the operands, after the correction for a bounded result. *)
Definition mul_sizes (intg1 intg2 frac1 frac2 intg0 frac0 iii jjj error : Z) : Z * Z * Z * Z :=
  if negb (error =? 0) then
    if intg0 <? iii then
      let iii := iii - intg0 in
      let jjj := Z.shiftr iii 1 in
      (intg1 - jjj, intg2 - (iii - jjj), 0, 0)
    else
      let jjj := jjj - frac0 in
      let iii := Z.shiftr jjj 1 in
      if frac1 <=? frac2 then (intg1, intg2, frac1 - iii, frac2 - (jjj - iii))
      else (intg1, intg2, frac1 - (jjj - iii), frac2 - iii)
  else (intg1, intg2, frac1, frac2).

(** The words a loop from [end - 1] down to [start] runs over: none when the
    correction made the operand empty. *)
Definition words_down (buf : list Z) (start end_ : Z) : option (list Z) :=
  if end_ <=? start then Some [] else ws ← words buf start end_; Some (rev ws).

(** [while (!*buf1 && to->intg > DIG_PER_DEC1)]: the words passed. *)
Fixpoint mul_leading_zeroes (ws : list Z) (intg : Z) : option Z :=
  match ws with
  | [] => None
  | w :: ws =>
      if (w =? 0) && (DIG_PER_DEC1 <? intg) then
        n ← mul_leading_zeroes ws (intg - DIG_PER_DEC1); Some (n + 1)
      else Some 0
  end.

(** The end of [decimal_mul]: no negative zero, no leading zero words. *)
Definition mul_finish (to : decimal_t) (intg0 frac0 : Z) : option decimal_t :=
  ws ← words (d_buf to) 0 (intg0 + frac0);
  to ← (if d_sign to && forallb (fun w => w =? 0) ws then decimal_make_zero to else Some to);
  let d_to_move := intg0 + ROUND_UP (d_frac to) in
  n ← mul_leading_zeroes (d_buf to) (d_intg to);
  let to := mk_decimal (d_intg to - n * DIG_PER_DEC1) (d_frac to) (d_len to) (d_sign to) (d_buf to) in
  if 0 <? n then
    moved ← words (d_buf to) n (n + (d_to_move - n));
    Some (with_buf to (moved ++ drop (length moved) (d_buf to)))
  else Some to.

Definition decimal_mul (from1 from2 to : decimal_t) : option (decimal_t * Z) :=
  let intg1 := ROUND_UP (d_intg from1) in let intg2 := ROUND_UP (d_intg from2) in
  let frac1 := ROUND_UP (d_frac from1) in let frac2 := ROUND_UP (d_frac from2) in
  let buf1 := intg1 in let buf2 := intg2 in
  let iii := ROUND_UP (d_intg from1 + d_intg from2) in
  let jjj := frac1 + frac2 in
  let '(intg0, frac0, error) := FIX_INTG_FRAC_ERROR (d_len to) iii jjj in
  let to_sign := xorb (d_sign from1) (d_sign from2) in
  let to_frac := Z.min (d_frac from1 + d_frac from2) NOT_FIXED_DEC in
  let to_intg := intg0 * DIG_PER_DEC1 in
  let to_frac := if negb (error =? 0) then Z.min to_frac (frac0 * DIG_PER_DEC1) else to_frac in
  let '(intg1, intg2, frac1, frac2) := mul_sizes intg1 intg2 frac1 frac2 intg0 frac0 iii jjj error in
  zeroed ← store_down (d_buf to) (intg0 + frac0) (replicate (Z.to_nat (intg0 + frac0)) 0);
  r1 ← words_down (d_buf from1) (buf1 - intg1) (buf1 + frac1);
  r2 ← words_down (d_buf from2) (buf2 - intg2) (buf2 + frac2);
  '(r0, ovf) ← mul_rows r1 r2 (replicate (Z.to_nat (intg0 + frac0)) 0);
  let to := mk_decimal to_intg to_frac (d_len to) to_sign
              (rev r0 ++ drop (Z.to_nat (intg0 + frac0)) zeroed) in
  if (ovf : bool) then Some (to, E_DEC_OVERFLOW)
  else to ← mul_finish to intg0 frac0; Some (to, error).

(** ** The loops *)

Lemma ADD2_spec w l c : word_ok w -> word_ok l -> word_ok c ->
  exists a c', ADD2 w l c = (a, c') /\ word_ok a /\ 0 <= c' <= 2 /\ a + c' * DIG_BASE = w + l + c.
Proof.
  unfold word_ok, ADD2, DIG_BASE. intros Hw Hl Hc.
  rewrite (wraps_id 64 (w + l)), (wraps_id 64 (w + l + c)) by (unfold in_s; lia).
  destruct (Z.leb_spec 1000000000 (w + l + c)).
  - rewrite (wraps_id 64 (w + l + c - 1000000000)) by (unfold in_s; lia).
    destruct (Z.leb_spec 1000000000 (w + l + c - 1000000000)).
    + rewrite (wraps_id 64), (wraps_id 32) by (unfold in_s; lia). eexists _, _. split; [done|]. lia.
    + rewrite (wraps_id 32) by (unfold in_s; lia). eexists _, _. split; [done|]. lia.
  - rewrite (proj2 (Z.leb_gt _ _)) by done. rewrite (wraps_id 32) by (unfold in_s; lia).
    eexists _, _. split; [done|]. lia.
Qed.

(** The product of two words. *)
Lemma mul_words w1 w2 : word_ok w1 -> word_ok w2 ->
  let p := wraps 64 (w1 * w2) in
  let hi := wraps 32 (Z.quot p DIG_BASE) in
  let lo := wraps 32 (wraps 64 (p - wraps 64 (hi * DIG_BASE))) in
  word_ok lo /\ 0 <= hi < DIG_BASE - 1 /\ lo + hi * DIG_BASE = w1 * w2.
Proof.
  unfold word_ok, DIG_BASE. intros H1 H2.
  assert (0 <= w1 * w2 <= 999999999 * 999999999) as Hp by nia.
  cbv zeta. rewrite (wraps_id 64 (w1 * w2)) by (unfold in_s; lia).
  rewrite Z.quot_div_nonneg by lia. set (p := w1 * w2) in *. clearbody p.
  assert (0 <= p / 1000000000 < 999999999) as Hh by (Z.to_euclidean_division_equations; lia).
  rewrite (wraps_id 32 (p / 1000000000)) by (unfold in_s; lia).
  rewrite (wraps_id 64 (p / 1000000000 * 1000000000)) by (unfold in_s; lia).
  assert (0 <= p - p / 1000000000 * 1000000000 < 1000000000) as Hl by (Z.to_euclidean_division_equations; lia).
  rewrite (wraps_id 64), (wraps_id 32) by (unfold in_s; lia). lia.
Qed.

(** The words after an addition that fits. *)
Definition row_result (r0 : list Z) (v : Z) (r : list Z * bool) : Prop :=
  exists r', r = (r', false) /\ length r' = length r0 /\ Forall word_ok r' /\ rval r' = rval r0 + v.

Lemma row_result_cons w r a v c x : word_ok a -> a + c * DIG_BASE = w + v ->
  row_result r c x -> row_result (w :: r) v (let '(r, ovf) := x in (a :: r, ovf)).
Proof.
  intros Ha E (r' & -> & L & F & V). exists (a :: r'). split_and!; [done|simpl; lia|by constructor|].
  rewrite !rval_cons, V. lia.
Qed.

Lemma mul_carry_spec r0 c : Forall word_ok r0 -> 0 <= c <= 1 ->
  rval r0 + c < DIG_BASE ^ Z.of_nat (length r0) -> row_result r0 c (mul_carry r0 c).
Proof.
  revert c. induction r0 as [|w r0 IH]; intros c F Hc Hlt.
  - change (rval []) with 0 in Hlt. simpl length in Hlt. change (DIG_BASE ^ Z.of_nat 0) with 1 in Hlt.
    assert (c = 0) as -> by lia. by exists [].
  - cbn [mul_carry]. destruct (Z.eqb_spec c 0) as [->|]; [by exists (w :: r0); rewrite Z.add_0_r|].
    inversion_clear F as [|?? Hw Fr].
    destruct (ADD_spec w 0 c Hw word_ok_0 Hc) as (a & c' & -> & Ha & Hc' & E).
    apply (row_result_cons w r0 a c c'); [done|lia|]. apply IH; [done..|].
    rewrite rval_cons in Hlt. simpl length in Hlt. rewrite Nat2Z.inj_succ, Z.pow_succ_r in Hlt by lia.
    unfold word_ok, DIG_BASE in *. lia.
Qed.

Lemma rval_fits_cons w r v : word_ok w -> rval (w :: r) + v < DIG_BASE ^ Z.of_nat (length (w :: r)) ->
  forall a c, 0 <= a -> a + c * DIG_BASE = w + v -> rval r + c < DIG_BASE ^ Z.of_nat (length r).
Proof.
  rewrite rval_cons. simpl length. rewrite Nat2Z.inj_succ, Z.pow_succ_r by lia.
  unfold word_ok, DIG_BASE. intros. lia.
Qed.

Lemma mul_row_spec w1 r2 r0 c : word_ok w1 -> Forall word_ok r2 -> Forall word_ok r0 -> word_ok c ->
  (length r2 <= length r0)%nat ->
  rval r0 + (w1 * rval r2 + c) < DIG_BASE ^ Z.of_nat (length r0) ->
  exists r, mul_row w1 r2 r0 c = Some r /\ row_result r0 (w1 * rval r2 + c) r.
Proof.
  intros H1. revert r0 c. induction r2 as [|w2 r2 IH]; intros r0 c F2 F0 Hc Hl Hlt.
  - change (rval []) with 0 in *. rewrite Z.mul_0_r, Z.add_0_l in *. cbn [mul_row].
    destruct (Z.eqb_spec c 0) as [->|]; [eexists; split; [done|]; by exists r0; rewrite Z.add_0_r|].
    destruct r0 as [|w0 r0].
    + change (rval []) with 0 in Hlt. change (DIG_BASE ^ Z.of_nat (length [])) with 1 in Hlt.
      unfold word_ok in Hc. lia.
    + inversion_clear F0 as [|?? H0 Fr0].
      destruct (ADD2_spec w0 0 c H0 word_ok_0 Hc) as (a & c' & -> & Ha & Hc' & E).
      pose proof (rval_fits_cons w0 r0 c H0 Hlt a c' ltac:(apply Ha) ltac:(lia)) as Hlt'.
      assert (0 <= c' <= 1) as Hc1 by (unfold word_ok, DIG_BASE in *; lia).
      pose proof (mul_carry_spec r0 c' Fr0 Hc1 Hlt') as R.
      apply (row_result_cons w0 r0 a c c' _ Ha ltac:(lia)) in R.
      destruct (mul_carry r0 c') as [r ovf]. by eexists.
  - destruct r0 as [|w0 r0]; [simpl in Hl; lia|]. inversion_clear F0 as [|?? H0 Fr0].
    inversion_clear F2 as [|?? H2 Fr2]. cbn [mul_row].
    destruct (mul_words w1 w2 H1 H2) as (Hlo & Hhi & Ep). cbv zeta in *.
    set (hi := wraps 32 (Z.quot _ _)) in *. set (lo := wraps 32 (wraps 64 _)) in *. clearbody lo. clearbody hi.
    destruct (ADD2_spec w0 lo c H0 Hlo Hc) as (a & c' & -> & Ha & Hc' & E).
    rewrite (rval_cons w2) in *.
    assert (w1 * w2 <= (DIG_BASE - 1) * (DIG_BASE - 1)) as Hp by (unfold word_ok, DIG_BASE in *; nia).
    assert (word_ok (c' + hi)) as Hc2 by (unfold word_ok, DIG_BASE in *; lia).
    rewrite wraps_id by (unfold in_s, word_ok, DIG_BASE in *; lia).
    assert (a + (w1 * rval r2 + (c' + hi)) * DIG_BASE = w0 + (w1 * (w2 + DIG_BASE * rval r2) + c)) as Es by lia.
    destruct (IH r0 (c' + hi) Fr2 Fr0 Hc2 ltac:(simpl in Hl; lia)) as (r & -> & R).
    { eapply rval_fits_cons; [exact H0|exact Hlt|apply Ha|exact Es]. }
    apply (row_result_cons w0 r0 a _ _ _ Ha Es) in R. destruct r as [r ovf]. by eexists.
Qed.

Lemma mul_rows_spec r1 r2 r0 : Forall word_ok r1 -> Forall word_ok r2 -> Forall word_ok r0 ->
  (length r1 + length r2 <= length r0 + 1)%nat ->
  rval r0 + rval r1 * rval r2 < DIG_BASE ^ Z.of_nat (length r0) ->
  exists r, mul_rows r1 r2 r0 = Some r /\ row_result r0 (rval r1 * rval r2) r.
Proof.
  intros F1 F2. revert r0. induction r1 as [|w1 r1 IH]; intros r0 F0 Hl Hlt.
  - eexists. split; [done|]. exists r0. change (rval []) with 0. rewrite Z.mul_0_l, Z.add_0_r. done.
  - inversion_clear F1 as [|?? H1 Fr1]. specialize (IH Fr1). cbn [mul_rows].
    rewrite rval_cons in Hlt |- *. pose proof (rval_bounds r1 Fr1). pose proof (rval_bounds r2 F2).
    destruct (mul_row_spec w1 r2 r0 0 H1 F2 F0 word_ok_0) as (? & -> & (r' & -> & L & F & V)).
    { simpl in Hl. lia. }
    { assert (0 <= DIG_BASE * rval r1 * rval r2) by (unfold DIG_BASE; nia). lia. }
    rewrite Z.add_0_r in V. simpl. destruct r' as [|a r'].
    + destruct r0; [|done]. destruct r1, r2; simpl in Hl; try lia. eexists. split; [done|].
      exists []. split_and!; try done. change (rval []) with 0. lia.
    + destruct r0 as [|w0 r0]; [done|]. inversion_clear F as [|?? Ha Fr'].
      rewrite !rval_cons in V. rewrite !rval_cons in Hlt.
      assert (length r' = length r0) as L' by (simpl in L; lia).
      destruct (IH r' Fr') as (r & -> & R).
      { simpl in Hl. lia. }
      { rewrite L'. simpl length in Hlt. rewrite Nat2Z.inj_succ, Z.pow_succ_r in Hlt by lia.
        unfold word_ok, DIG_BASE in *. lia. }
      destruct R as (r'' & -> & L'' & F'' & V''). simpl. eexists. split; [done|]. exists (a :: r'').
      split_and!; [done|simpl; lia|by constructor|]. rewrite !rval_cons. lia.
Qed.

(** ** The end of the operation *)

Lemma mul_leading_zeroes_spec ws m : 0 <= m -> Z.max m 1 <= Z.of_nat (length ws) ->
  exists n, mul_leading_zeroes ws (m * 9) = Some n /\ 0 <= n <= Z.max 0 (m - 1) /\
    Forall (eq 0) (take (Z.to_nat n) ws).
Proof.
  revert m. induction ws as [|w ws IH]; intros m Hm Hl; [simpl in Hl; lia|]. simpl length in Hl.
  cbn [mul_leading_zeroes]. unfold DIG_PER_DEC1 in *.
  destruct (Z.eqb_spec w 0) as [->|]; [|exists 0; split_and!; by try lia].
  destruct (Z.ltb_spec 9 (m * 9)); simpl; [|exists 0; split_and!; by try lia].
  destruct (IH (m - 1)) as (n & E & Hn & Hz); [lia..|].
  replace (m * 9 - 9) with ((m - 1) * 9) by lia. rewrite E. simpl. exists (n + 1).
  split_and!; [done|lia..|]. replace (Z.to_nat (n + 1)) with (S (Z.to_nat n)) by lia. by constructor.
Qed.

(** Leading zero words removed from a decimal of full integer words. *)
Lemma drop_leading_wf len sign buf intg frac n :
  dec_wf (mk_decimal (intg * 9) frac len sign buf) -> 0 <= intg -> 0 <= n -> n <= Z.max 0 (intg - 1) ->
  Forall (eq 0) (take (Z.to_nat n) buf) ->
  let d := mk_decimal (intg * 9) frac len sign buf in
  let moved := take (Z.to_nat (intg + ROUND_UP frac - n)) (drop (Z.to_nat n) buf) in
  let d' := mk_decimal ((intg - n) * 9) frac len sign (moved ++ drop (length moved) buf) in
  dec_wf d' /\ dec_val d' = dec_val d.
Proof.
  intros Hd Hi Hn Hni Hz d moved d'. pose proof (wf_frac d Hd) as Hf. simpl in Hf.
  pose proof (ROUND_UP_bounds frac Hf). pose proof (dec_words_some d Hd) as Hs. simpl in Hs.
  rewrite ROUND_UP_mul9 in Hs by done.
  destruct Hd as [[Hl Hb] _ _ _ Hfit Hok _ Ha]. unfold dec_val, dec_words in Hok, Ha. simpl in Hl, Hb, Hfit, Hok, Ha.
  rewrite ROUND_UP_mul9 in Hfit, Hok, Ha by lia.
  assert (length moved = Z.to_nat (intg - n + ROUND_UP frac)) as Lm.
  { unfold moved. rewrite length_take, length_drop. lia. }
  assert (take (Z.to_nat (intg + ROUND_UP frac)) buf = take (Z.to_nat n) buf ++ moved) as E.
  { unfold moved. rewrite take_take_drop. f_equal. lia. }
  assert (take (Z.to_nat (intg - n + ROUND_UP frac)) (moved ++ drop (length moved) buf) = moved) as E'.
  { by apply take_app_length'. }
  rewrite E in Hok, Ha. rewrite dval_app, (dval_all_zero _ Hz), Z.add_0_l in Ha.
  assert (dec_val d = dval moved) as ->.
  { unfold dec_val, dec_words, d. simpl. rewrite ROUND_UP_mul9, E, dval_app, (dval_all_zero _ Hz) by done. done. }
  apply Forall_app in Hok as [_ Hok].
  assert (length (moved ++ drop (length moved) buf) = length buf) as Lb.
  { rewrite length_app, length_drop. lia. }
  apply stored_wf; rewrite ?E', ?Lb; try done; lia.
Qed.

(** The words before the fraction are cut to [to->frac] digits. *)
Lemma dec_words_prefix to intg frac0 : dec_wf to -> 0 <= intg -> d_intg to = intg * 9 ->
  ROUND_UP (d_frac to) <= frac0 ->
  exists rest, take (Z.to_nat (intg + frac0)) (d_buf to) = dec_words to ++ rest.
Proof.
  intros Hd Hi Ei Hf. pose proof (wf_frac_words to Hd). unfold dec_words. rewrite Ei, ROUND_UP_mul9 by done.
  exists (drop (Z.to_nat (intg + ROUND_UP (d_frac to))) (take (Z.to_nat (intg + frac0)) (d_buf to))).
  rewrite <- (take_drop (Z.to_nat (intg + ROUND_UP (d_frac to))) (take _ (d_buf to))) at 1.
  rewrite take_take. do 2 f_equal. lia.
Qed.

Lemma forallb_zero ws : forallb (fun w => w =? 0) ws = true <-> Forall (eq 0) ws.
Proof.
  rewrite forallb_forall, Forall_forall. split.
  - intros H w Hw. symmetry. by apply Z.eqb_eq, H, list_elem_of_In.
  - intros H w Hw. apply Z.eqb_eq. symmetry. by apply H, list_elem_of_In.
Qed.

Definition finished (to to' : decimal_t) : Prop :=
  dec_wf to' /\ dec_nz to' /\ (dec_Q to' == dec_Q to)%Q /\ d_len to' = d_len to.

Lemma mul_finish_zero to : dec_room to -> dec_val to = 0 ->
  exists to', decimal_make_zero to = Some to' /\ mul_leading_zeroes (d_buf to') (d_intg to') = Some 0 /\
    finished to to'.
Proof.
  intros HR Ev. destruct (decimal_make_zero_spec to HR) as (to' & Eto & W & L & S & Fr & V).
  exists to'. split; [done|]. split.
  - revert Eto. destruct HR. unfold decimal_make_zero, wr. destruct (d_buf to) as [|w buf]; [simpl in *; lia|].
    simpl length. zcases. by intros [= <-].
  - split_and!; [done| |by rewrite (dec_Q_zero to Ev); apply dec_Q_zero|done].
    intros H. by rewrite S in H.
Qed.

Lemma mul_finish_spec to intg frac0 : dec_wf to -> 0 <= intg -> d_intg to = intg * 9 ->
  ROUND_UP (d_frac to) <= frac0 -> intg + frac0 <= d_len to ->
  (dec_val to = 0 -> Forall (eq 0) (take (Z.to_nat (intg + frac0)) (d_buf to))) ->
  exists to', mul_finish to intg frac0 = Some to' /\ finished to to'.
Proof.
  intros Hd Hi Ei Hf Hl H0. unfold mul_finish. pose proof (wf_room to Hd) as [Hlen Hb].
  pose proof (wf_frac_words to Hd) as Hfr.
  destruct (dec_words_prefix to intg frac0 Hd Hi Ei Hf) as [rest ET].
  rewrite words_slice by lia. simpl.
  rewrite Z.sub_0_r. change (drop (Z.to_nat 0) (d_buf to)) with (d_buf to). set (ws := take (Z.to_nat (intg + frac0)) (d_buf to)) in *.
  destruct (d_sign to && forallb (fun w => w =? 0) ws) eqn:Ez.
  - apply andb_true_iff in Ez as [Es Ez]. apply forallb_zero in Ez. rewrite ET in Ez.
    apply Forall_app in Ez as [Ez _].
    destruct (mul_finish_zero to (conj Hlen Hb) (dval_all_zero _ Ez)) as (to' & -> & EZ & Fin). cbn [mbind option_bind].
    rewrite EZ. cbn [mbind option_bind]. simpl. eexists. split; [done|]. rewrite Z.sub_0_r. by destruct to'.
  - simpl. rewrite Ei. destruct (mul_leading_zeroes_spec (d_buf to) intg) as (n & -> & Hn & Hz); [lia..|]. simpl.
    assert (dec_nz to) as N.
    { intros Hs Hv. apply H0, forallb_zero in Hv. by rewrite Hs, Hv in Ez. }
    destruct to as [i f l sg b]. simpl in *. subst i. unfold DIG_PER_DEC1.
    replace (intg * 9 - n * 9) with ((intg - n) * 9) by lia.
    destruct (drop_leading_wf l sg b intg f n Hd Hi) as [W V]; [lia..|done|].
    destruct (Z.ltb_spec 0 n).
    + rewrite words_slice by lia.
      simpl. replace (n + (intg + ROUND_UP f - n) - n) with (intg + ROUND_UP f - n) by lia.
      unfold with_buf. cbn [d_intg d_frac d_len d_sign d_buf]. eexists. split; [done|]. split_and!; [done| | |done].
      * intros Hs. rewrite V. by apply N.
      * unfold dec_Q, dec_sval. simpl. by rewrite V.
    + assert (n = 0) as -> by lia. rewrite Z.sub_0_r. eexists. by split_and!.
Qed.

(** ** Exactness *)

Section product.
Context (from1 from2 : decimal_t) (H1 : dec_wf from1) (H2 : dec_wf from2).

Let intg0 := ROUND_UP (d_intg from1 + d_intg from2).
Let frac0 := ROUND_UP (d_frac from1) + ROUND_UP (d_frac from2).

Lemma product_sizes : 0 <= intg0 /\ 0 <= frac0 /\ 0 < intg0 + frac0 /\
  ROUND_UP (d_intg from1) + ROUND_UP (d_intg from2) <= intg0 + 1 /\
  d_intg from1 + d_intg from2 <= 9 * intg0 /\
  ROUND_UP (d_frac from1 + d_frac from2) <= frac0 /\
  0 <= d_frac from1 + d_frac from2 <= 9 * ROUND_UP (d_frac from1 + d_frac from2) /\
  0 < intg0 + ROUND_UP (d_frac from1 + d_frac from2).
Proof.
  pose proof (wf_intg _ H1). pose proof (wf_intg _ H2). pose proof (wf_frac _ H1). pose proof (wf_frac _ H2).
  pose proof (wf_some _ H1). unfold intg0, frac0. rewrite !ROUND_UP_nonneg by lia.
  Z.to_euclidean_division_equations. lia.
Qed.

Lemma product_fits : 0 <= dec_val from1 * dec_val from2 < DIG_BASE ^ (intg0 + frac0).
Proof.
  destruct product_sizes as (? & ? & _ & _ & ? & _).
  pose proof (dec_val_nonneg _ H1). pose proof (dec_val_nonneg _ H2).
  pose proof (wf_top _ H1) as T1. pose proof (wf_top _ H2) as T2.
  pose proof (wf_intg _ H1). pose proof (wf_intg _ H2).
  pose proof (wf_frac_words _ H1). pose proof (wf_frac_words _ H2).
  split; [by apply Z.mul_nonneg_nonneg|].
  eapply Z.lt_le_trans; [by apply Z.mul_lt_mono_nonneg|].
  rewrite <- Z.pow_add_r, DIG_BASE_pow by lia. apply Z.pow_le_mono_r; [done|]. unfold frac0. lia.
Qed.

Lemma product_aligned :
  (10 ^ (9 * frac0 - (d_frac from1 + d_frac from2)) | dec_val from1 * dec_val from2).
Proof.
  pose proof (ROUND_UP_bounds _ (wf_frac _ H1)). pose proof (ROUND_UP_bounds _ (wf_frac _ H2)).
  destruct (wf_aligned _ H1) as [q1 E1]. destruct (wf_aligned _ H2) as [q2 E2].
  exists (q1 * q2). rewrite E1, E2. unfold frac0.
  replace (9 * (ROUND_UP (d_frac from1) + ROUND_UP (d_frac from2)) - (d_frac from1 + d_frac from2))
    with (9 * ROUND_UP (d_frac from1) - d_frac from1 + (9 * ROUND_UP (d_frac from2) - d_frac from2)) by lia.
  rewrite Z.pow_add_r by lia. ring.
Qed.

(** The words of the product down to its last digit: the others are zero. *)
Lemma product_words ws : Z.of_nat (length ws) = intg0 + frac0 -> Forall word_ok ws ->
  dval ws = dec_val from1 * dec_val from2 ->
  let frac := d_frac from1 + d_frac from2 in
  let k := ROUND_UP frac in
  exists hd tl, ws = hd ++ tl /\ Z.of_nat (length hd) = intg0 + k /\ dval tl = 0 /\
    dval hd * DIG_BASE ^ (frac0 - k) = dec_val from1 * dec_val from2 /\ (10 ^ (9 * k - frac) | dval hd).
Proof.
  intros L F V frac k. destruct product_sizes as (? & ? & _ & _ & _ & Hk & Hfr & _). fold frac k in Hk, Hfr.
  destruct (split_words ws 0 (intg0 + k)) as (h & hd & tl & -> & Lh & Lhd); [lia..|].
  assert (h = []) as -> by (destruct h; [done|simpl in *; lia]). simpl in *.
  rewrite length_app in L. apply Forall_app in F as [_ Ft]. exists hd, tl.
  destruct product_aligned as [q Eq]. rewrite <- V, dval_app in Eq. rewrite <- V, dval_app.
  pose proof (dval_bounds tl Ft) as Bt.
  replace (Z.of_nat (length tl)) with (frac0 - k) in * by lia.
  fold frac in Eq. replace (9 * frac0 - frac) with (9 * k - frac + 9 * (frac0 - k)) in Eq by lia.
  rewrite Z.pow_add_r, <- DIG_BASE_pow, Z.mul_assoc in Eq by lia.
  assert (dval tl = 0 /\ dval hd = q * 10 ^ (9 * k - frac)) as [Et Eh].
  { set (P := DIG_BASE ^ (frac0 - k)) in *. set (T := 10 ^ (9 * k - frac)) in *.
    assert (dval tl = 0) as E0.
    { rewrite <- (Z.mod_small (dval tl) P), <- (Z_mod_plus_full (dval tl) (dval hd) P) by done.
      rewrite Z.add_comm, Eq. apply Z_mod_mult. }
    split; [done|]. apply (Z.mul_reg_r _ _ P); lia. }
  rewrite Et, Eh. split_and!; [done..|lia|by exists q].
Qed.
End product.

Lemma dval_zero_inv ws : Forall word_ok ws -> dval ws = 0 -> Forall (eq 0) ws.
Proof.
  induction 1 as [|w ws Hw Hws IH]; [by constructor|]. rewrite dval_cons. intros E.
  pose proof (dval_bounds ws Hws). pose proof (DIG_BASE_pow_pos (Z.of_nat (length ws)) ltac:(lia)).
  unfold word_ok in Hw. assert (w = 0) as -> by nia. constructor; [done|]. apply IH. lia.
Qed.

Lemma words_down_all d : dec_wf d ->
  words_down (d_buf d) (ROUND_UP (d_intg d) - ROUND_UP (d_intg d)) (ROUND_UP (d_intg d) + ROUND_UP (d_frac d)) =
  Some (rev (dec_words d)).
Proof.
  intros Hd. pose proof (dec_words_some d Hd). pose proof (wf_room d Hd) as [_ Hb]. pose proof (wf_fit d Hd).
  unfold words_down. rewrite Z.sub_diag, (proj2 (Z.leb_gt _ _)), words_slice by lia. simpl.
  rewrite Z.sub_0_r. done.
Qed.

(** The words [decimal_mul] computes when the product fits. *)
Lemma mul_rows_product from1 from2 : dec_wf from1 -> dec_wf from2 ->
  let n := ROUND_UP (d_intg from1 + d_intg from2) + (ROUND_UP (d_frac from1) + ROUND_UP (d_frac from2)) in
  exists r0, mul_rows (rev (dec_words from1)) (rev (dec_words from2)) (replicate (Z.to_nat n) 0) =
      Some (r0, false) /\ Z.of_nat (length r0) = n /\ Forall word_ok (rev r0) /\
    dval (rev r0) = dec_val from1 * dec_val from2.
Proof.
  intros H1 H2 n. destruct (product_sizes from1 from2 H1 H2) as (? & ? & _ & Hl & _ & _).
  pose proof (product_fits from1 from2 H1 H2) as Hp. fold n in Hp.
  pose proof (dec_words_length _ H1). pose proof (dec_words_length _ H2).
  destruct (mul_rows_spec (rev (dec_words from1)) (rev (dec_words from2)) (replicate (Z.to_nat n) 0))
    as (? & -> & (r0 & -> & L & F & V)); try apply List.Forall_rev; try apply wf_words; try done.
  - apply word_ok_zeroes.
  - rewrite !length_rev, length_replicate. clear Hp. lia.
  - unfold rval. rewrite rev_zeroes, dval_zeroes, !rev_involutive, length_replicate, Z2Nat.id by (clear Hp; lia).
    apply Hp.
  - exists r0. split_and!; [done| |by apply List.Forall_rev|].
    + rewrite L, length_replicate. clear Hp. lia.
    + unfold rval in V. rewrite V, rev_zeroes, dval_zeroes, !rev_involutive. done.
Qed.

(** [decimal_mul] up to the end, in an array with enough room. *)
Lemma decimal_mul_words from1 from2 to :
  let intg0 := ROUND_UP (d_intg from1 + d_intg from2) in
  let frac0 := ROUND_UP (d_frac from1) + ROUND_UP (d_frac from2) in
  dec_wf from1 -> dec_wf from2 -> dec_room to -> intg0 + frac0 <= d_len to ->
  exists ws rest, length (ws ++ rest) = length (d_buf to) /\ Z.of_nat (length ws) = intg0 + frac0 /\
    Forall word_ok ws /\ dval ws = dec_val from1 * dec_val from2 /\
    decimal_mul from1 from2 to =
      (to ← mul_finish (mk_decimal (intg0 * 9) (Z.min (d_frac from1 + d_frac from2) NOT_FIXED_DEC) (d_len to)
                          (xorb (d_sign from1) (d_sign from2)) (ws ++ rest)) intg0 frac0;
       Some (to, E_DEC_OK)).
Proof.
  intros intg0 frac0 H1 H2 [Hl Hb] Hs.
  destruct (product_sizes from1 from2 H1 H2) as (I0 & F0 & P0 & _). fold intg0 frac0 in I0, F0, P0.
  destruct (mul_rows_product from1 from2 H1 H2) as (r0 & ER & Lr & Fr & Vr). fold intg0 frac0 in ER, Lr.
  destruct (store_down_spec (d_buf to) (intg0 + frac0) (replicate (Z.to_nat (intg0 + frac0)) 0))
    as (zeroed & EZ & LZ & _); [rewrite length_replicate; lia|lia|].
  exists (rev r0), (drop (Z.to_nat (intg0 + frac0)) zeroed).
  rewrite length_app, length_rev, length_drop. split_and!; [lia|lia|done..|].
  unfold decimal_mul, FIX_INTG_FRAC_ERROR. fold intg0 frac0. rewrite (proj2 (Z.ltb_ge _ _)) by lia.
  unfold mul_sizes. simpl. rewrite EZ. simpl. rewrite !words_down_all by done. simpl. rewrite ER. done.
Qed.

(** C7: [decimal_mul] is exact in an array of the size [decimal_result_size]
    asks for, as long as the factors have at most 31 digits after the point
    together: the result is well-formed, never a negative zero, and its value is
    the product of the values. *)
Theorem decimal_mul_exact from1 from2 to size :
  dec_wf from1 -> dec_wf from2 -> dec_room to ->
  decimal_result_size from1 from2 42 0 = Some size -> size <= d_len to ->
  d_frac from1 + d_frac from2 <= NOT_FIXED_DEC ->
  exists to', decimal_mul from1 from2 to = Some (to', E_DEC_OK) /\ dec_wf to' /\ dec_nz to' /\
    (dec_Q to' == dec_Q from1 * dec_Q from2)%Q.
Proof.
  intros H1 H2 HR [= <-] Hs Hfr. pose proof HR as [Hl Hb].
  destruct (product_sizes from1 from2 H1 H2) as (I0 & F0 & P0 & _ & _ & Hk & Hf0 & Hp).
  destruct (decimal_mul_words from1 from2 to H1 H2 HR ltac:(lia)) as (ws & rest & Lb & Lw & Fw & Vw & ->).
  destruct (product_words from1 from2 H1 H2 ws Lw Fw Vw) as (hd & tl & -> & Lh & Et & Eh & Ha).
  rewrite Z.min_l by done. set (frac := d_frac from1 + d_frac from2) in *.
  set (intg0 := ROUND_UP (d_intg from1 + d_intg from2)) in *.
  set (frac0 := ROUND_UP (d_frac from1) + ROUND_UP (d_frac from2)) in *.
  set (k := ROUND_UP frac) in *. rewrite <- app_assoc in *. rewrite !length_app in *.
  set (buf := hd ++ tl ++ rest) in *. set (sg := xorb (d_sign from1) (d_sign from2)).
  assert (take (Z.to_nat (intg0 + k)) buf = hd) as ET by (apply take_app_length'; lia).
  apply Forall_app in Fw as [Fh Ft].
  destruct (stored_wf (d_len to) sg buf intg0 frac (dval hd)) as [W V]; fold k; rewrite ?ET; try done; try lia.
  { unfold buf. rewrite !length_app. lia. }
  destruct (mul_finish_spec (mk_decimal (intg0 * 9) frac (d_len to) sg buf) intg0 frac0)
    as (to' & -> & W' & N' & Q' & _); try done; try (simpl; fold k; lia).
  - rewrite V. intros E0. simpl. unfold buf. rewrite app_assoc, take_app_length' by (rewrite length_app; lia).
    apply Forall_app. split; by apply dval_zero_inv.
  - exists to'. split_and!; [done..|]. rewrite Q'. unfold dec_Q, dec_sval, Qeq, Qmult. rewrite V. simpl.
    fold k. rewrite Pos2Z.inj_mul, !Z2Pos.id by (apply DIG_BASE_pow_pos; by first [apply wf_frac_words|lia]).
    rewrite <- Z.pow_add_r by (by apply wf_frac_words). fold frac0.
    replace frac0 with (frac0 - k + k) by lia. rewrite Z.pow_add_r, Z.mul_assoc by lia. f_equal.
    unfold sg. destruct (d_sign from1), (d_sign from2); simpl xorb; cbv iota; lia.
Qed.

Lemma decimal_mul_exact_witness :
  (exists to', decimal_mul ex_dec1 ex_dec2 (ex_room 5) = Some (to', E_DEC_OK) /\ dec_wf to' /\ dec_nz to' /\
    (dec_Q to' == dec_Q ex_dec1 * dec_Q ex_dec2)%Q) /\
  (exists to', decimal_mul ex_dec3 ex_dec2 (ex_room 3) = Some (to', E_DEC_OK) /\ dec_wf to' /\ dec_nz to' /\
    (dec_Q to' == dec_Q ex_dec3 * dec_Q ex_dec2)%Q).
Proof.
  split; (eapply decimal_mul_exact;
    [by apply dec_wfb_wf|by apply dec_wfb_wf|done|reflexivity|done|done]).
Defined.

(** [decimal_mul] caps the number of digits after the point to 31 without
    rounding the last word to them: the product of two numbers of 16 digits keeps
    its 32nd digit in the last word although the result says it has 31. *)
Theorem decimal_mul_hidden_digit :
  let a := mk_decimal 1 16 3 false [0; 0; 100] in
  exists to', decimal_mul a a (ex_room 5) = Some (to', E_DEC_OK) /\
    dec_wf a /\ d_frac to' = 31 /\ (dec_Q to' == Qmake 1 (Z.to_pos (10 ^ 32)))%Q /\ ~ dec_wf to'.
Proof.
  eexists. split; [vm_compute; reflexivity|]. split_and!; [by apply dec_wfb_wf|done|done|].
  intros W. apply wf_aligned in W. simpl in W. apply Z.mod_divide in W; [|done]. vm_compute in W. done.
Qed.
