(* ===== verification/DecimalDigits.v ===== *)
(** * Fixed-point decimals: digits

    What [remove_leading_zeroes] of [strings/decimal.c] finds, and lists of decimal
    digits of a given length. *)

From Stdlib Require Import ZArith Lia.
From stdpp Require Import base numbers option tactics list.
From S2P Require Import Prelude NumText Decimal.

#[local] Open Scope Z_scope.

Lemma count_leading_zeroes_from_spec (i : nat) val : (i <= 8)%nat -> 0 < val < 10 ^ (Z.of_nat i + 1) ->
  let c := count_leading_zeroes_from i val in
  0 <= c <= Z.of_nat i /\ 10 ^ (Z.of_nat i - c) <= val < 10 ^ (Z.of_nat i + 1 - c).
Proof.
  induction i as [|i IH]; intros Hi Hv; cbn [count_leading_zeroes_from]; cbv zeta;
    rewrite powers10_pow by lia.
  - change (10 ^ Z.of_nat 0) with 1. rewrite (proj2 (Z.leb_le 1 val)) by lia. split; [lia|]. simpl in *. lia.
  - destruct (Z.leb_spec (10 ^ Z.of_nat (S i)) val) as [Hle|Hgt].
    + rewrite !Z.sub_0_r. split; [lia|split; [done|apply Hv]].
    + destruct IH as [Hc Hb]; [lia|replace (Z.of_nat i + 1) with (Z.of_nat (S i)) by lia; lia|].
      set (c := count_leading_zeroes_from i val) in *.
      replace (Z.of_nat (S i) - (1 + c)) with (Z.of_nat i - c) by lia.
      replace (Z.of_nat (S i) + 1 - (1 + c)) with (Z.of_nat i + 1 - c) by lia.
      split; [lia|done].
Qed.

(** The number of words and digits left by the loop over leading zero words,
    when the first word has [i] digits. *)
Lemma leading_zero_words_spec ws m i : 1 <= i <= 9 -> 0 <= m <= Z.of_nat (length ws) ->
  let intg := if m =? 0 then 0 else 9 * (m - 1) + i in
  exists n t, ws = replicate (Z.to_nat n) 0 ++ t /\ 0 <= n <= m /\
    leading_zero_words ws intg i = Some (if n =? 0 then intg else 9 * (m - n), n) /\
    (n < m -> exists w t', t = w :: t' /\ w <> 0).
Proof.
  revert m i. induction ws as [|w ws IH]; intros m i Hi Hm intg; cbn [leading_zero_words]; simpl length in Hm.
  - assert (m = 0) as -> by lia. exists 0, []. split_and!; [done|lia..|done|lia].
  - destruct (Z.eqb_spec m 0) as [->|Hm0]; [exists 0, (w :: ws); split_and!; [done|lia..|done|lia]|].
    subst intg. rewrite (proj2 (Z.ltb_lt _ _)) by lia. destruct (Z.eqb_spec w 0) as [->|Hw].
    + destruct (IH (m - 1) 9) as (n & t & -> & Hn & E & Ht); [lia..|].
      exists (n + 1), t. replace (Z.to_nat (n + 1)) with (S (Z.to_nat n)) by lia.
      split_and!; [done|lia..| |intros; apply Ht; lia].
      replace (9 * (m - 1) + i - i) with (if m - 1 =? 0 then 0 else 9 * (m - 1 - 1) + 9)
        by (destruct (Z.eqb_spec (m - 1) 0); lia).
      unfold DIG_PER_DEC1. rewrite E. simpl. rewrite (proj2 (Z.eqb_neq (n + 1) 0)) by lia.
      do 2 f_equal. destruct (Z.eqb_spec n 0), (Z.eqb_spec (m - 1) 0); lia.
    + exists 0, (w :: ws). split_and!; [done|lia..|done|]. intros _. by exists w, ws.
Qed.

(** How the code sees the words of a decimal after [remove_leading_zeroes]: [z] zero words, the integer
    words [t] with exactly [intg] digits, the fraction words [f]. *)
Record digits_view (d : decimal_t) (z intg : Z) (t f : list Z) : Prop := {
  dv_buf : exists rest, d_buf d = replicate (Z.to_nat z) 0 ++ t ++ f ++ rest;
  dv_z : 0 <= z;
  dv_intg : 0 <= intg;
  dv_t : Z.of_nat (length t) = ROUND_UP intg;
  dv_f : Z.of_nat (length f) = ROUND_UP (d_frac d);
  dv_ok : Forall word_ok (t ++ f);
  dv_val : dval (t ++ f) = dec_val d;
  dv_top : dval t < 10 ^ intg;
  dv_least : 0 < intg -> 10 ^ (intg - 1) <= dval t
}.

(** The first word and its digits. *)
Lemma first_digits w t D c : Forall word_ok (w :: t) -> 0 <= c < D -> D <= 9 ->
  10 ^ (D - 1 - c) <= w < 10 ^ (D - c) ->
  let intg := 9 * Z.of_nat (length t) + D - c in
  ROUND_UP intg = Z.of_nat (length t) + 1 /\ 10 ^ (intg - 1) <= dval (w :: t) < 10 ^ intg.
Proof.
  intros F Hc HD Hw intg. inversion_clear F as [|?? Hwok Ft]. pose proof (dval_bounds t Ft) as B.
  split.
  { rewrite ROUND_UP_nonneg by (unfold intg; lia). unfold intg. Z.to_euclidean_division_equations. lia. }
  rewrite dval_cons, DIG_BASE_pow in * by lia. unfold intg.
  replace (9 * Z.of_nat (length t) + D - c - 1) with (D - 1 - c + 9 * Z.of_nat (length t)) by lia.
  replace (9 * Z.of_nat (length t) + D - c) with (D - c + 9 * Z.of_nat (length t)) by lia.
  rewrite !Z.pow_add_r by lia. set (P := 10 ^ (9 * Z.of_nat (length t))) in *.
  set (X := 10 ^ (D - 1 - c)) in *. set (Y := 10 ^ (D - c)) in *. clearbody P X Y. nia.
Qed.

Lemma remove_leading_zeroes_zero d f : d_intg d = 0 -> dec_wf d -> dec_words d = f ->
  remove_leading_zeroes d = Some (0, 0) /\ digits_view d 0 0 [] f.
Proof.
  intros E0 Hd Ef. unfold remove_leading_zeroes. rewrite E0. split.
  - destruct (d_buf d); done.
  - pose proof (dec_words_length d Hd) as L. rewrite E0, Ef in L. change (ROUND_UP 0) with 0 in L.
    split; try done; [|simpl; rewrite <- Ef; apply Hd|unfold dec_val; by rewrite Ef].
    eexists. rewrite (dec_buf_words d) at 1. by rewrite Ef.
Qed.

(** The integer words without the zero words at their start. *)
Lemma integer_words d m : dec_wf d -> m = ROUND_UP (d_intg d) -> 0 < d_intg d ->
  let i := Z.rem (d_intg d - 1) DIG_PER_DEC1 + 1 in
  exists n t f rest, 1 <= i <= 9 /\ d_intg d = 9 * (m - 1) + i /\ 0 <= n <= m /\
    dec_words d = (replicate (Z.to_nat n) 0 ++ t) ++ f /\ d_buf d = dec_words d ++ rest /\
    n + Z.of_nat (length t) = m /\
    leading_zero_words (d_buf d) (d_intg d) i = Some (if n =? 0 then d_intg d else 9 * (m - n), n) /\
    (n < m -> exists w t', t = w :: t' /\ w <> 0).
Proof.
  intros Hd Em Hi i. pose proof (dec_words_length d Hd) as L. pose proof (wf_frac_words d Hd).
  pose proof (ROUND_UP_bounds (d_intg d) (wf_intg d Hd)) as Hru. rewrite <- Em in *.
  assert (1 <= i <= 9 /\ d_intg d = 9 * (m - 1) + i) as [Hir Ei].
  { unfold i, DIG_PER_DEC1. rewrite Z.rem_mod_nonneg by lia. Z.to_euclidean_division_equations. lia. }
  destruct (split_words (dec_words d) 0 m) as (h & iw & f & E & Lh & Liw); [lia..|].
  assert (h = []) as -> by (destruct h; [done|simpl in *; lia]). simpl in E.
  pose proof (dec_buf_words d) as EB. set (rest := drop _ _) in EB. clearbody rest.
  destruct (leading_zero_words_spec (d_buf d) m i Hir) as (n & T & ET & Hn & EL & HT).
  { rewrite EB, E, !length_app. lia. }
  rewrite (proj2 (Z.eqb_neq m 0)), <- Ei in EL by lia.
  assert (iw = replicate (Z.to_nat n) 0 ++ drop (Z.to_nat n) iw /\ T = drop (Z.to_nat n) iw ++ f ++ rest) as [E1 E2].
  { rewrite EB, E, <- app_assoc in ET.
    assert (take (Z.to_nat n) (iw ++ f ++ rest) = replicate (Z.to_nat n) 0) as E1.
    { rewrite ET. apply take_app_length'. by rewrite length_replicate. }
    rewrite take_app_le in E1 by lia. split; [by rewrite <- E1, take_drop|].
    rewrite <- drop_app_le by lia. rewrite ET. symmetry. apply drop_app_length'. by rewrite length_replicate. }
  exists n, (drop (Z.to_nat n) iw), f, rest. rewrite <- E1. split_and!; try done; try lia.
  - rewrite length_drop. lia.
  - intros Hlt. destruct (HT Hlt) as (w & t' & -> & Hw). destruct (drop (Z.to_nat n) iw) as [|w' t] eqn:Ed.
    + apply (f_equal length) in Ed. rewrite length_drop in Ed. simpl in Ed. lia.
    + injection E2 as -> _. by eexists _, _.
Qed.

Lemma remove_leading_zeroes_spec d : dec_wf d ->
  exists z intg t f, remove_leading_zeroes d = Some (z, intg) /\ digits_view d z intg t f.
Proof.
  intros Hd. pose proof (wf_intg d Hd) as Hi. pose proof (dec_words_length d Hd) as L.
  destruct (Z.eq_dec (d_intg d) 0) as [E0|Hne].
  { exists 0, 0, [], (dec_words d). by apply remove_leading_zeroes_zero. }
  destruct (integer_words d _ Hd eq_refl ltac:(lia)) as (n & t & f & rest & Hir & Ei & Hn & E & EB & Lt & EL & HT).
  set (m := ROUND_UP (d_intg d)) in *. set (i := Z.rem (d_intg d - 1) DIG_PER_DEC1 + 1) in *.
  pose proof (wf_frac_words d Hd) as Hfr. rewrite E, !length_app, length_replicate in L.
  assert (Forall word_ok (t ++ f)) as Ftf.
  { pose proof (wf_words d Hd) as F. rewrite E, <- app_assoc in F. by apply Forall_app in F as [_ F]. }
  assert (dval (t ++ f) = dec_val d) as Etf.
  { unfold dec_val. by rewrite E, <- app_assoc, (dval_app (replicate _ _)), dval_zeroes. }
  assert (exists rest, d_buf d = replicate (Z.to_nat n) 0 ++ t ++ f ++ rest) as Hb.
  { exists rest. by rewrite EB, E, <- !app_assoc. }
  unfold remove_leading_zeroes. fold i. rewrite EL. simpl.
  destruct (Z.eq_dec n m) as [->|Hlt].
  - assert (t = []) as -> by (destruct t; [done|simpl in *; lia]). exists m, 0, [], f.
    rewrite (proj2 (Z.eqb_neq m 0)), Z.sub_diag by lia. simpl. split; [done|]. split; try done; lia.
  - destruct HT as (w & t' & -> & Hw); [lia|]. simpl length in *.
    set (D := if n =? 0 then i else 9).
    assert ((if n =? 0 then d_intg d else 9 * (m - n)) = 9 * Z.of_nat (length t') + D) as ->.
    { unfold D. destruct (Z.eqb_spec n 0); lia. }
    assert (1 <= D <= 9) as HD by (unfold D; destruct (n =? 0); lia).
    assert (0 < w < 10 ^ D) as Hwd.
    { apply Forall_app in Ftf as [[Hok _]%Forall_cons _]. split; [unfold word_ok in Hok; lia|].
      unfold D. destruct (Z.eqb_spec n 0) as [->|]; [|apply Hok].
      eapply Z.lt_le_trans; [eapply first_word_digits; [done|rewrite E; done|lia]|].
      fold m. rewrite Ei. apply Z.eq_le_incl. f_equal. lia. }
    rewrite (proj2 (Z.ltb_lt _ _)) by lia.
    assert (rd (d_buf d) n = Some w) as ->.
    { destruct Hb as [rest' ->]. apply rd_middle. rewrite length_replicate. lia. }
    simpl. unfold DIG_PER_DEC1 at 1. rewrite Z.rem_mod_nonneg by lia.
    replace ((9 * Z.of_nat (length t') + D - 1) mod 9) with (D - 1)
      by (Z.to_euclidean_division_equations; lia).
    pose proof (count_leading_zeroes_from_spec (Z.to_nat (D - 1)) w ltac:(lia)) as C.
    rewrite Z2Nat.id in C by lia. replace (D - 1 + 1) with D in C by lia. destruct (C Hwd) as [Hc Hbd].
    unfold count_leading_zeroes. set (c := count_leading_zeroes_from _ w) in *. clearbody c.
    destruct (first_digits w t' D c) as (R1 & R2 & R3); [by apply Forall_app in Ftf as [? _]|lia|lia|done|].
    exists n, (9 * Z.of_nat (length t') + D - c), (w :: t'), f. split; [done|].
    split; try done; simpl length; lia.
Qed.

(** ** Digit lists *)

(** The last [n] decimal digits of a number. *)
Fixpoint fixed_digits (n : nat) (x : Z) : list Z :=
  match n with
  | O => []
  | S n => fixed_digits n (x / 10) ++ [x mod 10]
  end.

Lemma fixed_digits_length n x : length (fixed_digits n x) = n.
Proof. revert x. induction n as [|n IH]; intros x; simpl; [done|]. rewrite length_app, IH. simpl. lia. Qed.

Lemma fixed_digits_ok n x : Forall (fun d => 0 <= d < 10) (fixed_digits n x).
Proof.
  revert x. induction n as [|n IH]; intros x; simpl; [constructor|].
  apply Forall_app. split; [apply IH|]. constructor; [|constructor]. by apply Z.mod_pos_bound.
Qed.

Lemma fixed_digits_app a b x : 0 <= x ->
  fixed_digits (a + b) x = fixed_digits a (x / 10 ^ Z.of_nat b) ++ fixed_digits b x.
Proof.
  intros Hx. revert x Hx. induction b as [|b IH]; intros x Hx.
  - simpl. by rewrite Nat.add_0_r, app_nil_r, Z.div_1_r.
  - rewrite Nat.add_succ_r. simpl. rewrite IH by (apply Z.div_pos; lia). rewrite app_assoc. do 2 f_equal.
    f_equal. rewrite Z.div_div by (try lia; apply Z.pow_pos_nonneg; lia). f_equal.
    by rewrite Z.pow_succ_r || (rewrite <- Z.pow_succ_r by lia; f_equal; lia).
Qed.

(** Digits further up do not matter. *)
Lemma fixed_digits_mod n x k : fixed_digits n (x + k * 10 ^ Z.of_nat n) = fixed_digits n x.
Proof.
  revert x. induction n as [|n IH]; intros x; [done|]. cbn [fixed_digits].
  rewrite Nat2Z.inj_succ, Z.pow_succ_r by lia.
  replace (x + k * (10 * 10 ^ Z.of_nat n)) with (x + k * 10 ^ Z.of_nat n * 10) by ring.
  rewrite Z.div_add, Z_mod_plus_full, IH by lia. done.
Qed.

Lemma fixed_digits_value n x : 0 <= x -> of_digits 10 (fixed_digits n x) = x mod 10 ^ Z.of_nat n.
Proof.
  revert x. induction n as [|n IH]; intros x Hx; cbn [fixed_digits].
  - by rewrite Z.mod_1_r.
  - rewrite of_digits_app, IH by (apply Z.div_pos; lia). rewrite Nat2Z.inj_succ, Z.pow_succ_r by lia.
    assert (0 < 10 ^ Z.of_nat n) by (apply Z.pow_pos_nonneg; lia).
    rewrite Z.rem_mul_r by lia. unfold of_digits. simpl. lia.
Qed.

Lemma digits_acc_fixed n : forall fuel x p, (n <= fuel)%nat -> 0 <= x < 10 ^ Z.of_nat n ->
  ((0 < n)%nat -> 10 ^ (Z.of_nat n - 1) <= x) -> digits_acc fuel 10 x p = fixed_digits n x ++ p.
Proof.
  induction n as [|n IH]; intros fuel x p Hf Hx Hl.
  - assert (x = 0) as -> by (simpl in Hx; lia). by destruct fuel.
  - destruct fuel as [|fuel]; [lia|]. rewrite digits_acc_S. specialize (Hl ltac:(lia)).
    replace (Z.of_nat (S n) - 1) with (Z.of_nat n) in Hl by lia.
    assert (0 < 10 ^ Z.of_nat n) by (apply Z.pow_pos_nonneg; lia).
    rewrite (proj2 (Z.eqb_neq x 0)) by lia. rewrite Nat2Z.inj_succ, Z.pow_succ_r in Hx by lia.
    rewrite IH; [cbn [fixed_digits]; by rewrite <- app_assoc|lia| |].
    + split; [apply Z.div_pos; lia|apply Z.div_lt_upper_bound; lia].
    + intros Hn. apply Z.div_le_lower_bound; [lia|]. rewrite <- Z.pow_succ_r by lia.
      by replace (Z.succ (Z.of_nat n - 1)) with (Z.of_nat n) by lia.
Qed.

(** The digits of a number, when it has [n] of them. *)
Lemma digits_fixed n x : (0 < n)%nat -> 10 ^ (Z.of_nat n - 1) <= x < 10 ^ Z.of_nat n ->
  digits 10 x = fixed_digits n x.
Proof.
  intros Hn [Hl Hu]. assert (0 < 10 ^ (Z.of_nat n - 1)) by (apply Z.pow_pos_nonneg; lia).
  rewrite (digits_fuel (4 * n)%nat).
  - rewrite (digits_acc_fixed n) by (lia || done). apply app_nil_r.
  - lia.
  - split; [lia|]. eapply Z.lt_le_trans; [exact Hu|]. rewrite Nat2Z.inj_mul, Z.pow_mul_r by lia.
    apply Z.pow_le_mono_l. simpl. lia.
Qed.
