(* ===== verification/DecimalBin.v ===== *)
(** * Fixed-point decimals: the storage format

    [decimal2bin] and [bin2decimal] of [strings/decimal.c], which put DECIMAL
    columns into rows and take them out again, with the byte order macros of
    [include/myisampack.h] they use.  The bytes stored are the list of what the
    code writes, in order; [None] is an access outside of an array. *)

From Stdlib Require Import ZArith Lia QArith.
From stdpp Require Import base numbers option tactics list.
From S2P Require Import Prelude Decimal Bytes DecimalDigits.

#[local] Open Scope Z_scope.

(** ** High byte first *)

Definition mi_int1store (A : Z) : list Z := [uchar A].
Definition mi_int2store (A : Z) : list Z := [uchar (Z.shiftr A 8); uchar A].
Definition mi_int3store (A : Z) : list Z := [uchar (Z.shiftr A 16); uchar (Z.shiftr A 8); uchar A].
Definition mi_int4store (A : Z) : list Z :=
  [uchar (Z.shiftr A 24); uchar (Z.shiftr A 16); uchar (Z.shiftr A 8); uchar A].

Definition mi_sint1korr (A : list Z) : Z := wraps 8 (A !!! 0%nat).
Definition mi_sint2korr (A : list Z) : Z :=
  wraps 16 (A !!! 1%nat + Z.shiftl (wraps 8 (A !!! 0%nat)) 8).
Definition mi_sint3korr (A : list Z) : Z :=
  let low := Z.lor (Z.lor (Z.shiftl (A !!! 0%nat) 16) (Z.shiftl (A !!! 1%nat) 8)) (A !!! 2%nat) in
  wraps 32 (if negb (Z.land (A !!! 0%nat) 128 =? 0) then Z.lor (Z.shiftl 255 24) low else low).
Definition mi_sint4korr (A : list Z) : Z :=
  wraps 32 (A !!! 3%nat + Z.shiftl (A !!! 2%nat) 8 + Z.shiftl (A !!! 1%nat) 16 +
            Z.shiftl (wraps 8 (A !!! 0%nat)) 24).

(** The switches over the number of bytes; [None] is the assertion. *)
Definition mi_store (i x : Z) : option (list Z) :=
  if i =? 1 then Some (mi_int1store x)
  else if i =? 2 then Some (mi_int2store x)
  else if i =? 3 then Some (mi_int3store x)
  else if i =? 4 then Some (mi_int4store x)
  else None.

Definition mi_korr (i : Z) (from : list Z) : option Z :=
  if Z.of_nat (length from) <? i then None
  else if i =? 1 then Some (mi_sint1korr from)
  else if i =? 2 then Some (mi_sint2korr from)
  else if i =? 3 then Some (mi_sint3korr from)
  else if i =? 4 then Some (mi_sint4korr from)
  else None.

(** ** To bytes *)

Definition full_digits (n : Z) : Z := Z.quot n DIG_PER_DEC1.
Definition rest_digits (n : Z) : Z := n - full_digits n * DIG_PER_DEC1.
Definition digits_size (n : Z) : Z := full_digits n * 4 + dig2bytes (rest_digits n).

(** [while (frac1x < lim && dig2bytes[frac1x] == i) frac1x++]; [lim] is at most 9. *)
Fixpoint grow_digits (fuel : nat) (frac1x lim i : Z) : Z :=
  match fuel with
  | O => frac1x
  | S fuel => if (frac1x <? lim) && (dig2bytes frac1x =? i) then grow_digits fuel (frac1x + 1) lim i
              else frac1x
  end.

Definition store_words (ws : list Z) (mask : Z) : list Z :=
  mjoin (map (fun w => mi_int4store (Z.lxor w mask)) ws).

(** The leading digits that do not fill a word: the bytes, and the next word. *)
Definition store_first (buf : list Z) (buf1 intg1x mask : Z) : option (list Z * Z) :=
  if intg1x =? 0 then Some ([], buf1)
  else
    w ← rd buf buf1;
    bs ← mi_store (dig2bytes intg1x) (Z.lxor (Z.rem w (powers10 intg1x)) mask);
    Some (bs, buf1 + 1).

(** The trailing ones. *)
Definition store_last (buf : list Z) (buf1 frac1 frac1x frac0 frac0x mask : Z) : option (list Z) :=
  if frac1x =? 0 then Some []
  else
    let i := dig2bytes frac1x in
    let lim := if frac1 <? frac0 then DIG_PER_DEC1 else frac0x in
    let frac1x := grow_digits 9 frac1x lim i in
    w ← rd buf buf1;
    mi_store i (Z.lxor (Z.quot w (powers10 (DIG_PER_DEC1 - frac1x))) mask).

(** The integer part against the room for it: the bytes to fill, the first word
    to store, its words and digits, and the error. *)
Definition bin_intg (intg from_intg buf1 intg0 intg0x : Z) : Z * Z * Z * Z * Z :=
  let intg1 := full_digits from_intg in
  let intg1x := rest_digits from_intg in
  let isize0 := intg0 * 4 + dig2bytes intg0x in
  let isize1 := intg1 * 4 + dig2bytes intg1x in
  if intg <? from_intg then
    (0, buf1 + (intg1 - intg0 + (if 0 <? intg1x then 1 else 0) - (if 0 <? intg0x then 1 else 0)),
     intg0, intg0x, E_DEC_OVERFLOW)
  else (isize0 - isize1, buf1, intg1, intg1x, E_DEC_OK).

(** The fraction likewise: words, digits, the size left and the error. *)
Definition bin_frac (frac0 frac0x frac1 frac1x fsize0 fsize1 error : Z) : Z * Z * Z * Z :=
  if fsize0 <? fsize1 then (frac0, frac0x, fsize0, E_DEC_TRUNCATED)
  else if (fsize1 <? fsize0) && negb (frac1x =? 0) then
    if frac0 =? frac1 then (frac1, frac0x, fsize1, error) else (frac1 + 1, 0, fsize0, error)
  else (frac1, frac1x, fsize0, error).

Definition flip_first (out : list Z) : option (list Z) :=
  match out with
  | b :: out => Some (Z.lxor b 128 :: out)
  | [] => None
  end.

(** From the comparison of the sizes on: [from_intg] digits from word [buf1] of
    [buf] on, [from_frac] digits after the point, room for [intg] digits. *)
Definition bin_store (buf : list Z) (buf1 from_intg from_frac mask intg precision frac : Z)
  : option (list Z * Z) :=
  let intg0 := full_digits (precision - frac) in let intg0x := rest_digits (precision - frac) in
  let frac0 := full_digits frac in let frac0x := rest_digits frac in
  let fsize1 := digits_size from_frac in
  let to_end := digits_size (precision - frac) + digits_size frac in
  let '(fill, buf1, intg1, intg1x, error) := bin_intg intg from_intg buf1 intg0 intg0x in
  let '(frac1, frac1x, fsize0, error) :=
    bin_frac frac0 frac0x (full_digits from_frac) (rest_digits from_frac) (digits_size frac) fsize1 error in
  '(first, buf1) ← store_first buf buf1 intg1x mask;
  ws ← words buf buf1 (buf1 + intg1 + frac1);
  last ← store_last buf (buf1 + intg1 + frac1) frac1 frac1x frac0 frac0x mask;
  let out := replicate (Z.to_nat fill) (uchar mask) ++ first ++ store_words ws mask ++ last in
  let rest := Z.min (fsize0 - fsize1) (to_end - Z.of_nat (length out)) in
  out ← flip_first (out ++ replicate (Z.to_nat rest) (uchar mask));
  Some (out, error).

Definition decimal2bin (from : decimal_t) (precision frac : Z) : option (list Z * Z) :=
  '(buf1, from_intg) ← remove_leading_zeroes from;
  if from_intg + digits_size (d_frac from) =? 0 then
    bin_store [0] 0 from_intg (d_frac from) 0 1 precision frac
  else
    bin_store (d_buf from) buf1 from_intg (d_frac from) (if d_sign from then -1 else 0) (precision - frac)
      precision frac.

(** ** From bytes *)

(** Where [bin2decimal] is: what is left to read, the array with the index of
    the next word, and the digits before the point. *)
Record bin_state := mk_bin { b_from : list Z; b_buf : list Z; b_pos : Z; b_intg : Z }.

(** A word of the integer part: leading zero words are not kept.  [inl] is the
    jump to [err]. *)
Definition bin_keep (st : bin_state) (from buf : list Z) (v digits : Z) : bin_state :=
  if (0 <? b_pos st) || negb (v =? 0) then mk_bin from buf (b_pos st + 1) (b_intg st)
  else mk_bin from buf (b_pos st) (b_intg st - digits).

Definition bin_first (st : bin_state) (intg0x mask : Z) : option (list Z + bin_state) :=
  if intg0x =? 0 then Some (inr st)
  else
    let i := dig2bytes intg0x in
    x ← mi_korr i (b_from st);
    let v := Z.lxor x mask in
    buf ← wr (b_buf st) (b_pos st) v;
    Some (if powers10 (intg0x + 1) <=? wrapu 64 v then inl buf
          else inr (bin_keep st (drop (Z.to_nat i) (b_from st)) buf v intg0x)).

Fixpoint bin_intg_words (n : nat) (mask : Z) (st : bin_state) : option (list Z + bin_state) :=
  match n with
  | O => Some (inr st)
  | S n =>
      x ← mi_korr 4 (b_from st);
      let v := Z.lxor x mask in
      buf ← wr (b_buf st) (b_pos st) v;
      if DIG_MAX <? wrapu 32 v then Some (inl buf)
      else bin_intg_words n mask (bin_keep st (drop 4 (b_from st)) buf v DIG_PER_DEC1)
  end.

Fixpoint bin_frac_words (n : nat) (mask : Z) (st : bin_state) : option (list Z + bin_state) :=
  match n with
  | O => Some (inr st)
  | S n =>
      x ← mi_korr 4 (b_from st);
      let v := Z.lxor x mask in
      buf ← wr (b_buf st) (b_pos st) v;
      if DIG_MAX <? wrapu 32 v then Some (inl buf)
      else bin_frac_words n mask (mk_bin (drop 4 (b_from st)) buf (b_pos st + 1) (b_intg st))
  end.

Definition bin_last (st : bin_state) (frac0x mask : Z) : option (list Z + bin_state) :=
  if frac0x =? 0 then Some (inr st)
  else
    x ← mi_korr (dig2bytes frac0x) (b_from st);
    let v := wraps 32 (Z.lxor x mask * powers10 (DIG_PER_DEC1 - frac0x)) in
    buf ← wr (b_buf st) (b_pos st) v;
    Some (if DIG_MAX <? wrapu 32 v then inl buf
          else inr (mk_bin (b_from st) buf (b_pos st + 1) (b_intg st))).

(** One part after the other, unless there was an error. *)
Definition bin_then (m : option (list Z + bin_state)) (k : bin_state -> option (list Z + bin_state))
  : option (list Z + bin_state) :=
  r ← m; match r with inl buf => Some (inl buf) | inr st => k st end.

Definition bin2decimal (from : list Z) (to : decimal_t) (precision scale : Z) : option (decimal_t * Z) :=
  let intg := precision - scale in
  let intg0 := full_digits intg in let frac0 := full_digits scale in
  let intg0x := rest_digits intg in let frac0x := rest_digits scale in
  let intg1 := intg0 + (if 0 <? intg0x then 1 else 0) in
  let frac1 := frac0 + (if 0 <? frac0x then 1 else 0) in
  first ← head from;
  let mask := if negb (Z.land first 128 =? 0) then 0 else -1 in
  let bin_size := decimal_bin_size precision scale in
  if Z.of_nat (length from) <? bin_size then None else
  d_copy ← flip_first (take (Z.to_nat bin_size) from);
  let '(intg1', frac1', error) := FIX_INTG_FRAC_ERROR (d_len to) intg1 frac1 in
  let '(skip, intg0, intg0x, frac0, frac0x) :=
    if negb (error =? 0) then
      if intg1' <? intg1 then (dig2bytes intg0x + 4 * (intg0 - intg1'), intg1', 0, 0, 0)
      else (0, intg0, intg0x, frac1', 0)
    else (0, intg0, intg0x, frac0, frac0x) in
  let to_frac := frac0 * DIG_PER_DEC1 + frac0x in
  let st := mk_bin (drop (Z.to_nat skip) d_copy) (d_buf to) 0 (intg0 * DIG_PER_DEC1 + intg0x) in
  r ← bin_then (bin_then (bin_then (bin_first st intg0x mask)
        (bin_intg_words (Z.to_nat intg0) mask))
        (bin_frac_words (Z.to_nat frac0) mask))
        (fun st => bin_last st frac0x mask);
  match r with
  | inl buf => to ← decimal_make_zero (with_buf to buf); Some (to, E_DEC_BAD_NUM)
  | inr st =>
      let to := mk_decimal (b_intg st) to_frac (d_len to) (negb (mask =? 0)) (b_buf st) in
      if (b_intg st =? 0) && (to_frac =? 0) then to ← decimal_make_zero to; Some (to, error)
      else Some (to, error)
  end.

(** ** Numbers as bytes, the most significant one first *)

Fixpoint be (i : nat) (v : Z) : list Z :=
  match i with
  | O => []
  | S i => be i (v / 256) ++ [v mod 256]
  end.

(** Every byte inverted, for negative numbers. *)
Definition comp (l : list Z) : list Z := map (fun b => 255 - b) l.
Definition masked (s : bool) (l : list Z) : list Z := if s then comp l else l.

Definition mask_of (s : bool) : Z := if s then -1 else 0.

Lemma be_length i v : length (be i v) = i.
Proof. revert v. induction i as [|i IH]; intros v; simpl; [done|]. rewrite length_app, IH. simpl. lia. Qed.

Lemma be_zero i : be i 0 = replicate i 0.
Proof. induction i as [|i IH]; [done|]. simpl be. rewrite Zdiv_0_l, Zmod_0_l, IH. by rewrite <- replicate_S_end. Qed.

Lemma mi_store_be i x : 1 <= i <= 4 -> mi_store i x = Some (be (Z.to_nat i) x).
Proof.
  intros Hi. assert (i = 1 \/ i = 2 \/ i = 3 \/ i = 4) as [-> |[-> |[-> | ->]]] by lia;
    unfold mi_store, mi_int1store, mi_int2store, mi_int3store, mi_int4store, uchar; simpl;
    rewrite ?Z.shiftr_div_pow2 by lia; rewrite ?Z.div_div by lia; done.
Qed.

Lemma lxor_mask x s : Z.lxor x (mask_of s) = if s then - x - 1 else x.
Proof.
  unfold mask_of. destruct s; [|apply Z.lxor_0_r].
  rewrite Z.lxor_m1_r. unfold Z.lnot. lia.
Qed.

Lemma be_lnot i v : be i (- v - 1) = comp (be i v).
Proof.
  revert v. induction i as [|i IH]; intros v; simpl; [done|].
  replace ((- v - 1) / 256) with (- (v / 256) - 1) by (Z.to_euclidean_division_equations; lia).
  replace ((- v - 1) mod 256) with (255 - v mod 256) by (Z.to_euclidean_division_equations; lia).
  rewrite IH. unfold comp. by rewrite map_app.
Qed.

Lemma be_masked i v s : be i (Z.lxor v (mask_of s)) = masked s (be i v).
Proof. rewrite lxor_mask. unfold masked. destruct s; [apply be_lnot|done]. Qed.

Lemma masked_app s l1 l2 : masked s (l1 ++ l2) = masked s l1 ++ masked s l2.
Proof. unfold masked, comp. destruct s; [apply map_app|done]. Qed.

Lemma masked_length s l : length (masked s l) = length l.
Proof. unfold masked, comp. destruct s; [apply length_map|done]. Qed.

Lemma masked_zeroes s n : masked s (replicate n 0) = replicate n (uchar (mask_of s)).
Proof. unfold masked, comp. destruct s; [|done]. induction n as [|n IH]; simpl; [done|]. by rewrite IH. Qed.

(** Leading zeroes. *)
Lemma be_pad i j v : 0 <= v < 256 ^ Z.of_nat i -> be (j + i) v = replicate j 0 ++ be i v.
Proof.
  revert v. induction i as [|i IH]; intros v Hv.
  - assert (v = 0) as -> by (simpl in Hv; lia). rewrite Nat.add_0_r, be_zero. simpl. by rewrite app_nil_r.
  - rewrite Nat.add_succ_r. simpl be. rewrite IH, app_assoc; [done|].
    rewrite Nat2Z.inj_succ, Z.pow_succ_r in Hv by lia.
    split; [apply Z.div_pos; lia|apply Z.div_lt_upper_bound; lia].
Qed.

(** Facts about a byte, by trying all of them. *)
Lemma all_bytes (P : Z -> bool) b : forallb (fun n => P (Z.of_nat n)) (seq 0 256) = true ->
  0 <= b < 256 -> P b = true.
Proof.
  intros H Hb. rewrite forallb_forall in H. rewrite <- (Z2Nat.id b) by lia. apply H, in_seq. lia.
Qed.

Lemma land_128 b : 0 <= b < 256 -> (Z.land b 128 =? 0) = (b <? 128).
Proof. intros Hb. by apply eqb_prop, (all_bytes (fun b => eqb (Z.land b 128 =? 0) (b <? 128))). Qed.

Lemma lxor_128 b : 0 <= b < 256 -> Z.lxor b 128 = if b <? 128 then b + 128 else b - 128.
Proof.
  intros Hb. by apply Z.eqb_eq, (all_bytes (fun b => Z.lxor b 128 =? if b <? 128 then b + 128 else b - 128)).
Qed.

Lemma lor_low a b k : 0 <= k -> 0 <= b < 2 ^ k -> Z.lor (Z.shiftl a k) b = a * 2 ^ k + b.
Proof.
  intros Hk Hb. rewrite <- Z.shiftl_mul_pow2 by done. destruct (Z.eq_dec b 0) as [->|Hn].
  { by rewrite Z.lor_0_r, Z.add_0_r. }
  assert (Z.land (Z.shiftl a k) b = 0) as E.
  { apply Z.bits_inj'. intros n ?. rewrite Z.land_spec, Z.bits_0.
    destruct (Z.lt_ge_cases n k); [by rewrite Z.shiftl_spec_low|].
    rewrite (Z.bits_above_log2 b); [apply andb_false_r|lia|].
    apply Z.lt_le_trans with k; [apply Z.log2_lt_pow2; lia|done]. }
  by rewrite Z.add_nocarry_lxor, Z.lxor_lor.
Qed.

(** The bytes of a number read back, with the sign of their first bit. *)
Lemma mi_korr_be i x r : 1 <= i <= 4 -> in_s (8 * i) x ->
  mi_korr i (be (Z.to_nat i) x ++ r) = Some x.
Proof.
  intros Hi Hx. unfold mi_korr. rewrite length_app, be_length. rewrite (proj2 (Z.ltb_ge _ _)) by lia.
  assert (i = 1 \/ i = 2 \/ i = 3 \/ i = 4) as [-> |[-> |[-> | ->]]] by lia; simpl; f_equal.
  - unfold mi_sint1korr. simpl. unfold wraps, in_s in *. simpl in *. Z.to_euclidean_division_equations. lia.
  - unfold mi_sint2korr. simpl. unfold wraps, in_s in *. rewrite Z.shiftl_mul_pow2 by lia. simpl in *.
    Z.to_euclidean_division_equations. lia.
  - unfold mi_sint3korr. simpl. set (b0 := x / 256 / 256 mod 256). set (b1 := x / 256 mod 256). set (b2 := x mod 256).
    assert (0 <= b0 < 256 /\ 0 <= b1 < 256 /\ 0 <= b2 < 256) as (B0 & B1 & B2)
      by (split_and!; apply Z.mod_pos_bound; lia).
    assert (Z.lor (Z.lor (Z.shiftl b0 16) (Z.shiftl b1 8)) b2 = b0 * 65536 + b1 * 256 + b2) as ->.
    { rewrite (lor_low b0) by (rewrite ?Z.shiftl_mul_pow2 by lia; lia).
      replace (b0 * 2 ^ 16 + Z.shiftl b1 8) with (Z.shiftl (b0 * 256 + b1) 8) by (rewrite !Z.shiftl_mul_pow2 by lia; lia).
      rewrite lor_low by lia. lia. }
    rewrite land_128 by done. rewrite (lor_low 255) by lia. unfold wraps, in_s, b0, b1, b2 in *. simpl in *.
    destruct (Z.ltb_spec (x / 256 / 256 mod 256) 128); simpl; Z.to_euclidean_division_equations; lia.
  - unfold mi_sint4korr. simpl. unfold wraps, in_s in *. rewrite !Z.shiftl_mul_pow2 by lia. simpl in *.
    Z.to_euclidean_division_equations. lia.
Qed.

(** ** The format

    An integer of [9 q + r] digits: the first [r] digits in [dig2bytes r] bytes,
    the others in groups of nine, four bytes each. *)
Fixpoint enc_int (q : nat) (r : Z) (v : Z) : list Z :=
  match q with
  | O => be (Z.to_nat (dig2bytes r)) v
  | S q => enc_int q r (v / DIG_BASE) ++ be 4 (v mod DIG_BASE)
  end.

(** [9 q + r] digits after the point, from words of nine digits; missing words
    are zero. *)
Fixpoint enc_frac (q : nat) (r : Z) (ws : list Z) : list Z :=
  match q with
  | O => if r =? 0 then [] else be (Z.to_nat (dig2bytes r)) (hd 0 ws / 10 ^ (9 - r))
  | S q => be 4 (hd 0 ws) ++ enc_frac q r (tail ws)
  end.

Definition enc_words (ws : list Z) : list Z := mjoin (map (be 4) ws).

Lemma enc_words_app l1 l2 : enc_words (l1 ++ l2) = enc_words l1 ++ enc_words l2.
Proof. unfold enc_words. by rewrite map_app, join_app. Qed.

Lemma enc_words_length ws : length (enc_words ws) = (4 * length ws)%nat.
Proof.
  induction ws as [|w ws IH]; [done|]. change (enc_words (w :: ws)) with (be 4 w ++ enc_words ws).
  rewrite length_app, be_length, IH. simpl. lia.
Qed.

Lemma dig2bytes_range r : 0 <= r <= 9 -> 0 <= dig2bytes r <= 4 /\ (1 <= r -> 1 <= dig2bytes r).
Proof.
  intros Hr. assert (r = 0 \/ r = 1 \/ r = 2 \/ r = 3 \/ r = 4 \/ r = 5 \/ r = 6 \/ r = 7 \/ r = 8 \/ r = 9)
    as Hc by lia. repeat destruct Hc as [-> |Hc]; [..|subst r]; vm_compute; repeat split; done.
Qed.

Lemma dig2bytes_mono r s : 0 <= r -> r <= s -> s <= 9 -> dig2bytes r <= dig2bytes s.
Proof.
  intros. assert (r = 0 \/ r = 1 \/ r = 2 \/ r = 3 \/ r = 4 \/ r = 5 \/ r = 6 \/ r = 7 \/ r = 8 \/ r = 9)
    as Hr by lia.
  assert (s = 0 \/ s = 1 \/ s = 2 \/ s = 3 \/ s = 4 \/ s = 5 \/ s = 6 \/ s = 7 \/ s = 8 \/ s = 9) as Hs by lia.
  repeat destruct Hr as [-> |Hr]; [..|subst r]; (repeat destruct Hs as [-> |Hs]; [..|subst s]); try lia;
    by vm_compute.
Qed.

(** Digits fit into their bytes, with the first bit to spare. *)
Lemma dig2bytes_fit r : 0 <= r <= 9 -> 2 * 10 ^ r <= 256 ^ dig2bytes r \/ r = 0.
Proof.
  intros Hr. assert (r = 0 \/ r = 1 \/ r = 2 \/ r = 3 \/ r = 4 \/ r = 5 \/ r = 6 \/ r = 7 \/ r = 8 \/ r = 9)
    as Hc by lia. repeat destruct Hc as [-> |Hc]; [..|subst r]; first [by right|left; by vm_compute].
Qed.

Lemma digits_fit r v : 0 <= r <= 9 -> 0 <= v < 10 ^ r -> 0 <= v < 256 ^ Z.of_nat (Z.to_nat (dig2bytes r)).
Proof.
  intros Hr Hv. destruct (dig2bytes_range r Hr) as [Hd _]. rewrite Z2Nat.id by lia.
  destruct (dig2bytes_fit r Hr) as [H| ->]; [lia|]. simpl in *. lia.
Qed.

Lemma enc_int_length q r v : 0 <= r <= 9 -> Z.of_nat (length (enc_int q r v)) = Z.of_nat q * 4 + dig2bytes r.
Proof.
  intros Hr. destruct (dig2bytes_range r Hr) as [Hd _].
  revert v. induction q as [|q IH]; intros v; cbn [enc_int]; [rewrite be_length; lia|].
  rewrite length_app, be_length, Nat2Z.inj_add, IH. lia.
Qed.

Lemma enc_int_zero q r : 0 <= r <= 9 ->
  enc_int q r 0 = replicate (Z.to_nat (Z.of_nat q * 4 + dig2bytes r)) 0.
Proof.
  intros Hr. destruct (dig2bytes_range r Hr) as [Hd _].
  induction q as [|q IH]; cbn [enc_int]; [rewrite be_zero; f_equal; lia|].
  rewrite Zdiv_0_l, Zmod_0_l, IH, be_zero, <- replicate_add. f_equal. lia.
Qed.

(** The words of an integer, one after the other. *)
Lemma enc_int_words ws w r : Forall word_ok ws -> 
  enc_int (length ws) r (dval (w :: ws)) = be (Z.to_nat (dig2bytes r)) w ++ enc_words ws.
Proof.
  induction ws as [|x ws IH] using rev_ind; intros F.
  - change (dval [w]) with w. by rewrite app_nil_r.
  - apply Forall_app in F as [F [Hx _]%Forall_cons]. rewrite length_app, Nat.add_1_r. cbn [enc_int].
    change (w :: ws ++ [x]) with ((w :: ws) ++ [x]). rewrite dval_snoc.
    rewrite Z.div_add_l, Z.div_small, Z.add_0_r by (try done; unfold DIG_BASE; lia).
    rewrite Z.add_comm, Z_mod_plus_full, Z.mod_small by done.
    rewrite IH by done. rewrite enc_words_app, <- app_assoc. done.
Qed.

Lemma full_rest n : 0 <= n ->
  0 <= full_digits n /\ 0 <= rest_digits n <= 8 /\ n = 9 * full_digits n + rest_digits n.
Proof.
  intros. unfold rest_digits, full_digits, DIG_PER_DEC1. rewrite Z.quot_div_nonneg by lia.
  Z.to_euclidean_division_equations. lia.
Qed.

Lemma ROUND_UP_full n : 0 <= n -> ROUND_UP n = full_digits n + (if rest_digits n =? 0 then 0 else 1).
Proof.
  intros Hn. destruct (full_rest n Hn) as (? & ? & E). rewrite ROUND_UP_nonneg by done.
  destruct (Z.eqb_spec (rest_digits n) 0); Z.to_euclidean_division_equations; lia.
Qed.

Lemma enc_int_pad q1 r1 q0 r0 v : 0 <= r1 <= 8 -> 0 <= r0 <= 8 ->
  9 * Z.of_nat q1 + r1 <= 9 * Z.of_nat q0 + r0 -> 0 <= v < 10 ^ (9 * Z.of_nat q1 + r1) ->
  enc_int q0 r0 v =
    replicate (Z.to_nat (Z.of_nat q0 * 4 + dig2bytes r0 - (Z.of_nat q1 * 4 + dig2bytes r1))) 0 ++ enc_int q1 r1 v.
Proof.
  intros H1 H0. destruct (dig2bytes_range r1 ltac:(lia)) as [D1 _]. destruct (dig2bytes_range r0 ltac:(lia)) as [D0 _].
  revert q0 v. induction q1 as [|q1 IH]; intros q0 v Hl Hv.
  - rewrite Z.add_0_l in Hv. pose proof (digits_fit r1 v ltac:(lia) Hv) as Hf. destruct q0 as [|q0].
    + cbn [enc_int]. pose proof (dig2bytes_mono r1 r0 ltac:(lia) ltac:(lia) ltac:(lia)).
      rewrite <- be_pad by done. f_equal. lia.
    + cbn [enc_int]. assert (10 ^ r1 < DIG_BASE) by (eapply (Z.pow_lt_mono_r 10 r1 9); lia).
      rewrite Z.div_small, Z.mod_small, enc_int_zero by lia.
      replace 4%nat with (Z.to_nat (4 - dig2bytes r1) + Z.to_nat (dig2bytes r1))%nat by lia.
      rewrite be_pad, app_assoc, <- replicate_add by done. do 2 f_equal. lia.
  - destruct q0 as [|q0]; [lia|]. cbn [enc_int]. rewrite (IH q0 (v / DIG_BASE)), app_assoc; [|lia|].
    + do 3 f_equal. lia.
    + replace (9 * Z.of_nat (S q1) + r1) with (9 * Z.of_nat q1 + r1 + 9) in Hv by lia.
      rewrite Z.pow_add_r in Hv by lia. change (10 ^ 9) with DIG_BASE in Hv.
      split; [apply Z.div_pos; [lia|done]|]. apply Z.div_lt_upper_bound; [done|lia].
Qed.

(** Bytes stored with a mask. *)
Lemma mi_store_masked i v s : 1 <= i <= 4 ->
  mi_store i (Z.lxor v (mask_of s)) = Some (masked s (be (Z.to_nat i) v)).
Proof. intros Hi. by rewrite mi_store_be, be_masked. Qed.

Lemma store_words_masked ws s : store_words ws (mask_of s) = masked s (enc_words ws).
Proof.
  induction ws as [|w ws IH]; [by destruct s|].
  change (enc_words (w :: ws)) with (be 4 w ++ enc_words ws).
  change (store_words (w :: ws) (mask_of s))
    with (mi_int4store (Z.lxor w (mask_of s)) ++ store_words ws (mask_of s)).
  rewrite masked_app, <- be_masked, <- IH. f_equal.
  apply (inj Some). exact (mi_store_be 4 (Z.lxor w (mask_of s)) ltac:(lia)).
Qed.

(** The integer part: the bytes of its first digits, and the words after them. *)
Lemma store_intg d z intg t f s : digits_view d z intg t f ->
  exists first h ws, store_first (d_buf d) z (rest_digits intg) (mask_of s) =
      Some (masked s first, z + Z.of_nat (length h)) /\
    t = h ++ ws /\ Z.of_nat (length ws) = full_digits intg /\
    first ++ enc_words ws = enc_int (Z.to_nat (full_digits intg)) (rest_digits intg) (dval t).
Proof.
  intros [[rest Eb] Hz Hi Ht Hf Hok _ Htop _]. destruct (full_rest intg Hi) as (Hq & Hr & E).
  rewrite ROUND_UP_full in Ht by done. apply Forall_app in Hok as [Ft _].
  unfold store_first. destruct (Z.eqb_spec (rest_digits intg) 0) as [E0|E0].
  - exists [], [], t. rewrite E0. simpl length. rewrite Z.add_0_r. split_and!; [by destruct s|done|lia|].
    rewrite app_nil_l. replace (Z.to_nat (full_digits intg)) with (length t) by lia.
    transitivity (enc_int (length t) 0 (dval (0 :: t))); [by rewrite enc_int_words|].
    f_equal.
  - destruct t as [|w t]; [simpl in *; lia|]. apply Forall_cons in Ft as [Hw Ft]. simpl length in Ht.
    assert (0 <= w < 10 ^ rest_digits intg) as Hwd.
    { split; [apply Hw|]. rewrite dval_cons, DIG_BASE_pow in Htop by lia.
      pose proof (dval_bounds t Ft). rewrite E, Z.add_comm, Z.pow_add_r in Htop by lia.
      replace (Z.of_nat (length t)) with (full_digits intg) in Htop by lia.
      apply (Z.mul_lt_mono_pos_r (10 ^ (9 * full_digits intg))); [apply Z.pow_pos_nonneg; lia|lia]. }
    destruct (dig2bytes_range (rest_digits intg) ltac:(lia)) as [D1 D2].
    exists (be (Z.to_nat (dig2bytes (rest_digits intg))) w), [w], t.
    rewrite Eb. cbn [app]. rewrite (rd_middle (replicate (Z.to_nat z) 0)) by (rewrite length_replicate; lia). simpl.
    rewrite powers10_pow, Z.rem_small, mi_store_masked by lia. simpl. split_and!; [done|done|lia|].
    replace (Z.to_nat (full_digits intg)) with (length t) by lia. by rewrite enc_int_words.
Qed.

Lemma enc_frac_app ws q r f : enc_frac (length ws + q) r (ws ++ f) = enc_words ws ++ enc_frac q r f.
Proof.
  induction ws as [|w ws IH]; [done|]. simpl length. rewrite Nat.add_succ_l. cbn [enc_frac app hd tail].
  rewrite IH. change (enc_words (w :: ws)) with (be 4 w ++ enc_words ws). by rewrite <- app_assoc.
Qed.

Lemma enc_frac_nil q r : 0 <= r <= 9 -> enc_frac q r [] = replicate (Z.to_nat (Z.of_nat q * 4 + dig2bytes r)) 0.
Proof.
  intros Hr. destruct (dig2bytes_range r Hr) as [Hd _].
  induction q as [|q IH]; cbn [enc_frac hd tail].
  - destruct (Z.eqb_spec r 0) as [->|]; [done|]. rewrite Zdiv_0_l, be_zero. f_equal.
  - rewrite IH, be_zero, <- replicate_add. f_equal. lia.
Qed.

Lemma grow_digits_same r s : 1 <= r -> r <= s -> s <= 9 -> dig2bytes r = dig2bytes s ->
  grow_digits 9 r s (dig2bytes r) = s.
Proof.
  intros. assert (r = 1 \/ r = 2 \/ r = 3 \/ r = 4 \/ r = 5 \/ r = 6 \/ r = 7 \/ r = 8 \/ r = 9)
    as Hr by lia.
  assert (s = 1 \/ s = 2 \/ s = 3 \/ s = 4 \/ s = 5 \/ s = 6 \/ s = 7 \/ s = 8 \/ s = 9) as Hs by lia.
  repeat destruct Hr as [-> |Hr]; [..|subst r]; (repeat destruct Hs as [-> |Hs]; [..|subst s]); try lia;
    by vm_compute.
Qed.

Lemma dig2bytes_4 r : 0 <= r <= 9 -> dig2bytes r = 4 -> 7 <= r.
Proof.
  intros Hr E. assert (r = 0 \/ r = 1 \/ r = 2 \/ r = 3 \/ r = 4 \/ r = 5 \/ r = 6 \/ 7 <= r)
    as Hc by lia. by repeat destruct Hc as [-> |Hc]; [..|].
Qed.

(** The last digits: [x1] of them are there, [x0] are wanted. *)
Lemma store_last_spec pre w rest frac1 x1 frac0 x0 s : 1 <= x1 <= 8 -> 0 <= x0 <= 8 ->
  let x := if frac1 <? frac0 then 9 else x0 in
  x1 <= x -> dig2bytes x1 = dig2bytes x ->
  store_last (pre ++ w :: rest) (Z.of_nat (length pre)) frac1 x1 frac0 x0 (mask_of s) =
    Some (masked s (be (Z.to_nat (dig2bytes x)) (Z.quot w (10 ^ (9 - x))))).
Proof.
  intros H1 H0 x Hle E. unfold store_last. rewrite (proj2 (Z.eqb_neq x1 0)) by lia.
  rewrite (rd_middle pre) by done. cbn [mbind option_bind]. unfold DIG_PER_DEC1. fold x.
  assert (x <= 9) by (unfold x; destruct (frac1 <? frac0); lia).
  rewrite grow_digits_same by (try done; lia). rewrite powers10_pow by lia.
  destruct (dig2bytes_range x1 ltac:(lia)) as [D1 D2]. rewrite mi_store_masked by lia. by rewrite E.
Qed.

Lemma digits_size_mono m n : 0 <= m <= n -> digits_size m <= digits_size n.
Proof.
  intros H. destruct (full_rest m ltac:(lia)) as (? & Hm & Em). destruct (full_rest n ltac:(lia)) as (? & Hn & En).
  unfold digits_size. destruct (dig2bytes_range (rest_digits m) ltac:(lia)).
  destruct (dig2bytes_range (rest_digits n) ltac:(lia)).
  destruct (Z.eq_dec (full_digits m) (full_digits n)) as [E|]; [|lia].
  pose proof (dig2bytes_mono (rest_digits m) (rest_digits n)). lia.
Qed.

(** The fraction: its full words, its last digits, and the bytes that fill up. *)
Definition frac_stored (buf f : list Z) (pos fr scale error : Z) (s : bool) : Prop :=
  let frac0 := full_digits scale in let frac0x := rest_digits scale in
  exists g gx fsize lst,
    bin_frac frac0 frac0x (full_digits fr) (rest_digits fr) (digits_size scale) (digits_size fr) error =
      (g, gx, fsize, error) /\
    0 <= g <= Z.of_nat (length f) /\
    store_last buf (pos + g) g gx frac0 frac0x (mask_of s) = Some (masked s lst) /\
    let fill := Z.min (fsize - digits_size fr) (digits_size scale - 4 * g - Z.of_nat (length lst)) in
    enc_words (take (Z.to_nat g) f) ++ lst ++ replicate (Z.to_nat fill) 0 =
      enc_frac (Z.to_nat frac0) frac0x f.

(** No digits in the last word, or a whole word more than is wanted of it. *)
Lemma store_frac_words buf f pos fr scale error s : 0 <= fr <= scale -> Z.of_nat (length f) = ROUND_UP fr ->
  rest_digits fr = 0 \/ (full_digits fr < full_digits scale /\ digits_size fr < digits_size scale) ->
  frac_stored buf f pos fr scale error s.
Proof.
  intros Hs Lf Hc. pose proof (digits_size_mono fr scale Hs) as Hm. unfold frac_stored.
  destruct (full_rest fr ltac:(lia)) as (? & Hr & Er). destruct (full_rest scale ltac:(lia)) as (? & Hr0 & Er0).
  destruct (dig2bytes_range (rest_digits fr) ltac:(lia)) as [D1 _].
  destruct (dig2bytes_range (rest_digits scale) ltac:(lia)) as [D0 _].
  rewrite ROUND_UP_full in Lf by lia.
  exists (Z.of_nat (length f)), 0, (digits_size scale), []. unfold bin_frac. rewrite (proj2 (Z.ltb_ge _ _)) by done.
  split_and!; [|lia|lia|by destruct s|].
  - destruct (Z.eqb_spec (rest_digits fr) 0) as [E|E]; simpl negb.
    + rewrite andb_false_r, E. do 3 f_equal. lia.
    + destruct Hc as [?|[Hlt Hsz]]; [done|]. rewrite (proj2 (Z.ltb_lt _ _)) by done. simpl.
      rewrite (proj2 (Z.eqb_neq _ _)) by lia. do 3 f_equal. lia.
  - rewrite Nat2Z.id, take_ge by done. rewrite app_nil_l.
    replace (enc_frac _ _ f) with (enc_frac (Z.to_nat (full_digits scale)) (rest_digits scale) (f ++ []))
      by by rewrite app_nil_r.
    replace (Z.to_nat (full_digits scale)) with (length f + Z.to_nat (full_digits scale - Z.of_nat (length f)))%nat.
    + rewrite enc_frac_app, enc_frac_nil by lia. do 3 f_equal. unfold digits_size in *. simpl length.
      destruct (Z.eqb_spec (rest_digits fr) 0) as [E|E]; [rewrite E in *; change (dig2bytes 0) with 0 in *|]; lia.
    + destruct (Z.eqb_spec (rest_digits fr) 0); lia.
Qed.

Lemma store_frac_digits pre f rest fr scale error s : 0 <= fr <= scale -> Z.of_nat (length f) = ROUND_UP fr ->
  Forall word_ok f -> rest_digits fr <> 0 ->
  (full_digits fr = full_digits scale \/ digits_size fr = digits_size scale) ->
  frac_stored (pre ++ f ++ rest) f (Z.of_nat (length pre)) fr scale error s.
Proof.
  intros Hs Lf Ff Hx Hc. pose proof (digits_size_mono fr scale Hs) as Hm. unfold frac_stored.
  destruct (full_rest fr ltac:(lia)) as (? & Hr & Er). destruct (full_rest scale ltac:(lia)) as (? & Hr0 & Er0).
  destruct (dig2bytes_range (rest_digits fr) ltac:(lia)) as [D1 _].
  destruct (dig2bytes_range (rest_digits scale) ltac:(lia)) as [D0 _].
  rewrite ROUND_UP_full in Lf by lia. rewrite (proj2 (Z.eqb_neq _ _)) in Lf by done.
  destruct f as [|w f _] using rev_ind; [simpl in Lf; lia|]. rewrite length_app in Lf. simpl length in Lf.
  apply Forall_app in Ff as [_ [Hw _]%Forall_cons].
  assert (full_digits fr = full_digits scale /\ rest_digits fr <= rest_digits scale \/
    full_digits scale = full_digits fr + 1 /\ dig2bytes (rest_digits fr) = 4 /\ rest_digits scale = 0) as Hcase.
  { destruct (Z.eq_dec (full_digits fr) (full_digits scale)) as [|Hne]; [left; lia|right].
    destruct Hc as [?|E]; [done|]. unfold digits_size in E.
    assert (full_digits scale = full_digits fr + 1) by lia. split_and!; [done|lia|].
    destruct (Z.eq_dec (rest_digits scale) 0) as [|Hn]; [done|].
    pose proof (dig2bytes_range (rest_digits scale) ltac:(lia)). lia. }
  set (x := if full_digits fr <? full_digits scale then 9 else rest_digits scale).
  assert (rest_digits fr <= x /\ 1 <= x <= 9) as [Hxle Hx9].
  { unfold x. destruct Hcase as [[E ?]|[E ?]]; rewrite E; zcases. }
  set (gx := if digits_size fr <? digits_size scale then rest_digits scale else rest_digits fr).
  assert (1 <= gx <= 8 /\ gx <= x /\ dig2bytes gx = dig2bytes x) as (Hgx & Hgxle & Egx).
  { unfold gx, x, digits_size in *. destruct Hcase as [[E ?]|(E & E4 & E0)]; rewrite E in *.
    - rewrite !Z.ltb_irrefl. zcases.
    - rewrite E0 in *. change (dig2bytes 0) with 0 in *. rewrite (proj2 (Z.ltb_ge _ _)) by lia.
      rewrite (proj2 (Z.ltb_lt _ _)) by lia. change (dig2bytes 9) with 4. lia. }
  set (fsize := if digits_size fr <? digits_size scale then digits_size fr else digits_size scale).
  assert (fsize = digits_size fr) as Efs by (unfold fsize; zcases).
  assert (bin_frac (full_digits scale) (rest_digits scale) (full_digits fr) (rest_digits fr)
    (digits_size scale) (digits_size fr) error = (Z.of_nat (length f), gx, fsize, error)) as ->.
  { unfold bin_frac. rewrite (proj2 (Z.ltb_ge _ _)) by done. unfold gx, fsize.
    rewrite (proj2 (Z.eqb_neq (rest_digits fr) 0)) by done. simpl negb. rewrite andb_true_r.
    destruct (Z.ltb_spec (digits_size fr) (digits_size scale)) as [Hlt|]; [|do 3 f_equal; lia].
    rewrite (proj2 (Z.eqb_eq _ _)) by lia. do 3 f_equal. lia. }
  exists (Z.of_nat (length f)), gx, fsize, (be (Z.to_nat (dig2bytes x)) (Z.quot w (10 ^ (9 - x)))).
  split_and!; [done|lia|rewrite length_app; simpl; lia| |].
  - rewrite <- app_assoc, app_assoc, <- Nat2Z.inj_add, <- length_app. simpl.
    replace (store_last _ _ _) with (store_last ((pre ++ f) ++ w :: rest) (Z.of_nat (length (pre ++ f))) (full_digits fr))
      by (f_equal; lia).
    apply store_last_spec; [done|done|..]; fold x; done.
  - rewrite Efs, Z.sub_diag, Nat2Z.id, take_app_length.
    replace (Z.to_nat (Z.min 0 _)) with 0%nat by lia. rewrite app_nil_r.
    rewrite Z.quot_div_nonneg by (first [apply Hw|apply Z.pow_pos_nonneg; lia]).
    destruct Hcase as [[E ?]|(E & E4 & E0)]; unfold x; rewrite E.
    + rewrite Z.ltb_irrefl. replace (Z.to_nat (full_digits scale)) with (length f + 0)%nat by lia.
      rewrite enc_frac_app. cbn [enc_frac hd]. rewrite (proj2 (Z.eqb_neq _ _)) by lia. done.
    + rewrite (proj2 (Z.ltb_lt _ _)), E0 by lia.
      replace (Z.to_nat (full_digits fr + 1)) with (length f + 1)%nat by lia.
      rewrite enc_frac_app, Z.sub_diag, Z.div_1_r. cbn [enc_frac hd tail]. rewrite app_nil_r. done.
Qed.

Lemma store_frac pre f rest fr scale error s : 0 <= fr <= scale -> Z.of_nat (length f) = ROUND_UP fr ->
  Forall word_ok f -> frac_stored (pre ++ f ++ rest) f (Z.of_nat (length pre)) fr scale error s.
Proof.
  intros Hs Lf Ff. destruct (Z.eq_dec (rest_digits fr) 0) as [E|E]; [by apply store_frac_words; auto|].
  pose proof (digits_size_mono fr scale Hs).
  destruct (full_rest fr ltac:(lia)) as (? & ? & ?). destruct (full_rest scale ltac:(lia)) as (? & ? & ?).
  destruct (Z.lt_ge_cases (full_digits fr) (full_digits scale)).
  - destruct (Z.lt_ge_cases (digits_size fr) (digits_size scale));
      [by apply store_frac_words; auto|].
    apply store_frac_digits; try done. right. lia.
  - apply store_frac_digits; try done. left. lia.
Qed.

(** The bytes of a number with room for its digits. *)
Lemma bin_store_spec d z intg t f sg room precision scale :
  digits_view d z intg t f -> 0 <= scale <= precision -> 0 <= d_frac d <= scale ->
  intg <= precision - scale -> intg <= room ->
  bin_store (d_buf d) z intg (d_frac d) (mask_of sg) room precision scale =
    (out ← flip_first (masked sg (enc_int (Z.to_nat (full_digits (precision - scale)))
                                    (rest_digits (precision - scale)) (dval t) ++
                                  enc_frac (Z.to_nat (full_digits scale)) (rest_digits scale) f));
     Some (out, E_DEC_OK)).
Proof.
  intros V Hs Hf Hi Hroom. destruct (store_intg d z intg t f sg V) as (first & h & ws & E1 & Et & Lw & EI).
  destruct V as [[rest Eb] Hz Hi0 Ht Lf Hok _ Htop _]. apply Forall_app in Hok as [Ft Ff].
  pose proof (store_frac (replicate (Z.to_nat z) 0 ++ t) f rest (d_frac d) scale E_DEC_OK sg Hf Lf Ff)
    as (g & gx & fsize & lst & EF & Hg & EL & EE).
  rewrite <- app_assoc, <- Eb in EL. unfold bin_store, bin_intg.
  rewrite (proj2 (Z.ltb_ge room intg)) by done. rewrite EF, E1. cbn [mbind option_bind].
  assert (words (d_buf d) (z + Z.of_nat (length h)) (z + Z.of_nat (length h) + full_digits intg + g) =
    Some (ws ++ take (Z.to_nat g) f)) as ->.
  { rewrite Eb, Et. rewrite <- (take_drop (Z.to_nat g) f) at 1.
    replace (replicate (Z.to_nat z) 0 ++ (h ++ ws) ++ (take (Z.to_nat g) f ++ drop (Z.to_nat g) f) ++ rest)
      with ((replicate (Z.to_nat z) 0 ++ h) ++ (ws ++ take (Z.to_nat g) f) ++ (drop (Z.to_nat g) f ++ rest))
      by by rewrite <- !app_assoc.
    apply words_app; rewrite ?length_app, ?length_replicate, ?length_take; lia. }
  cbn [mbind option_bind].
  replace (z + Z.of_nat (length h) + full_digits intg + g)
    with (Z.of_nat (length (replicate (Z.to_nat z) 0 ++ t)) + g)
    by (rewrite Et, !length_app, length_replicate; lia).
  rewrite EL. cbn [mbind option_bind].
  destruct (full_rest intg Hi0) as (Hq & Hr & Eq).
  destruct (full_rest (precision - scale) ltac:(lia)) as (Hq0 & Hr0 & Eq0).
  assert (replicate (Z.to_nat (digits_size (precision - scale) - digits_size intg)) 0 ++ first ++ enc_words ws =
    enc_int (Z.to_nat (full_digits (precision - scale))) (rest_digits (precision - scale)) (dval t)) as EI0.
  { rewrite EI. unfold digits_size. rewrite (enc_int_pad (Z.to_nat (full_digits intg)) (rest_digits intg)
      (Z.to_nat (full_digits (precision - scale))) (rest_digits (precision - scale)));
      try done; rewrite ?Z2Nat.id by done; [done|lia|]. rewrite <- Eq. split; [by apply dval_bounds|done]. }
  unfold digits_size in EI0 at 1 2.
  rewrite store_words_masked, enc_words_app, <- masked_zeroes, <- !masked_app.
  replace (replicate _ 0 ++ first ++ (enc_words ws ++ enc_words (take (Z.to_nat g) f)) ++ lst)
    with (enc_int (Z.to_nat (full_digits (precision - scale))) (rest_digits (precision - scale)) (dval t) ++
          enc_words (take (Z.to_nat g) f) ++ lst)
    by (rewrite <- EI0, <- !app_assoc; done).
  rewrite masked_length, <- masked_zeroes, <- masked_app, !length_app, enc_words_length, length_take.
  pose proof (enc_int_length (Z.to_nat (full_digits (precision - scale))) (rest_digits (precision - scale))
    (dval t) ltac:(lia)) as LI. rewrite Z2Nat.id in LI by done.
  replace (digits_size (precision - scale) + digits_size scale - _)
    with (digits_size scale - 4 * g - Z.of_nat (length lst)) by (unfold digits_size; lia).
  by rewrite <- !app_assoc, <- EE.
Qed.

(** What fits into [precision] digits, [scale] of them after the point. *)
Definition bin_fits (d : decimal_t) (precision scale : Z) : Prop :=
  0 <= scale <= precision /\ 0 < precision /\ d_frac d <= scale /\
  dec_val d < 10 ^ (precision - scale) * DIG_BASE ^ ROUND_UP (d_frac d).

Lemma view_fits d z intg t f precision scale : digits_view d z intg t f -> bin_fits d precision scale ->
  intg <= precision - scale.
Proof.
  intros [_ _ Hi _ Lf Hok Hv _ Hleast] (Hs & _ & _ & Hlt).
  destruct (Z.le_gt_cases intg (precision - scale)) as [|Hgt]; [done|].
  apply Forall_app in Hok as [_ Ff]. pose proof (dval_bounds f Ff) as Bf.
  rewrite <- Hv, dval_app, Lf in Hlt. rewrite Lf in Bf.
  pose proof (Z.pow_le_mono_r 10 (precision - scale) (intg - 1) ltac:(lia) ltac:(lia)).
  specialize (Hleast ltac:(lia)).
  assert (10 ^ (precision - scale) * DIG_BASE ^ ROUND_UP (d_frac d) <= dval t * DIG_BASE ^ ROUND_UP (d_frac d)); [|lia].
  apply Z.mul_le_mono_nonneg_r; [lia|lia].
Qed.

Lemma digits_size_pos n : 0 < n -> 0 < digits_size n.
Proof.
  intros Hn. destruct (full_rest n ltac:(lia)) as (? & Hr & E). unfold digits_size.
  destruct (dig2bytes_range (rest_digits n) ltac:(lia)) as [? ?].
  destruct (Z.eq_dec (rest_digits n) 0); lia.
Qed.

(** The format of a number: [None] only when there is no room for any digit. *)
Definition bin_format (sg : bool) (precision scale v : Z) (f : list Z) : list Z :=
  masked sg (enc_int (Z.to_nat (full_digits (precision - scale))) (rest_digits (precision - scale)) v ++
             enc_frac (Z.to_nat (full_digits scale)) (rest_digits scale) f).

Lemma decimal2bin_spec d precision scale : dec_wf d -> dec_nz d -> bin_fits d precision scale ->
  exists z intg t f, digits_view d z intg t f /\
    decimal2bin d precision scale =
      (out ← flip_first (bin_format (d_sign d) precision scale (dval t) f); Some (out, E_DEC_OK)).
Proof.
  intros Hd Hnz HF. destruct (remove_leading_zeroes_spec d Hd) as (z & intg & t & f & ER & V).
  exists z, intg, t, f. split; [done|]. unfold decimal2bin. rewrite ER. cbn [mbind option_bind].
  pose proof (view_fits _ _ _ _ _ _ _ V HF) as Hi. destruct HF as (Hs & Hp & Hf & _).
  pose proof (wf_frac d Hd) as Hf0. pose proof (dv_intg _ _ _ _ _ V) as Hi0.
  destruct (Z.eqb_spec (intg + digits_size (d_frac d)) 0) as [E|E].
  - destruct (Z.eq_dec (d_frac d) 0) as [Ef|]; [|pose proof (digits_size_pos (d_frac d)); lia].
    assert (intg = 0) as -> by (rewrite Ef in E; change (digits_size 0) with 0 in E; lia).
    pose proof (dv_t _ _ _ _ _ V) as Lt. pose proof (dv_f _ _ _ _ _ V) as Lf. rewrite Ef in Lf.
    assert (t = []) as -> by (destruct t; [done|]; change (ROUND_UP 0) with 0 in Lt; simpl in Lt; lia).
    assert (f = []) as -> by (destruct f; [done|]; change (ROUND_UP 0) with 0 in Lf; simpl in Lf; lia).
    assert (d_sign d = false) as ->.
    { destruct (d_sign d) eqn:Es; [|done]. destruct (Hnz Es). by rewrite <- (dv_val _ _ _ _ _ V). }
    apply (bin_store_spec (mk_decimal 0 (d_frac d) 1 false [0]) 0 0 [] [] false 1 precision scale);
      simpl; try lia. rewrite Ef.
    split; try done; simpl; try lia. by exists [0].
  - apply (bin_store_spec d z intg t f (d_sign d) (precision - scale)); by try lia.
Qed.

(** ** Order of the bytes *)

(** The sign of what [memcmp] returns. *)
Fixpoint bytes_compare (l1 l2 : list Z) : comparison :=
  match l1, l2 with
  | a :: l1, b :: l2 => match a ?= b with Eq => bytes_compare l1 l2 | c => c end
  | _, _ => Eq
  end.

(** The order of pairs. *)
Definition then_compare (c d : comparison) : comparison := match c with Eq => d | _ => c end.

Lemma bytes_compare_app a1 a2 b1 b2 : length a1 = length a2 ->
  bytes_compare (a1 ++ b1) (a2 ++ b2) = then_compare (bytes_compare a1 a2) (bytes_compare b1 b2).
Proof.
  revert a2. induction a1 as [|x a1 IH]; intros [|y a2] L; try done. simpl.
  destruct (x ?= y); [|done|done]. apply IH. simpl in L. lia.
Qed.

Lemma compare_pair a b c d n : 0 <= b < n -> 0 <= d < n ->
  (a * n + b ?= c * n + d) = then_compare (a ?= c) (b ?= d).
Proof.
  intros Hb Hd. destruct (Z.compare_spec a c) as [->|H|H]; simpl.
  - by rewrite Z.add_compare_mono_l.
  - apply Z.compare_lt_iff. nia.
  - apply Z.compare_gt_iff. nia.
Qed.

Lemma compare_divmod a b n : 0 < n ->
  (a ?= b) = then_compare (a / n ?= b / n) (a mod n ?= b mod n).
Proof.
  intros Hn. rewrite <- (compare_pair _ _ _ _ n) by (apply Z.mod_pos_bound; lia).
  rewrite (Z.div_mod a n) at 1 by lia. rewrite (Z.div_mod b n) at 1 by lia.
  by rewrite (Z.mul_comm n (a / n)), (Z.mul_comm n (b / n)).
Qed.

Lemma bytes_compare_be i v1 v2 : 0 <= v1 < 256 ^ Z.of_nat i -> 0 <= v2 < 256 ^ Z.of_nat i ->
  bytes_compare (be i v1) (be i v2) = (v1 ?= v2).
Proof.
  revert v1 v2. induction i as [|i IH]; intros v1 v2 H1 H2.
  - simpl in *. symmetry. apply Z.compare_eq_iff. lia.
  - cbn [be]. rewrite bytes_compare_app by by rewrite !be_length.
    rewrite Nat2Z.inj_succ, Z.pow_succ_r in H1, H2 by lia.
    rewrite IH by (split; [apply Z.div_pos; lia|apply Z.div_lt_upper_bound; lia]).
    rewrite (compare_divmod v1 v2 256) by lia. simpl. by destruct (v1 mod 256 ?= v2 mod 256).
Qed.

Lemma word_bytes w : word_ok w -> 0 <= w < 256 ^ Z.of_nat 4.
Proof. unfold word_ok, DIG_BASE. change (256 ^ Z.of_nat 4) with 4294967296. lia. Qed.

Lemma mod_word_ok v : word_ok (v mod DIG_BASE).
Proof. by apply Z.mod_pos_bound. Qed.

Lemma bytes_compare_enc_int q r v1 v2 : 0 <= r <= 8 ->
  0 <= v1 < 10 ^ (9 * Z.of_nat q + r) -> 0 <= v2 < 10 ^ (9 * Z.of_nat q + r) ->
  bytes_compare (enc_int q r v1) (enc_int q r v2) = (v1 ?= v2).
Proof.
  intros Hr. revert v1 v2. induction q as [|q IH]; intros v1 v2 H1 H2; cbn [enc_int].
  - apply bytes_compare_be; apply digits_fit; try lia; rewrite Z.add_0_l in *; done.
  - assert (length (enc_int q r (v1 / DIG_BASE)) = length (enc_int q r (v2 / DIG_BASE))) as L.
    { pose proof (enc_int_length q r (v1 / DIG_BASE)). pose proof (enc_int_length q r (v2 / DIG_BASE)). lia. }
    rewrite bytes_compare_app by done. replace (9 * Z.of_nat (S q) + r) with (9 * Z.of_nat q + r + 9) in * by lia.
    rewrite Z.pow_add_r in H1, H2 by lia. change (10 ^ 9) with DIG_BASE in H1, H2.
    rewrite IH, bytes_compare_be by (first [apply word_bytes, mod_word_ok |
      split; [apply Z.div_pos; [lia|done]|apply Z.div_lt_upper_bound; [done|lia]]]).
    symmetry. by apply compare_divmod.
Qed.

(** The digits after the point as a number. *)
Fixpoint frac_digits (q : nat) (r : Z) (ws : list Z) : Z :=
  match q with
  | O => if r =? 0 then 0 else hd 0 ws / 10 ^ (9 - r)
  | S q => hd 0 ws * 10 ^ (9 * Z.of_nat q + r) + frac_digits q r (tail ws)
  end.

Lemma hd_word_ok ws : Forall word_ok ws -> word_ok (hd 0 ws).
Proof. destruct 1; [apply word_ok_0|done]. Qed.

Lemma tail_word_ok ws : Forall word_ok ws -> Forall word_ok (tail ws).
Proof. by destruct 1; [constructor|]. Qed.

Lemma last_digits_bound w r : word_ok w -> 1 <= r <= 8 -> 0 <= w / 10 ^ (9 - r) < 10 ^ r.
Proof.
  intros Hw Hr. pose proof (Z.pow_pos_nonneg 10 (9 - r) ltac:(lia) ltac:(lia)). unfold word_ok in Hw.
  split; [apply Z.div_pos; lia|]. apply Z.div_lt_upper_bound; [done|].
  rewrite <- Z.pow_add_r by lia. replace (9 - r + r) with 9 by lia. apply Hw.
Qed.

Lemma frac_digits_bound q r ws : 0 <= r <= 8 -> Forall word_ok ws ->
  0 <= frac_digits q r ws < 10 ^ (9 * Z.of_nat q + r).
Proof.
  intros Hr. revert ws. induction q as [|q IH]; intros ws F; cbn [frac_digits].
  - rewrite Z.add_0_l. destruct (Z.eqb_spec r 0) as [->|]; [simpl; lia|].
    apply last_digits_bound; [by apply hd_word_ok|lia].
  - pose proof (IH _ (tail_word_ok _ F)) as B. pose proof (hd_word_ok _ F) as W. unfold word_ok in W.
    replace (9 * Z.of_nat (S q) + r) with (9 * Z.of_nat q + r + 9) by lia. rewrite (Z.pow_add_r _ (_ + r) 9) by lia.
    change (10 ^ 9) with DIG_BASE. nia.
Qed.

Lemma bytes_compare_enc_frac q r f1 f2 : 0 <= r <= 8 -> Forall word_ok f1 -> Forall word_ok f2 ->
  bytes_compare (enc_frac q r f1) (enc_frac q r f2) = (frac_digits q r f1 ?= frac_digits q r f2).
Proof.
  intros Hr. revert f1 f2. induction q as [|q IH]; intros f1 f2 F1 F2; cbn [enc_frac frac_digits].
  - destruct (Z.eqb_spec r 0) as [->|]; [done|].
    apply bytes_compare_be; apply digits_fit; try lia; apply last_digits_bound; first [by apply hd_word_ok|lia].
  - rewrite bytes_compare_app by by rewrite !be_length.
    rewrite bytes_compare_be by by apply word_bytes, hd_word_ok.
    rewrite IH, compare_pair by first [by apply tail_word_ok | apply frac_digits_bound; [done|by apply tail_word_ok]].
    done.
Qed.
