(* ===== verification/DecimalStore.v ===== *)
(** * Fixed-point decimals: correctness of the storage format

    What [decimal2bin] stores is compared byte by byte like the numbers, and
    [bin2decimal] reads the numbers back. *)

From Stdlib Require Import ZArith Lia QArith.
From stdpp Require Import base numbers option tactics list.
From S2P Require Import Prelude Decimal Bytes DecimalDigits DecimalBin.

#[local] Open Scope Z_scope.

(** ** The digits stored *)

Lemma frac_digits_nil q r : frac_digits q r [] = 0.
Proof.
  induction q as [|q IH]; cbn [frac_digits hd tail]; [by destruct (r =? 0); rewrite ?Zdiv_0_l|].
  rewrite IH. lia.
Qed.

(** The digits after the point are all there. *)
Lemma frac_digits_value q r f fr : 0 <= r <= 8 -> Z.of_nat (length f) = ROUND_UP fr ->
  0 <= fr <= 9 * Z.of_nat q + r -> (10 ^ (9 * Z.of_nat (length f) - fr) | dval f) ->
  frac_digits q r f * DIG_BASE ^ Z.of_nat (length f) = dval f * 10 ^ (9 * Z.of_nat q + r).
Proof.
  intros Hr. revert f fr. induction q as [|q IH]; intros f fr Lf Hf Ha; cbn [frac_digits];
    pose proof (ROUND_UP_bounds fr ltac:(lia)) as Hb; rewrite <- Lf in Hb.
  - rewrite Z.add_0_l in *. destruct (Z.eqb_spec r 0) as [->|].
    { destruct f; [done|]. simpl length in *. lia. }
    destruct f as [|w [|w' f]]; [by rewrite Zdiv_0_l| |simpl length in *; lia].
    simpl length in *. change (dval [w]) with w in *. change (DIG_BASE ^ Z.of_nat 1) with (10 ^ 9).
    cbn [hd]. destruct Ha as [x ->].
    replace (9 * Z.of_nat 1 - fr) with (r - fr + (9 - r)) by lia. rewrite Z.pow_add_r, Z.mul_assoc by lia.
    rewrite Z.div_mul by (apply Z.pow_nonzero; lia).
    replace 9 with (9 - r + r) at 1 by lia. rewrite Z.pow_add_r by lia. ring.
  - destruct f as [|w f]; cbn [hd tail].
    + rewrite (frac_digits_nil q r), dval_nil. lia.
    + simpl length in *. rewrite dval_cons in *.
      assert (frac_digits q r f * DIG_BASE ^ Z.of_nat (length f) = dval f * 10 ^ (9 * Z.of_nat q + r)) as E.
      { destruct (Z.le_gt_cases fr 9) as [Hle|Hgt].
        - assert (f = []) as -> by (destruct f; [done|simpl length in *; lia]). rewrite frac_digits_nil, dval_nil. lia.
        - apply (IH f (fr - 9)); [|lia|].
          + rewrite !ROUND_UP_nonneg in * by lia. Z.to_euclidean_division_equations. lia.
          + replace (9 * Z.of_nat (length f) - (fr - 9)) with (9 * Z.of_nat (S (length f)) - fr) by lia.
            eapply Z.divide_add_cancel_r; [|exact Ha]. apply Z.divide_mul_r.
            rewrite DIG_BASE_pow by lia. exists (10 ^ (fr - 9)). rewrite <- Z.pow_add_r by lia. f_equal. lia. }
      rewrite Nat2Z.inj_succ, Z.pow_succ_r by lia.
      replace (9 * Z.of_nat (S q) + r) with (9 + (9 * Z.of_nat q + r)) by lia.
      rewrite (Z.pow_add_r 10 9) by lia. change (10 ^ 9) with DIG_BASE.
      set (T := 10 ^ (9 * Z.of_nat q + r)) in *. set (P := DIG_BASE ^ Z.of_nat (length f)) in *.
      transitivity (w * T * (DIG_BASE * P) + frac_digits q r f * P * DIG_BASE); [ring|rewrite E; ring].
Qed.

(** The number stored, in units of the last digit. *)
Definition stored_digits (precision scale v : Z) (f : list Z) : Z :=
  v * 10 ^ scale + frac_digits (Z.to_nat (full_digits scale)) (rest_digits scale) f.

(** The value of a decimal in these units. *)
Lemma stored_digits_Q d z intg t f precision scale : dec_wf d -> digits_view d z intg t f -> 0 <= scale ->
  d_frac d <= scale ->
  (dec_Q d == Qmake (sgn d * stored_digits precision scale (dval t) f) (Z.to_pos (10 ^ scale)))%Q.
Proof.
  intros Hd [_ _ _ _ Lf _ Hv _ _] Hs Hf. pose proof (wf_frac d Hd) as Hf0. pose proof (wf_frac_words d Hd) as Hfw.
  destruct (full_rest scale Hs) as (Hq & Hr & E).
  assert (stored_digits precision scale (dval t) f * DIG_BASE ^ ROUND_UP (d_frac d) = dec_val d * 10 ^ scale) as EU.
  { unfold stored_digits. rewrite Z.mul_add_distr_r, <- Lf.
    rewrite (frac_digits_value _ _ f (d_frac d)); try done; rewrite ?Z2Nat.id, <- ?E by done; [|lia|].
    - rewrite <- Hv, dval_app. ring.
    - pose proof (wf_aligned d Hd) as Ha. rewrite <- Hv, dval_app, <- Lf in Ha.
      eapply Z.divide_add_cancel_r; [|exact Ha]. apply Z.divide_mul_r. rewrite DIG_BASE_pow by lia.
      exists (10 ^ d_frac d). pose proof (ROUND_UP_bounds (d_frac d) Hf0). rewrite <- Z.pow_add_r by lia. f_equal. lia. }
  unfold Qeq, dec_Q, dec_sval, sgn. simpl.
  rewrite !Z2Pos.id by (first [apply DIG_BASE_pow_pos; lia|apply Z.pow_pos_nonneg; lia]).
  destruct (d_sign d); lia.
Qed.

Lemma stored_frac_bound scale f : 0 <= scale -> Forall word_ok f ->
  0 <= frac_digits (Z.to_nat (full_digits scale)) (rest_digits scale) f < 10 ^ scale.
Proof.
  intros Hs F. destruct (full_rest scale Hs) as (Hq & Hr & E).
  pose proof (frac_digits_bound (Z.to_nat (full_digits scale)) (rest_digits scale) f Hr F) as B.
  by rewrite Z2Nat.id, <- E in B.
Qed.

Lemma enc_frac_length q r f1 f2 : length (enc_frac q r f1) = length (enc_frac q r f2).
Proof.
  revert f1 f2. induction q as [|q IH]; intros f1 f2; cbn [enc_frac].
  - destruct (r =? 0); [done|]. by rewrite !be_length.
  - rewrite !length_app, !be_length. f_equal. apply IH.
Qed.

(** Without a sign, the bytes are ordered like the numbers. *)
Lemma bytes_compare_format precision scale v1 f1 v2 f2 : 0 <= scale <= precision ->
  0 <= v1 < 10 ^ (precision - scale) -> 0 <= v2 < 10 ^ (precision - scale) ->
  Forall word_ok f1 -> Forall word_ok f2 ->
  bytes_compare (bin_format false precision scale v1 f1) (bin_format false precision scale v2 f2) =
    (stored_digits precision scale v1 f1 ?= stored_digits precision scale v2 f2).
Proof.
  intros Hs H1 H2 F1 F2. destruct (full_rest scale ltac:(lia)) as (Hq & Hr & E).
  destruct (full_rest (precision - scale) ltac:(lia)) as (Hq' & Hr' & E').
  unfold bin_format, stored_digits, masked. rewrite bytes_compare_app.
  - rewrite bytes_compare_enc_int, bytes_compare_enc_frac by (try done; rewrite Z2Nat.id, <- E' by done; done).
    symmetry. apply compare_pair; apply stored_frac_bound; by try lia.
  - apply Nat2Z.inj. rewrite !enc_int_length by lia. done.
Qed.

(** *** The first byte *)

Definition head_small (l : list Z) : Prop := exists b r, l = b :: r /\ 0 <= b < 128.

Lemma head_small_app l1 l2 : head_small l1 -> head_small (l1 ++ l2).
Proof. intros (b & r & -> & Hb). by exists b, (r ++ l2). Qed.

Lemma be_head i v : 0 <= v -> 2 * v < 256 ^ Z.of_nat (S i) -> head_small (be (S i) v).
Proof.
  revert v. induction i as [|i IH]; intros v H0 Hv.
  - simpl be. exists (v mod 256), []. split; [done|]. change (256 ^ Z.of_nat 1) with 256 in Hv.
    rewrite Z.mod_small; lia.
  - change (be (S (S i)) v) with (be (S i) (v / 256) ++ [v mod 256]). apply head_small_app, IH.
    + apply Z.div_pos; lia.
    + rewrite (Nat2Z.inj_succ (S i)), Z.pow_succ_r in Hv by lia.
      assert (v / 256 * 256 <= v) by (pose proof (Z.div_mod v 256); pose proof (Z.mod_pos_bound v 256); lia). lia.
Qed.

Lemma stored_digits_head r v : 1 <= r <= 9 -> 0 <= v < 10 ^ r -> head_small (be (Z.to_nat (dig2bytes r)) v).
Proof.
  intros Hr Hv. destruct (dig2bytes_range r ltac:(lia)) as [D1 D2]. specialize (D2 ltac:(lia)).
  destruct (Z.to_nat (dig2bytes r)) as [|i] eqn:Ei; [lia|]. apply be_head; [lia|].
  rewrite <- Ei, Z2Nat.id by lia. destruct (dig2bytes_fit r ltac:(lia)); lia.
Qed.

Lemma enc_int_head q r v : 0 <= r <= 8 -> 0 < 9 * Z.of_nat q + r -> 0 <= v < 10 ^ (9 * Z.of_nat q + r) ->
  head_small (enc_int q r v).
Proof.
  intros Hr. revert v. induction q as [|q IH]; intros v Hp Hv; cbn [enc_int].
  - apply stored_digits_head; [lia|]. by rewrite Z.add_0_l in Hv.
  - destruct (Z.eq_dec (9 * Z.of_nat q + r) 0) as [E|].
    + assert (q = 0%nat /\ r = 0) as [-> ->] by lia. cbn [enc_int].
      change (be (Z.to_nat (dig2bytes 0)) _) with (@nil Z). apply (stored_digits_head 9); [lia|]. apply mod_word_ok.
    + apply head_small_app, IH; [lia|]. replace (9 * Z.of_nat (S q) + r) with (9 * Z.of_nat q + r + 9) in Hv by lia.
      rewrite Z.pow_add_r in Hv by lia. change (10 ^ 9) with DIG_BASE in Hv.
      split; [apply Z.div_pos; [lia|done]|]. apply Z.div_lt_upper_bound; [done|lia].
Qed.

Lemma enc_frac_head q r f : 0 <= r <= 8 -> 0 < 9 * Z.of_nat q + r -> Forall word_ok f ->
  head_small (enc_frac q r f).
Proof.
  intros Hr Hp F. destruct q as [|q]; cbn [enc_frac].
  - rewrite (proj2 (Z.eqb_neq r 0)) by lia. apply stored_digits_head; [lia|].
    apply last_digits_bound; [by apply hd_word_ok|lia].
  - apply head_small_app, (stored_digits_head 9); [lia|]. by apply hd_word_ok.
Qed.

Lemma format_head precision scale v f : 0 <= scale <= precision -> 0 < precision ->
  0 <= v < 10 ^ (precision - scale) -> Forall word_ok f -> head_small (bin_format false precision scale v f).
Proof.
  intros Hs Hp Hv F. unfold bin_format, masked.
  destruct (full_rest scale ltac:(lia)) as (Hq & Hr & E).
  destruct (full_rest (precision - scale) ltac:(lia)) as (Hq' & Hr' & E').
  destruct (Z.eq_dec (precision - scale) 0) as [E0|].
  - rewrite E0. change (enc_int _ _ v) with (@nil Z). apply enc_frac_head; by try lia.
  - apply head_small_app, enc_int_head; [done|lia|]. by rewrite Z2Nat.id, <- E'.
Qed.

(** *** The sign *)

Lemma flip_masked sg l : head_small l ->
  exists b r, l = b :: r /\ 0 <= b < 128 /\
    flip_first (masked sg l) = Some ((if sg then 127 - b else b + 128) :: masked sg r).
Proof.
  intros (b & r & -> & Hb). exists b, r. split_and!; [done|lia..|]. destruct sg; simpl.
  - rewrite lxor_128 by lia. rewrite (proj2 (Z.ltb_ge _ _)) by lia. do 2 f_equal. lia.
  - rewrite lxor_128 by lia. rewrite (proj2 (Z.ltb_lt _ _)) by lia. done.
Qed.

Lemma compare_sub_l n a b : (n - a ?= n - b) = (b ?= a).
Proof. unfold Z.sub. rewrite Z.add_compare_mono_l. apply Z.compare_opp. Qed.

Lemma bytes_compare_comp l1 l2 : bytes_compare (comp l1) (comp l2) = bytes_compare l2 l1.
Proof.
  revert l2. induction l1 as [|a l1 IH]; intros [|b l2]; try done. simpl. fold (comp l1) (comp l2). rewrite IH.
  by rewrite compare_sub_l.
Qed.

Lemma bytes_compare_flip sg1 l1 b1 sg2 l2 b2 : head_small l1 -> head_small l2 ->
  flip_first (masked sg1 l1) = Some b1 -> flip_first (masked sg2 l2) = Some b2 ->
  bytes_compare b1 b2 = match sg1, sg2 with
                 | false, false => bytes_compare l1 l2
                 | true, true => bytes_compare l2 l1
                 | true, false => Lt
                 | false, true => Gt
                 end.
Proof.
  intros H1 H2. destruct (flip_masked sg1 l1 H1) as (a1 & r1 & -> & B1 & ->).
  destruct (flip_masked sg2 l2 H2) as (a2 & r2 & -> & B2 & ->). intros [= <-] [= <-].
  destruct sg1, sg2; simpl.
  - fold (comp r1) (comp r2). rewrite bytes_compare_comp. by rewrite compare_sub_l.
  - by rewrite (proj2 (Z.compare_lt_iff _ _)) by lia.
  - by rewrite (proj2 (Z.compare_gt_iff _ _)) by lia.
  - by rewrite !(Z.add_comm _ 128), Z.add_compare_mono_l.
Qed.

(** *** What is stored *)

(** The bytes of a number that fits. *)
Lemma decimal2bin_stored d precision scale : dec_wf d -> dec_nz d -> bin_fits d precision scale ->
  exists bytes v f, decimal2bin d precision scale = Some (bytes, E_DEC_OK) /\
    flip_first (bin_format (d_sign d) precision scale v f) = Some bytes /\
    0 <= v < 10 ^ (precision - scale) /\ Forall word_ok f /\
    (dec_Q d == Qmake (sgn d * stored_digits precision scale v f) (Z.to_pos (10 ^ scale)))%Q /\
    (d_sign d = true -> 0 < stored_digits precision scale v f).
Proof.
  intros Hd Hnz HF. destruct (decimal2bin_spec d precision scale Hd Hnz HF) as (z & intg & t & f & V & E).
  pose proof (view_fits _ _ _ _ _ _ _ V HF) as Hi. destruct HF as (Hs & Hp & Hf & _).
  pose proof (dv_ok _ _ _ _ _ V) as Hok. apply Forall_app in Hok as [Ft Ff].
  pose proof (dval_bounds t Ft) as [Ht0 _]. pose proof (dv_top _ _ _ _ _ V) as Ht.
  pose proof (Z.pow_le_mono_r 10 intg (precision - scale) ltac:(lia) Hi) as Hpow.
  assert (0 <= dval t < 10 ^ (precision - scale)) as Hv by lia.
  pose proof (format_head precision scale (dval t) f Hs Hp Hv Ff) as Hh.
  assert (exists bytes, flip_first (bin_format (d_sign d) precision scale (dval t) f) = Some bytes) as [bytes EB].
  { unfold bin_format in *. unfold masked in Hh. destruct (flip_masked (d_sign d) _ Hh) as (b & r & _ & _ & ->). eauto. }
  exists bytes, (dval t), f. rewrite E, EB. split_and!; try done; try lia.
  - eapply stored_digits_Q; by try lia.
  - intros Es. pose proof (stored_frac_bound scale f ltac:(lia) Ff) as Bf. unfold stored_digits.
    pose proof (Z.pow_pos_nonneg 10 scale ltac:(lia) ltac:(lia)).
    assert (0 <= dval t * 10 ^ scale) by (apply Z.mul_nonneg_nonneg; lia).
    destruct (Z.eq_dec (dval t * 10 ^ scale + frac_digits (Z.to_nat (full_digits scale)) (rest_digits scale) f) 0)
      as [E0|]; [|lia].
    destruct (Hnz Es). pose proof (stored_digits_Q d z intg t f precision scale Hd V ltac:(lia) Hf) as Q.
    unfold stored_digits in Q. rewrite E0 in Q. unfold Qeq, dec_Q, dec_sval in Q. simpl in Q. rewrite Es in Q.
    rewrite Z2Pos.id in Q by done. rewrite Z.mul_0_r in Q. nia.
Qed.

Lemma flip_first_length l l' : flip_first l = Some l' -> length l' = length l.
Proof. destruct l; simpl; [done|]. by intros [= <-]. Qed.

Lemma format_length sg precision scale v f : 0 <= scale <= precision ->
  Z.of_nat (length (bin_format sg precision scale v f)) = decimal_bin_size precision scale.
Proof.
  intros Hs. destruct (full_rest scale ltac:(lia)) as (Hq & Hr & E).
  destruct (full_rest (precision - scale) ltac:(lia)) as (Hq' & Hr' & E').
  destruct (dig2bytes_range (rest_digits scale) ltac:(lia)) as [D _].
  unfold bin_format. rewrite masked_length, length_app, (enc_frac_length _ _ f []), Nat2Z.inj_add.
  rewrite enc_int_length, enc_frac_nil, length_replicate by lia.
  unfold decimal_bin_size. fold (full_digits (precision - scale)) (full_digits scale).
  fold (rest_digits (precision - scale)) (rest_digits scale). lia.
Qed.

(** C15: the bytes [decimal2bin] stores for two numbers of one DECIMAL type take
    [decimal_bin_size] bytes each, and compare with [memcmp] like the numbers. *)
Theorem decimal2bin_order d1 d2 precision scale :
  dec_wf d1 -> dec_nz d1 -> bin_fits d1 precision scale ->
  dec_wf d2 -> dec_nz d2 -> bin_fits d2 precision scale ->
  exists b1 b2, decimal2bin d1 precision scale = Some (b1, E_DEC_OK) /\
    decimal2bin d2 precision scale = Some (b2, E_DEC_OK) /\
    Z.of_nat (length b1) = decimal_bin_size precision scale /\
    Z.of_nat (length b2) = decimal_bin_size precision scale /\
    bytes_compare b1 b2 = (dec_Q d1 ?= dec_Q d2)%Q.
Proof.
  intros H1 N1 F1 H2 N2 F2. pose proof F1 as (Hs & Hp & _).
  destruct (decimal2bin_stored d1 precision scale H1 N1 F1) as (b1 & v1 & f1 & E1 & B1 & V1 & O1 & Q1 & P1).
  destruct (decimal2bin_stored d2 precision scale H2 N2 F2) as (b2 & v2 & f2 & E2 & B2 & V2 & O2 & Q2 & P2).
  exists b1, b2. split_and!; [done|done|..].
  - erewrite flip_first_length by exact B1. by apply format_length.
  - erewrite flip_first_length by exact B2. by apply format_length.
  - rewrite Q1, Q2, Qmake_compare.
    rewrite (bytes_compare_flip _ _ _ _ _ _ (format_head _ _ _ _ Hs Hp V1 O1) (format_head _ _ _ _ Hs Hp V2 O2) B1 B2).
    rewrite !bytes_compare_format by done.
    assert (forall v f, 0 <= v < 10 ^ (precision - scale) -> Forall word_ok f -> 0 <= stored_digits precision scale v f) as N.
    { intros v f Hv Hf. unfold stored_digits. pose proof (stored_frac_bound scale f ltac:(lia) Hf).
      assert (0 <= v * 10 ^ scale) by (apply Z.mul_nonneg_nonneg; [lia|apply Z.pow_nonneg; lia]). lia. }
    pose proof (N v1 f1 V1 O1). pose proof (N v2 f2 V2 O2). unfold sgn.
    destruct (d_sign d1), (d_sign d2); symmetry.
    + change (-1) with (- (1)). rewrite !Z.mul_opp_l, !Z.mul_1_l. apply Z.compare_opp.
    + apply Z.compare_lt_iff. specialize (P1 eq_refl). lia.
    + apply Z.compare_gt_iff. specialize (P2 eq_refl). lia.
    + by rewrite !Z.mul_1_l.
Qed.

(** ** Reading back *)

Lemma unmask v sg : Z.lxor (Z.lxor v (mask_of sg)) (mask_of sg) = v.
Proof. rewrite !lxor_mask. destruct sg; lia. Qed.

(** A field reads back as the number it holds. *)
Lemma korr_masked i v sg r : 1 <= i <= 4 -> 0 <= v -> 2 * v < 256 ^ i ->
  mi_korr i (masked sg (be (Z.to_nat i) v) ++ r) = Some (Z.lxor v (mask_of sg)).
Proof.
  intros Hi Hv Hb. rewrite <- be_masked. apply mi_korr_be; [done|]. rewrite lxor_mask. unfold in_s.
  replace (2 ^ (8 * i)) with (256 ^ i) in * by (rewrite Z.pow_mul_r by lia; done).
  assert (2 * 2 ^ (8 * i - 1) = 256 ^ i).
  { rewrite <- Z.pow_succ_r by lia. replace (Z.succ (8 * i - 1)) with (8 * i) by lia.
    rewrite Z.pow_mul_r by lia. done. }
  destruct sg; lia.
Qed.

Lemma korr_word w sg r : word_ok w ->
  mi_korr 4 (masked sg (be 4 w) ++ r) = Some (Z.lxor w (mask_of sg)).
Proof.
  unfold word_ok, DIG_BASE. intros Hw. apply (korr_masked 4); [lia|lia|].
  change (256 ^ 4) with 4294967296. lia.
Qed.

Lemma wr_spec buf i x : 0 <= i < Z.of_nat (length buf) ->
  exists buf', wr buf i x = Some buf' /\ length buf' = length buf /\
    take (Z.to_nat i) buf' = take (Z.to_nat i) buf /\
    take (Z.to_nat (i + 1)) buf' = take (Z.to_nat i) buf ++ [x].
Proof.
  intros Hi. unfold wr. rewrite (proj2 (Z.leb_le _ _)), (proj2 (Z.ltb_lt _ _)) by lia. simpl. eexists.
  split; [done|]. rewrite length_insert. split_and!; [done|by rewrite take_insert_ge by lia|].
  replace (Z.to_nat (i + 1)) with (S (Z.to_nat i)) by lia.
  erewrite take_S_r; [by rewrite take_insert_ge by lia|]. apply list_lookup_insert_eq. lia.
Qed.


(** The words kept so far. *)
Definition kept (st : bin_state) : list Z := take (Z.to_nat (b_pos st)) (b_buf st).

Definition bin_ok (st : bin_state) : Prop := 0 <= b_pos st <= Z.of_nat (length (b_buf st)).

(** After a part of the integer digits, which make the number [v], with [m] words
    of nine digits to come: the words kept have no leading zero words, and what
    is left of [intg] counts their digits and the ones to come. *)
Record int_inv (st : bin_state) (m v : Z) : Prop := {
  ii_pos : bin_ok st;
  ii_words : Forall word_ok (kept st);
  ii_val : dval (kept st) = v;
  ii_digits : exists D, 0 <= D /\ b_intg st = 9 * m + D /\ ROUND_UP D = b_pos st /\ v < 10 ^ D
}.

Lemma kept_length st : bin_ok st -> Z.of_nat (length (kept st)) = b_pos st.
Proof. unfold bin_ok, kept. intros H. rewrite length_take. lia. Qed.

(** One more word of the integer part. *)
Lemma bin_keep_spec st from buf v m x : int_inv st (m + 1) v -> word_ok x ->
  length buf = length (b_buf st) -> b_pos st < Z.of_nat (length (b_buf st)) ->
  take (Z.to_nat (b_pos st)) buf = kept st -> take (Z.to_nat (b_pos st + 1)) buf = kept st ++ [x] ->
  let st' := bin_keep st from buf x 9 in
  int_inv st' m (v * DIG_BASE + x) /\ b_from st' = from /\ length (b_buf st') = length (b_buf st) /\
  b_pos st' <= b_pos st + 1.
Proof.
  intros [Hok Hw Hv (D & HD & Ei & ER & Hlt)] Hx HL Hp T0 T1 st'.
  pose proof (kept_length st Hok) as Lk. pose proof (dval_bounds _ Hw) as Bv. unfold bin_ok in Hok.
  unfold st', bin_keep. destruct ((0 <? b_pos st) || negb (x =? 0)) eqn:E; simpl; (split; [|split_and!; by try lia]).
  - split; unfold bin_ok, kept; simpl; [lia|..].
    + rewrite T1. apply Forall_app; split; [done|by constructor].
    + rewrite T1, dval_snoc. by rewrite Hv.
    + exists (D + 9). split_and!; [lia|lia| |].
      * rewrite !ROUND_UP_nonneg in * by lia. Z.to_euclidean_division_equations. lia.
      * rewrite Z.pow_add_r by lia. change (10 ^ 9) with DIG_BASE. unfold word_ok in Hx. nia.
  - apply orb_false_iff in E as [E1 E2]. apply Z.ltb_ge in E1. apply negb_false_iff, Z.eqb_eq in E2. subst x.
    assert (b_pos st = 0) as E0 by lia. rewrite E0 in Lk. destruct (kept st) as [|? ?] eqn:Ek; [|simpl in Lk; lia].
    change (dval []) with 0 in Hv. subst v. 
    assert (D = 0) as -> by (pose proof (ROUND_UP_bounds D HD); lia).
    split; unfold bin_ok, kept; simpl; [lia|..]; rewrite ?T0; try done.
    exists 0. split_and!; [done|lia|done|done].
Qed.

Lemma bin_intg_words_spec ws sg rest st v : Forall word_ok ws -> int_inv st (Z.of_nat (length ws)) v ->
  b_from st = masked sg (enc_words ws) ++ rest ->
  b_pos st + Z.of_nat (length ws) <= Z.of_nat (length (b_buf st)) ->
  exists st', bin_intg_words (length ws) (mask_of sg) st = Some (inr st') /\
    int_inv st' 0 (v * DIG_BASE ^ Z.of_nat (length ws) + dval ws) /\ b_from st' = rest /\
    length (b_buf st') = length (b_buf st) /\ b_pos st' <= b_pos st + Z.of_nat (length ws).
Proof.
  revert st v. induction ws as [|x ws IH]; intros st v F HI EF HP.
  - exists st. split_and!; [done| |by destruct sg|done|simpl; lia]. 
    rewrite dval_nil, Z.mul_1_r, Z.add_0_r. done.
  - apply Forall_cons in F as [Hx F]. simpl length in *.
    change (enc_words (x :: ws)) with (be 4 x ++ enc_words ws) in EF. rewrite masked_app, <- app_assoc in EF.
    cbn [bin_intg_words]. rewrite EF, korr_word by done. cbn [mbind option_bind]. rewrite unmask.
    pose proof (ii_pos _ _ _ HI) as Hok. unfold bin_ok in Hok.
    destruct (wr_spec (b_buf st) (b_pos st) x) as (buf & -> & L & T0 & T1); [lia|]. cbn [mbind option_bind].
    rewrite wrapu_id by (unfold in_u, word_ok, DIG_BASE in *; lia).
    rewrite (proj2 (Z.ltb_ge DIG_MAX x)) by (unfold DIG_MAX, word_ok in *; lia).
    destruct (bin_keep_spec st (drop 4 (masked sg (be 4 x) ++ masked sg (enc_words ws) ++ rest)) buf v
      (Z.of_nat (length ws)) x) as (HI' & EF' & L' & P'); try done; [|lia|].
    { replace (Z.of_nat (length ws) + 1) with (Z.of_nat (S (length ws))) by lia. done. }
    change DIG_PER_DEC1 with 9. destruct (IH _ _ F HI') as (st' & -> & HI'' & EF'' & L'' & P'').
    + rewrite EF'. apply drop_app_length'. by rewrite masked_length, be_length.
    + rewrite L'. lia.
    + exists st'. split_and!; [done| |done|congruence|lia].
      rewrite dval_cons, Nat2Z.inj_succ, Z.pow_succ_r by lia.
      replace (v * (DIG_BASE * DIG_BASE ^ Z.of_nat (length ws)) + (x * DIG_BASE ^ Z.of_nat (length ws) + dval ws))
        with ((v * DIG_BASE + x) * DIG_BASE ^ Z.of_nat (length ws) + dval ws) by ring. done.
Qed.

Lemma bin_first_spec st q r w sg rest : bin_ok st -> b_pos st = 0 -> b_intg st = 9 * q + r -> 0 <= r <= 8 ->
  0 <= w < 10 ^ r -> b_from st = masked sg (be (Z.to_nat (dig2bytes r)) w) ++ rest ->
  (r <> 0 -> 0 < Z.of_nat (length (b_buf st))) ->
  exists st', bin_first st r (mask_of sg) = Some (inr st') /\ int_inv st' q w /\ b_from st' = rest /\
    length (b_buf st') = length (b_buf st) /\ b_pos st' <= (if r =? 0 then 0 else 1).
Proof.
  intros Hok E0 Ei Hr Hw EF HL. unfold bin_first. destruct (Z.eqb_spec r 0) as [->|Hr0].
  - exists st. change (Z.to_nat (dig2bytes 0)) with 0%nat in EF. simpl in Hw.
    split_and!; [done| |by destruct sg|done|lia].
    assert (kept st = []) as Ek by (unfold kept; by rewrite E0).
    assert (w = 0) as -> by lia. split; [done|rewrite Ek; constructor|by rewrite Ek|].
    exists 0. rewrite E0. split_and!; [done|lia|done|done].
  - destruct (dig2bytes_range r ltac:(lia)) as [D1 D2]. specialize (D2 ltac:(lia)). specialize (HL Hr0).
    rewrite EF, korr_masked by (first [lia|destruct (dig2bytes_fit r ltac:(lia)); lia]).
    cbn [mbind option_bind]. rewrite unmask, E0.
    destruct (wr_spec (b_buf st) 0 w) as (buf & -> & L & T0 & T1); [lia|]. cbn [mbind option_bind].
    pose proof (Z.pow_le_mono_r 10 r 8 ltac:(lia) ltac:(lia)) as Hp8. change (10 ^ 8) with 100000000 in Hp8.
    pose proof (Z.pow_lt_mono_r 10 r (r + 1) ltac:(lia) ltac:(lia) ltac:(lia)) as Hp.
    rewrite wrapu_id by (unfold in_u; lia). rewrite powers10_pow, (proj2 (Z.leb_gt _ _)) by lia.
    eexists. split; [done|]. unfold bin_keep. rewrite E0, Z.ltb_irrefl. simpl orb.
    replace (drop (Z.to_nat (dig2bytes r)) _) with rest
      by (symmetry; apply drop_app_length'; by rewrite masked_length, be_length).
    destruct (Z.eqb_spec w 0) as [->|Hw0]; simpl; (split; [|split_and!; by try lia]).
    + split; unfold bin_ok, kept; simpl; [lia|constructor|done|]. exists 0. split_and!; [done|lia|done|done].
    + split; unfold bin_ok, kept; simpl; [lia|..].
      * change (Pos.to_nat 1) with (Z.to_nat (0 + 1)). rewrite T1. constructor; [|constructor].
        unfold word_ok, DIG_BASE. lia.
      * change (Pos.to_nat 1) with (Z.to_nat (0 + 1)). by rewrite T1.
      * exists r. split_and!; [lia|done| |lia].
        rewrite ROUND_UP_nonneg by lia. Z.to_euclidean_division_equations. lia.
Qed.

(** A part of the fraction: [ws] are stored after what there is. *)
Definition bin_append (st st' : bin_state) (ws rest : list Z) : Prop :=
  b_from st' = rest /\ length (b_buf st') = length (b_buf st) /\ b_pos st' = b_pos st + Z.of_nat (length ws) /\
  b_intg st' = b_intg st /\ kept st' = kept st ++ ws.

Lemma bin_frac_words_spec ws sg rest st : Forall word_ok ws -> bin_ok st ->
  b_from st = masked sg (enc_words ws) ++ rest ->
  b_pos st + Z.of_nat (length ws) <= Z.of_nat (length (b_buf st)) ->
  exists st', bin_frac_words (length ws) (mask_of sg) st = Some (inr st') /\ bin_append st st' ws rest.
Proof.
  revert st. induction ws as [|x ws IH]; intros st F Hok EF HP.
  - exists st. split; [done|]. split_and!; [by destruct sg|done|simpl; lia|done|by rewrite app_nil_r].
  - apply Forall_cons in F as [Hx F]. simpl length in *. unfold bin_ok in Hok.
    change (enc_words (x :: ws)) with (be 4 x ++ enc_words ws) in EF. rewrite masked_app, <- app_assoc in EF.
    cbn [bin_frac_words]. rewrite EF, korr_word by done. cbn [mbind option_bind]. rewrite unmask.
    destruct (wr_spec (b_buf st) (b_pos st) x) as (buf & -> & L & T0 & T1); [lia|]. cbn [mbind option_bind].
    rewrite wrapu_id by (unfold in_u, word_ok, DIG_BASE in *; lia).
    rewrite (proj2 (Z.ltb_ge DIG_MAX x)) by (unfold DIG_MAX, word_ok in *; lia).
    set (st1 := mk_bin _ buf _ _).
    destruct (IH st1 F) as (st' & -> & EF' & L' & P' & I' & K'); unfold st1, bin_ok; cbn [b_from b_buf b_pos b_intg]; [lia|..].
    + apply drop_app_length'. by rewrite masked_length, be_length.
    + lia.
    + exists st'. split; [done|]. unfold st1 in *. simpl in *.
      split_and!; [done|congruence|simpl; lia|done|].
      rewrite K'. unfold kept at 1. simpl. by rewrite T1, <- app_assoc.
Qed.

Lemma bin_last_spec st r x sg rest : bin_ok st -> 0 <= r <= 8 ->
  0 <= x < 10 ^ r -> b_from st = masked sg (be (Z.to_nat (dig2bytes r)) x) ++ rest ->
  b_pos st + (if r =? 0 then 0 else 1) <= Z.of_nat (length (b_buf st)) ->
  exists st', bin_last st r (mask_of sg) = Some (inr st') /\
    bin_append st st' (if r =? 0 then [] else [x * 10 ^ (9 - r)]) (b_from st).
Proof.
  intros Hok Hr Hx EF HP. unfold bin_last. destruct (Z.eqb_spec r 0) as [->|Hr0].
  - exists st. split; [done|]. split_and!; try done; [simpl; lia|by rewrite app_nil_r].
  - destruct (dig2bytes_range r ltac:(lia)) as [D1 D2]. specialize (D2 ltac:(lia)). unfold bin_ok in Hok.
    rewrite EF, korr_masked by (first [lia|destruct (dig2bytes_fit r ltac:(lia)); lia]).
    cbn [mbind option_bind]. rewrite unmask, powers10_pow by (unfold DIG_PER_DEC1; lia).
    change DIG_PER_DEC1 with 9.
    assert (0 <= x * 10 ^ (9 - r) < DIG_BASE) as Hb.
    { assert (DIG_BASE = 10 ^ r * 10 ^ (9 - r)) as -> by (rewrite <- Z.pow_add_r by lia; by replace (r + (9 - r)) with 9 by lia).
      pose proof (Z.pow_pos_nonneg 10 (9 - r) ltac:(lia) ltac:(lia)). nia. }
    set (w := x * 10 ^ (9 - r)) in *. rewrite wraps_id by (unfold in_s, DIG_BASE in *; lia).
    destruct (wr_spec (b_buf st) (b_pos st) w) as (buf & -> & L & T0 & T1); [lia|]. cbn [mbind option_bind].
    rewrite wrapu_id by (unfold in_u, DIG_BASE in *; lia).
    rewrite (proj2 (Z.ltb_ge DIG_MAX w)) by (unfold DIG_MAX; lia).
    eexists. split; [done|]. rewrite <- EF. by split_and!.
Qed.

(** *** The fields of the format *)

Lemma int_fields q r v : 0 <= r <= 8 -> 0 <= v < 10 ^ (9 * Z.of_nat q + r) ->
  exists w ws, length ws = q /\ Forall word_ok ws /\ v = dval (w :: ws) /\ 0 <= w < 10 ^ r.
Proof.
  intros Hr. revert v. induction q as [|q IH]; intros v Hv.
  - exists v, []. rewrite Z.add_0_l in Hv. split_and!; by try lia.
  - destruct (IH (v / DIG_BASE)) as (w & ws & L & F & E & Hw).
    { replace (9 * Z.of_nat (S q) + r) with (9 * Z.of_nat q + r + 9) in Hv by lia.
      rewrite Z.pow_add_r in Hv by lia. change (10 ^ 9) with DIG_BASE in Hv.
      split; [apply Z.div_pos; [lia|done]|]. apply Z.div_lt_upper_bound; [done|lia]. }
    exists w, (ws ++ [v mod DIG_BASE]). split_and!; try lia.
    + rewrite length_app. simpl. lia.
    + apply Forall_app. split; [done|]. constructor; [apply mod_word_ok|done].
    + change (w :: ws ++ [v mod DIG_BASE]) with ((w :: ws) ++ [v mod DIG_BASE]). rewrite dval_snoc, <- E.
      rewrite (Z.div_mod v DIG_BASE) at 1 by done. lia.
Qed.

Lemma frac_fields q r f : 0 <= r <= 8 -> Forall word_ok f ->
  exists fw x, length fw = q /\ Forall word_ok fw /\ 0 <= x < 10 ^ r /\
    enc_frac q r f = enc_words fw ++ be (Z.to_nat (dig2bytes r)) x /\ frac_digits q r f = dval fw * 10 ^ r + x.
Proof.
  intros Hr. revert f. induction q as [|q IH]; intros f F; cbn [enc_frac frac_digits].
  - destruct (Z.eqb_spec r 0) as [->|Hr0]; [by exists [], 0|].
    exists [], (hd 0 f / 10 ^ (9 - r)).
    pose proof (last_digits_bound (hd 0 f) r (hd_word_ok _ F) ltac:(lia)). by split_and!; try lia.
  - destruct (IH _ (tail_word_ok _ F)) as (fw & x & L & Fw & Hx & E1 & E2).
    exists (hd 0 f :: fw), x. split_and!; try lia.
    + simpl. lia.
    + constructor; [by apply hd_word_ok|done].
    + rewrite E1. change (enc_words (hd 0 f :: fw)) with (be 4 (hd 0 f) ++ enc_words fw). by rewrite <- app_assoc.
    + rewrite E2, dval_cons, L, DIG_BASE_pow, Z.pow_add_r by lia. ring.
Qed.

(** The words [bin2decimal] makes of the fraction. *)
Definition frac_words (fw : list Z) (r x : Z) : list Z := fw ++ (if r =? 0 then [] else [x * 10 ^ (9 - r)]).

Lemma frac_words_spec fw scale x : 0 <= scale -> Z.of_nat (length fw) = full_digits scale -> Forall word_ok fw ->
  0 <= x < 10 ^ rest_digits scale ->
  let ws := frac_words fw (rest_digits scale) x in
  Z.of_nat (length ws) = ROUND_UP scale /\ Forall word_ok ws /\
  dval ws = (dval fw * 10 ^ rest_digits scale + x) * 10 ^ (9 * ROUND_UP scale - scale).
Proof.
  intros Hs L F Hx ws. destruct (full_rest scale Hs) as (Hq & Hr & E). rewrite ROUND_UP_full by done.
  unfold ws, frac_words. destruct (Z.eqb_spec (rest_digits scale) 0) as [E0|E0].
  - rewrite app_nil_r, E0 in *. change (10 ^ 0) with 1 in *. split_and!; [lia|done|].
    replace (9 * _ - scale) with 0 by lia. simpl. lia.
  - set (r := rest_digits scale) in *.
    assert (DIG_BASE = 10 ^ r * 10 ^ (9 - r)) as EB
      by (rewrite <- Z.pow_add_r by lia; by replace (r + (9 - r)) with 9 by lia).
    rewrite length_app, dval_snoc. simpl length. split_and!; [lia| |].
    + apply Forall_app. split; [done|]. constructor; [|done]. unfold word_ok. rewrite EB.
      pose proof (Z.pow_pos_nonneg 10 (9 - r) ltac:(lia) ltac:(lia)). nia.
    + replace (9 * (full_digits scale + 1) - scale) with (9 - r) by lia. rewrite EB. ring.
Qed.

(** *** The operation *)

(** The sign bit, and the bytes without it. *)
Lemma flip_back sg l bytes n : head_small l -> flip_first (masked sg l) = Some bytes -> n = length l ->
  exists first, head bytes = Some first /\ length bytes = n /\
    (if negb (Z.land first 128 =? 0) then 0 else -1) = mask_of sg /\
    flip_first (take n bytes) = Some (masked sg l).
Proof.
  intros Hh E ->. destruct (flip_masked sg l Hh) as (b & r & -> & Hb & E').
  rewrite E' in E. injection E as <-. eexists. split; [done|]. split; [simpl; by rewrite masked_length|].
  simpl length. cbn [take flip_first]. rewrite take_ge by by rewrite masked_length.
  destruct sg; rewrite land_128, lxor_128 by lia; unfold mask_of; simpl.
  - rewrite (proj2 (Z.ltb_lt _ _)) by lia. simpl. split; [done|]. do 2 f_equal. lia.
  - rewrite (proj2 (Z.ltb_ge _ _)) by lia. simpl. split; [done|]. do 2 f_equal. lia.
Qed.

(** The four parts, one after the other, on the bytes of a number. *)
Lemma bin_read sg q r w ws fw r' x st : 0 <= r <= 8 -> 0 <= r' <= 8 ->
  0 <= w < 10 ^ r -> Forall word_ok ws -> Forall word_ok fw -> 0 <= x < 10 ^ r' ->
  b_pos st = 0 -> Z.of_nat (length ws) = q -> b_intg st = q * 9 + r ->
  b_from st = masked sg (be (Z.to_nat (dig2bytes r)) w ++ enc_words ws ++ enc_words fw ++
                         be (Z.to_nat (dig2bytes r')) x) ->
  (if r =? 0 then 0 else 1) + q + Z.of_nat (length (frac_words fw r' x)) <= Z.of_nat (length (b_buf st)) ->
  exists st', bin_then (bin_then (bin_then (bin_first st r (mask_of sg))
        (bin_intg_words (length ws) (mask_of sg)))
        (bin_frac_words (length fw) (mask_of sg)))
        (fun st => bin_last st r' (mask_of sg)) = Some (inr st') /\
    length (b_buf st') = length (b_buf st) /\
    exists iw, kept st' = iw ++ frac_words fw r' x /\ Forall word_ok iw /\ dval iw = dval (w :: ws) /\
      b_pos st' = Z.of_nat (length (kept st')) /\
      0 <= b_intg st' /\ ROUND_UP (b_intg st') = Z.of_nat (length iw) /\ dval iw < 10 ^ b_intg st'.
Proof.
  intros Hr Hr' Hw Fws Ffw Hx E0 Lq Ei EF HL. unfold frac_words in HL. rewrite length_app in HL.
  rewrite !masked_app in EF.
  destruct (bin_first_spec st q r w sg (masked sg (enc_words ws) ++ masked sg (enc_words fw) ++
    masked sg (be (Z.to_nat (dig2bytes r')) x))) as (s1 & -> & I1 & F1 & L1 & P1); try done;
    [unfold bin_ok; lia|lia|intros; destruct (Z.eqb_spec r 0); lia|].
  cbn [bin_then mbind option_bind].
  destruct (bin_intg_words_spec ws sg (masked sg (enc_words fw) ++ masked sg (be (Z.to_nat (dig2bytes r')) x)) s1 w)
    as (s2 & -> & I2 & F2 & L2 & P2); [done|by rewrite Lq|done|rewrite L1; lia|].
  cbn [bin_then mbind option_bind]. pose proof (ii_pos _ _ _ I2) as Ok2. unfold bin_ok in Ok2.
  destruct (bin_frac_words_spec fw sg (masked sg (be (Z.to_nat (dig2bytes r')) x)) s2)
    as (s3 & -> & F3 & L3 & P3 & N3 & K3); [done|done|done|rewrite L2, L1; lia|].
  cbn [bin_then mbind option_bind].
  destruct (bin_last_spec s3 r' x sg []) as (s4 & -> & F4 & L4 & P4 & N4 & K4);
    [unfold bin_ok; lia|done|done|by rewrite app_nil_r| |].
  { rewrite L3, L2, L1, P3. destruct (Z.eqb_spec r' 0); simpl in HL; lia. }
  exists s4. split; [done|]. split; [congruence|]. exists (kept s2).
  destruct I2 as [_ W2 V2 (D & HD & ED & RD & HDlt)].
  assert (b_intg s4 = D) as EI by lia. pose proof (kept_length s2 ltac:(unfold bin_ok; lia)) as Lk.
  split_and!; [by rewrite K4, K3, <- app_assoc|done|by rewrite V2, dval_cons| |lia|rewrite EI; lia|rewrite EI, V2; done].
  rewrite K4, K3, !length_app. lia.
Qed.

(** The decimal [bin2decimal] returns, from the words it has kept. *)
Lemma kept_decimal len sg buf iw fw scale x intg v :
  0 < len -> len = Z.of_nat (length buf) -> 0 <= intg -> 0 <= scale -> 0 < intg + scale ->
  take (length iw + length (frac_words fw (rest_digits scale) x)) buf = iw ++ frac_words fw (rest_digits scale) x ->
  Z.of_nat (length iw + length (frac_words fw (rest_digits scale) x)) <= len ->
  Forall word_ok iw -> ROUND_UP intg = Z.of_nat (length iw) -> dval iw = v -> v < 10 ^ intg ->
  Z.of_nat (length fw) = full_digits scale -> Forall word_ok fw -> 0 <= x < 10 ^ rest_digits scale ->
  let d := mk_decimal intg scale len sg buf in
  dec_wf d /\ dec_val d = v * DIG_BASE ^ ROUND_UP scale +
    (dval fw * 10 ^ rest_digits scale + x) * 10 ^ (9 * ROUND_UP scale - scale).
Proof.
  intros Hl Hb Hi Hs Hsome HT HL Fi Ri Vi Hv Lf Ff Hx d.
  destruct (frac_words_spec fw scale x Hs Lf Ff Hx) as (Lw & Fw & Vw).
  set (fws := frac_words fw (rest_digits scale) x) in *.
  assert (dec_words d = iw ++ fws) as EW.
  { unfold dec_words, d. simpl. rewrite Ri, <- Lw. rewrite <- HT. f_equal. lia. }
  pose proof (ROUND_UP_bounds scale Hs). pose proof (dval_bounds fws Fw) as Bf. rewrite Lw in Bf.
  pose proof (dval_bounds iw Fi) as Bi.
  assert (dec_val d = v * DIG_BASE ^ ROUND_UP scale + dval fws) as EV.
  { unfold dec_val. by rewrite EW, dval_app, Lw, Vi. }
  split; [|by rewrite EV, Vw].
  split; rewrite ?EW, ?EV; unfold dec_room, d; simpl; try done; try (clear Bf Bi; lia).
  - by apply Forall_app.
  - rewrite Z.pow_add_r, <- DIG_BASE_pow by lia. clear Vw EV. nia.
  - rewrite Vw. apply Z.divide_add_r; [|apply Z.divide_factor_r].
    apply Z.divide_mul_r. rewrite DIG_BASE_pow by lia. exists (10 ^ scale). rewrite <- Z.pow_add_r by lia. f_equal. lia.
Qed.

Lemma full_rest_sum n : 0 <= n -> full_digits n + (if 0 <? rest_digits n then 1 else 0) = ROUND_UP n.
Proof.
  intros Hn. destruct (full_rest n Hn) as (? & ? & ?). rewrite ROUND_UP_full by done.
  destruct (Z.ltb_spec 0 (rest_digits n)), (Z.eqb_spec (rest_digits n) 0); lia.
Qed.

(** The words [bin2decimal] keeps of the bytes of a number. *)
Lemma bin2decimal_reads sg precision scale v f bytes to :
  0 <= scale <= precision -> 0 < precision -> 0 <= v < 10 ^ (precision - scale) -> Forall word_ok f ->
  dec_room to -> decimal_size precision scale <= d_len to ->
  flip_first (bin_format sg precision scale v f) = Some bytes ->
  exists st iw fw x, bin2decimal bytes to precision scale =
      (let to := mk_decimal (b_intg st) scale (d_len to) sg (b_buf st) in
       if (b_intg st =? 0) && (scale =? 0) then to ← decimal_make_zero to; Some (to, E_DEC_OK)
       else Some (to, E_DEC_OK)) /\
    length (b_buf st) = length (d_buf to) /\
    take (length iw + length (frac_words fw (rest_digits scale) x)) (b_buf st) =
      iw ++ frac_words fw (rest_digits scale) x /\
    Z.of_nat (length iw + length (frac_words fw (rest_digits scale) x)) <= d_len to /\
    Forall word_ok iw /\ dval iw = v /\ 0 <= b_intg st /\ ROUND_UP (b_intg st) = Z.of_nat (length iw) /\
    v < 10 ^ b_intg st /\ Z.of_nat (length fw) = full_digits scale /\ Forall word_ok fw /\
    0 <= x < 10 ^ rest_digits scale /\
    frac_digits (Z.to_nat (full_digits scale)) (rest_digits scale) f = dval fw * 10 ^ rest_digits scale + x.
Proof.
  intros Hs Hp Hv Ff [Hl Hb] Hsize EB.
  destruct (full_rest scale ltac:(lia)) as (Hq & Hr & E).
  destruct (full_rest (precision - scale) ltac:(lia)) as (Hq' & Hr' & E').
  destruct (int_fields (Z.to_nat (full_digits (precision - scale))) (rest_digits (precision - scale)) v)
    as (w & ws & Lws & Fws & Ev & Hw); [done|by rewrite Z2Nat.id, <- E'|].
  destruct (frac_fields (Z.to_nat (full_digits scale)) (rest_digits scale) f) as (fw & x & Lfw & Ffw & Hx & EF & ED);
    [done..|].
  pose proof (format_length false precision scale v f Hs) as LF.
  destruct (flip_back sg (bin_format false precision scale v f) bytes
    (Z.to_nat (decimal_bin_size precision scale))) as (first & Hhd & Lb & Emask & EC);
    [by apply format_head|done|by rewrite <- LF, Nat2Z.id|].
  unfold bin2decimal. rewrite Hhd. cbn [mbind option_bind].
  rewrite (proj2 (Z.ltb_ge (Z.of_nat (length bytes)) _)) by lia. rewrite EC. cbn [mbind option_bind]. rewrite Emask.
  unfold FIX_INTG_FRAC_ERROR. rewrite !full_rest_sum by lia. unfold decimal_size in Hsize.
  rewrite (proj2 (Z.ltb_ge (d_len to) _)) by lia. simpl negb. cbv iota. change (Z.to_nat 0) with 0%nat.
  rewrite drop_0. replace (full_digits scale * DIG_PER_DEC1 + rest_digits scale) with scale by (unfold DIG_PER_DEC1; lia).
  set (st0 := mk_bin _ _ _ _).
  destruct (frac_words_spec fw scale x) as (Lw & _); try done; try lia.
  destruct (bin_read sg (full_digits (precision - scale)) (rest_digits (precision - scale)) w ws fw (rest_digits scale) x
    st0) as (st & ER & LB & iw & EK & Fiw & Viw & Pst & Hi & Ri & Hlt); try done; try lia.
  { unfold st0, bin_format, masked. cbn [b_from]. by rewrite Ev, <- Lws, enc_int_words, EF, <- app_assoc. }
  { rewrite Lw. unfold st0. cbn [b_buf]. rewrite (ROUND_UP_full (precision - scale)) in Hsize by lia. lia. }
  rewrite Lws, Lfw in ER. rewrite ER. cbn [mbind option_bind]. unfold st0 in LB. cbn [b_buf] in LB.
  exists st, iw, fw, x. rewrite Viw in Hlt. rewrite EK, length_app in Pst. rewrite Ev.
  assert (Z.of_nat (length (kept st)) <= Z.of_nat (length (b_buf st))) as LK
    by (unfold kept; rewrite length_take; lia).
  rewrite EK, length_app in LK.
  split_and!; try done; try lia; [by destruct sg|].
  rewrite <- EK. unfold kept. f_equal. lia.
Qed.

Lemma kept_value intg scale len sg buf v u : 0 <= scale ->
  let d := mk_decimal intg scale len sg buf in
  dec_val d = v * DIG_BASE ^ ROUND_UP scale + u * 10 ^ (9 * ROUND_UP scale - scale) ->
  (dec_Q d == Qmake ((if sg then -1 else 1) * (v * 10 ^ scale + u)) (Z.to_pos (10 ^ scale)))%Q /\
  ((sg = true -> 0 < v * 10 ^ scale + u) -> dec_nz d).
Proof.
  intros Hs d V. pose proof (ROUND_UP_bounds scale Hs) as Hb.
  set (P := 10 ^ (9 * ROUND_UP scale - scale)) in *.
  assert (0 < P) as HP by (apply Z.pow_pos_nonneg; lia).
  assert (DIG_BASE ^ ROUND_UP scale = 10 ^ scale * P) as EB.
  { unfold P. rewrite <- Z.pow_add_r, DIG_BASE_pow by lia. f_equal. lia. }
  assert (dec_val d = (v * 10 ^ scale + u) * P) as EV by (rewrite V, EB; ring).
  pose proof (Z.pow_pos_nonneg 10 scale ltac:(lia) ltac:(lia)). split.
  - unfold Qeq, dec_Q, dec_sval. rewrite EV. unfold d. simpl. rewrite EB.
    rewrite !Z2Pos.id by (try done; by apply Z.mul_pos_pos). destruct sg; ring.
  - intros HU S. rewrite EV. unfold d in S. simpl in S. specialize (HU S).
    assert (0 < (v * 10 ^ scale + u) * P) by by apply Z.mul_pos_pos. lia.
Qed.

Lemma bin2decimal_format sg precision scale v f bytes to :
  0 <= scale <= precision -> 0 < precision -> 0 <= v < 10 ^ (precision - scale) -> Forall word_ok f ->
  dec_room to -> decimal_size precision scale <= d_len to ->
  flip_first (bin_format sg precision scale v f) = Some bytes ->
  exists to', bin2decimal bytes to precision scale = Some (to', E_DEC_OK) /\ dec_wf to' /\
    (dec_Q to' == Qmake ((if sg then -1 else 1) * stored_digits precision scale v f) (Z.to_pos (10 ^ scale)))%Q /\
    ((sg = true -> 0 < stored_digits precision scale v f) -> dec_nz to').
Proof.
  intros Hs Hp Hv Ff HR Hsize EB. pose proof HR as [Hl Hb].
  destruct (bin2decimal_reads sg precision scale v f bytes to Hs Hp Hv Ff HR Hsize EB)
    as (st & iw & fw & x & -> & LB & HT & HL & Fi & Vi & Hi & Ri & Hlt & Lf & Ffw & Hx & ED).
  unfold stored_digits. rewrite ED. cbv zeta.
  destruct (Z.eqb_spec (b_intg st) 0) as [E0|]; destruct (Z.eqb_spec scale 0) as [E1|]; simpl andb; cbv iota.
  { rewrite E0 in Hlt. simpl in Hlt. assert (v = 0) as -> by lia. subst scale.
    change (rest_digits 0) with 0 in *. change (full_digits 0) with 0 in *. change (10 ^ 0) with 1 in *.
    assert (fw = []) as -> by (destruct fw; [done|simpl in Lf; lia]). assert (x = 0) as -> by lia.
    destruct (decimal_make_zero_spec (mk_decimal (b_intg st) 0 (d_len to) sg (b_buf st))) as (to' & -> & W & _ & S & _ & V);
      [split; simpl; lia|].
    exists to'. split_and!; [done|done| |].
    - rewrite (dec_Q_zero to' V). by destruct sg.
    - intros _ H. by rewrite S in H. }
  all: destruct (kept_decimal (d_len to) sg (b_buf st) iw fw scale x (b_intg st) v) as [W V]; try done; try lia;
    eexists; (split; [done|]); (split; [done|]); apply kept_value; try done; lia.
Qed.

(** C16: what [decimal2bin] stores of a number that fits into its DECIMAL type, with
    at most [scale] digits after the point and a value below [10 ^ (precision - scale)]
    ([bin_fits]), [bin2decimal] reads back, for every precision and scale, into an
    array that is large enough: the decimal read is well-formed and has the same
    value. *)
Theorem decimal_bin_roundtrip d precision scale to :
  dec_wf d -> dec_nz d -> bin_fits d precision scale ->
  dec_room to -> decimal_size precision scale <= d_len to ->
  exists bytes to', decimal2bin d precision scale = Some (bytes, E_DEC_OK) /\
    bin2decimal bytes to precision scale = Some (to', E_DEC_OK) /\
    dec_wf to' /\ dec_nz to' /\ (dec_Q to' == dec_Q d)%Q.
Proof.
  intros Hd Hnz HF HR Hsize. pose proof HF as (Hs & Hp & _).
  destruct (decimal2bin_stored d precision scale Hd Hnz HF) as (bytes & v & f & E & EB & Hv & Ff & Q & P).
  destruct (bin2decimal_format (d_sign d) precision scale v f bytes to Hs Hp Hv Ff HR Hsize EB)
    as (to' & E' & W & Q' & N). exists bytes, to'. split_and!; [done..|by apply N|]. by rewrite Q', Q.
Qed.

(** ** Examples *)

(** -1234567890.1234 of type DECIMAL(14, 4), and 0.25 as DECIMAL(14, 4). *)
Definition ex_stored : decimal_t := mk_decimal 10 4 3 true [1; 234567890; 123400000].
Definition ex_small : decimal_t := mk_decimal 1 2 2 false [0; 250000000].

Lemma ex_stored_fits : dec_wf ex_stored /\ dec_nz ex_stored /\ bin_fits ex_stored 14 4.
Proof.
  split_and!; [by apply dec_wfb_wf|by intros _|]. unfold bin_fits. vm_compute. by split_and!.
Qed.

Lemma ex_small_fits : dec_wf ex_small /\ dec_nz ex_small /\ bin_fits ex_small 14 4.
Proof.
  split_and!; [by apply dec_wfb_wf|done|]. unfold bin_fits. vm_compute. by split_and!.
Qed.

Lemma decimal2bin_order_witness :
  exists b1 b2, decimal2bin ex_stored 14 4 = Some (b1, E_DEC_OK) /\
    decimal2bin ex_small 14 4 = Some (b2, E_DEC_OK) /\
    Z.of_nat (length b1) = decimal_bin_size 14 4 /\ Z.of_nat (length b2) = decimal_bin_size 14 4 /\
    bytes_compare b1 b2 = (dec_Q ex_stored ?= dec_Q ex_small)%Q.
Proof. apply decimal2bin_order; first [apply ex_stored_fits | apply ex_small_fits]. Defined.

Lemma decimal_bin_roundtrip_witness :
  exists bytes to', decimal2bin ex_stored 14 4 = Some (bytes, E_DEC_OK) /\
    bin2decimal bytes (mk_decimal 0 0 4 false [7; 7; 7; 7]) 14 4 = Some (to', E_DEC_OK) /\
    dec_wf to' /\ dec_nz to' /\ (dec_Q to' == dec_Q ex_stored)%Q.
Proof. apply decimal_bin_roundtrip; first [apply ex_stored_fits | done]. Defined.

(** [decimal2bin] compares fractions by the bytes they take: 0.12 goes into a
    column of one digit after the point without an error, as bytes
    [bin2decimal] then rejects.  An integer part that is cut is reported as a cut
    fraction only, when the fraction is cut too. *)
Theorem decimal2bin_hidden_digits :
  decimal2bin (mk_decimal 1 2 2 false [0; 120000000]) 2 1 = Some ([128; 12], E_DEC_OK) /\
  bin2decimal [128; 12] (mk_decimal 0 0 2 false [7; 7]) 2 1 =
    Some (mk_decimal 1 0 2 false [0; 7], E_DEC_BAD_NUM) /\
  decimal2bin (mk_decimal 5 1 2 false [12345; 500000000]) 3 0 = Some ([129; 89], E_DEC_TRUNCATED).
Proof. vm_compute. done. Qed.

(** [bin2decimal] accepts one digit too many in the first bytes: it reads 99
    from a column of one digit. *)
Theorem bin2decimal_extra_digit :
  bin2decimal [128 + 99] (mk_decimal 0 0 1 false [7]) 1 0 = Some (mk_decimal 1 0 1 false [99], E_DEC_OK).
Proof. vm_compute. done. Qed.
