(* ===== verification/DecimalInt.v ===== *)
(** * Fixed-point decimals: conversions from and to integers

    [ulonglong2decimal], [longlong2decimal], [decimal2ulonglong],
    [decimal2longlong] and [decimal2lldiv_t] of [strings/decimal.c].  Signed
    64-bit arithmetic that overflows, which [-from] and the multiplication before
    the check do for some values, wraps around here. *)

From Stdlib Require Import ZArith Lia QArith.
From stdpp Require Import base numbers option tactics list.
From S2P Require Import Prelude Decimal.

#[local] Open Scope Z_scope.

(** ** From integers *)

(** [for (intg1= 0; from != 0; intg1++, from/= DIG_BASE)]; a 64-bit number has at
    most three words. *)
Fixpoint count_words (fuel : nat) (from : Z) : Z :=
  if from =? 0 then 0
  else match fuel with
       | O => 0
       | S fuel => 1 + count_words fuel (from / DIG_BASE)
       end.

(** The last [n] words of a number, stored downwards. *)
Fixpoint ull_words (n : nat) (x : Z) (acc : list Z) : list Z :=
  match n with
  | O => acc
  | S n => let y := x / DIG_BASE in ull_words n y (wraps 32 (x - y * DIG_BASE) :: acc)
  end.

Definition ull2dec (from : Z) (sign : bool) (to : decimal_t) : option (decimal_t * Z) :=
  let intg1 := if from =? 0 then 1 else count_words 3 from in
  let '(intg1, error) := if d_len to <? intg1 then (d_len to, E_DEC_OVERFLOW) else (intg1, E_DEC_OK) in
  buf ← store_down (d_buf to) intg1 (ull_words (Z.to_nat intg1) from []);
  Some (mk_decimal (intg1 * DIG_PER_DEC1) 0 (d_len to) sign buf, error).

Definition ulonglong2decimal (from : Z) (to : decimal_t) : option (decimal_t * Z) := ull2dec from false to.

Definition longlong2decimal (from : Z) (to : decimal_t) : option (decimal_t * Z) :=
  if from <? 0 then ull2dec (wrapu 64 (wraps 64 (- from))) true to
  else ull2dec (wrapu 64 from) false to.

(** ** To integers *)

(** [if ( *buf++) return E_DEC_TRUNCATED], for the fraction words. *)
Fixpoint frac_error (frac : Z) (ws : list Z) : option Z :=
  if 0 <? frac then
    match ws with
    | [] => None
    | w :: ws => if negb (w =? 0) then Some E_DEC_TRUNCATED else frac_error (frac - DIG_PER_DEC1) ws
    end
  else Some E_DEC_OK.

(** The loop over the integer words: [inl] is the return on overflow, otherwise
    the number and the words left. *)
Fixpoint dec2ull_loop (intg x : Z) (ws : list Z) : option (unit + Z * list Z) :=
  if 0 <? intg then
    match ws with
    | [] => None
    | w :: ws =>
        let y := x in
        let x := wrapu 64 (wrapu 64 (x * DIG_BASE) + w) in
        if (ULLONG_MAX / DIG_BASE <? y) || (x <? y) then Some (inl tt)
        else dec2ull_loop (intg - DIG_PER_DEC1) x ws
    end
  else Some (inr (x, ws)).

Definition decimal2ulonglong (from : decimal_t) : option (Z * Z) :=
  if d_sign from then Some (0, E_DEC_OVERFLOW)
  else
    r ← dec2ull_loop (d_intg from) 0 (d_buf from);
    match r with
    | inl _ => Some (ULLONG_MAX, E_DEC_OVERFLOW)
    | inr (x, ws) => error ← frac_error (d_frac from) ws; Some (x, error)
    end.

Fixpoint dec2ll_loop (intg x : Z) (ws : list Z) : option (unit + Z * list Z) :=
  if 0 <? intg then
    match ws with
    | [] => None
    | w :: ws =>
        let y := x in
        let x := wraps 64 (wraps 64 (x * DIG_BASE) - w) in
        if (y <? Z.quot LLONG_MIN DIG_BASE) || (y <? x) then Some (inl tt)
        else dec2ll_loop (intg - DIG_PER_DEC1) x ws
    end
  else Some (inr (x, ws)).

Definition decimal2longlong (from : decimal_t) : option (Z * Z) :=
  r ← dec2ll_loop (d_intg from) 0 (d_buf from);
  match r with
  | inl _ => Some (if d_sign from then LLONG_MIN else LLONG_MAX, E_DEC_OVERFLOW)
  | inr (x, ws) =>
      if negb (d_sign from) && (x =? LLONG_MIN) then Some (LLONG_MAX, E_DEC_OVERFLOW)
      else
        error ← frac_error (d_frac from) ws;
        Some (if d_sign from then x else wraps 64 (- x), error)
  end.

Definition LLDIV_MIN : Z := -1000000000000000000.
Definition LLDIV_MAX : Z := 1000000000000000000.

(** The quotient, the remainder and the error. *)
Definition decimal2lldiv_t (from : decimal_t) : option (Z * Z * Z) :=
  let int_part := ROUND_UP (d_intg from) in
  let frac_part := ROUND_UP (d_frac from) in
  if 2 <? int_part then Some (if d_sign from then LLDIV_MIN else LLDIV_MAX, 0, E_DEC_OVERFLOW)
  else
    quot ← (if int_part =? 2 then
              w0 ← rd (d_buf from) 0; w1 ← rd (d_buf from) 1;
              Some (wraps 64 (wraps 64 (w0 * DIG_BASE) + w1))
            else if int_part =? 1 then rd (d_buf from) 0
            else Some 0);
    rem ← (if negb (frac_part =? 0) then rd (d_buf from) int_part else Some 0);
    Some (if d_sign from then (wraps 64 (- quot), wraps 64 (- rem), E_DEC_OK) else (quot, rem, E_DEC_OK)).

(** ** What the conversions mean *)

(** The integer part of a decimal, towards zero. *)
Definition int_part (d : decimal_t) : Z := Z.quot (dec_sval d) (DIG_BASE ^ ROUND_UP (d_frac d)).

(** Whether something is lost with the fraction. *)
Definition int_error (d : decimal_t) : Z :=
  if dec_val d mod DIG_BASE ^ ROUND_UP (d_frac d) =? 0 then E_DEC_OK else E_DEC_TRUNCATED.

(** A number, or the bound it is beyond. *)
Definition clamp (lo hi n error : Z) : Z * Z :=
  if n <? lo then (lo, E_DEC_OVERFLOW) else if hi <? n then (hi, E_DEC_OVERFLOW) else (n, error).

(** The integer words and the fraction words. *)
Lemma int_frac_words d : dec_wf d ->
  exists iw fw rest, d_buf d = iw ++ fw ++ rest /\ Forall word_ok iw /\ Forall word_ok fw /\
    Z.of_nat (length iw) = ROUND_UP (d_intg d) /\ Z.of_nat (length fw) = ROUND_UP (d_frac d) /\
    dec_val d = dval iw * DIG_BASE ^ ROUND_UP (d_frac d) + dval fw.
Proof.
  intros Hd. pose proof (wf_intg_words d Hd). pose proof (wf_frac_words d Hd).
  pose proof (dec_words_length d Hd) as L.
  destruct (split_words (dec_words d) 0 (ROUND_UP (d_intg d))) as (h & iw & fw & E & Lh & Li); [lia..|].
  assert (h = []) as -> by (destruct h; [done|simpl in *; lia]). simpl in E. rewrite E, length_app in L.
  pose proof (wf_words d Hd) as F. rewrite E in F. apply Forall_app in F as [Fi Ff].
  exists iw, fw, (drop (length (dec_words d)) (d_buf d)).
  assert (Z.of_nat (length fw) = ROUND_UP (d_frac d)) as Lf by lia.
  split_and!; try done.
  - rewrite (dec_buf_words d) at 1. by rewrite E, <- app_assoc.
  - unfold dec_val. by rewrite E, dval_app, Lf.
Qed.

Lemma int_part_words d iw fw : dec_wf d -> Forall word_ok iw -> Forall word_ok fw ->
  Z.of_nat (length fw) = ROUND_UP (d_frac d) ->
  dec_val d = dval iw * DIG_BASE ^ ROUND_UP (d_frac d) + dval fw ->
  int_part d = (if d_sign d then - dval iw else dval iw) /\
  int_error d = (if dval fw =? 0 then E_DEC_OK else E_DEC_TRUNCATED).
Proof.
  intros Hd Fi Ff Lf E. pose proof (dval_bounds fw Ff) as Bf. rewrite Lf in Bf. pose proof (dval_bounds iw Fi) as [Bi _].
  pose proof (wf_frac_words d Hd) as Hf. pose proof (DIG_BASE_pow_pos _ Hf) as HP.
  unfold int_part, int_error, dec_sval. rewrite E. set (P := DIG_BASE ^ ROUND_UP (d_frac d)) in *.
  assert ((dval iw * P + dval fw) / P = dval iw) as ED.
  { rewrite Z.div_add_l, Z.div_small by lia. lia. }
  assert (0 <= dval iw * P + dval fw) by nia. split.
  - destruct (d_sign d); rewrite ?Z.quot_opp_l, Z.quot_div_nonneg, ED by lia; done.
  - by rewrite Z.add_comm, Z_mod_plus_full, Z.mod_small by lia.
Qed.

Lemma frac_error_done frac ws : frac <= 0 -> frac_error frac ws = Some E_DEC_OK.
Proof. intros H. destruct ws; simpl; by rewrite (proj2 (Z.ltb_ge _ _)). Qed.

Lemma frac_error_spec fw rest frac : 0 <= frac -> Forall word_ok fw -> Z.of_nat (length fw) = ROUND_UP frac ->
  frac_error frac (fw ++ rest) = Some (if dval fw =? 0 then E_DEC_OK else E_DEC_TRUNCATED).
Proof.
  revert frac. induction fw as [|w fw IH]; intros frac Hf F L; pose proof (ROUND_UP_bounds frac Hf); simpl length in *.
  - apply frac_error_done. lia.
  - cbn [app frac_error]. rewrite (proj2 (Z.ltb_lt 0 frac)) by lia. apply Forall_cons in F as [Hw F].
    rewrite dval_cons. pose proof (dval_bounds fw F). pose proof (DIG_BASE_pow_pos (Z.of_nat (length fw)) ltac:(lia)).
    unfold word_ok in Hw. destruct (Z.eqb_spec w 0) as [->|Hn]; simpl negb; cbv iota.
    + destruct fw as [|w' fw].
      * apply frac_error_done. unfold DIG_PER_DEC1. simpl length in *. lia.
      * rewrite IH; [by rewrite Z.mul_0_l|unfold DIG_PER_DEC1; simpl length in *; lia|done|].
        unfold DIG_PER_DEC1. simpl length in *. rewrite !ROUND_UP_nonneg in * by lia.
        Z.to_euclidean_division_equations. lia.
    + rewrite (proj2 (Z.eqb_neq _ _)); [done|]. nia.
Qed.

(** The loops: the number the words make, unless it is beyond the bound. *)
Lemma dec2ull_loop_spec iw rest intg x : Forall word_ok iw -> 0 <= x <= ULLONG_MAX ->
  9 * (Z.of_nat (length iw) - 1) < intg <= 9 * Z.of_nat (length iw) ->
  let v := x * DIG_BASE ^ Z.of_nat (length iw) + dval iw in
  dec2ull_loop intg x (iw ++ rest) = Some (if v <=? ULLONG_MAX then inr (v, rest) else inl tt).
Proof.
  revert intg x. induction iw as [|w iw IH]; intros intg x F Hx Hi v; simpl length in *.
  - assert (v = x) as -> by (unfold v; rewrite dval_nil; simpl; lia).
    rewrite (proj2 (Z.leb_le _ _)) by lia. destruct rest; simpl; by rewrite (proj2 (Z.ltb_ge _ _)) by lia.
  - apply Forall_cons in F as [Hw F]. cbn [app dec2ull_loop]. rewrite (proj2 (Z.ltb_lt 0 intg)) by lia.
    pose proof (dval_bounds iw F) as Bi. pose proof (DIG_BASE_pow_pos (Z.of_nat (length iw)) ltac:(lia)) as HP.
    assert (v = (x * DIG_BASE + w) * DIG_BASE ^ Z.of_nat (length iw) + dval iw) as Ev.
    { unfold v. rewrite dval_cons, Nat2Z.inj_succ, Z.pow_succ_r by lia. ring. }
    set (P := DIG_BASE ^ Z.of_nat (length iw)) in *. clearbody v.
    destruct (Z.le_gt_cases (x * DIG_BASE + w) ULLONG_MAX) as [Hle|Hgt].
    + assert (wrapu 64 (wrapu 64 (x * DIG_BASE) + w) = x * DIG_BASE + w) as ->.
      { unfold ULLONG_MAX, word_ok, DIG_BASE in *. rewrite !wrapu_id; unfold in_u; rewrite ?wrapu_id; unfold in_u; lia. }
      assert ((ULLONG_MAX / DIG_BASE <? x) || (x * DIG_BASE + w <? x) = false) as ->.
      { apply orb_false_iff. split; apply Z.ltb_ge; unfold word_ok, DIG_BASE in *; [|lia].
        apply Z.div_le_lower_bound; lia. }
      rewrite IH by (try done; unfold word_ok, DIG_BASE, DIG_PER_DEC1 in *; lia). fold P. by rewrite <- Ev.
    + assert ((v <=? ULLONG_MAX) = false) as -> by (apply Z.leb_gt; nia).
      assert ((ULLONG_MAX / DIG_BASE <? x) || (wrapu 64 (wrapu 64 (x * DIG_BASE) + w) <? x) = true) as ->; [|done].
      apply orb_true_iff. destruct (Z.lt_ge_cases (ULLONG_MAX / DIG_BASE) x) as [|Hd]; [left; by apply Z.ltb_lt|right].
      apply Z.ltb_lt. change (ULLONG_MAX / DIG_BASE) with 18446744073 in Hd. unfold ULLONG_MAX, word_ok, DIG_BASE in *.
      rewrite (wrapu_id 64 (x * _)) by (unfold in_u; lia). unfold wrapu.
      rewrite <- (Z_mod_plus_full _ (-1) (2 ^ 64)), Z.mod_small by lia. lia.
Qed.

Lemma dec2ll_loop_spec iw rest intg m : Forall word_ok iw -> 0 <= m <= 2 ^ 63 ->
  9 * (Z.of_nat (length iw) - 1) < intg <= 9 * Z.of_nat (length iw) ->
  let v := m * DIG_BASE ^ Z.of_nat (length iw) + dval iw in
  dec2ll_loop intg (- m) (iw ++ rest) = Some (if v <=? 2 ^ 63 then inr (- v, rest) else inl tt).
Proof.
  revert intg m. induction iw as [|w iw IH]; intros intg m F Hm Hi v; simpl length in *.
  - assert (v = m) as -> by (unfold v; rewrite dval_nil; simpl; lia).
    rewrite (proj2 (Z.leb_le _ _)) by lia. destruct rest; simpl; by rewrite (proj2 (Z.ltb_ge _ _)) by lia.
  - apply Forall_cons in F as [Hw F]. cbn [app dec2ll_loop]. rewrite (proj2 (Z.ltb_lt 0 intg)) by lia.
    pose proof (dval_bounds iw F) as Bi. pose proof (DIG_BASE_pow_pos (Z.of_nat (length iw)) ltac:(lia)) as HP.
    assert (v = (m * DIG_BASE + w) * DIG_BASE ^ Z.of_nat (length iw) + dval iw) as Ev.
    { unfold v. rewrite dval_cons, Nat2Z.inj_succ, Z.pow_succ_r by lia. ring. }
    set (P := DIG_BASE ^ Z.of_nat (length iw)) in *. clearbody v.
    change (Z.quot LLONG_MIN DIG_BASE) with (-9223372036).
    destruct (Z.le_gt_cases (m * DIG_BASE + w) (2 ^ 63)) as [Hle|Hgt].
    + assert (wraps 64 (wraps 64 (- m * DIG_BASE) - w) = - (m * DIG_BASE + w)) as ->.
      { unfold word_ok, DIG_BASE in *. rewrite (wraps_id 64 (- m * _)) by (unfold in_s; lia).
        rewrite wraps_id by (unfold in_s; lia). lia. }
      assert ((- m <? -9223372036) || (- m <? - (m * DIG_BASE + w)) = false) as ->.
      { apply orb_false_iff. split; apply Z.ltb_ge; unfold word_ok, DIG_BASE in *; lia. }
      rewrite IH by (try done; unfold word_ok, DIG_BASE, DIG_PER_DEC1 in *; lia). fold P. by rewrite <- Ev.
    + assert ((v <=? 2 ^ 63) = false) as -> by (apply Z.leb_gt; nia).
      assert ((- m <? -9223372036) || (- m <? wraps 64 (wraps 64 (- m * DIG_BASE) - w)) = true) as ->; [|done].
      apply orb_true_iff. destruct (Z.lt_ge_cases (- m) (-9223372036)) as [|Hd]; [left; by apply Z.ltb_lt|right].
      apply Z.ltb_lt. unfold word_ok, DIG_BASE in *.
      rewrite (wraps_id 64 (- m * _)) by (unfold in_s; lia). unfold wraps.
      rewrite <- (Z_mod_plus_full _ 1 (2 ^ 64)), Z.mod_small by lia. lia.
Qed.

Section to_integer.
Context (d : decimal_t) (Hd : dec_wf d).

Lemma intg_bounds (iw : list Z) : Z.of_nat (length iw) = ROUND_UP (d_intg d) ->
  9 * (Z.of_nat (length iw) - 1) < d_intg d <= 9 * Z.of_nat (length iw).
Proof using Hd. intros ->. pose proof (ROUND_UP_bounds (d_intg d) (wf_intg d Hd)). lia. Qed.

Lemma decimal2ulonglong_spec :
  decimal2ulonglong d =
    Some (if d_sign d then (0, E_DEC_OVERFLOW) else clamp 0 ULLONG_MAX (int_part d) (int_error d)).
Proof using Hd.
  destruct (int_frac_words d Hd) as (iw & fw & rest & EB & Fi & Ff & Li & Lf & EV).
  destruct (int_part_words d iw fw Hd Fi Ff Lf EV) as [-> ->].
  unfold decimal2ulonglong. destruct (d_sign d); [done|].
  rewrite EB, dec2ull_loop_spec by (try done; by apply intg_bounds). cbn [mbind option_bind].
  rewrite Z.mul_0_l, Z.add_0_l. pose proof (dval_bounds iw Fi). unfold clamp.
  rewrite (proj2 (Z.ltb_ge (dval iw) 0)) by lia.
  destruct (Z.leb_spec (dval iw) ULLONG_MAX).
  - rewrite (proj2 (Z.ltb_ge _ _)), frac_error_spec by (try done; by apply wf_frac). done.
  - by rewrite (proj2 (Z.ltb_lt _ _)).
Qed.

Lemma decimal2longlong_spec :
  decimal2longlong d = Some (clamp LLONG_MIN LLONG_MAX (int_part d) (int_error d)).
Proof using Hd.
  destruct (int_frac_words d Hd) as (iw & fw & rest & EB & Fi & Ff & Li & Lf & EV).
  destruct (int_part_words d iw fw Hd Fi Ff Lf EV) as [-> ->].
  unfold decimal2longlong. pose proof (dval_bounds iw Fi) as [Bi _].
  rewrite EB. change 0 with (- 0) at 1. rewrite dec2ll_loop_spec by (try lia; try done; by apply intg_bounds).
  cbn [mbind option_bind]. rewrite Z.mul_0_l, Z.add_0_l. unfold clamp, LLONG_MIN, LLONG_MAX.
  destruct (Z.leb_spec (dval iw) (2 ^ 63)).
  - rewrite frac_error_spec by (try done; by apply wf_frac). destruct (d_sign d); simpl negb; simpl andb; cbv iota; cbn [mbind option_bind].
    + rewrite (proj2 (Z.ltb_ge _ _)), (proj2 (Z.ltb_ge (2 ^ 63 - 1) _)) by lia. done.
    + rewrite (proj2 (Z.ltb_ge _ (- 2 ^ 63))) by lia. destruct (Z.eqb_spec (- dval iw) (- 2 ^ 63)).
      * by rewrite (proj2 (Z.ltb_lt _ _)) by lia.
      * rewrite (proj2 (Z.ltb_ge _ _)) by lia. cbn [mbind option_bind].
        rewrite wraps_id by (unfold in_s; lia). by rewrite Z.opp_involutive.
  - destruct (d_sign d).
    + by rewrite (proj2 (Z.ltb_lt _ _)) by lia.
    + rewrite (proj2 (Z.ltb_ge _ _)), (proj2 (Z.ltb_lt _ _)) by lia. done.
Qed.

(** Nine digits of the fraction with the integer part. *)
Lemma lldiv_quot iw rest : d_buf d = iw ++ rest -> Forall word_ok iw ->
  Z.of_nat (length iw) = ROUND_UP (d_intg d) -> ROUND_UP (d_intg d) <= 2 ->
  (if ROUND_UP (d_intg d) =? 2 then
     w0 ← rd (d_buf d) 0; w1 ← rd (d_buf d) 1; Some (wraps 64 (wraps 64 (w0 * DIG_BASE) + w1))
   else if ROUND_UP (d_intg d) =? 1 then rd (d_buf d) 0 else Some 0) = Some (dval iw) /\
  0 <= dval iw < 1000000000000000000.
Proof using Type.
  intros EB Fi Li H2. rewrite EB, <- Li. rewrite <- Li in H2.
  destruct iw as [|w0 [|w1 [|]]]; simpl length in *; try lia.
  - split; [done|]. rewrite dval_nil. lia.
  - inversion_clear Fi as [|?? H0]. unfold word_ok, DIG_BASE in *. change (dval [w0]) with w0.
    split; [apply rd_head|lia].
  - inversion_clear Fi as [|?? H0 F1]. inversion_clear F1 as [|?? H1]. simpl app.
    pose proof (rd_middle [w0] w1 rest 1 eq_refl) as R1. simpl app in R1. rewrite rd_head, R1. simpl.
    unfold dval, word_ok, DIG_BASE in *. simpl foldl.
    rewrite (wraps_id 64 (w0 * _)), wraps_id by (unfold in_s; lia). split; [done|lia].
Qed.

Lemma lldiv_rem iw fw rest : d_buf d = iw ++ fw ++ rest -> Forall word_ok fw ->
  Z.of_nat (length iw) = ROUND_UP (d_intg d) -> Z.of_nat (length fw) = ROUND_UP (d_frac d) ->
  dec_val d = dval iw * DIG_BASE ^ ROUND_UP (d_frac d) + dval fw ->
  exists r, (if negb (ROUND_UP (d_frac d) =? 0) then rd (d_buf d) (ROUND_UP (d_intg d)) else Some 0) = Some r /\
    0 <= r < DIG_BASE /\ dval iw * DIG_BASE + r = dec_cut 1 d.
Proof using Type.
  intros EB Ff Li Lf EV. unfold dec_cut. rewrite EV, EB, <- Li, <- Lf. destruct fw as [|w fw]; simpl length.
  - simpl. exists 0. rewrite dval_nil, Z.div_1_r. split; [done|]. unfold DIG_BASE. lia.
  - inversion_clear Ff as [|?? Hw Ft]. rewrite (proj2 (Z.eqb_neq _ 0)) by lia. simpl negb. cbv iota.
    cbn [app]. rewrite (rd_middle iw) by lia. exists w. split; [done|]. split; [done|].
    rewrite dval_cons, Nat2Z.inj_succ, Z.pow_succ_r, Z.pow_1_r by lia.
    pose proof (dval_bounds fw Ft). set (P := DIG_BASE ^ Z.of_nat (length fw)) in *.
    replace ((dval iw * (DIG_BASE * P) + (w * P + dval fw)) * DIG_BASE)
      with ((dval iw * DIG_BASE + w) * (DIG_BASE * P) + dval fw * DIG_BASE) by ring.
    rewrite Z.div_add_l by (unfold DIG_BASE; lia). rewrite Z.div_small by (unfold DIG_BASE in *; lia). lia.
Qed.

Lemma decimal2lldiv_t_spec :
  if 2 <? ROUND_UP (d_intg d)
  then decimal2lldiv_t d = Some (if d_sign d then LLDIV_MIN else LLDIV_MAX, 0, E_DEC_OVERFLOW)
  else exists rem, decimal2lldiv_t d = Some (int_part d, rem, E_DEC_OK) /\ Z.abs rem < DIG_BASE /\
         int_part d * DIG_BASE + rem = sgn d * dec_cut 1 d.
Proof using Hd.
  destruct (int_frac_words d Hd) as (iw & fw & rest & EB & Fi & Ff & Li & Lf & EV).
  destruct (int_part_words d iw fw Hd Fi Ff Lf EV) as [-> _].
  unfold decimal2lldiv_t. destruct (Z.ltb_spec 2 (ROUND_UP (d_intg d))) as [|H2]; [done|].
  destruct (lldiv_quot iw (fw ++ rest) EB Fi Li H2) as [-> Bq].
  destruct (lldiv_rem iw fw rest EB Ff Li Lf EV) as (r & -> & Br & Er).
  cbn [mbind option_bind]. unfold sgn. destruct (d_sign d).
  - rewrite !wraps_id by (unfold in_s, DIG_BASE in *; lia). exists (- r). split; [done|]. split; lia.
  - exists r. split; [done|]. split; lia.
Qed.
End to_integer.

(** ** From integers: the words *)

Lemma ull_words_spec n x acc : 0 <= x ->
  exists l, ull_words n x acc = l ++ acc /\ length l = n /\ Forall word_ok l /\
    dval l = x mod DIG_BASE ^ Z.of_nat n.
Proof.
  revert x acc. induction n as [|n IH]; intros x acc Hx; cbn [ull_words].
  - exists []. rewrite dval_nil, Z.mod_1_r. auto.
  - assert (x - x / DIG_BASE * DIG_BASE = x mod DIG_BASE) as -> by (rewrite (Z.mod_eq x DIG_BASE) by done; lia).
    assert (word_ok (x mod DIG_BASE)) as Hw by (apply Z.mod_pos_bound; done).
    rewrite wraps_id by (unfold in_s, word_ok, DIG_BASE in *; lia).
    destruct (IH (x / DIG_BASE) (x mod DIG_BASE :: acc)) as (l & -> & L & F & V).
    { apply Z.div_pos; done. }
    exists (l ++ [x mod DIG_BASE]). rewrite <- app_assoc, length_app, L, dval_snoc, V. simpl length.
    split_and!; [done|lia|by apply Forall_app; split; [|constructor]|].
    rewrite Nat2Z.inj_succ, Z.pow_succ_r by lia.
    pose proof (DIG_BASE_pow_pos (Z.of_nat n) ltac:(lia)) as HP. set (P := DIG_BASE ^ Z.of_nat n) in *.
    rewrite (Z.rem_mul_r x DIG_BASE P) by (done || lia). ring.
Qed.

(** Three steps are enough, and the words counted are those of the number. *)
Lemma count_words_spec n : 0 < n < 2 ^ 64 ->
  1 <= count_words 3 n <= 3 /\ DIG_BASE ^ (count_words 3 n - 1) <= n < DIG_BASE ^ count_words 3 n.
Proof.
  intros Hn. cbn [count_words]. unfold DIG_BASE.
  destruct (Z.eqb_spec n 0); [lia|].
  destruct (Z.eqb_spec (n / 1000000000) 0); [|destruct (Z.eqb_spec (n / 1000000000 / 1000000000) 0);
    [|destruct (Z.eqb_spec (n / 1000000000 / 1000000000 / 1000000000) 0)]];
    simpl; Z.to_euclidean_division_equations; lia.
Qed.

(** A number stored in a buffer: all of it if there is room, otherwise its last
    words and an error. *)
Lemma ull2dec_spec n sign to : dec_room to -> 0 <= n < 2 ^ 64 ->
  exists d, ull2dec n sign to = Some (d, if n <? DIG_BASE ^ d_len to then E_DEC_OK else E_DEC_OVERFLOW) /\
    dec_wf d /\ d_sign d = sign /\ d_frac d = 0 /\ dec_val d = n mod DIG_BASE ^ d_len to.
Proof.
  intros [Hl Hb] Hn. unfold ull2dec. set (c := if n =? 0 then 1 else count_words 3 n).
  assert (1 <= c /\ n < DIG_BASE ^ c /\ (1 < c -> DIG_BASE ^ (c - 1) <= n)) as (Hc1 & Hc2 & Hc3).
  { unfold c. destruct (Z.eqb_spec n 0) as [->|]; [done|]. destruct (count_words_spec n) as [[] []]; [lia|by split_and!]. }
  clearbody c. set (k := Z.min c (d_len to)).
  assert (n mod DIG_BASE ^ k = n mod DIG_BASE ^ d_len to) as Ek.
  { unfold k. destruct (Z.min_spec c (d_len to)) as [[Hm ->]|[Hm ->]]; [|done].
    rewrite !Z.mod_small; [done| |lia]. split; [lia|].
    eapply Z.lt_le_trans; [apply Hc2|]. apply Z.pow_le_mono_r; [done|lia]. }
  assert ((if d_len to <? c then (d_len to, E_DEC_OVERFLOW) else (c, E_DEC_OK)) =
          (k, if n <? DIG_BASE ^ d_len to then E_DEC_OK else E_DEC_OVERFLOW)) as ->.
  { destruct (Z.ltb_spec (d_len to) c) as [H|H]; unfold k.
    - rewrite Z.min_r, (proj2 (Z.ltb_ge _ _)); [done| |lia].
      etransitivity; [|apply Hc3; lia]. apply Z.pow_le_mono_r; [done|lia].
    - rewrite Z.min_l, (proj2 (Z.ltb_lt _ _)); [done| |lia].
      eapply Z.lt_le_trans; [apply Hc2|]. apply Z.pow_le_mono_r; [done|lia]. }
  destruct (ull_words_spec (Z.to_nat k) n []) as (l & -> & L & F & V); [lia|]. rewrite app_nil_r.
  assert (1 <= k <= d_len to) as Hk by (unfold k; clear Ek Hc2 Hc3 V; lia).
  rewrite Z2Nat.id, Ek in V by lia. clear Ek Hc2 Hc3 Hn. clearbody k.
  destruct (store_down_spec (d_buf to) k l) as (buf & -> & Lb & T); [lia..|]. cbn [mbind option_bind].
  rewrite L, Nat.sub_diag, take_0 in T. simpl app in T.
  eexists. split; [done|]. unfold DIG_PER_DEC1.
  assert (k + ROUND_UP 0 = k) as E0 by (change (ROUND_UP 0) with 0; lia).
  destruct (stored_wf (d_len to) sign buf k 0 (n mod DIG_BASE ^ d_len to)) as [W EV];
    rewrite ?E0, ?T, ?Lb; try done; try lia.
  { apply Z.divide_1_l. }
Qed.

(** Room for any 64-bit number. *)
Lemma three_words n to : 3 <= d_len to -> n < 2 ^ 64 -> n < DIG_BASE ^ d_len to.
Proof.
  intros H Hn. apply (Z.lt_le_trans _ (DIG_BASE ^ 3)); [unfold DIG_BASE; lia|].
  apply Z.pow_le_mono_r; [done|lia].
Qed.

(** The decimal made from a number is that number. *)
Lemma ull2dec_value n sign to : dec_room to -> 3 <= d_len to -> 0 <= n < 2 ^ 64 ->
  exists d, ull2dec n sign to = Some (d, E_DEC_OK) /\ dec_wf d /\ d_sign d = sign /\ dec_val d = n /\
    int_part d = (if sign then - n else n) /\ int_error d = E_DEC_OK /\
    (dec_Q d == inject_Z (if sign then - n else n))%Q.
Proof.
  intros Hr Hl Hn. pose proof (three_words n to Hl (proj2 Hn)) as H3.
  destruct (ull2dec_spec n sign to Hr Hn) as (d & E & W & S & F & V).
  rewrite (proj2 (Z.ltb_lt _ _)) in E by done. rewrite Z.mod_small in V by (split; [apply Hn|done]).
  exists d. split_and!; try done; unfold int_part, int_error, dec_Q, dec_sval;
    rewrite F, V, ?S; change (ROUND_UP 0) with 0; rewrite ?Z.pow_0_r, ?Z.quot_1_r, ?Z.mod_1_r; done.
Qed.

(** ** Claims *)

(** The conversions to integers: rounded towards zero, cut to the
    type's range with an overflow error, and with a truncation error exactly when
    the fraction is not zero; [decimal2lldiv_t] gives the integer part and the
    first nine digits of the fraction of a decimal of at most eighteen integer
    digits. *)
Theorem decimal2int_correct d (Hd : dec_wf d) :
  decimal2longlong d = Some (clamp LLONG_MIN LLONG_MAX (int_part d) (int_error d)) /\
  decimal2ulonglong d =
    Some (if d_sign d then (0, E_DEC_OVERFLOW) else clamp 0 ULLONG_MAX (int_part d) (int_error d)) /\
  (if 2 <? ROUND_UP (d_intg d)
   then decimal2lldiv_t d = Some (if d_sign d then LLDIV_MIN else LLDIV_MAX, 0, E_DEC_OVERFLOW)
   else exists rem, decimal2lldiv_t d = Some (int_part d, rem, E_DEC_OK) /\ Z.abs rem < DIG_BASE /\
          int_part d * DIG_BASE + rem = sgn d * dec_cut 1 d).
Proof.
  split_and!; [by apply decimal2longlong_spec|by apply decimal2ulonglong_spec|by apply decimal2lldiv_t_spec].
Qed.

(** -12345678901.5 *)
Definition ex_dec_int : decimal_t := mk_decimal 11 1 3 true [12; 345678901; 500000000].

Lemma decimal2int_correct_witness :
  dec_wf ex_dec_int /\ decimal2longlong ex_dec_int = Some (-12345678901, E_DEC_TRUNCATED).
Proof.
  split; [by apply dec_wfb_wf|].
  rewrite (proj1 (decimal2int_correct ex_dec_int ltac:(by apply dec_wfb_wf))). vm_compute. reflexivity.
Defined.

(** Every 64-bit integer, the least signed one included, survives the way through a
    decimal of at least three words, and the decimal has its value. *)
Theorem int_decimal_roundtrip n to (Hroom : dec_room to) (Hlen : 3 <= d_len to) :
  (0 <= n <= ULLONG_MAX ->
   exists d, ulonglong2decimal n to = Some (d, E_DEC_OK) /\ dec_wf d /\ dec_nz d /\
     (dec_Q d == inject_Z n)%Q /\ decimal2ulonglong d = Some (n, E_DEC_OK)) /\
  (LLONG_MIN <= n <= LLONG_MAX ->
   exists d, longlong2decimal n to = Some (d, E_DEC_OK) /\ dec_wf d /\ dec_nz d /\
     (dec_Q d == inject_Z n)%Q /\ decimal2longlong d = Some (n, E_DEC_OK)).
Proof.
  unfold ULLONG_MAX, LLONG_MIN, LLONG_MAX. split; intros Hn.
  - destruct (ull2dec_value n false to) as (d & E & W & S & V & I & Er & Q); [done|done|lia|].
    exists d. split_and!; try done. { unfold dec_nz. by rewrite S. }
    rewrite decimal2ulonglong_spec, S, I, Er by done. unfold clamp, ULLONG_MAX. zcases.
  - destruct (ull2dec_value (Z.abs n) (n <? 0) to) as (d & E & W & S & V & I & Er & Q); [done|done|lia|].
    assert ((if n <? 0 then - Z.abs n else Z.abs n) = n) as En by (destruct (Z.ltb_spec n 0); lia).
    rewrite En in I, Q. exists d. split_and!; try done.
    + rewrite <- E. unfold longlong2decimal. destruct (Z.ltb_spec n 0); f_equal; [|rewrite wrapu_id by (unfold in_u; lia); lia].
      rewrite Z.abs_neq by lia. destruct (decide (n = - 2 ^ 63)) as [->|]; [done|].
      rewrite wraps_id, wrapu_id by (unfold in_u, in_s; lia). done.
    + unfold dec_nz. rewrite S, V, Z.ltb_lt. lia.
    + rewrite decimal2longlong_spec, I, Er by done. unfold clamp, LLONG_MIN, LLONG_MAX. zcases.
Qed.

Lemma int_decimal_roundtrip_witness :
  exists d, longlong2decimal LLONG_MIN (mk_decimal 0 0 3 false [0; 0; 0]) = Some (d, E_DEC_OK) /\
    decimal2longlong d = Some (LLONG_MIN, E_DEC_OK).
Proof.
  destruct (int_decimal_roundtrip LLONG_MIN (mk_decimal 0 0 3 false [0; 0; 0])) as [_ H].
  { split; done. }
  { done. }
  destruct H as (d & ? & _ & _ & _ & ?); [done|]. by exists d.
Defined.
