(* ===== verification/DecimalRound.v ===== *)
(** * Fixed-point decimals: rounding

    [decimal_round] of [strings/decimal.c].  The result may be the operand
    itself ([to == from]); with a separate result both arrays have the same
    length, as the code asserts. *)

From Stdlib Require Import ZArith Lia QArith Qround Qabs.
From stdpp Require Import base numbers option tactics list.
From S2P Require Import Prelude Decimal DecimalArith.

#[local] Open Scope Z_scope.

Inductive decimal_round_mode := TRUNCATE | HALF_EVEN | HALF_UP | CEILING | FLOOR.

#[export] Instance decimal_round_mode_eq_dec : EqDecision decimal_round_mode.
Proof. solve_decision. Defined.

Definition round_digit (mode : decimal_round_mode) (sign : bool) : Z :=
  match mode with
  | HALF_UP | HALF_EVEN => 5
  | CEILING => if sign then 10 else 0
  | FLOOR => if sign then 0 else 10
  | TRUNCATE => 10
  end.

(** The scale is at a word boundary: whether to increment the last word that is
    kept, the one before index [cut]. *)
Definition round_inc (mode : decimal_round_mode) (digit : Z) (buf : list Z) (cut dropped : Z) : option bool :=
  if digit =? 0 then
    ws ← words buf cut (cut + dropped);
    Some (existsb (fun w => negb (w =? 0)) ws)
  else if digit =? 5 then
    w ← rd buf cut;
    let x := Z.quot w DIG_MASK in
    if 5 <? x then Some true
    else if x =? 5 then
      if decide (mode = HALF_UP) then Some true
      else if 0 <? cut then w ← rd buf (cut - 1); Some (Z.odd w)
      else Some false
    else Some false
  else Some false.

(** The scale is inside the last word that is kept. *)
Definition round_word (mode : decimal_round_mode) (digit pos w : Z) : Z :=
  let x := Z.quot w (powers10 pos) in
  let y := Z.rem x 10 in
  let x := if (digit <? y) ||
              ((digit =? 5) && (y =? 5) && (bool_decide (mode = HALF_UP) || Z.odd (Z.quot x 10)))
           then x + 10 else x in
  wraps 32 (powers10 pos * (x - y)).

(** The last word is rounded: [None] when nothing is left of the number, otherwise
    the array and the index of that word. *)
Definition round_last (mode : decimal_round_mode) (digit : Z) (buf : list Z) (intg0 frac0 frac1 scale : Z)
  : option (option (list Z * Z)) :=
  let cut := intg0 + frac0 in
  if scale =? frac0 * DIG_PER_DEC1 then
    do_inc ← round_inc mode digit buf cut (frac1 - frac0);
    if (do_inc : bool) then
      if 0 <? cut then w ← rd buf (cut - 1); buf ← wr buf (cut - 1) (wraps 32 (w + 1)); Some (Some (buf, cut - 1))
      else buf ← wr buf 0 DIG_BASE; Some (Some (buf, 0))
    else if cut =? 0 then Some None
    else Some (Some (buf, cut - 1))
  else
    w ← rd buf (cut - 1);
    buf ← wr buf (cut - 1) (round_word mode digit (frac0 * DIG_PER_DEC1 - scale - 1) w);
    Some (Some (buf, cut - 1)).

(** [while (carry && --buf1 >= to->buf) ADD( *buf1, *buf1, 0, carry)], down the
    words; with the word the carry ends in, if it does. *)
Fixpoint round_carry (r : list Z) : list Z * option Z :=
  match r with
  | [] => ([], None)
  | w :: r =>
      let '(a, carry) := ADD w 0 1 in
      if carry =? 0 then (a :: r, Some a)
      else let '(r, first) := round_carry r in (a :: r, first)
  end.

Inductive settled :=
| All_zero                              (* no word is left that is not zero *)
| Carry_out (r : list Z)                (* the carry left the first word *)
| Settled (r : list Z) (first : Z).     (* the words and the one at [buf1] *)

(** What follows the rounding of the last word, down the words [r] from it. *)
Definition round_settle (r : list Z) : option settled :=
  match r with
  | [] => None
  | w :: r =>
      if DIG_BASE <=? w then
        match round_carry r with
        | (r, None) => Some (Carry_out (wraps 32 (w - DIG_BASE) :: r))
        | (r, Some first) => Some (Settled (wraps 32 (w - DIG_BASE) :: r) first)
        end
      else
        Some match find (fun w => negb (w =? 0)) (w :: r) with
             | None => All_zero
             | Some first => Settled (w :: r) first
             end
  end.

(** Moves the words up by one and puts a 1 in front, without writing behind the
    array; the flag says that a word was lost. *)
Definition round_shift (buf : list Z) (len n : Z) : list Z * bool :=
  let k := Z.to_nat (Z.min n (len - 1)) in
  (1 :: take k buf ++ drop (S k) buf, (len <=? n) && (0 <? n)).

(** After rounding the last word, at index [pos]. *)
Definition round_finish (to : decimal_t) (pos intg0 frac0 scale error : Z) : option (decimal_t * Z) :=
  ws ← words (d_buf to) 0 (pos + 1);
  st ← round_settle (rev ws);
  match st with
  | All_zero =>
      buf ← (if 0 <? frac0 + 1 then store_down (d_buf to) (frac0 + 1) (replicate (Z.to_nat (frac0 + 1)) 0)
             else Some (d_buf to));
      Some (mk_decimal 1 (Z.max scale 0) (d_len to) false buf, E_DEC_OK)
  | Carry_out r =>
      let '(frac0, scale, error) :=
        if d_len to <=? frac0 + intg0 then (frac0 - 1, (frac0 - 1) * DIG_PER_DEC1, E_DEC_TRUNCATED)
        else (frac0, scale, error) in
      let '(buf, lost) := round_shift (rev r ++ drop (length r) (d_buf to)) (d_len to) (intg0 + Z.max frac0 0) in
      let error := if (lost : bool) then E_DEC_OVERFLOW else error in
      let '(intg, error) := if d_intg to <? d_len to * DIG_PER_DEC1 then (d_intg to + 1, error)
                            else (d_intg to, E_DEC_OVERFLOW) in
      let first_dig := Z.rem intg DIG_PER_DEC1 in
      let intg := if negb (first_dig =? 0) && (powers10 first_dig <=? 1) then intg + 1 else intg in
      Some (mk_decimal intg (if scale <? 0 then 0 else scale) (d_len to) (d_sign to) buf, error)
  | Settled r first =>
      let first_dig := Z.rem (d_intg to) DIG_PER_DEC1 in
      let intg := if negb (first_dig =? 0) && (powers10 first_dig <=? first) then d_intg to + 1 else d_intg to in
      Some (mk_decimal intg (if scale <? 0 then 0 else scale) (d_len to) (d_sign to)
              (rev r ++ drop (length r) (d_buf to)), error)
  end.

(** [to == None] stands for [to == from]. *)
Definition decimal_round (from : decimal_t) (to : option decimal_t) (scale : Z) (mode : decimal_round_mode)
  : option (decimal_t * Z) :=
  let to0 := default from to in
  let len := d_len to0 in
  let frac0 := if 0 <? scale then ROUND_UP scale else Z.quot (scale + 1) DIG_PER_DEC1 in
  let frac1 := ROUND_UP (d_frac from) in
  let intg0 := ROUND_UP (d_intg from) in
  let digit := round_digit mode (d_sign from) in
  let '(frac0, scale, error) :=
    if len <? frac0 + intg0 then (len - intg0, (len - intg0) * DIG_PER_DEC1, E_DEC_TRUNCATED)
    else (frac0, scale, E_DEC_OK) in
  if scale + d_intg from <? 0 then to ← decimal_make_zero to0; Some (to, E_DEC_OK)
  else
    to ← (match to with
          | None => Some from
          | Some to =>
              ws ← words (d_buf from) 0 (intg0 + Z.max frac1 frac0);
              buf ← store_down (d_buf to) (intg0 + Z.max frac1 frac0) ws;
              Some (mk_decimal (Z.min intg0 len * DIG_PER_DEC1) (d_frac to) len (d_sign from) buf)
          end);
    if frac1 <? frac0 then
      buf ← store_down (d_buf to) (intg0 + frac0) (replicate (Z.to_nat (frac0 - frac1)) 0);
      Some (mk_decimal (d_intg to) scale len (d_sign to) buf, error)
    else if d_frac from <=? scale then Some (mk_decimal (d_intg to) scale len (d_sign to) (d_buf to), error)
    else
      r ← round_last mode digit (d_buf to) intg0 frac0 frac1 scale;
      match r with
      | None => to ← decimal_make_zero to; Some (to, E_DEC_OK)
      | Some (buf, pos) =>
          let start := if (scale =? 0) && (intg0 =? 0) then 1 else intg0 + frac0 in
          buf ← (if frac0 <? frac1 then store_down buf len (replicate (Z.to_nat (len - start)) 0) else Some buf);
          round_finish (with_buf to buf) pos intg0 frac0 scale error
      end.

(** ** The words after rounding *)

Lemma round_carry_spec r : Forall word_ok r ->
  match round_carry r with
  | (r', None) => r' = replicate (length r) 0 /\ rval r + 1 = DIG_BASE ^ Z.of_nat (length r)
  | (r', Some first) =>
      length r' = length r /\ Forall word_ok r' /\ rval r' = rval r + 1 /\ 0 < first /\
      exists n t, r' = replicate n 0 ++ first :: t
  end.
Proof.
  induction r as [|w r IH]; intros F; cbn [round_carry]; [done|]. apply Forall_cons in F as [Hw F].
  destruct (ADD_spec w 0 1) as (a & c & -> & Ha & Hc & E); [done|by apply word_ok_0|lia|].
  unfold word_ok in *. rewrite !rval_cons. destruct (Z.eqb_spec c 0) as [->|Hn].
  - rewrite rval_cons. split_and!; [done|by constructor|lia|lia|by exists 0%nat, r].
  - specialize (IH F). destruct (round_carry r) as [r' [first|]].
    + destruct IH as (L & F' & V & Hf & n & t & ->). rewrite rval_cons, V. simpl length.
      assert (a = 0) as -> by (unfold DIG_BASE in *; lia).
      split_and!; [lia|constructor; [apply word_ok_0|done]|unfold DIG_BASE in *; lia|lia|by exists (S n), t].
    + destruct IH as [-> V]. simpl length. rewrite Nat2Z.inj_succ, Z.pow_succ_r by lia. simpl replicate.
      assert (a = 0) as -> by (unfold DIG_BASE in *; lia). split; [done|]. rewrite <- V. unfold DIG_BASE in *. lia.
Qed.

Lemma rval_zero r : Forall word_ok r -> find (fun w => negb (w =? 0)) r = None -> rval r = 0.
Proof.
  induction r as [|w r IH]; intros F H; [done|]. apply Forall_cons in F as [_ F]. cbn [find] in H.
  rewrite rval_cons. destruct (Z.eqb_spec w 0) as [->|]; [|done]. rewrite IH by done. lia.
Qed.

Lemma find_nonzero r first : Forall word_ok r -> find (fun w => negb (w =? 0)) r = Some first ->
  0 < first /\ exists n t, r = replicate n 0 ++ first :: t.
Proof.
  induction r as [|w r IH]; intros F H; [done|]. apply Forall_cons in F as [Hw F]. cbn [find] in H.
  unfold word_ok in Hw. destruct (Z.eqb_spec w 0) as [->|].
  - destruct (IH F H) as (? & n & t & ->). split; [done|]. by exists (S n), t.
  - simplify_eq/=. split; [lia|]. by exists 0%nat, r.
Qed.

(** The words [w :: r] from the last one on, where [w] may be one too large. *)
Lemma round_settle_spec w r : Forall word_ok r -> 0 <= w <= DIG_BASE ->
  let v := w + DIG_BASE * rval r in
  match round_settle (w :: r) with
  | None => False
  | Some All_zero => v = 0
  | Some (Carry_out r') => r' = replicate (S (length r)) 0 /\ v = DIG_BASE ^ Z.of_nat (S (length r))
  | Some (Settled r' first) =>
      length r' = S (length r) /\ Forall word_ok r' /\ rval r' = v /\ 0 < first /\
      exists n t, r' = replicate n 0 ++ first :: t
  end.
Proof.
  intros F Hw. cbv zeta. cbn [round_settle]. destruct (Z.leb_spec DIG_BASE w) as [Hge|Hlt].
  - assert (w = DIG_BASE) as -> by lia. change (wraps 32 (DIG_BASE - DIG_BASE)) with 0.
    pose proof (round_carry_spec r F) as H. destruct (round_carry r) as [r' [first|]].
    + destruct H as (L & F' & V & Hf & n & t & ->). rewrite rval_cons, V. simpl length in *.
      split_and!; [lia|constructor; [apply word_ok_0|done]|lia|done|by exists (S n), t].
    + destruct H as [-> V]. split; [done|]. rewrite Nat2Z.inj_succ, Z.pow_succ_r, <- V by lia. lia.
  - assert (Forall word_ok (w :: r)) as F' by (constructor; [unfold word_ok; lia|done]). rewrite <- rval_cons.
    destruct (find _ (w :: r)) as [first|] eqn:E.
    + destruct (find_nonzero _ _ F' E) as [Hf H]. by split_and!.
    + by apply rval_zero.
Qed.

(** ** The decision to round up *)

(** Whether the absolute value is rounded up when the remainder [r] of a division
    by [D] is dropped, for the modes other than [HALF_EVEN]. *)
Definition rounds_up (mode : decimal_round_mode) (sign : bool) (r D : Z) : bool :=
  match mode with
  | HALF_UP => D <=? 2 * r
  | CEILING => negb sign && negb (r =? 0)
  | FLOOR => sign && negb (r =? 0)
  | TRUNCATE | HALF_EVEN => false
  end.

(** The absolute value [v] in units of [D], rounded. *)
Definition round_mag (mode : decimal_round_mode) (sign : bool) (v D : Z) : Z :=
  v / D + Z.b2z (rounds_up mode sign (v mod D) D).

(** The modes the code implements: [CEILING] and [FLOOR] only at the boundary of
    a word. *)
Definition mode_ok (mode : decimal_round_mode) (aligned : bool) : bool :=
  match mode with
  | TRUNCATE | HALF_UP => true
  | CEILING | FLOOR => aligned
  | HALF_EVEN => false
  end.

Lemma round_mag_add mode sign a x D : 0 < D -> round_mag mode sign (a * D + x) D = a + round_mag mode sign x D.
Proof.
  intros HD. unfold round_mag. rewrite Z.div_add_l, (Z.add_comm (a * D)), Z_mod_plus_full by lia. lia.
Qed.

Lemma round_mag_mul mode sign a x D : 0 < D -> 0 <= x < D ->
  round_mag mode sign (a * D + x) D = a + Z.b2z (rounds_up mode sign x D).
Proof.
  intros HD Hx. rewrite round_mag_add by done. unfold round_mag.
  rewrite Z.div_small, Z.mod_small by done. done.
Qed.

Lemma round_mag_bounds mode sign v k D : 0 < D -> 0 <= v < k * D -> 0 <= round_mag mode sign v D <= k.
Proof.
  intros HD Hv. unfold round_mag. assert (0 <= v / D < k).
  { split; [apply Z.div_pos; lia|]. apply Z.div_lt_upper_bound; lia. }
  destruct (rounds_up mode sign _ D); simpl; lia.
Qed.

(** The first digit that is dropped decides. *)
Lemma half_digit y r M : 0 <= r < M -> (10 * M <=? 2 * (y * M + r)) = (5 <=? y).
Proof. intros H. destruct (Z.leb_spec (10 * M) (2 * (y * M + r))), (Z.leb_spec 5 y); try done; nia. Qed.

Lemma existsb_nonzero ws : Forall word_ok ws ->
  existsb (fun w => negb (w =? 0)) ws = negb (dval ws =? 0).
Proof.
  induction ws as [|w ws IH]; intros F; [done|]. apply Forall_cons in F as [Hw F]. cbn [existsb].
  rewrite IH, dval_cons by done. pose proof (dval_bounds ws F).
  pose proof (DIG_BASE_pow_pos (Z.of_nat (length ws)) ltac:(lia)). unfold word_ok in Hw.
  destruct (Z.eqb_spec w 0) as [->|]; simpl; [by rewrite Z.mul_0_l|].
  symmetry. apply negb_true_iff, Z.eqb_neq. nia.
Qed.

Lemma round_inc_spec mode sign P T rest w t : mode <> HALF_EVEN -> T = w :: t -> Forall word_ok T ->
  round_inc mode (round_digit mode sign) (P ++ T ++ rest) (Z.of_nat (length P)) (Z.of_nat (length T)) =
  Some (rounds_up mode sign (dval T) (DIG_BASE ^ Z.of_nat (length T))).
Proof.
  intros Hm ET F. unfold round_inc.
  destruct (Z.eqb_spec (round_digit mode sign) 0) as [Hd|Hd].
  - rewrite (words_app P T rest) by lia. cbn [mbind option_bind]. rewrite existsb_nonzero by done.
    by destruct mode, sign.
  - destruct (Z.eqb_spec (round_digit mode sign) 5) as [Hd5|Hd5]; [|by destruct mode, sign].
    assert (mode = HALF_UP) as -> by (destruct mode, sign; simpl in *; congruence).
    subst T. cbn [app]. rewrite (rd_middle P w _ (Z.of_nat (length P))) by done. cbn [mbind option_bind rounds_up]. f_equal.
    apply Forall_cons in F as [Hw F]. unfold word_ok, DIG_BASE in Hw.
    assert (w = w / DIG_MASK * DIG_MASK + w mod DIG_MASK /\ 0 <= w mod DIG_MASK < DIG_MASK) as [E B].
    { split; [rewrite Z.mul_comm; by apply Z.div_mod|by apply Z.mod_pos_bound]. }
    rewrite Z.quot_div_nonneg by (unfold DIG_MASK; lia).
    set (y := w / DIG_MASK) in *. set (u := w mod DIG_MASK) in *. clearbody y u.
    pose proof (dval_bounds t F) as Bt. simpl length.
    rewrite dval_cons, Nat2Z.inj_succ, Z.pow_succ_r by lia.
    set (M := DIG_BASE ^ Z.of_nat (length t)) in *. clearbody M. rewrite E.
    replace (DIG_BASE * M) with (10 * (DIG_MASK * M)) by (unfold DIG_BASE, DIG_MASK; lia).
    replace (2 * ((y * DIG_MASK + u) * M + dval t)) with (2 * (y * (DIG_MASK * M) + (u * M + dval t))) by ring.
    rewrite half_digit by nia. destruct (Z.ltb_spec 5 y), (Z.eqb_spec y 5), (Z.leb_spec 5 y); done || lia.
Qed.

(** The digits of a word: those that stay, the first one dropped, the others. *)
Lemma word_at pos w : 0 <= pos <= 8 -> word_ok w ->
  exists h y u, w = h * 10 ^ (pos + 1) + y * 10 ^ pos + u /\ 0 <= h /\ 0 <= y <= 9 /\ 0 <= u < 10 ^ pos /\
    Z.quot w (10 ^ pos) = 10 * h + y.
Proof.
  intros Hp [Hw _]. assert (0 < 10 ^ pos) as HP by (apply Z.pow_pos_nonneg; lia).
  exists (w / 10 ^ pos / 10), (w / 10 ^ pos mod 10), (w mod 10 ^ pos).
  rewrite Z.pow_add_r by lia. rewrite Z.quot_div_nonneg by lia.
  pose proof (Z.div_pos w (10 ^ pos) Hw HP). pose proof (Z.mod_pos_bound w (10 ^ pos) HP) as Hu.
  pose proof (Z.div_mod w (10 ^ pos) ltac:(lia)) as E. set (P := 10 ^ pos) in *. set (q := w / P) in *.
  set (u := w mod P) in *. clearbody q u P. clear Hp.
  pose proof (Z.div_mod q 10 ltac:(lia)) as Eq. pose proof (Z.mod_pos_bound q 10 ltac:(lia)).
  split_and!; try lia.
Qed.

Lemma round_word_spec mode sign pos w t M : mode_ok mode false = true -> 0 <= pos <= 8 -> word_ok w -> 0 <= t < M ->
  round_word mode (round_digit mode sign) pos w =
  round_mag mode sign (w * M + t) (10 ^ (pos + 1) * M) * 10 ^ (pos + 1).
Proof.
  intros Hm Hp Hw Ht. destruct (word_at pos w Hp Hw) as (h & y & u & E & Hh & Hy & Hu & Eq).
  unfold round_word. rewrite powers10_pow, Eq by lia.
  assert (Z.rem (10 * h + y) 10 = y) as ->.
  { rewrite Z.rem_mod_nonneg, Z.mul_comm, Z.add_comm, Z_mod_plus_full, Z.mod_small by lia. done. }
  assert (0 < 10 ^ pos) as HP by (apply Z.pow_pos_nonneg; lia).
  assert (10 ^ (pos + 1) = 10 * 10 ^ pos) as E10 by (rewrite Z.pow_add_r by lia; lia). rewrite E10 in *.
  assert (10 ^ pos * 10 <= DIG_BASE) as Hb.
  { change DIG_BASE with (10 ^ 8 * 10). apply Z.mul_le_mono_nonneg_r; [lia|]. apply Z.pow_le_mono_r; lia. }
  unfold word_ok in Hw. set (P := 10 ^ pos) in *. clearbody P. clear Hp Eq E10.
  assert (w * M + t = h * (10 * P * M) + (y * (P * M) + (u * M + t))) as -> by (rewrite E; ring).
  assert (0 <= u * M + t < P * M) as Hr by nia.
  rewrite round_mag_mul by nia. assert (h * 10 * P <= DIG_BASE) as Hhp by nia.
  destruct mode; try done; simpl.
  - rewrite (proj2 (Z.ltb_ge _ _)) by lia. simpl. rewrite wraps_id by (unfold in_s, DIG_BASE in *; nia). ring.
  - rewrite <- Z.mul_assoc, half_digit by done.
    assert ((5 <? y) || (y =? 5) && true = (5 <=? y)) as ->.
    { destruct (Z.ltb_spec 5 y), (Z.eqb_spec y 5), (Z.leb_spec 5 y); done || lia. }
    destruct (5 <=? y); simpl; rewrite wraps_id by (unfold in_s, DIG_BASE in *; nia); ring.
Qed.

(** The words up to the cut are [ks ++ [w0]]: the last one is replaced by [w],
    which may be one too large. *)
Lemma round_last_words mode sign ks w0 T rest intg0 frac0 frac1 scale c :
  Forall word_ok ks -> word_ok w0 -> Forall word_ok T -> c = frac0 * 9 - scale -> 0 <= c <= 9 ->
  intg0 + frac0 = Z.of_nat (S (length ks)) -> frac1 - frac0 = Z.of_nat (length T) ->
  (c = 0 -> T <> []) -> mode_ok mode (c =? 0) = true ->
  let D := 10 ^ c * DIG_BASE ^ Z.of_nat (length T) in
  exists w, round_last mode (round_digit mode sign) (ks ++ w0 :: T ++ rest) intg0 frac0 frac1 scale =
      Some (Some (ks ++ w :: T ++ rest, Z.of_nat (length ks))) /\ 0 <= w <= DIG_BASE /\
    dval ks * DIG_BASE + w = round_mag mode sign (dval (ks ++ w0 :: T)) D * 10 ^ c.
Proof.
  intros Fk Hw Ft Ec Hc En Em HT Hok D. pose proof (dval_bounds T Ft) as Bt. unfold round_last, DIG_PER_DEC1.
  assert (0 < DIG_BASE ^ Z.of_nat (length T)) as HM by (apply DIG_BASE_pow_pos; lia).
  rewrite dval_app, dval_cons. simpl length. rewrite Nat2Z.inj_succ, Z.pow_succ_r by lia.
  rewrite En, Em. replace (Z.of_nat (S (length ks)) - 1) with (Z.of_nat (length ks)) by lia.
  destruct (Z.eqb_spec scale (frac0 * 9)) as [Ea|Ea].
  - assert (c = 0) as -> by lia. specialize (HT eq_refl).
    assert (exists t T', T = t :: T') as (t & T' & ET) by (destruct T; [done|by eexists _, _]).
    assert (mode <> HALF_EVEN) as Hne by (by destruct mode).
    change (ks ++ w0 :: T ++ rest) with (ks ++ [w0] ++ T ++ rest). rewrite (app_assoc ks [w0]).
    replace (Z.of_nat (S (length ks))) with (Z.of_nat (length (ks ++ [w0]))) by (rewrite length_app; simpl; lia).
    erewrite (round_inc_spec mode sign (ks ++ [w0]) T rest) by done. cbn [mbind option_bind].
    rewrite <- app_assoc. cbn [app]. unfold D. change (10 ^ 0) with 1. rewrite !Z.mul_1_l, !Z.mul_1_r.
    set (M := DIG_BASE ^ Z.of_nat (length T)) in *.
    replace (dval ks * (DIG_BASE * M) + (w0 * M + dval T)) with ((dval ks * DIG_BASE + w0) * M + dval T) by ring.
    rewrite round_mag_mul by done. rewrite length_app. simpl length. unfold word_ok in Hw.
    destruct (rounds_up mode sign (dval T) M); simpl Z.b2z.
    + rewrite (proj2 (Z.ltb_lt 0 _)) by lia. rewrite rd_middle by done. cbn [mbind option_bind].
      rewrite wr_middle by done. cbn [mbind option_bind]. eexists. split; [done|].
      rewrite wraps_id by (unfold in_s, DIG_BASE in *; lia). lia.
    + rewrite (proj2 (Z.eqb_neq _ 0)) by lia. exists w0. replace (length ks + 1)%nat with (S (length ks)) by lia.
      replace (Z.of_nat (S (length ks)) - 1) with (Z.of_nat (length ks)) by lia. split; [done|]. lia.
  - rewrite rd_middle by done. cbn [mbind option_bind]. rewrite wr_middle by done. cbn [mbind option_bind].
    eexists. split; [done|]. replace (frac0 * 9 - scale - 1) with (c - 1) by lia.
    assert (mode_ok mode false = true) as Hok' by (by rewrite (proj2 (Z.eqb_neq c 0)) in Hok by lia).
    rewrite (round_word_spec mode sign (c - 1) w0 (dval T) (DIG_BASE ^ Z.of_nat (length T))) by (done || lia).
    replace (c - 1 + 1) with c by lia. fold D.
    assert (DIG_BASE = 10 ^ (9 - c) * 10 ^ c) as E9 by (rewrite <- Z.pow_add_r by lia; by replace (9 - c + c) with 9 by lia).
    assert (0 < 10 ^ c) as HP by (apply Z.pow_pos_nonneg; lia).
    assert (0 < 10 ^ (9 - c)) as HP9 by (apply Z.pow_pos_nonneg; lia).
    set (M := DIG_BASE ^ Z.of_nat (length T)) in *.
    assert (dval ks * (DIG_BASE * M) + (w0 * M + dval T) = dval ks * 10 ^ (9 - c) * D + (w0 * M + dval T)) as ->
      by (unfold D; rewrite E9 at 1; ring).
    assert (0 < D) as HD by (unfold D; nia).
    rewrite round_mag_add by done. split; [|rewrite E9 at 1; ring].
    assert (0 <= w0 * M + dval T < 10 ^ (9 - c) * D) as Bv.
    { unfold word_ok in Hw. rewrite E9 in Hw. unfold D. nia. }
    pose proof (round_mag_bounds mode sign _ _ _ HD Bv). rewrite E9. nia.
Qed.

(** Nothing is kept, at the point of a number below one: the first word becomes
    [DIG_BASE], or the number zero. *)
Lemma round_last_nothing mode sign t T rest intg0 frac0 frac1 scale :
  Forall word_ok (t :: T) -> intg0 + frac0 = 0 -> scale = frac0 * 9 -> frac1 - frac0 = Z.of_nat (length (t :: T)) ->
  mode_ok mode true = true ->
  round_last mode (round_digit mode sign) (t :: T ++ rest) intg0 frac0 frac1 scale =
  Some (if rounds_up mode sign (dval (t :: T)) (DIG_BASE ^ Z.of_nat (length (t :: T)))
        then Some (DIG_BASE :: T ++ rest, 0) else None).
Proof.
  intros F E0 Es Em Hok. unfold round_last, DIG_PER_DEC1. rewrite E0, Em, (proj2 (Z.eqb_eq _ _) Es).
  assert (mode <> HALF_EVEN) as Hne by (by destruct mode).
  pose proof (round_inc_spec mode sign [] (t :: T) rest t T Hne eq_refl F) as E. simpl app in E.
  simpl length in E at 1. change (Z.of_nat 0) with 0 in E. rewrite E. cbn [mbind option_bind].
  destruct (rounds_up _ _ _ _); [|done]. change (0 <? 0) with false. cbv iota.
  by rewrite (wr_middle [] t (T ++ rest) 0).
Qed.

(** The last word that is not zero, of a number with one such word at most. *)
Lemma last_nonzero r n first t g : r = replicate n 0 ++ first :: t -> Forall word_ok r -> 0 < first ->
  rval r = g * DIG_BASE ^ (Z.of_nat (length r) - 1) -> first = g.
Proof.
  intros -> F Hf. apply Forall_app in F as [_ F]. apply Forall_cons in F as [Hw Ft].
  rewrite length_app, length_replicate. simpl length.
  replace (Z.of_nat (n + S (length t)) - 1) with (Z.of_nat n + Z.of_nat (length t)) by lia.
  assert (rval (replicate n 0 ++ first :: t) = DIG_BASE ^ Z.of_nat n * (first + DIG_BASE * rval t)) as ->.
  { clear. induction n as [|n IH]; [cbn [replicate app]; rewrite rval_cons; change (DIG_BASE ^ Z.of_nat 0) with 1; ring|].
    simpl replicate. cbn [app]. rewrite rval_cons, IH, Nat2Z.inj_succ, Z.pow_succ_r by lia. ring. }
  pose proof (DIG_BASE_pow_pos (Z.of_nat n) ltac:(lia)). rewrite Z.pow_add_r by lia. intros E.
  assert (first + DIG_BASE * rval t = g * DIG_BASE ^ Z.of_nat (length t)) as E' by nia.
  destruct t as [|u t]; [change (first + DIG_BASE * 0 = g * 1) in E'; clear E; lia|].
  simpl length in E'. rewrite Nat2Z.inj_succ, Z.pow_succ_r in E' by lia. exfalso.
  unfold word_ok in Hw. set (X := DIG_BASE ^ Z.of_nat (length t)) in *. clearbody X. clear E.
  assert (first = DIG_BASE * (g * X - rval (u :: t))) as -> by lia.
  set (Y := g * X - rval (u :: t)) in *. clearbody Y. unfold DIG_BASE in *. lia.
Qed.

(** ** The finished number *)

Section finish.
Context (to : decimal_t) (intg0 frac0 scale error : Z) (ks : list Z) (w : Z) (rest : list Z).
Context (Hbuf : d_buf to = ks ++ w :: rest) (Hlen : d_len to = Z.of_nat (length (d_buf to))).
Context (Hks : Forall word_ok ks) (Hw : 0 <= w <= DIG_BASE).
Context (Hcut : intg0 + frac0 = Z.of_nat (S (length ks))).
Context (Hroom : intg0 + Z.max frac0 0 <= d_len to).
Context (Hzero : take (Z.to_nat (- frac0)) rest = replicate (Z.to_nat (- frac0)) 0).
Context (Hscale : ROUND_UP (Z.max scale 0) = Z.max frac0 0).
Context (Hintg : 0 <= d_intg to) (Hintg0 : ROUND_UP (d_intg to) = intg0).

(** The rounded number, in units of the last word kept and of the last word of the
    result. *)
Let K := dval ks * DIG_BASE + w.
Let V := K * DIG_BASE ^ Z.max (- frac0) 0.

(** Room for one word more, or no carry needs it, and the zero before the point has
    its word when the number vanishes. *)
Let safe : Prop := intg0 + Z.max frac0 0 < d_len to \/
  ((K = 0 -> Z.max frac0 0 < d_len to) /\ K <> DIG_BASE ^ Z.of_nat (S (length ks))).
Context (Hsafe : safe).
Context (Htop : V <= 10 ^ (d_intg to + 9 * Z.max frac0 0)).
Context (Haligned : (10 ^ (9 * Z.max frac0 0 - Z.max scale 0) | V)).

Let rest' := drop (Z.to_nat (- frac0)) rest.

Lemma finish_rest : rest = replicate (Z.to_nat (- frac0)) 0 ++ rest'.
Proof. unfold rest'. by rewrite <- Hzero, take_drop. Qed.

Lemma finish_zeroes ws : dval (ws ++ replicate (Z.to_nat (- frac0)) 0) = dval ws * DIG_BASE ^ Z.max (- frac0) 0.
Proof.
  rewrite dval_app, dval_zeroes, length_replicate, Z.add_0_r. do 2 f_equal. lia.
Qed.

Lemma finish_intg0 : d_intg to <= 9 * intg0 < d_intg to + 9.
Proof. pose proof (ROUND_UP_bounds (d_intg to) Hintg). lia. Qed.

(** No word left that is not zero. *)
Lemma finish_zero : K = 0 ->
  exists to', (buf ← (if 0 <? frac0 + 1 then store_down (d_buf to) (frac0 + 1) (replicate (Z.to_nat (frac0 + 1)) 0)
                      else Some (d_buf to));
               Some (mk_decimal 1 (Z.max scale 0) (d_len to) false buf, E_DEC_OK)) = Some (to', E_DEC_OK) /\
    dec_wf to' /\ d_len to' = d_len to /\ d_sign to' = false /\ d_frac to' = Z.max scale 0 /\
    dec_val to' = 0.
Proof.
  intros HK. pose proof (dval_bounds ks Hks) as [Bk _]. pose proof finish_intg0.
  assert (Z.max frac0 0 < d_len to) as Hroom' by (destruct Hsafe as [|[Hz _]]; [lia|by apply Hz]).
  assert (dval ks = 0 /\ w = 0) as [Ek ->] by (unfold K, DIG_BASE in *; lia).
  assert (exists r, (if 0 <? frac0 + 1 then store_down (d_buf to) (frac0 + 1) (replicate (Z.to_nat (frac0 + 1)) 0)
     else Some (d_buf to)) = Some (replicate (Z.to_nat (Z.max frac0 0 + 1)) 0 ++ r) /\
     Z.of_nat (length (replicate (Z.to_nat (Z.max frac0 0 + 1)) 0 ++ r)) = d_len to) as (r & -> & Lr).
  { destruct (Z.ltb_spec 0 (frac0 + 1)) as [Hf|Hf].
    - destruct (store_down_spec (d_buf to) (frac0 + 1) (replicate (Z.to_nat (frac0 + 1)) 0)) as (b & -> & Lb & Tb).
      { rewrite length_replicate. lia. }
      { lia. }
      rewrite length_replicate, Nat.sub_diag, take_0 in Tb. simpl in Tb.
      exists (drop (Z.to_nat (frac0 + 1)) b). rewrite Z.max_l by lia. rewrite <- Tb, take_drop. split; [done|lia].
    - rewrite Z.max_r by lia. simpl. rewrite Hbuf. destruct ks as [|k ks'].
      + exists rest. split; [done|]. rewrite Hbuf in Hlen. rewrite Hlen. done.
      + assert (k = 0) as ->.
        { apply Forall_cons in Hks as [Hk Hks']. rewrite dval_cons in Ek. pose proof (dval_bounds ks' Hks').
          pose proof (DIG_BASE_pow_pos (Z.of_nat (length ks')) ltac:(lia)). unfold word_ok in Hk. nia. }
        exists (ks' ++ 0 :: rest). split; [done|]. rewrite Hbuf in Hlen. rewrite Hlen. done. }
  cbn [mbind option_bind]. eexists. split; [done|].
  destruct (mk_decimal_wf 1 (Z.max scale 0) (d_len to) false (replicate (Z.to_nat (Z.max frac0 0 + 1)) 0) r) as [W E];
    try done; try lia.
  - rewrite length_replicate, Hscale. change (ROUND_UP 1) with 1. lia.
  - apply word_ok_zeroes.
  - rewrite dval_zeroes. apply Z.pow_pos_nonneg; lia.
  - rewrite dval_zeroes. apply Z.divide_0_r.
  - split_and!; try done. by rewrite E, dval_zeroes.
Qed.

(** The carry left the first word: the number is a power of the base. *)
Lemma finish_carry : K = DIG_BASE ^ Z.of_nat (S (length ks)) ->
  exists to',
    (let '(buf, lost) := round_shift (rev (replicate (S (length ks)) 0) ++ rest) (d_len to) (intg0 + Z.max frac0 0) in
     let error := if (lost : bool) then E_DEC_OVERFLOW else error in
     let '(intg, error) := if d_intg to <? d_len to * DIG_PER_DEC1 then (d_intg to + 1, error)
                           else (d_intg to, E_DEC_OVERFLOW) in
     let first_dig := Z.rem intg DIG_PER_DEC1 in
     let intg := if negb (first_dig =? 0) && (powers10 first_dig <=? 1) then intg + 1 else intg in
     Some (mk_decimal intg (if scale <? 0 then 0 else scale) (d_len to) (d_sign to) buf, error)) = Some (to', error) /\
    dec_wf to' /\ d_len to' = d_len to /\ d_sign to' = d_sign to /\ d_frac to' = Z.max scale 0 /\
    dec_val to' = V.
Proof.
  intros HK. pose proof finish_intg0 as Hi.
  assert (intg0 + Z.max frac0 0 < d_len to) as Hroom' by (destruct Hsafe as [|[]]; done).
  set (m := Z.to_nat (intg0 + Z.max frac0 0)).
  assert (length (d_buf to) = m + length rest')%nat as Lm.
  { rewrite Hbuf, length_app. simpl length. rewrite finish_rest, length_app, length_replicate. plia. }
  assert (V = DIG_BASE ^ Z.of_nat m) as EV.
  { unfold V. rewrite HK, <- Z.pow_add_r by plia. f_equal. plia. }
  assert (d_intg to = 9 * intg0) as Ei.
  { rewrite EV, DIG_BASE_pow in Htop by plia. apply Z.pow_le_mono_r_iff in Htop; plia. }
  unfold round_shift. rewrite Z.min_l by lia. rewrite rev_zeroes, finish_rest, app_assoc, <- replicate_add.
  replace (S (length ks) + Z.to_nat (- frac0))%nat with m by plia. fold m.
  rewrite take_app_length' by (by rewrite length_replicate).
  rewrite (proj2 (Z.leb_gt (d_len to) _)) by lia. cbn [andb]. unfold DIG_PER_DEC1.
  rewrite (proj2 (Z.ltb_lt (d_intg to) _)) by plia.
  assert (Z.rem (d_intg to + 1) 9 = 1) as ->.
  { rewrite Ei, Z.rem_mod_nonneg, Z.add_comm, Z.mul_comm, Z_mod_plus_full by plia. done. }
  change (negb (1 =? 0) && (powers10 1 <=? 1)) with false. cbv iota.
  replace (if scale <? 0 then 0 else scale) with (Z.max scale 0) by (destruct (Z.ltb_spec scale 0); plia).
  eexists. split; [done|].
  destruct (mk_decimal_wf (d_intg to + 1) (Z.max scale 0) (d_len to) (d_sign to) (1 :: replicate m 0)
    (drop (S m) (replicate m 0 ++ rest'))) as [W E]; try plia.
  - simpl length. rewrite length_replicate, Hscale, Ei.
    rewrite ROUND_UP_nonneg by plia. replace (9 * intg0 + 1 + 8) with ((intg0 + 1) * 9) by plia. rewrite Z.div_mul by plia. plia.
  - simpl length. rewrite length_app, length_drop, length_app, length_replicate. plia.
  - constructor; [done|]. apply word_ok_zeroes.
  - rewrite dval_cons, dval_zeroes, length_replicate, DIG_BASE_pow, Hscale by lia.
    rewrite Z.mul_1_l, Z.add_0_r. apply Z.pow_lt_mono_r; plia.
  - rewrite dval_cons, dval_zeroes, length_replicate, Hscale. rewrite Z.mul_1_l, Z.add_0_r, <- EV. done.
  - split_and!; try done. etransitivity; [exact E|]. rewrite dval_cons, dval_zeroes, length_replicate, Z.mul_1_l, Z.add_0_r. by symmetry.
Qed.

(** The number of digits before the point: one more is needed only when the first
    word is the only one that is not zero. *)
Lemma finish_intg r first : rval r = K -> length r = S (length ks) -> Forall word_ok r -> 0 < first ->
  (exists n t, r = replicate n 0 ++ first :: t) ->
  let first_dig := Z.rem (d_intg to) DIG_PER_DEC1 in
  let intg := if negb (first_dig =? 0) && (powers10 first_dig <=? first) then d_intg to + 1 else d_intg to in
  0 <= intg /\ ROUND_UP intg = intg0 /\ V < 10 ^ (intg + 9 * Z.max frac0 0).
Proof.
  intros HK Hl F Hf (n & t & Er) fd. cbv zeta. pose proof finish_intg0 as Hi. pose proof (rval_bounds r F) as Br.
  assert (0 <= d_intg to mod 9 < 9 /\ fd = d_intg to mod 9) as [Hm Efd].
  { split; [by apply Z.mod_pos_bound|]. apply Z.rem_mod_nonneg; done. }
  pose proof (Z.div_mod (d_intg to) 9 ltac:(lia)) as Ed.
  assert (0 < DIG_BASE ^ Z.max (- frac0) 0) as HP by (apply DIG_BASE_pow_pos; lia).
  rewrite HK, Hl in Br. destruct (Z.eqb_spec fd 0) as [E0|E0]; cbn [negb andb].
  - split_and!; [done|done|]. replace (d_intg to) with (9 * intg0) by (clear Br Htop Haligned; lia).
    replace (9 * intg0 + 9 * Z.max frac0 0) with (9 * (Z.of_nat (S (length ks)) + Z.max (- frac0) 0)) by lia.
    rewrite <- DIG_BASE_pow, Z.pow_add_r by lia. unfold V. apply Z.mul_lt_mono_pos_r; [done|apply Br].
  - assert (d_intg to = 9 * (intg0 - 1) + fd) as Ei by (clear Br Htop Haligned; lia).
    rewrite powers10_pow by lia. destruct (Z.leb_spec (10 ^ fd) first) as [Hle|Hgt].
    + split_and!; [lia| |].
      * rewrite ROUND_UP_nonneg by plia. symmetry. apply Z.div_unique with (fd + 1 + 8 - 9); plia.
      * eapply Z.le_lt_trans; [exact Htop|]. apply Z.pow_lt_mono_r; plia.
    + split_and!; [done|done|]. apply Z.le_neq. split; [done|]. intros EV.
      enough (first = 10 ^ fd) by lia. eapply last_nonzero; [exact Er|done|done|]. rewrite HK, Hl.
      apply (Z.mul_reg_r _ _ (DIG_BASE ^ Z.max (- frac0) 0)); [lia|]. fold V. rewrite EV, Ei.
      rewrite <- Z.mul_assoc, <- Z.pow_add_r, DIG_BASE_pow, <- Z.pow_add_r by plia. f_equal. plia.
Qed.

Lemma finish_settled r first : rval r = K -> length r = S (length ks) -> Forall word_ok r -> 0 < first ->
  (exists n t, r = replicate n 0 ++ first :: t) ->
  exists to',
    (let first_dig := Z.rem (d_intg to) DIG_PER_DEC1 in
     let intg := if negb (first_dig =? 0) && (powers10 first_dig <=? first) then d_intg to + 1 else d_intg to in
     Some (mk_decimal intg (if scale <? 0 then 0 else scale) (d_len to) (d_sign to) (rev r ++ rest), error)) =
      Some (to', error) /\
    dec_wf to' /\ d_len to' = d_len to /\ d_sign to' = d_sign to /\ d_frac to' = Z.max scale 0 /\
    dec_val to' = V /\ ROUND_UP (d_intg to') = intg0.
Proof.
  intros HK Hl F Hf Hr. destruct (finish_intg r first HK Hl F Hf Hr) as (Hi & Hi0 & Ht). cbv zeta in *.
  set (intg := if negb _ && _ then d_intg to + 1 else d_intg to) in *. clearbody intg. pose proof finish_intg0.
  replace (if scale <? 0 then 0 else scale) with (Z.max scale 0) by (destruct (Z.ltb_spec scale 0); lia).
  assert (dval (rev r ++ replicate (Z.to_nat (- frac0)) 0) = V) as EV.
  { rewrite finish_zeroes. unfold V. by rewrite <- HK. }
  eexists. split; [done|].
  assert (rev r ++ rest = (rev r ++ replicate (Z.to_nat (- frac0)) 0) ++ rest') as ->.
  { rewrite finish_rest at 1. by rewrite app_assoc. }
  edestruct (mk_decimal_wf intg (Z.max scale 0) (d_len to) (d_sign to)
    (rev r ++ replicate (Z.to_nat (- frac0)) 0) rest') as [W E]; rewrite ?EV, ?Hscale; try done; try lia.
  - clear Ht Htop Haligned. destruct (decide (intg = 0)) as [->|]; [|lia]. change (ROUND_UP 0) with 0 in Hi0.
    destruct (decide (Z.max scale 0 = 0)) as [Es|]; [|lia]. rewrite Es in Hscale. change (ROUND_UP 0) with 0 in Hscale. lia.
  - rewrite length_app, length_rev, length_replicate, Hl, Hi0. clear Ht Htop Haligned. lia.
  - rewrite Hlen, Hbuf, <- app_assoc, <- finish_rest, !length_app, length_rev, Hl. simpl. clear. lia.
  - apply Forall_app. split; [by apply List.Forall_rev|apply word_ok_zeroes].
  - split_and!; try done. by rewrite E.
Qed.

Lemma round_finish_spec :
  exists to', round_finish to (Z.of_nat (length ks)) intg0 frac0 scale error =
      Some (to', if K =? 0 then E_DEC_OK else error) /\
    dec_wf to' /\ d_len to' = d_len to /\ d_sign to' = (if K =? 0 then false else d_sign to) /\
    d_frac to' = Z.max scale 0 /\ dec_val to' = V /\
    (K <> 0 -> K <> DIG_BASE ^ Z.of_nat (S (length ks)) -> ROUND_UP (d_intg to') = intg0).
Proof.
  unfold round_finish. pose proof finish_intg0 as Hi.
  assert (words (d_buf to) 0 (Z.of_nat (length ks) + 1) = Some (ks ++ [w])) as ->.
  { rewrite Hbuf. change (ks ++ w :: rest) with ([] ++ ks ++ [w] ++ rest). rewrite (app_assoc ks).
    apply words_app; [done|]. rewrite length_app. simpl. lia. }
  cbn [mbind option_bind]. rewrite rev_app_distr. cbn [rev app].
  assert (w + DIG_BASE * rval (rev ks) = K) as EK by (unfold K, rval; rewrite rev_involutive; ring).
  pose proof (round_settle_spec w (rev ks) ltac:(by apply List.Forall_rev) Hw) as H. cbv zeta in H. rewrite EK, length_rev in H.
  destruct (round_settle (w :: rev ks)) as [[|r|r first]|]; [..|done]; cbn [mbind option_bind].
  - rewrite (proj2 (Z.eqb_eq K 0) H). destruct (finish_zero H) as (to' & E & W & L & S & Fr & EV).
    exists to'. split_and!; try done. unfold V. by rewrite EV, H.
  - destruct H as [-> HK]. assert (K <> 0) as Hn by (rewrite HK; apply Z.pow_nonzero; [done|lia]).
    rewrite (proj2 (Z.eqb_neq K 0) Hn).
    assert (intg0 + Z.max frac0 0 < d_len to) as Hroom' by (destruct Hsafe as [|[]]; done).
    rewrite (proj2 (Z.leb_gt (d_len to) (frac0 + intg0))) by (clear -Hroom'; lia).
    destruct (finish_carry HK) as (to' & E & W & L' & S' & F' & V'). exists to'. split; [|by split_and!]. rewrite <- E.
    rewrite length_replicate, Hbuf. replace (drop (S (length ks)) (ks ++ w :: rest)) with rest; [done|].
    symmetry. change (w :: rest) with ([w] ++ rest). rewrite app_assoc. apply drop_app_length'. rewrite length_app. simpl. lia.
  - destruct H as (Hl & F & HK & Hf & Hr). assert (K <> 0) as Hn.
    { rewrite <- HK. destruct Hr as (n & t & ->). intros E0. clear -E0 Hf F. induction n as [|n IH].
      - cbn [replicate app] in *. rewrite rval_cons in E0. apply Forall_cons in F as [_ F].
        pose proof (rval_bounds t F). unfold DIG_BASE in *. lia.
      - cbn [replicate app] in *. rewrite rval_cons in E0. apply Forall_cons in F as [_ F]. apply IH; [done|].
        unfold DIG_BASE in *. lia. }
    rewrite (proj2 (Z.eqb_neq K 0) Hn).
    destruct (finish_settled r first HK Hl F Hf Hr) as (to' & E & W & L' & S' & F' & V' & I').
    exists to'. split; [|by split_and!]. rewrite <- E.
    rewrite Hl, Hbuf. replace (drop (S (length ks)) (ks ++ w :: rest)) with rest; [done|].
    symmetry. change (w :: rest) with ([w] ++ rest). rewrite app_assoc. apply drop_app_length'. rewrite length_app. simpl. lia.
Qed.

End finish.

(** ** Rounding, on the absolute value *)

Lemma round_frac0 scale :
  let frac0 := if 0 <? scale then ROUND_UP scale else Z.quot (scale + 1) 9 in
  0 <= 9 * frac0 - scale <= 9 /\ Z.max frac0 0 = ROUND_UP (Z.max scale 0) /\
  (9 * frac0 - scale = 0 <-> 0 <= scale /\ scale mod 9 = 0) /\ (0 <= scale -> 0 <= frac0).
Proof.
  cbv zeta. destruct (Z.ltb_spec 0 scale) as [H|H].
  - rewrite Z.max_l by (pose proof (ROUND_UP_bounds scale); lia). rewrite Z.max_l by lia.
    rewrite ROUND_UP_nonneg by lia. split_and!; [Z.to_euclidean_division_equations; lia..|done| |].
    + split; Z.to_euclidean_division_equations; lia.
    + Z.to_euclidean_division_equations; lia.
  - rewrite (Z.max_r scale) by lia. change (ROUND_UP 0) with 0.
    split_and!; [Z.to_euclidean_division_equations; lia..| |]; [split|]; Z.to_euclidean_division_equations; lia.
Qed.

(** Zeroes from index [n] to the end. *)
Lemma store_zeroes A X len : len = Z.of_nat (length (A ++ X)) ->
  store_down (A ++ X) len (replicate (Z.to_nat (len - Z.of_nat (length A))) 0) =
  Some (A ++ replicate (length X) 0).
Proof.
  intros ->. rewrite length_app. unfold store_down. rewrite length_replicate, length_app.
  rewrite (proj2 (Z.leb_le _ _)), (proj2 (Z.leb_le _ _)) by lia. simpl andb. cbv iota.
  rewrite drop_ge by (rewrite length_app; lia). rewrite app_nil_r.
  rewrite take_app_length' by lia. do 3 f_equal. lia.
Qed.

Section round.
Context (from : decimal_t) (scale : Z) (mode : decimal_round_mode).
Context (Hfrom : dec_wf from) (Hscale : scale < d_frac from) (Hintg : 0 <= scale + d_intg from).
Context (Hroom : ROUND_UP (d_intg from) + ROUND_UP (Z.max scale 0) <= d_len from).
Context (Hmode : mode_ok mode ((0 <=? scale) && (scale mod 9 =? 0)) = true).

Let intg0 := ROUND_UP (d_intg from).
Let frac1 := ROUND_UP (d_frac from).
Let frac0 := if 0 <? scale then ROUND_UP scale else Z.quot (scale + 1) 9.
Let c := 9 * frac0 - scale.
Let D := 10 ^ (9 * frac1 - scale).
Let R := round_mag mode (d_sign from) (dec_val from) D.

Let safe : Prop := ROUND_UP (d_intg from) + ROUND_UP (Z.max scale 0) < d_len from \/
  ((R = 0 -> ROUND_UP (Z.max scale 0) < d_len from) /\ R < 10 ^ (9 * intg0 + scale)).
Context (Hsafe : safe).

Lemma round_sizes : 0 <= c <= 9 /\ 0 <= intg0 /\ 0 <= frac1 /\ frac0 <= frac1 /\ 0 <= intg0 + frac0 /\
  Z.max frac0 0 = ROUND_UP (Z.max scale 0) /\ (c = 0 -> frac0 < frac1) /\ (c <> 0 -> 0 < intg0 + frac0) /\
  (intg0 + frac0 = 0 -> intg0 = 0 /\ frac0 = 0 /\ scale = 0 /\ d_intg from = 0) /\
  (c =? 0) = (0 <=? scale) && (scale mod 9 =? 0) /\ (0 <= scale -> 0 <= frac0).
Proof.
  destruct (round_frac0 scale) as (H1 & H2 & H3 & H4). fold frac0 in H1, H2, H3, H4. fold c in H1, H3.
  pose proof (ROUND_UP_bounds (d_intg from) (wf_intg _ Hfrom)) as H5. pose proof (wf_intg _ Hfrom).
  pose proof (ROUND_UP_bounds (d_frac from) (wf_frac _ Hfrom)) as H6. pose proof (wf_frac _ Hfrom).
  fold intg0 in H5. fold frac1 in H6.
  assert (c = 9 * frac0 - scale) as Ec by done. clear Hroom Hsafe. clearbody R D c frac0 intg0 frac1.
  split_and!; try lia.
Qed.

Lemma round_D_pos : 0 < D.
Proof. apply Z.pow_pos_nonneg; [lia|]. pose proof round_sizes. unfold c in *. lia. Qed.

(** The rounded number has as many digits, or is a power of ten. *)
Lemma round_R : 0 <= R <= 10 ^ (d_intg from + scale).
Proof.
  apply round_mag_bounds; [apply round_D_pos|]. split; [by apply dec_val_nonneg|].
  unfold D. rewrite <- Z.pow_add_r by (pose proof round_sizes; unfold c in *; lia).
  replace (d_intg from + scale + (9 * frac1 - scale)) with (d_intg from + 9 * frac1) by lia. apply Hfrom.
Qed.

(** The words that are kept and the others. *)
Lemma round_split :
  exists P T, dec_words from = P ++ T /\ Z.of_nat (length P) = intg0 + frac0 /\ Z.of_nat (length T) = frac1 - frac0 /\
    Forall word_ok P /\ Forall word_ok T /\ D = 10 ^ c * DIG_BASE ^ Z.of_nat (length T).
Proof.
  pose proof round_sizes as (H1 & H2 & H3 & H4 & H5 & _). pose proof (dec_words_length from Hfrom) as L.
  destruct (split_words (dec_words from) 0 (intg0 + frac0)) as (h & P & T & E & Lh & LP); [lia..|].
  assert (h = []) as -> by (destruct h; [done|simpl in *; lia]). simpl in E.
  pose proof (wf_words from Hfrom) as F. rewrite E in F. apply Forall_app in F as [FP FT].
  rewrite E, length_app in L. exists P, T. fold intg0 frac1 in L. split_and!; try done; [lia|].
  unfold D. rewrite DIG_BASE_pow, <- Z.pow_add_r by lia. f_equal. unfold c. lia.
Qed.

Definition round_result (to' : decimal_t) : Prop :=
  dec_wf to' /\ d_len to' = d_len from /\ d_sign to' = (if R =? 0 then false else d_sign from) /\
  d_frac to' = Z.max scale 0 /\ dec_val to' = R * 10 ^ (9 * Z.max frac0 0 - scale) /\
  (0 < R < 10 ^ (9 * intg0 + scale) -> ROUND_UP (d_intg to') = intg0).

(** After the copy to [to]. *)
Context (to : decimal_t) (rest : list Z).
Context (Hbuf : d_buf to = dec_words from ++ rest) (Hlen : d_len to = Z.of_nat (length (d_buf to))).
Context (Hlen' : d_len to = d_len from) (Hsign : d_sign to = d_sign from).
Context (Hto : d_intg from <= d_intg to) (Hto0 : ROUND_UP (d_intg to) = intg0).

Definition round_rest : option (decimal_t * Z) :=
  r ← round_last mode (round_digit mode (d_sign from)) (d_buf to) intg0 frac0 frac1 scale;
  match r with
  | None => to ← decimal_make_zero to; Some (to, E_DEC_OK)
  | Some (buf, pos) =>
      let start := if (scale =? 0) && (intg0 =? 0) then 1 else intg0 + frac0 in
      buf ← (if frac0 <? frac1 then store_down buf (d_len to) (replicate (Z.to_nat (d_len to - start)) 0) else Some buf);
      round_finish (with_buf to buf) pos intg0 frac0 scale E_DEC_OK
  end.

(** All the digits are dropped: the number becomes 0 or 1. *)
Lemma round_rest_nothing : intg0 + frac0 = 0 -> exists to', round_rest = Some (to', E_DEC_OK) /\ round_result to'.
Proof.
  intros E0. pose proof round_sizes as (H1 & H2 & H3 & H4 & H5 & H6 & H7 & H8 & H9 & H10 & H11).
  destruct (H9 E0) as (Ei & Ef & Es & Ed). destruct round_split as (P & T & EW & LP & LT & FP & FT & ED).
  assert (P = []) as -> by (destruct P; [done|simpl in *; lia]). simpl in EW.
  assert (c = 0) as Ec by (unfold c; lia). rewrite Ec, Z.mul_1_l in ED.
  destruct T as [|t T]; [simpl in *; lia|].
  assert (mode_ok mode true = true) as Hok by (by rewrite <- H10, Ec in Hmode).
  assert (R = Z.b2z (rounds_up mode (d_sign from) (dval (t :: T)) D)) as ER.
  { pose proof (dval_bounds _ FT) as B. rewrite <- ED in B. unfold R. unfold dec_val. rewrite EW.
    by rewrite <- (Z.add_0_l (dval (t :: T))), <- (Z.mul_0_l D), round_mag_mul by lia. }
  assert (Hlen2 := Hlen). rewrite Hbuf, EW in Hlen2.
  unfold round_rest. rewrite Hbuf, EW. cbn [app].
  rewrite (round_last_nothing mode (d_sign from) t T rest) by (done || lia). rewrite <- ED.
  unfold round_result. rewrite H6, Es, Ef. change (10 ^ (9 * ROUND_UP (Z.max 0 0) - 0)) with 1. rewrite Z.mul_1_r.
  destruct (rounds_up mode (d_sign from) (dval (t :: T)) D); simpl in ER; rewrite ER; cbn [mbind option_bind].
  - rewrite Ei. change ((0 =? 0) && (0 =? 0)) with true. cbv iota. rewrite (proj2 (Z.ltb_lt 0 frac1)) by lia.
    pose proof (store_zeroes [DIG_BASE] (T ++ rest) (d_len to) ltac:(rewrite Hlen2; simpl; lia)) as Ez.
    cbn [app] in Ez. change (Z.of_nat (length [DIG_BASE])) with 1 in Ez. rewrite Ez. clear Ez.
    cbn [mbind option_bind]. set (zs := replicate (length (T ++ rest)) 0).
    assert (length zs = length (T ++ rest)) as Lz by apply length_replicate.
    assert (d_intg to = 0) as Ei0.
    { pose proof (ROUND_UP_bounds (d_intg to)) as B. rewrite Hto0, Ei in B. pose proof (wf_intg _ Hfrom). lia. }
    eexists. split.
    { unfold round_finish. rewrite (words_app [] [DIG_BASE] zs) by done. cbn [mbind option_bind rev app].
      change (round_settle [DIG_BASE]) with (Some (Carry_out [0])). cbn [mbind option_bind].
      unfold with_buf. cbn [d_len d_intg d_sign d_buf]. rewrite (proj2 (Z.leb_gt (d_len to) (0 + 0))) by (rewrite Hlen2; simpl; lia).
      unfold round_shift. rewrite Ei0, Hlen2. rewrite (proj2 (Z.ltb_lt 0 _)) by (unfold DIG_PER_DEC1; simpl; lia).
      change (0 + Z.max 0 0) with 0. rewrite Z.min_l by (simpl; lia). rewrite andb_false_r. simpl. reflexivity. }
    destruct (mk_decimal_wf 1 0 (d_len to) (d_sign to) [1] zs) as [W E]; try done.
    + simpl. by rewrite Lz, Hlen2.
    + by constructor.
    + rewrite Hlen2 in W, E. split_and!; try done; [simpl; by rewrite <- Hlen', Hlen2|].
      intros [_ H]. by vm_compute in H.
  - destruct (decimal_make_zero_spec to) as (to' & -> & W & L & S & F & V); [split; [|done]; rewrite Hlen2; simpl; lia|].
    exists to'. split; [done|]. split_and!; try done; [by rewrite L|lia].
Qed.

(** The result in units of its last word. *)
Lemma round_units : R * 10 ^ c * DIG_BASE ^ Z.max (- frac0) 0 = R * 10 ^ (9 * Z.max frac0 0 - scale).
Proof.
  pose proof round_sizes as (H1 & _). rewrite <- Z.mul_assoc, DIG_BASE_pow, <- Z.pow_add_r by lia.
  do 2 f_equal. unfold c. lia.
Qed.

Lemma round_no_carry n : intg0 + frac0 = Z.of_nat n -> R < 10 ^ (9 * intg0 + scale) ->
  R * 10 ^ c <> DIG_BASE ^ Z.of_nat n.
Proof.
  intros En HR. pose proof round_sizes as (H1 & H2 & _). pose proof (ROUND_UP_bounds (d_intg from) (wf_intg _ Hfrom)) as Bi.
  fold intg0 in Bi. assert (0 < 10 ^ c) as HP by (apply Z.pow_pos_nonneg; lia). clear Hroom Hsafe.
  rewrite DIG_BASE_pow by lia. replace (9 * Z.of_nat n) with (9 * intg0 + scale + c) by (unfold c; lia).
  rewrite Z.pow_add_r by (clear -Hintg Bi H1; lia). nia.
Qed.

Lemma round_rest_some : 0 < intg0 + frac0 -> exists to', round_rest = Some (to', E_DEC_OK) /\ round_result to'.
Proof.
  intros Hn. pose proof round_sizes as (H1 & H2 & H3 & H4 & H5 & H6 & H7 & H8 & H9 & H10 & H11).
  destruct round_split as (P & T & EW & LP & LT & FP & FT & ED).
  assert (exists ks w0, P = ks ++ [w0]) as (ks & w0 & ->).
  { destruct P as [|w0 ks _] using rev_ind; [simpl in *; lia|by eexists _, _]. }
  rewrite length_app in LP. simpl in LP. apply Forall_app in FP as [Fk Fw]. apply Forall_inv in Fw.
  assert (intg0 + frac0 = Z.of_nat (S (length ks))) as ES by (clear -LP; lia).
  assert (mode_ok mode (c =? 0) = true) as Hok by (by rewrite H10).
  destruct (round_last_words mode (d_sign from) ks w0 T rest intg0 frac0 frac1 scale c)
    as (w & El & Hw & EK); try done; try lia; [intros E0; destruct T; [simpl in *; lia|done]|].
  rewrite <- ED in EK. change (ks ++ w0 :: T) with (ks ++ [w0] ++ T) in EK. rewrite app_assoc, <- EW in EK.
  fold (dec_val from) in EK. fold R in EK.
  rewrite EW, <- !app_assoc in Hbuf. cbn [app] in Hbuf.
  unfold round_rest. rewrite Hbuf, El. cbn [mbind option_bind].
  assert ((scale =? 0) && (intg0 =? 0) = false) as ->.
  { apply not_true_iff_false. rewrite andb_true_iff, !Z.eqb_eq. intros [Es E].
    assert (frac0 = 0) by (unfold frac0; by rewrite Es). lia. }
  assert (exists rest2, (if frac0 <? frac1
      then store_down (ks ++ w :: T ++ rest) (d_len to) (replicate (Z.to_nat (d_len to - (intg0 + frac0))) 0)
      else Some (ks ++ w :: T ++ rest)) = Some (ks ++ w :: rest2) /\ length rest2 = length (T ++ rest) /\
      take (Z.to_nat (- frac0)) rest2 = replicate (Z.to_nat (- frac0)) 0) as (rest2 & -> & L2 & T2).
  { rewrite Hbuf, length_app in Hlen. simpl length in Hlen. destruct (Z.ltb_spec frac0 frac1).
    - change (ks ++ w :: T ++ rest) with (ks ++ [w] ++ T ++ rest). rewrite (app_assoc ks [w]).
      replace (intg0 + frac0) with (Z.of_nat (length (ks ++ [w]))) by (rewrite length_app; simpl; lia).
      rewrite store_zeroes by (rewrite !length_app in *; simpl; lia).
      exists (replicate (length (T ++ rest)) 0). rewrite <- app_assoc, length_replicate. split_and!; [done|done|].
      rewrite take_replicate, length_app. f_equal. plia.
    - exists (T ++ rest). split_and!; [done|done|]. replace (Z.to_nat (- frac0)) with 0%nat by lia. done. }
  cbn [mbind option_bind].
  destruct (round_finish_spec (with_buf to (ks ++ w :: rest2)) intg0 frac0 scale E_DEC_OK ks w rest2)
    as (to' & -> & W & L & S & F & V & I); try done; cbn [with_buf d_buf d_len d_intg d_sign]; try plia.
  - rewrite Hlen, Hbuf, !length_app. simpl. rewrite L2, length_app. done.
  - pose proof (wf_intg _ Hfrom). plia.
  - rewrite EK. destruct Hsafe as [Hs|Hs]; [left; clear -Hs H6 Hlen'; lia|right]. destruct Hs as [Hz Hs].
    split; [|by apply round_no_carry]. rewrite H6, Hlen'. intros EK0. apply Hz.
    assert (0 < 10 ^ c) by (apply Z.pow_pos_nonneg; lia). clear -EK0 H. nia.
  - rewrite EK, round_units. pose proof round_R as [_ HR]. pose proof (wf_intg _ Hfrom).
    etransitivity; [apply Z.mul_le_mono_nonneg_r; [apply Z.pow_nonneg; lia|exact HR]|].
    rewrite <- Z.pow_add_r by (unfold c in *; lia). apply Z.pow_le_mono_r; lia.
  - rewrite EK, round_units. apply Z.divide_mul_r. exists (10 ^ (Z.max scale 0 - scale)).
    rewrite <- Z.pow_add_r by (unfold c in *; lia). f_equal. lia.
  - exists to'. cbn [with_buf d_len d_sign] in L, S. rewrite EK in S, V |- *. rewrite round_units in V.
    assert ((R * 10 ^ c =? 0) = (R =? 0)) as ER.
    { destruct (Z.eqb_spec R 0) as [->|]; [done|]. apply Z.eqb_neq, Z.neq_mul_0. split; [done|]. apply Z.pow_nonzero; plia. }
    rewrite ER in *. split; [by destruct (R =? 0)|]. split_and!; try done; [by rewrite L|by rewrite <- Hsign|].
    intros HR. rewrite EK in I. apply I; [|exact (round_no_carry _ ES (proj2 HR))].
    apply Z.neq_mul_0. split; [lia|]. apply Z.pow_nonzero; plia.
Qed.

Lemma round_rest_spec : exists to', round_rest = Some (to', E_DEC_OK) /\ round_result to'.
Proof.
  pose proof round_sizes as (_ & _ & _ & _ & H & _). destruct (decide (intg0 + frac0 = 0)).
  - by apply round_rest_nothing.
  - apply round_rest_some. lia.
Qed.

End round.
