(* ===== verification/DecimalRounding.v ===== *)
(** * Fixed-point decimals: correctness of rounding

    [decimal_round] against the rounding of rational numbers, for the modes that
    are implemented at every scale and for [CEILING] and [FLOOR] where they are. *)

From Stdlib Require Import ZArith Lia QArith Qround Qabs Qpower.
From stdpp Require Import base numbers option tactics list.
From S2P Require Import Prelude Decimal DecimalArith DecimalRound.

#[local] Open Scope Z_scope.

(** ** Rounding rational numbers *)

Definition Q10 (k : Z) : Q := Qpower (inject_Z 10) k.

Definition round_to_int (mode : decimal_round_mode) (x : Q) : Z :=
  match mode with
  | TRUNCATE => if Qle_bool 0 x then Qfloor x else Qceiling x
  | HALF_UP => if Qle_bool 0 x then Qfloor (x + (1 # 2)) else Qceiling (x - (1 # 2))
  | HALF_EVEN =>
      let n := Qfloor x in
      match (x - inject_Z n ?= 1 # 2)%Q with
      | Lt => n
      | Gt => n + 1
      | Eq => if Z.even n then n else n + 1
      end
  | CEILING => Qceiling x
  | FLOOR => Qfloor x
  end.

(** To [scale] digits after the point. *)
Definition round_Q (mode : decimal_round_mode) (q : Q) (scale : Z) : Q :=
  inject_Z (round_to_int mode (q * Q10 scale)) * Q10 (- scale).

#[export] Instance round_to_int_proper mode : Proper (Qeq ==> eq) (round_to_int mode).
Proof.
  intros x y E. unfold round_to_int. cbv zeta.
  assert (Qle_bool 0 x = Qle_bool 0 y) as El by (apply Qleb_comp; [done|exact E]).
  assert (x - inject_Z (Qfloor y) == y - inject_Z (Qfloor y))%Q as Em by by rewrite E.
  assert (x + (1 # 2) == y + (1 # 2))%Q as Ep by by rewrite E.
  assert (x - (1 # 2) == y - (1 # 2))%Q as Es by by rewrite E.
  destruct mode; rewrite ?El, ?(Qfloor_comp _ _ E), ?(Qceiling_comp _ _ E),
    ?(Qfloor_comp _ _ Ep), ?(Qceiling_comp _ _ Es); try done.
  by rewrite (Qcompare_comp _ _ Em (1 # 2) (1 # 2) (Qeq_refl _)).
Qed.

#[export] Instance round_Q_proper mode : Proper (Qeq ==> eq ==> Qeq) (round_Q mode).
Proof. intros x y E s ? <-. unfold round_Q. by rewrite E. Qed.

Lemma Q10_nonzero k : ~ (Q10 k == 0)%Q.
Proof. apply Qpower_not_0. done. Qed.

Lemma Q10_add j k : (Q10 (j + k) == Q10 j * Q10 k)%Q.
Proof. apply Qpower_plus. done. Qed.

Lemma Q10_Z k : 0 <= k -> (Q10 k == inject_Z (10 ^ k))%Q.
Proof. intros H. unfold Q10. by rewrite Zpower_Qpower. Qed.

(** [n / 10 ^ k]. *)
Lemma Q10_div n k : 0 <= k -> (inject_Z n * Q10 (- k) == Qmake n (Z.to_pos (10 ^ k)))%Q.
Proof.
  intros Hk. assert (0 < 10 ^ k) as HP by (apply Z.pow_pos_nonneg; lia).
  unfold Q10. rewrite Qpower_opp. fold (Q10 k). rewrite Q10_Z by done.
  rewrite Qmake_Qdiv, Z2Pos.id by done. done.
Qed.

Lemma dec_Q_pow d : dec_wf d -> (dec_Q d == inject_Z (dec_sval d) * Q10 (- (9 * ROUND_UP (d_frac d))))%Q.
Proof.
  intros Hd. pose proof (wf_frac_words d Hd). rewrite Q10_div, <- DIG_BASE_pow by lia. done.
Qed.

(** Half up and towards infinity by division of integers. *)
Lemma div_half v D : 0 < D -> (v * 2 + D) / (D * 2) = v / D + Z.b2z (D <=? 2 * (v mod D)).
Proof.
  intros HD. pose proof (Z.div_mod v D ltac:(lia)) as E. pose proof (Z.mod_pos_bound v D HD).
  set (q := v / D) in *. set (r := v mod D) in *. clearbody q r. subst v. symmetry.
  destruct (Z.leb_spec D (2 * r)); simpl.
  - apply Z.div_unique with (2 * r - D); [lia|ring].
  - apply Z.div_unique with (2 * r + D); [lia|ring].
Qed.

Lemma div_opp v D : 0 < D -> - (- v / D) = v / D + Z.b2z (negb (v mod D =? 0)).
Proof.
  intros HD. destruct (Z.eqb_spec (v mod D) 0) as [E|E]; simpl.
  - rewrite Z.div_opp_l_z by lia. lia.
  - rewrite Z.div_opp_l_nz by lia. lia.
Qed.

Lemma Qle_bool_make n p : Qle_bool 0 (Qmake n p) = (0 <=? n).
Proof. unfold Qle_bool. simpl. by rewrite Z.mul_1_r. Qed.

(** Rounding a fraction is rounding its absolute value. *)
Lemma round_to_int_mag mode (sign : bool) v D : mode <> HALF_EVEN -> 0 <= v -> 0 < D ->
  round_to_int mode (Qmake (if sign then - v else v) (Z.to_pos D)) =
  (if sign then - round_mag mode sign v D else round_mag mode sign v D).
Proof.
  intros Hm Hv HD. set (p := Z.to_pos D). assert (Zpos p = D) as Ep by (apply Z2Pos.id; lia).
  assert (v = 0 -> round_mag mode sign v D = 0) as H0.
  { intros ->. unfold round_mag. rewrite Z.div_0_l, Z.mod_0_l by lia. destruct mode, sign; try done; unfold rounds_up;
    by rewrite (proj2 (Z.leb_gt D (2 * 0))) by lia. }
  unfold round_mag, rounds_up in *. destruct mode; try done; unfold round_to_int, Qceiling.
  - rewrite Qle_bool_make. destruct sign; simpl Qfloor; rewrite ?Z.opp_involutive, Ep, Z.add_0_r.
    + destruct (Z.leb_spec 0 (- v)); [|done]. assert (v = 0) as -> by lia. by rewrite Z.div_0_l by lia.
    + by rewrite (proj2 (Z.leb_le 0 v)).
  - rewrite Qle_bool_make. destruct sign; simpl Qfloor; rewrite ?Z.mul_1_l, ?Pos2Z.inj_mul, ?Ep.
    + destruct (Z.leb_spec 0 (- v)).
      * assert (v = 0) as Ev by lia. rewrite (H0 Ev), Ev. rewrite Z.div_small; lia.
      * rewrite <- div_half by done. do 2 f_equal. lia.
    + rewrite (proj2 (Z.leb_le 0 v)) by done. by rewrite <- div_half.
  - destruct sign; simpl Qfloor; rewrite ?Z.opp_involutive, Ep.
    + simpl. lia.
    + simpl negb. by rewrite div_opp.
  - destruct sign; simpl Qfloor; rewrite ?Z.opp_involutive, Ep; simpl.
    + rewrite <- div_opp by done. lia.
    + lia.
Qed.

Lemma round_to_int_Z mode n : round_to_int mode (inject_Z n) = n.
Proof.
  unfold round_to_int. cbv zeta. rewrite Qfloor_Z, Qceiling_Z. destruct mode.
  - by destruct (Qle_bool _ _).
  - assert (inject_Z n - inject_Z n == 0)%Q as E by ring.
    by rewrite (Qcompare_comp _ _ E (1 # 2) (1 # 2) (Qeq_refl _)).
  - unfold Qceiling, Qle_bool. simpl. rewrite !Z.mul_1_r.
    destruct (Z.leb_spec 0 n); Z.to_euclidean_division_equations; lia.
  - done.
  - done.
Qed.

(** The value of a decimal whose last word has the weight [10 ^ - (9 * k)]. *)
Lemma dec_Q_shift d n s k : dec_wf d -> ROUND_UP (d_frac d) = k -> 0 <= 9 * k - s ->
  dec_sval d = n * 10 ^ (9 * k - s) -> (dec_Q d == inject_Z n * Q10 (- s))%Q.
Proof.
  intros Hd Hk Hs E. rewrite dec_Q_pow, E, Hk, inject_Z_mult, <- Q10_Z, <- Qmult_assoc, <- Q10_add by done.
  by replace (9 * k - s + - (9 * k)) with (- s) by lia.
Qed.

(** No digit is dropped. *)
Lemma round_Q_exact d scale mode : dec_wf d -> d_frac d <= scale -> (round_Q mode (dec_Q d) scale == dec_Q d)%Q.
Proof.
  intros Hd Hs. pose proof (wf_frac d Hd). pose proof (ROUND_UP_bounds (d_frac d) (wf_frac d Hd)).
  destruct (wf_aligned d Hd) as [q Eq]. set (n := sgn d * q).
  assert (dec_Q d == inject_Z n * Q10 (- d_frac d))%Q as E.
  { apply (dec_Q_shift d n (d_frac d) (ROUND_UP (d_frac d))); [done|done|lia|].
    unfold dec_sval, n, sgn. rewrite Eq. destruct (d_sign d); ring. }
  assert (dec_Q d * Q10 scale == inject_Z (n * 10 ^ (scale - d_frac d)))%Q as E'.
  { rewrite inject_Z_mult, <- Q10_Z, E, <- Qmult_assoc, <- Q10_add by lia.
    by replace (- d_frac d + scale) with (scale - d_frac d) by lia. }
  unfold round_Q. rewrite E', round_to_int_Z, <- E', <- Qmult_assoc, <- Q10_add, Z.add_opp_diag_r.
  apply Qmult_1_r.
Qed.

(** Digits are dropped. *)
Lemma round_Q_drop d scale mode : dec_wf d -> mode <> HALF_EVEN -> scale <= 9 * ROUND_UP (d_frac d) ->
  (round_Q mode (dec_Q d) scale ==
   inject_Z (sgn d * round_mag mode (d_sign d) (dec_val d) (10 ^ (9 * ROUND_UP (d_frac d) - scale))) * Q10 (- scale))%Q.
Proof.
  intros Hd Hm Hs. set (e := 9 * ROUND_UP (d_frac d) - scale). unfold round_Q.
  assert (dec_Q d * Q10 scale == Qmake (dec_sval d) (Z.to_pos (10 ^ e)))%Q as ->.
  { rewrite <- Q10_div, dec_Q_pow, <- Qmult_assoc, <- Q10_add by (done || lia).
    by replace (- (9 * ROUND_UP (d_frac d)) + scale) with (- e) by lia. }
  unfold dec_sval. rewrite round_to_int_mag; [|done|by apply dec_val_nonneg|apply Z.pow_pos_nonneg; lia].
  apply Qmult_comp; [|done]. unfold sgn. destruct (d_sign d); apply inject_Z_injective; lia.
Qed.

(** The result of [decimal_round] for a decimal that loses digits. *)
Lemma round_result_Q from scale mode to' : dec_wf from -> scale < d_frac from -> mode <> HALF_EVEN ->
  round_result from scale mode to' ->
  dec_wf to' /\ d_len to' = d_len from /\ d_frac to' <= Z.max scale 0 /\ (dec_nz from -> dec_nz to') /\
  (dec_Q to' == round_Q mode (dec_Q from) scale)%Q.
Proof.
  intros Hf Hs Hm (W & L & S & F & V & _). destruct (round_frac0 scale) as (H1 & H2 & _).
  pose proof (ROUND_UP_bounds (d_frac from) (wf_frac from Hf)).
  rewrite round_Q_drop by (done || lia). set (R := round_mag _ _ _ _) in *. clearbody R.
  assert (0 <= 9 * ROUND_UP (Z.max scale 0) - scale) as He by lia. rewrite H2 in V.
  split_and!; try done; [lia| |].
  - intros _. unfold dec_nz. rewrite S, V. destruct (Z.eqb_spec R 0) as [ER|HR]; [done|]. intros _.
    assert (0 < 10 ^ (9 * ROUND_UP (Z.max scale 0) - scale)) by (apply Z.pow_pos_nonneg; lia). nia.
  - apply (dec_Q_shift to' _ scale (ROUND_UP (Z.max scale 0))); [done|by rewrite F|done|].
    unfold dec_sval, sgn. rewrite S, V. destruct (Z.eqb_spec R 0) as [ER|_]; [rewrite ER; by destruct (d_sign from)|].
    destruct (d_sign from); ring.
Qed.

(** ** The cases of [decimal_round] *)

(** Zeroes stored behind [A]. *)
Lemma store_after A X n k : Z.of_nat (length A) + k = n -> 0 <= k -> n <= Z.of_nat (length (A ++ X)) ->
  store_down (A ++ X) n (replicate (Z.to_nat k) 0) = Some (A ++ replicate (Z.to_nat k) 0 ++ drop (Z.to_nat k) X).
Proof.
  intros <- Hk Hn. unfold store_down. rewrite length_replicate.
  rewrite (proj2 (Z.leb_le _ _)), (proj2 (Z.leb_le _ _)) by lia. simpl andb. cbv iota.
  rewrite take_app_length' by lia. rewrite drop_app_ge by lia. do 4 f_equal. lia.
Qed.

(** The copy of the operand, or the operand itself. *)
Definition round_copied (from to : decimal_t) : Prop :=
  (exists rest, d_buf to = dec_words from ++ rest) /\ d_len to = Z.of_nat (length (d_buf to)) /\
  d_len to = d_len from /\ d_sign to = d_sign from /\ d_intg from <= d_intg to /\
  ROUND_UP (d_intg to) = ROUND_UP (d_intg from).

Lemma round_copy from to n : dec_wf from ->
  match to with Some t => dec_room t /\ d_len t = d_len from | None => True end ->
  ROUND_UP (d_intg from) + ROUND_UP (d_frac from) <= n <= d_len from ->
  exists to1, match to with
              | None => Some from
              | Some to =>
                  ws ← words (d_buf from) 0 n;
                  buf ← store_down (d_buf to) n ws;
                  Some (mk_decimal (Z.min (ROUND_UP (d_intg from)) (d_len from) * DIG_PER_DEC1) (d_frac to)
                          (d_len from) (d_sign from) buf)
              end = Some to1 /\ round_copied from to1.
Proof.
  intros Hf Hto Hn. pose proof (wf_intg_words from Hf). pose proof (wf_frac_words from Hf).
  destruct (wf_room from Hf) as [Hl Hb]. destruct to as [t|].
  - destruct Hto as [[_ Ht] Htl]. rewrite words_slice by lia. cbn [mbind option_bind]. rewrite Z.sub_0_r.
    change (drop (Z.to_nat 0) (d_buf from)) with (d_buf from).
    destruct (store_down_spec (d_buf t) n (take (Z.to_nat n) (d_buf from))) as (b & -> & Lb & Tb);
      [rewrite length_take; lia|lia|].
    cbn [mbind option_bind]. eexists. split; [done|]. unfold round_copied. simpl.
    pose proof (wf_fit from Hf). rewrite Z.min_l by lia. unfold DIG_PER_DEC1.
    pose proof (ROUND_UP_bounds (d_intg from) (wf_intg from Hf)).
    split_and!; try done; try lia; [|by rewrite ROUND_UP_mul9].
    rewrite length_take, Nat.min_l, Nat.sub_diag, take_0 in Tb by lia. simpl in Tb.
    exists (drop (length (dec_words from)) b). rewrite <- (take_drop (length (dec_words from)) b) at 1. f_equal.
    pose proof (dec_words_length from Hf) as L. rewrite <- (firstn_skipn (Z.to_nat n) b), Tb.
    rewrite take_app_le by (rewrite length_take; lia). rewrite take_take, Nat.min_l by lia.
    replace (length (dec_words from)) with (Z.to_nat (ROUND_UP (d_intg from) + ROUND_UP (d_frac from))) by lia. done.
  - exists from. split; [done|]. split_and!; try done. exists (drop (length (dec_words from)) (d_buf from)).
    apply dec_buf_words.
Qed.

(** More digits after the point. *)
Lemma round_extend from to1 rest scale : dec_wf from -> round_copied from to1 -> d_frac from <= scale ->
  Z.of_nat (length (dec_words from ++ replicate (Z.to_nat (ROUND_UP scale - ROUND_UP (d_frac from))) 0 ++ rest)) = d_len from ->
  let to' := mk_decimal (d_intg to1) scale (d_len from) (d_sign to1)
               (dec_words from ++ replicate (Z.to_nat (ROUND_UP scale - ROUND_UP (d_frac from))) 0 ++ rest) in
  dec_wf to' /\ (dec_nz from -> dec_nz to') /\ (dec_Q to' == dec_Q from)%Q.
Proof.
  intros Hf (_ & _ & _ & Hs & Hi & Hi0) Hsc Hl to'. set (z := ROUND_UP scale - ROUND_UP (d_frac from)) in *.
  pose proof (wf_frac from Hf). pose proof (wf_intg from Hf). pose proof (wf_some from Hf).
  assert (0 <= z) as Hz.
  { unfold z. rewrite !ROUND_UP_nonneg by lia. pose proof (Z.div_le_mono (d_frac from + 8) (scale + 8) 9). lia. }
  pose proof (ROUND_UP_bounds scale ltac:(lia)). pose proof (ROUND_UP_bounds (d_frac from) ltac:(lia)).
  assert (dval (dec_words from ++ replicate (Z.to_nat z) 0) = dec_val from * DIG_BASE ^ z) as EV.
  { rewrite dval_app, dval_zeroes, length_replicate, Z2Nat.id by done. unfold dec_val. lia. }
  rewrite app_assoc in Hl. unfold to'. rewrite app_assoc.
  destruct (mk_decimal_wf (d_intg to1) scale (d_len from) (d_sign to1) (dec_words from ++ replicate (Z.to_nat z) 0) rest)
    as [W E]; try lia.
  - rewrite length_app, length_replicate, Hi0. pose proof (dec_words_length from Hf). lia.
  - apply Forall_app. split; [apply Hf|apply word_ok_zeroes].
  - rewrite EV, DIG_BASE_pow by done. apply Z.lt_le_trans with (10 ^ (d_intg from + 9 * ROUND_UP (d_frac from)) * 10 ^ (9 * z)).
    + apply Z.mul_lt_mono_pos_r; [apply Z.pow_pos_nonneg; lia|apply Hf].
    + rewrite <- Z.pow_add_r by lia. apply Z.pow_le_mono_r; lia.
  - rewrite EV, DIG_BASE_pow by done. destruct (wf_aligned from Hf) as [q ->]. exists (q * 10 ^ (scale - d_frac from)).
    rewrite <- !Z.mul_assoc. f_equal. rewrite <- !Z.pow_add_r by lia. f_equal. lia.
  - split_and!; [done| |].
    + unfold dec_nz. rewrite E, EV. simpl. rewrite Hs. intros Hn Ht. specialize (Hn Ht).
      pose proof (DIG_BASE_pow_pos z Hz). nia.
    + rewrite !dec_Q_pow by done. unfold dec_sval. rewrite E, EV. simpl. rewrite Hs.
      replace (if d_sign from then - (dec_val from * DIG_BASE ^ z) else dec_val from * DIG_BASE ^ z)
        with (dec_sval from * 10 ^ (9 * z)) by (rewrite DIG_BASE_pow by done; unfold dec_sval; destruct (d_sign from); ring).
      rewrite inject_Z_mult, <- Q10_Z, <- Qmult_assoc, <- Q10_add by lia. fold (dec_sval from).
      by replace (9 * z + - (9 * ROUND_UP scale)) with (- (9 * ROUND_UP (d_frac from))) by lia.
Qed.

(** All digits are to be dropped, and the first one as well. *)
Lemma round_Q_zero d scale mode : dec_wf d -> scale + d_intg d < 0 ->
  mode_ok mode ((0 <=? scale) && (scale mod 9 =? 0)) = true -> (round_Q mode (dec_Q d) scale == 0)%Q.
Proof.
  intros Hd Hs Hm. pose proof (wf_intg d Hd). pose proof (wf_frac_words d Hd).
  rewrite (proj2 (Z.leb_gt 0 scale)) in Hm by lia. simpl in Hm.
  assert (mode <> HALF_EVEN) as Hne by by destruct mode. rewrite round_Q_drop by (done || lia).
  assert (round_mag mode (d_sign d) (dec_val d) (10 ^ (9 * ROUND_UP (d_frac d) - scale)) = 0) as ->.
  { pose proof (dec_val_nonneg d Hd). pose proof (wf_top d Hd) as Ht.
    assert (10 * 10 ^ (d_intg d + 9 * ROUND_UP (d_frac d)) <= 10 ^ (9 * ROUND_UP (d_frac d) - scale)).
    { rewrite <- Z.pow_succ_r by lia. apply Z.pow_le_mono_r; lia. }
    unfold round_mag. rewrite Z.div_small, Z.mod_small by lia.
    destruct mode; try done. simpl. rewrite (proj2 (Z.leb_gt _ _)) by lia. done. }
  rewrite Z.mul_0_r. apply Qmult_0_l.
Qed.

(** [decimal_round] after the sizes are known to fit. *)
Lemma decimal_round_unfold from to scale mode to1 : 
  let frac0 := if 0 <? scale then ROUND_UP scale else Z.quot (scale + 1) 9 in
  dec_wf from -> d_len (default from to) = d_len from -> ROUND_UP (d_intg from) + frac0 <= d_len from ->
  0 <= scale + d_intg from ->
  match to with
  | None => Some from
  | Some to =>
      ws ← words (d_buf from) 0 (ROUND_UP (d_intg from) + Z.max (ROUND_UP (d_frac from)) frac0);
      buf ← store_down (d_buf to) (ROUND_UP (d_intg from) + Z.max (ROUND_UP (d_frac from)) frac0) ws;
      Some (mk_decimal (Z.min (ROUND_UP (d_intg from)) (d_len from) * DIG_PER_DEC1) (d_frac to)
              (d_len from) (d_sign from) buf)
  end = Some to1 -> d_len to1 = d_len from ->
  decimal_round from to scale mode =
    if ROUND_UP (d_frac from) <? frac0 then
      buf ← store_down (d_buf to1) (ROUND_UP (d_intg from) + frac0)
              (replicate (Z.to_nat (frac0 - ROUND_UP (d_frac from))) 0);
      Some (mk_decimal (d_intg to1) scale (d_len from) (d_sign to1) buf, E_DEC_OK)
    else if d_frac from <=? scale
    then Some (mk_decimal (d_intg to1) scale (d_len from) (d_sign to1) (d_buf to1), E_DEC_OK)
    else round_rest from scale mode to1.
Proof.
  intros frac0 Hf Hl Hr Hs E L1. unfold decimal_round, DIG_PER_DEC1 in *. rewrite Hl.
  fold frac0. rewrite (proj2 (Z.ltb_ge (d_len from) _)) by lia. rewrite (proj2 (Z.ltb_ge (scale + _) 0)) by lia.
  rewrite E. cbn [mbind option_bind]. unfold round_rest. fold frac0. by rewrite L1.
Qed.

(** Room for the result: one word more than the digits that stay, or as many, when
    there are digits before the point and the rounded number needs no word more for
    them. *)
Definition round_room (from : decimal_t) (scale : Z) (mode : decimal_round_mode) : Prop :=
  let words := ROUND_UP (d_intg from) + ROUND_UP (Z.max scale 0) in
  words < d_len from \/
  (words = d_len from /\ 0 < d_intg from /\
   (Qabs (round_Q mode (dec_Q from) scale) < Q10 (9 * ROUND_UP (d_intg from)))%Q).

Lemma round_room_mag from scale mode : dec_wf from -> mode <> HALF_EVEN -> scale < d_frac from -> 0 <= scale + d_intg from ->
  (Qabs (round_Q mode (dec_Q from) scale) < Q10 (9 * ROUND_UP (d_intg from)))%Q ->
  round_mag mode (d_sign from) (dec_val from) (10 ^ (9 * ROUND_UP (d_frac from) - scale)) <
  10 ^ (9 * ROUND_UP (d_intg from) + scale).
Proof.
  intros Hd Hm Hs Hi. pose proof (ROUND_UP_bounds (d_frac from) (wf_frac from Hd)).
  pose proof (ROUND_UP_bounds (d_intg from) (wf_intg from Hd)).
  rewrite round_Q_drop by (done || lia). set (R := round_mag _ _ _ _).
  assert (0 <= R) as HR.
  { unfold R, round_mag. pose proof (dec_val_nonneg from Hd).
    pose proof (Z.div_pos (dec_val from) (10 ^ (9 * ROUND_UP (d_frac from) - scale))).
    pose proof (Z.pow_pos_nonneg 10 (9 * ROUND_UP (d_frac from) - scale)). destruct (rounds_up _ _ _ _); simpl; lia. }
  assert (0 < Q10 scale)%Q as P by (apply Qpower_0_lt; done).
  assert (0 < Q10 (- scale))%Q as N by (apply Qpower_0_lt; done).
  rewrite Qabs_Qmult, (Qabs_pos (Q10 _)) by (by apply Qlt_le_weak).
  replace (Qabs (inject_Z (sgn from * R))) with (inject_Z R).
  2:{ unfold inject_Z, Qabs, sgn. f_equal. destruct (d_sign from); lia. }
  intros Hlt. apply (Qmult_lt_compat_r _ _ _ P) in Hlt.
  rewrite <- Qmult_assoc, <- !Q10_add, Z.add_opp_diag_l, Qmult_1_r, Q10_Z in Hlt by lia.
  by rewrite <- Zlt_Qlt in Hlt.
Qed.

(** ** Claims *)

(** Rounding, in place or into a separate decimal. *)
Lemma decimal_round_spec from to scale mode (Hfrom : dec_wf from)
  (Hto : match to with Some t => dec_room t /\ d_len t = d_len from | None => True end)
  (Hroom : round_room from scale mode)
  (Hmode : mode_ok mode ((0 <=? scale) && (scale mod 9 =? 0)) = true) :
  exists to', decimal_round from to scale mode = Some (to', E_DEC_OK) /\
    dec_wf to' /\ d_len to' = d_len from /\ d_frac to' <= Z.max scale 0 /\ (dec_nz from -> dec_nz to') /\
    (dec_Q to' == round_Q mode (dec_Q from) scale)%Q.
Proof.
  destruct (round_frac0 scale) as (H1 & H2 & H3 & H4). cbv zeta in H4.
  set (frac0 := if 0 <? scale then ROUND_UP scale else Z.quot (scale + 1) 9) in *.
  assert (d_len (default from to) = d_len from) as Hl by (by destruct to as [t|]; [destruct Hto|]).
  pose proof (wf_fit from Hfrom). pose proof (wf_intg_words from Hfrom). pose proof (wf_frac_words from Hfrom).
  assert (mode <> HALF_EVEN) as Hne by by destruct mode.
  assert (ROUND_UP (d_intg from) + ROUND_UP (Z.max scale 0) <= d_len from) as Hle by (destruct Hroom as [|[]]; lia).
  destruct (Z.lt_ge_cases (scale + d_intg from) 0) as [Hs|Hs].
  - destruct (decimal_make_zero_spec (default from to)) as (to' & E & W & L & S & F & V).
    { destruct to as [t|]; [apply Hto|apply Hfrom]. }
    exists to'. split_and!; try done; [| |lia| |].
    + unfold decimal_round. rewrite Hl. unfold DIG_PER_DEC1. fold frac0.
      rewrite (proj2 (Z.ltb_ge (d_len from) _)), (proj2 (Z.ltb_lt _ 0)) by lia. by rewrite E.
    + by rewrite L.
    + unfold dec_nz. by rewrite S.
    + rewrite round_Q_zero by done. by apply dec_Q_zero.
  - destruct (round_copy from to (ROUND_UP (d_intg from) + Z.max (ROUND_UP (d_frac from)) frac0) Hfrom Hto)
      as (to1 & E1 & Hc); [lia|]. pose proof Hc as ((rest & Eb) & Lb & Ll & Hsg & Hi & Hi0).
    rewrite (decimal_round_unfold from to scale mode to1) by (done || (fold frac0; lia)). fold frac0.
    assert (Lw := dec_words_length from Hfrom). rewrite Eb, length_app in Lb.
    destruct (Z.ltb_spec (ROUND_UP (d_frac from)) frac0) as [Hfr|Hfr].
    + assert (frac0 = ROUND_UP scale /\ d_frac from <= scale) as [Ef Hsc].
      { destruct (Z.le_gt_cases scale 0) as [Hz|Hz].
        { rewrite (Z.max_r scale) in H2 by done. change (ROUND_UP 0) with 0 in H2. lia. }
        rewrite (Z.max_l scale) in H2 by lia. pose proof (ROUND_UP_mono scale (d_frac from)). lia. }
      rewrite Ef, Eb, store_after by (rewrite ?length_app; lia). cbn [mbind option_bind].
      destruct (round_extend from to1 (drop (Z.to_nat (ROUND_UP scale - ROUND_UP (d_frac from))) rest) scale Hfrom Hc Hsc)
        as (W & N & Q).
      { rewrite !length_app, length_replicate, length_drop. lia. }
      eexists. split; [done|]. split_and!; try done; [simpl; lia|]. by rewrite round_Q_exact.
    + destruct (Z.leb_spec (d_frac from) scale) as [Hsc|Hsc].
      * assert (ROUND_UP scale - ROUND_UP (d_frac from) = 0) as E0.
        { pose proof (wf_frac from Hfrom). rewrite (Z.max_l scale) in H2 by lia.
          pose proof (ROUND_UP_mono (d_frac from) scale). lia. }
        destruct (round_extend from to1 rest scale Hfrom Hc Hsc) as (W & N & Q); rewrite E0 in *; simpl replicate in *.
        { rewrite !length_app. simpl. lia. }
        simpl app in *. rewrite Eb. eexists. split; [done|]. split_and!; try done; [simpl; lia|]. by rewrite round_Q_exact.
      * destruct (round_rest_spec from scale mode) with (to := to1) (rest := rest) as (to' & -> & Hr); try done.
        { destruct Hroom as [Hr|(Hr & Hp & Hlt)]; [by left|right]. split; [|by apply round_room_mag].
          pose proof (ROUND_UP_bounds (d_intg from)). lia. }
        { by rewrite Lb, Eb, length_app. }
        exists to'. split; [done|]. by apply round_result_Q.
Qed.

(** C10: Rounding gives the rational number rounded to [scale] digits, in place or
    in a separate decimal of the same length, for every scale, negative ones
    included: towards zero and half up at every scale, up and down where the scale
    is at the boundary of a word, a multiple of nine that is not negative, as it is
    for integers.  [HALF_EVEN] is left out.  There has to be room for the result, as
    [round_room] says. *)
Theorem decimal_round_correct from to scale mode (Hfrom : dec_wf from)
  (Hto : match to with Some t => dec_room t /\ d_len t = d_len from | None => True end)
  (Hroom : round_room from scale mode)
  (Hmode : mode_ok mode ((0 <=? scale) && (scale mod 9 =? 0)) = true) :
  exists to', decimal_round from to scale mode = Some (to', E_DEC_OK) /\
    dec_wf to' /\ d_len to' = d_len from /\ d_frac to' <= Z.max scale 0 /\ (dec_nz from -> dec_nz to') /\
    (dec_Q to' == round_Q mode (dec_Q from) scale)%Q.
Proof. by apply decimal_round_spec. Qed.

(** 999.95, in an array without a word to spare *)
Definition ex_round : decimal_t := mk_decimal 3 2 2 false [999; 950000000].

Lemma decimal_round_correct_witness :
  exists to', decimal_round ex_round None 1 HALF_UP = Some (to', E_DEC_OK) /\ (dec_Q to' == inject_Z 1000)%Q.
Proof.
  destruct (decimal_round_correct ex_round None 1 HALF_UP) as (to' & E & _ & _ & _ & _ & Q).
  { by apply dec_wfb_wf. }
  { done. }
  { right. split; [done|]. split; [done|]. vm_compute. reflexivity. }
  { done. }
  exists to'. split; [exact E|]. rewrite Q. vm_compute. reflexivity.
Defined.

(** Where [decimal_round] does not do what its modes say.  The first digit
    that is dropped decides alone: [CEILING] of 1.201 to one digit is 1.2, and
    [HALF_EVEN] of 0.251 to one digit is 0.2, although 0.251 is no tie.  And a
    number below one that fills its array and is rounded to zero makes the code
    write one word more than the array has, for the digit before the point. *)
Theorem decimal_round_defects :
  (exists to', decimal_round (mk_decimal 1 3 2 false [1; 201000000]) None 1 CEILING = Some (to', E_DEC_OK) /\
     (dec_Q to' == 12 # 10)%Q /\ (round_Q CEILING (1201 # 1000) 1 == 13 # 10)%Q) /\
  (exists to', decimal_round (mk_decimal 1 3 2 false [0; 251000000]) None 1 HALF_EVEN = Some (to', E_DEC_OK) /\
     (dec_Q to' == 2 # 10)%Q /\ (round_Q HALF_EVEN (251 # 1000) 1 == 3 # 10)%Q) /\
  dec_wf (mk_decimal 0 9 1 false [5]) /\ decimal_round (mk_decimal 0 9 1 false [5]) None 8 TRUNCATE = None.
Proof. split_and!; [by eexists|by eexists|by apply dec_wfb_wf|done]. Qed.
