(* ===== verification/DecimalText.v ===== *)
(** * Fixed-point decimals: printing

    [decimal2string] of [strings/decimal.c].  A text buffer is a list of byte
    values; what the code writes to it is put in place in the order of the code,
    and [None] is a write outside of the buffer. *)

From Stdlib Require Import ZArith Lia.
From stdpp Require Import base numbers option tactics list.
From S2P Require Import Prelude NumText Bytes Decimal DecimalDigits.

#[local] Open Scope Z_scope.

Definition POINT : Z := 46.

(** Bytes written from index [pos] on. *)
Definition put (to : list Z) (pos : Z) (chars : list Z) : option (list Z) :=
  store_down to (pos + Z.of_nat (length chars)) chars.

(** [n] digits of a word from its first one on. *)
Fixpoint word_chars (n : nat) (x : Z) : list Z :=
  match n with
  | O => []
  | S n =>
      let y := Z.quot x DIG_MASK in
      (ZERO + uchar y) :: word_chars n (wraps 32 (wraps 32 (x - y * DIG_MASK) * 10))
  end.

(** [for (; frac>0; frac-=DIG_PER_DEC1)]: the digits after the point. *)
Fixpoint frac_chars (frac : Z) (ws : list Z) : option (list Z) :=
  if 0 <? frac then
    match ws with
    | [] => None
    | x :: ws =>
        rest ← frac_chars (frac - DIG_PER_DEC1) ws;
        Some (word_chars (Z.to_nat (Z.min frac DIG_PER_DEC1)) x ++ rest)
    end
  else Some [].

(** The last [n] digits of a word, stored downwards. *)
Fixpoint word_chars_down (n : nat) (x : Z) (acc : list Z) : list Z :=
  match n with
  | O => acc
  | S n => let y := Z.quot x 10 in word_chars_down n y (ZERO + uchar (x - y * 10) :: acc)
  end.

(** [for (buf=buf0+ROUND_UP(intg); intg>0; intg-=DIG_PER_DEC1)], down the words. *)
Fixpoint int_chars (intg : Z) (r : list Z) (acc : list Z) : option (list Z) :=
  if 0 <? intg then
    match r with
    | [] => None
    | x :: r => int_chars (intg - DIG_PER_DEC1) r (word_chars_down (Z.to_nat (Z.min intg DIG_PER_DEC1)) x acc)
    end
  else Some acc.

(** How the digits are laid out: the digits that are printed before and after the
    point and the widths they are printed in. *)
Record layout := mk_layout { l_intg : Z; l_frac : Z; l_intg_len : Z; l_frac_len : Z; l_error : Z }.

(** [MY_TEST(frac)] *)
Definition point_len (frac : Z) : Z := if frac =? 0 then 0 else 1.

Definition string_layout (sign intg frac to_len fixed_precision fixed_decimals : Z) : layout :=
  let fixed := negb (fixed_precision =? 0) in
  let fixed_intg := if fixed then fixed_precision - fixed_decimals else 0 in
  let intg_len := if fixed then fixed_intg else intg in
  let intg_len := if intg_len =? 0 then 1 else intg_len in
  let frac_len := if fixed then fixed_decimals else frac in
  let len := sign + intg_len + point_len frac + frac_len in
  if fixed then
    let '(frac, error) := if fixed_decimals <? frac then (fixed_decimals, E_DEC_TRUNCATED) else (frac, E_DEC_OK) in
    let '(intg, error) := if fixed_intg <? intg then (fixed_intg, E_DEC_OVERFLOW) else (intg, error) in
    mk_layout intg frac intg_len frac_len error
  else if to_len - 1 <? len then
    let j := len - (to_len - 1) in
    let error := if negb (frac =? 0) && (j <=? frac + 1) then E_DEC_TRUNCATED else E_DEC_OVERFLOW in
    let j := if negb (frac =? 0) && (frac + 1 <=? j) then j - 1 else j in
    if frac <? j then mk_layout (intg - (j - frac)) 0 (intg - (j - frac)) 0 error
    else mk_layout intg (frac - j) intg_len (frac - j) error
  else mk_layout intg frac intg_len frac_len E_DEC_OK.

(** The length in the fixed format counts the point of the original fraction. *)
Definition string_length (sign frac0 fixed_precision : Z) (l : layout) : Z :=
  sign + l_intg_len l + point_len (if fixed_precision =? 0 then l_frac l else frac0) + l_frac_len l.

(** The text of the number at [words] from [buf0] on. *)
Definition put_number (to ws : list Z) (buf0 s : Z) (l : layout) (filler : Z) : option (list Z) :=
  let start := buf0 + ROUND_UP (l_intg l) in
  to ← (if l_frac l =? 0 then Some to
        else
          fw ← words ws start (start + ROUND_UP (l_frac l));
          chars ← frac_chars (l_frac l) fw;
          put to (s + l_intg_len l) (POINT :: chars ++ replicate (Z.to_nat (l_frac_len l - l_frac l)) filler));
  let fill := l_intg_len l - l_intg l in
  let fill := if l_intg l =? 0 then fill - 1 else fill in
  to ← put to s (replicate (Z.to_nat fill) filler);
  let s := s + Z.max fill 0 in
  if negb (l_intg l =? 0) then
    iw ← words ws buf0 start;
    chars ← int_chars (l_intg l) (rev iw) [];
    put to s chars
  else put to s [ZERO].

(** The buffer, the length of the text and the error. *)
Definition decimal2string (from : decimal_t) (to : list Z) (to_len fixed_precision fixed_decimals filler : Z)
  : option (list Z * Z * Z) :=
  '(buf0, intg) ← remove_leading_zeroes from;
  let '(ws, buf0, intg) := if intg + d_frac from =? 0 then ([0], 0, 1) else (d_buf from, buf0, intg) in
  let sign := if d_sign from then 1 else 0 in
  let l := string_layout sign intg (d_frac from) to_len fixed_precision fixed_decimals in
  let len := string_length sign (d_frac from) fixed_precision l in
  to ← put to len [0];
  to ← (if d_sign from then put to 0 [MINUS] else Some to);
  to ← put_number to ws buf0 sign l filler;
  Some (to, len, l_error l).

Definition decimal_string_size (d : decimal_t) : Z :=
  (if d_intg d =? 0 then 1 else d_intg d) + d_frac d + (if 0 <? d_frac d then 1 else 0) + 2.

(** ** The digits that are written *)

Definition digit_text (ds : list Z) : list Z := map (Z.add ZERO) ds.

Lemma digit_text_app ds1 ds2 : digit_text (ds1 ++ ds2) = digit_text ds1 ++ digit_text ds2.
Proof. apply map_app. Qed.

Lemma digit_text_length ds : length (digit_text ds) = length ds.
Proof. apply length_map. Qed.

Lemma uchar_digit y : 0 <= y < 10 -> uchar y = y.
Proof. intros H. apply Z.mod_small. lia. Qed.

Lemma word_chars_spec n x : (n <= 9)%nat -> word_ok x ->
  word_chars n x = digit_text (fixed_digits n (x / 10 ^ (9 - Z.of_nat n))).
Proof.
  revert x. induction n as [|n IH]; intros x Hn Hx; [done|]. cbn [word_chars]. unfold word_ok, DIG_BASE in Hx.
  rewrite Z.quot_div_nonneg by (unfold DIG_MASK; lia).
  assert (x - x / DIG_MASK * DIG_MASK = x mod DIG_MASK) as -> by (rewrite Z.mod_eq by done; lia).
  pose proof (Z.mod_pos_bound x DIG_MASK ltac:(done)) as Hm.
  assert (0 <= x / DIG_MASK < 10) as Hd.
  { split; [apply Z.div_pos; unfold DIG_MASK; lia|apply Z.div_lt_upper_bound; unfold DIG_MASK; lia]. }
  rewrite uchar_digit by done. rewrite (wraps_id 32 (x mod DIG_MASK)) by (unfold in_s, DIG_MASK in *; lia).
  rewrite (wraps_id 32) by (unfold in_s, DIG_MASK in *; lia).
  rewrite IH by (unfold word_ok, DIG_BASE, DIG_MASK in *; lia).
  change (S n) with (1 + n)%nat. rewrite fixed_digits_app, digit_text_app by (apply Z.div_pos; [lia|apply Z.pow_pos_nonneg; lia]).
  assert (10 ^ (9 - Z.of_nat n) = 10 ^ (9 - Z.of_nat (1 + n)) * 10) as E1.
  { rewrite <- (Z.pow_1_r 10) at 3. rewrite <- Z.pow_add_r by lia. f_equal. lia. }
  assert (DIG_MASK = 10 ^ Z.of_nat n * 10 ^ (9 - Z.of_nat (1 + n))) as E2.
  { rewrite <- Z.pow_add_r by lia. by replace (Z.of_nat n + (9 - Z.of_nat (1 + n))) with 8 by lia. }
  assert (0 < 10 ^ (9 - Z.of_nat (1 + n))) as HP by (apply Z.pow_pos_nonneg; lia).
  assert (0 < 10 ^ Z.of_nat n) as HN by (apply Z.pow_pos_nonneg; lia).
  set (P := 10 ^ (9 - Z.of_nat (1 + n))) in *. set (N := 10 ^ Z.of_nat n) in *.
  rewrite E1, Z.div_mul_cancel_r by lia. rewrite Z.div_div, (Z.mul_comm P N), <- E2 by lia.
  cbn [fixed_digits digit_text map app]. rewrite (Z.mod_small (x / DIG_MASK) 10) by done. f_equal. f_equal.
  assert (x / P = x mod DIG_MASK / P + x / DIG_MASK * N) as ->.
  { rewrite <- Z.div_add by lia. f_equal. rewrite <- Z.mul_assoc, <- E2, Z.mod_eq by done. lia. }
  symmetry. apply fixed_digits_mod.
Qed.

Lemma frac_chars_done frac ws : frac <= 0 -> frac_chars frac ws = Some [].
Proof. intros H. destruct ws; simpl; by rewrite (proj2 (Z.ltb_ge _ _)). Qed.

Lemma frac_chars_spec ws frac : Forall word_ok ws -> 0 <= frac -> Z.of_nat (length ws) = ROUND_UP frac ->
  frac_chars frac ws = Some (digit_text (fixed_digits (Z.to_nat frac) (dval ws / 10 ^ (9 * Z.of_nat (length ws) - frac)))).
Proof.
  revert frac. induction ws as [|x ws IH]; intros frac F Hf L; pose proof (ROUND_UP_bounds frac Hf); simpl length in *.
  - rewrite frac_chars_done by lia. by replace frac with 0 by lia.
  - apply Forall_cons in F as [Hx F]. cbn [frac_chars]. rewrite (proj2 (Z.ltb_lt 0 frac)) by lia. unfold DIG_PER_DEC1.
    rewrite dval_cons, DIG_BASE_pow by lia. pose proof (dval_bounds ws F) as Bw. rewrite DIG_BASE_pow in Bw by lia.
    destruct (Z.le_gt_cases frac 9) as [Hs|Hs].
    + assert (ws = []) as -> by (destruct ws; [done|simpl in *; lia]).
      rewrite frac_chars_done by lia. cbn [mbind option_bind]. rewrite Z.min_l, app_nil_r by lia.
      rewrite word_chars_spec by (done || lia). rewrite dval_nil, Z2Nat.id by lia. simpl length.
      change (10 ^ (9 * Z.of_nat 0)) with 1. rewrite Z.mul_1_r, Z.add_0_r. done.
    + rewrite IH; [|done|lia|].
      2: { rewrite !ROUND_UP_nonneg in * by lia. Z.to_euclidean_division_equations. lia. }
      cbn [mbind option_bind]. rewrite Z.min_r by lia. rewrite word_chars_spec by (done || lia).
      change (9 - Z.of_nat (Z.to_nat 9)) with 0. rewrite Z.pow_0_r, Z.div_1_r. f_equal.
      set (e := 9 * Z.of_nat (length ws) - (frac - 9)).
      replace (9 * Z.of_nat (S (length ws)) - frac) with e by lia.
      assert (0 < 10 ^ e) as He by (apply Z.pow_pos_nonneg; lia).
      assert (0 < 10 ^ (frac - 9)) as Hp by (apply Z.pow_pos_nonneg; lia).
      assert (10 ^ (9 * Z.of_nat (length ws)) = 10 ^ (frac - 9) * 10 ^ e) as E by (rewrite <- Z.pow_add_r by lia; f_equal; lia).
      rewrite E, Z.mul_assoc, Z.div_add_l by lia. rewrite E in Bw.
      assert (0 <= dval ws / 10 ^ e < 10 ^ (frac - 9)) as Bq.
      { split; [apply Z.div_pos; lia|]. apply Z.div_lt_upper_bound; lia. }
      replace (Z.to_nat frac) with (Z.to_nat 9 + Z.to_nat (frac - 9))%nat by lia.
      unfold word_ok in Hx. rewrite fixed_digits_app, digit_text_app, Z2Nat.id by nia.
      rewrite Z.div_add_l, (Z.div_small (dval ws / 10 ^ e)), Z.add_0_r by lia. do 2 f_equal.
      rewrite Z.add_comm. rewrite <- (Z2Nat.id (frac - 9)) at 3 by lia. by rewrite fixed_digits_mod.
Qed.

Lemma word_chars_down_spec n x acc : 0 <= x -> word_chars_down n x acc = digit_text (fixed_digits n x) ++ acc.
Proof.
  revert x acc. induction n as [|n IH]; intros x acc Hx; [done|]. cbn [word_chars_down fixed_digits].
  rewrite Z.quot_div_nonneg by lia. rewrite IH by (apply Z.div_pos; lia).
  assert (x - x / 10 * 10 = x mod 10) as -> by (rewrite Z.mod_eq by lia; lia).
  rewrite uchar_digit by (apply Z.mod_pos_bound; lia). by rewrite digit_text_app, <- app_assoc.
Qed.

Lemma int_chars_spec ws intg acc : Forall word_ok ws -> 0 <= intg -> Z.of_nat (length ws) = ROUND_UP intg ->
  int_chars intg (rev ws) acc = Some (digit_text (fixed_digits (Z.to_nat intg) (dval ws)) ++ acc).
Proof.
  revert intg acc. induction ws as [|x ws IH] using rev_ind; intros intg acc F Hi L;
    pose proof (ROUND_UP_bounds intg Hi).
  - simpl in *. by replace intg with 0 by lia.
  - apply Forall_app in F as [F Hx]. apply Forall_inv in Hx. rewrite length_app in L. simpl in L.
    rewrite rev_app_distr. cbn [rev app int_chars]. rewrite (proj2 (Z.ltb_lt 0 intg)) by lia. unfold DIG_PER_DEC1.
    pose proof (dval_bounds ws F) as [Bw _]. unfold word_ok in Hx. rewrite word_chars_down_spec by lia.
    rewrite dval_snoc. destruct (Z.le_gt_cases intg 9) as [Hs|Hs].
    + assert (ws = []) as -> by (destruct ws; [done|simpl in *; lia]). rewrite Z.min_l by lia. simpl rev.
      destruct (intg - 9) eqn:E; try lia; done.
    + rewrite IH; [|done|lia|].
      2: { rewrite !ROUND_UP_nonneg in * by lia. Z.to_euclidean_division_equations. lia. }
      rewrite Z.min_r by lia. rewrite app_assoc. do 2 f_equal. rewrite <- digit_text_app. f_equal.
      replace (Z.to_nat intg) with (Z.to_nat (intg - 9) + Z.to_nat 9)%nat by lia.
      rewrite fixed_digits_app by (unfold DIG_BASE; lia). change (10 ^ Z.of_nat (Z.to_nat 9)) with DIG_BASE.
      rewrite Z.div_add_l, Z.div_small, Z.add_0_r by (unfold DIG_BASE in *; lia). f_equal.
      rewrite Z.add_comm. change DIG_BASE with (10 ^ Z.of_nat (Z.to_nat 9)). by rewrite fixed_digits_mod.
Qed.

(** ** The text of a decimal *)

(** The integer part and the digits after the point, as numbers. *)
Definition int_value (d : decimal_t) : Z := dec_val d / DIG_BASE ^ ROUND_UP (d_frac d).
Definition frac_value (d : decimal_t) : Z :=
  dec_val d mod DIG_BASE ^ ROUND_UP (d_frac d) / 10 ^ (9 * ROUND_UP (d_frac d) - d_frac d).

Definition sign_text (d : decimal_t) : list Z := if d_sign d then [MINUS] else [].
Definition int_text (d : decimal_t) : list Z := digit_text (digits 10 (int_value d)).
Definition frac_text (d : decimal_t) : list Z := digit_text (fixed_digits (Z.to_nat (d_frac d)) (frac_value d)).

(** The text with [k] digits after the point, and without the point when there are
    none. *)
Definition dec_text_cut (d : decimal_t) (k : Z) : list Z :=
  sign_text d ++ int_text d ++ (if k =? 0 then [] else POINT :: take (Z.to_nat k) (frac_text d)).

Definition dec_text (d : decimal_t) : list Z := dec_text_cut d (d_frac d).

Lemma frac_text_length d : length (frac_text d) = Z.to_nat (d_frac d).
Proof. unfold frac_text. by rewrite digit_text_length, fixed_digits_length. Qed.

Lemma dec_text_cut_length d k : 0 <= k <= d_frac d ->
  Z.of_nat (length (dec_text_cut d k)) =
  Z.of_nat (length (sign_text d)) + Z.of_nat (length (int_text d)) + point_len k + k.
Proof.
  intros Hk. unfold dec_text_cut, point_len. rewrite !length_app. destruct (Z.eqb_spec k 0) as [->|]; simpl; [lia|].
  rewrite length_take, frac_text_length. lia.
Qed.

(** The texts of the parts, from the words after [remove_leading_zeroes]. *)
Lemma view_int_text d z intg t f : dec_wf d -> digits_view d z intg t f ->
  int_text d = if intg =? 0 then [ZERO] else digit_text (fixed_digits (Z.to_nat intg) (dval t)).
Proof.
  intros Hd V. pose proof (dv_ok _ _ _ _ _ V) as F. apply Forall_app in F as [Ft Ff].
  assert (int_value d = dval t) as E.
  { unfold int_value. rewrite <- (dv_val _ _ _ _ _ V), dval_app, (dv_f _ _ _ _ _ V).
    pose proof (dval_bounds f Ff) as B. rewrite (dv_f _ _ _ _ _ V) in B. rewrite Z.div_add_l, Z.div_small by lia. lia. }
  unfold int_text. rewrite E. pose proof (dv_intg _ _ _ _ _ V) as Hi.
  destruct (Z.eqb_spec intg 0) as [->|Hn].
  - pose proof (dv_top _ _ _ _ _ V) as Ht. pose proof (dval_bounds t Ft). simpl in Ht. by replace (dval t) with 0 by lia.
  - f_equal. apply digits_fixed; [lia|]. rewrite Z2Nat.id by lia.
    split; [apply (dv_least _ _ _ _ _ V); lia|apply V].
Qed.

Lemma view_frac_text d z intg t f : dec_wf d -> digits_view d z intg t f ->
  frac_text d = digit_text (fixed_digits (Z.to_nat (d_frac d)) (dval f / 10 ^ (9 * Z.of_nat (length f) - d_frac d))).
Proof.
  intros Hd V. pose proof (dv_ok _ _ _ _ _ V) as F. apply Forall_app in F as [Ft Ff].
  unfold frac_text, frac_value. rewrite (dv_f _ _ _ _ _ V). do 3 f_equal.
  rewrite <- (dv_val _ _ _ _ _ V), dval_app, (dv_f _ _ _ _ _ V).
  pose proof (dval_bounds f Ff) as B. rewrite (dv_f _ _ _ _ _ V) in B.
  by rewrite Z.add_comm, Z_mod_plus_full, Z.mod_small by done.
Qed.

Lemma put_middle l1 m l2 pos cs : pos = Z.of_nat (length l1) -> length m = length cs ->
  put (l1 ++ m ++ l2) pos cs = Some (l1 ++ cs ++ l2).
Proof. intros -> Hl. apply store_middle; [lia|done]. Qed.

Lemma take_fixed_digits k n x : (k <= n)%nat -> 0 <= x ->
  take k (fixed_digits n x) = fixed_digits k (x / 10 ^ (Z.of_nat n - Z.of_nat k)).
Proof.
  intros Hk Hx. replace n with (k + (n - k))%nat at 1 by lia. rewrite fixed_digits_app by done.
  rewrite take_app_length' by (by rewrite fixed_digits_length). do 3 f_equal. lia.
Qed.

(** The first [k] digits after the point. *)
Lemma view_frac_chars d z intg t f k : dec_wf d -> digits_view d z intg t f -> 0 <= k <= d_frac d ->
  frac_chars k (take (Z.to_nat (ROUND_UP k)) f) = Some (take (Z.to_nat k) (frac_text d)).
Proof.
  intros Hd V Hk. pose proof (dv_ok _ _ _ _ _ V) as F. apply Forall_app in F as [Ft Ff].
  pose proof (dv_f _ _ _ _ _ V) as Lf. pose proof (ROUND_UP_mono k (d_frac d) Hk) as Hm.
  pose proof (ROUND_UP_bounds k ltac:(lia)). pose proof (ROUND_UP_bounds (d_frac d) ltac:(lia)).
  set (f1 := take (Z.to_nat (ROUND_UP k)) f). set (f2 := drop (Z.to_nat (ROUND_UP k)) f).
  assert (Z.of_nat (length f1) = ROUND_UP k) as L1 by (unfold f1; rewrite length_take; lia).
  assert (f = f1 ++ f2) as Ef by (unfold f1, f2; by rewrite take_drop).
  assert (Forall word_ok f1 /\ Forall word_ok f2) as [F1 F2] by (rewrite Ef in Ff; by apply Forall_app in Ff).
  rewrite frac_chars_spec by (done || lia). f_equal.
  rewrite (view_frac_text d z intg t f) by done. unfold digit_text. rewrite firstn_map. f_equal.
  pose proof (dval_bounds f Ff). pose proof (dval_bounds f2 F2) as B2.
  assert (Z.of_nat (length f) = Z.of_nat (length f1) + Z.of_nat (length f2)) as Ll by (rewrite Ef, length_app; lia).
  rewrite take_fixed_digits; [|lia|apply Z.div_pos; [lia|apply Z.pow_pos_nonneg; lia]].
  rewrite !Z2Nat.id by lia. rewrite Z.div_div by (try (apply Z.pow_nonzero; lia); apply Z.pow_pos_nonneg; lia).
  rewrite <- Z.pow_add_r by lia. f_equal. rewrite Ef at 1. rewrite dval_app, DIG_BASE_pow in * by lia.
  replace (9 * Z.of_nat (length f) - d_frac d + (d_frac d - k))
    with (9 * Z.of_nat (length f2) + (9 * Z.of_nat (length f1) - k)) by lia.
  rewrite Z.pow_add_r, <- Z.div_div by (try (apply Z.pow_nonzero; lia); try (apply Z.pow_pos_nonneg); lia).
  rewrite Z.div_add_l, (Z.div_small (dval f2)), Z.add_0_r; [done|lia|apply Z.pow_nonzero; lia].
Qed.

(** Printing the parts of the number in their places. *)
Lemma put_number_spec d z intg t f k error filler a0 a1 a2 rest : dec_wf d -> digits_view d z intg t f ->
  0 <= k <= d_frac d ->
  Z.of_nat (length a1) = Z.of_nat (length (int_text d)) -> Z.of_nat (length a2) = point_len k + k ->
  put_number (a0 ++ a1 ++ a2 ++ rest) (d_buf d) z (Z.of_nat (length a0))
    (mk_layout intg k (if intg =? 0 then 1 else intg) k error) filler =
  Some (a0 ++ int_text d ++ (if k =? 0 then [] else POINT :: take (Z.to_nat k) (frac_text d)) ++ rest).
Proof.
  intros Hd V Hk L1 L2. pose proof V as [[rest' EB] Hz Hi Lt Lf Fok _ _ _]. apply Forall_app in Fok as [Ft Ff].
  rewrite (view_int_text d z intg t f Hd V) in *. unfold put_number. cbn [l_intg l_frac l_intg_len l_frac_len].
  set (it := if intg =? 0 then [ZERO] else digit_text (fixed_digits (Z.to_nat intg) (dval t))) in *.
  assert ((if intg =? 0 then 1 else intg) = Z.of_nat (length it)) as ->.
  { unfold it. destruct (Z.eqb_spec intg 0); [done|]. rewrite digit_text_length, fixed_digits_length. lia. }
  assert ((if k =? 0 then Some (a0 ++ a1 ++ a2 ++ rest)
      else fw ← words (d_buf d) (z + ROUND_UP intg) (z + ROUND_UP intg + ROUND_UP k);
           chars ← frac_chars k fw;
           put (a0 ++ a1 ++ a2 ++ rest) (Z.of_nat (length a0) + Z.of_nat (length it))
             (POINT :: chars ++ replicate (Z.to_nat (k - k)) filler)) =
      Some (a0 ++ a1 ++ (if k =? 0 then [] else POINT :: take (Z.to_nat k) (frac_text d)) ++ rest)) as ->.
  { unfold point_len in L2. destruct (Z.eqb_spec k 0) as [->|Hn].
    - destruct a2; [done|simpl in *; lia].
    - pose proof (ROUND_UP_mono k (d_frac d) Hk). pose proof (ROUND_UP_bounds k ltac:(lia)).
      assert (words (d_buf d) (z + ROUND_UP intg) (z + ROUND_UP intg + ROUND_UP k) = Some (take (Z.to_nat (ROUND_UP k)) f)) as ->.
      { rewrite EB, <- (take_drop (Z.to_nat (ROUND_UP k)) f) at 1. rewrite <- app_assoc, (app_assoc (replicate _ _)).
        apply words_app; rewrite ?length_app, ?length_replicate, ?length_take; lia. }
      cbn [mbind option_bind]. rewrite (view_frac_chars d z intg t f k) by done. cbn [mbind option_bind].
      rewrite Z.sub_diag. simpl replicate. rewrite app_nil_r, (app_assoc a0 a1), put_middle, <- app_assoc; [done| |].
      + rewrite length_app. lia.
      + simpl. rewrite length_take, frac_text_length. lia. }
  cbn [mbind option_bind]. set (tail := if k =? 0 then [] else _).
  assert ((if intg =? 0 then Z.of_nat (length it) - intg - 1 else Z.of_nat (length it) - intg) = 0) as ->.
  { unfold it. destruct (Z.eqb_spec intg 0) as [->|]; [done|]. rewrite digit_text_length, fixed_digits_length. lia. }
  simpl replicate. rewrite (put_middle a0 [] (a1 ++ tail ++ rest)) by done. cbn [mbind option_bind app].
  change (Z.max 0 0) with 0. rewrite Z.add_0_r. unfold it in *. destruct (Z.eqb_spec intg 0) as [->|Hn]; cbn [negb].
  - rewrite put_middle by (simpl in *; lia). done.
  - assert (words (d_buf d) z (z + ROUND_UP intg) = Some t) as ->.
    { rewrite EB. apply words_app; rewrite ?length_replicate; lia. }
    cbn [mbind option_bind]. rewrite int_chars_spec by (done || lia). cbn [mbind option_bind]. rewrite app_nil_r.
    rewrite put_middle by (done || lia). done.
Qed.

(** The digits after the point that there is room for. *)
Definition frac_room (d : decimal_t) (to_len : Z) : Z :=
  Z.min (d_frac d) (Z.max 0 (to_len - 1 - Z.of_nat (length (sign_text d)) - Z.of_nat (length (int_text d)) - 1)).

Lemma string_layout_spec sign intg frac to_len : 0 <= frac ->
  let intg_len := if intg =? 0 then 1 else intg in
  sign + intg_len <= to_len - 1 ->
  let k := Z.min frac (Z.max 0 (to_len - 1 - sign - intg_len - 1)) in
  string_layout sign intg frac to_len 0 0 =
    mk_layout intg k intg_len k (if k =? frac then E_DEC_OK else E_DEC_TRUNCATED).
Proof.
  intros Hf intg_len Hl k. unfold string_layout. change (negb (0 =? 0)) with false. cbv iota zeta.
  fold intg_len. unfold point_len. destruct (Z.eqb_spec frac 0) as [->|Hn].
  - rewrite (proj2 (Z.ltb_ge _ _)) by lia. assert (k = 0) as -> by lia. done.
  - cbn [negb andb]. destruct (Z.ltb_spec (to_len - 1) (sign + intg_len + 1 + frac)) as [Hlt|Hge].
    + rewrite (proj2 (Z.leb_le _ (frac + 1))) by lia. rewrite (proj2 (Z.eqb_neq k frac)) by lia.
      destruct (Z.leb_spec (frac + 1) (sign + intg_len + 1 + frac - (to_len - 1)));
        rewrite (proj2 (Z.ltb_ge frac _)) by lia; f_equal; lia.
    + assert (k = frac) as -> by lia. by rewrite Z.eqb_refl.
Qed.

(** The place for a text in a buffer. *)
Lemma split_buffer (to : list Z) (a b c : nat) : (a + b + c < length to)%nat ->
  exists a0 a1 a2 x rest, to = a0 ++ a1 ++ a2 ++ x :: rest /\ length a0 = a /\ length a1 = b /\ length a2 = c.
Proof.
  intros H. exists (take a to), (take b (drop a to)), (take c (drop (a + b) to)).
  destruct (drop (a + b + c) to) as [|x rest] eqn:E.
  - apply (f_equal length) in E. rewrite length_drop in E. simpl in E. lia.
  - exists x, rest. rewrite <- E, !length_take, !length_drop. split_and!; try lia.
    rewrite <- (drop_drop to c (a + b)), take_drop, <- (drop_drop to b a), take_drop, take_drop. done.
Qed.

Lemma put_app_r l1 l2 pos cs r : put l1 pos cs = Some r -> put (l1 ++ l2) pos cs = Some (r ++ l2).
Proof.
  unfold put, store_down. intros E. case_match eqn:G; [|done]. rewrite andb_true_iff, !Z.leb_le in G.
  simplify_eq. rewrite length_app, (proj2 (Z.leb_le _ _)), (proj2 (Z.leb_le _ _)) by lia. cbn [andb].
  rewrite take_app_le, drop_app_le by lia. by rewrite <- !app_assoc.
Qed.

Lemma sign_put d a0 R : length a0 = length (sign_text d) ->
  (if d_sign d then put (a0 ++ R) 0 [MINUS] else Some (a0 ++ R)) = Some (sign_text d ++ R).
Proof.
  unfold sign_text. destruct (d_sign d); simpl; intros L.
  - by apply (put_middle [] a0 R 0 [MINUS]).
  - by destruct a0.
Qed.

Lemma decimal2string_spec d to to_len filler : dec_wf d ->
  Z.of_nat (length (sign_text d)) + Z.of_nat (length (int_text d)) <= to_len - 1 ->
  to_len <= Z.of_nat (length to) ->
  let k := frac_room d to_len in
  exists rest, decimal2string d to to_len 0 0 filler =
    Some (dec_text_cut d k ++ 0 :: rest, Z.of_nat (length (dec_text_cut d k)),
          if k =? d_frac d then E_DEC_OK else E_DEC_TRUNCATED).
Proof.
  intros Hd Hw Hto k. pose proof (wf_frac d Hd) as Hf.
  destruct (remove_leading_zeroes_spec d Hd) as (z & intg & t & f & E & V).
  pose proof (view_int_text d z intg t f Hd V) as EI. pose proof (dv_intg _ _ _ _ _ V) as Hi.
  assert (Z.of_nat (length (int_text d)) = if intg =? 0 then 1 else intg) as LI.
  { rewrite EI. destruct (Z.eqb_spec intg 0); [done|]. rewrite digit_text_length, fixed_digits_length. lia. }
  assert ((if d_sign d then 1 else 0) = Z.of_nat (length (sign_text d))) as Es by (unfold sign_text; by destruct (d_sign d)).
  assert (0 <= k <= d_frac d) as Hk by (unfold k, frac_room; lia).
  pose proof (dec_text_cut_length d k Hk) as LT.
  assert (0 <= point_len k <= 1) as Hp by (unfold point_len; destruct (k =? 0); lia).
  destruct (split_buffer to (length (sign_text d)) (length (int_text d)) (Z.to_nat (point_len k + k)))
    as (a0 & a1 & a2 & x & rest & -> & L0 & L1 & L2).
  { assert (k = 0 -> point_len k = 0) by (by intros ->). unfold k, frac_room in *. lia. }
  exists rest. unfold decimal2string. rewrite E. cbn [mbind option_bind].
  assert (exists ws b i, (if intg + d_frac d =? 0 then ([0], 0, 1) else (d_buf d, z, intg)) = (ws, b, i) /\
    Z.of_nat (length (int_text d)) = (if i =? 0 then 1 else i) /\ forall error,
    put_number (sign_text d ++ a1 ++ a2 ++ 0 :: rest) ws b (Z.of_nat (length (sign_text d)))
      (mk_layout i k (if i =? 0 then 1 else i) k error) filler = Some (dec_text_cut d k ++ 0 :: rest))
    as (ws & b & i & -> & LI' & EP).
  { destruct (Z.eqb_spec (intg + d_frac d) 0) as [E0|E0].
    - exists [0], 0, 1. assert (intg = 0 /\ k = 0) as [-> Ek] by lia. split_and!; [done|done|]. intros error.
      assert (a2 = []) as -> by (rewrite Ek in L2; by destruct a2).
      unfold dec_text_cut. rewrite Ek, EI in *. unfold put_number. simpl l_intg. simpl l_frac. simpl l_intg_len. cbn [app].
      simpl. rewrite (put_middle (sign_text d) [] (a1 ++ 0 :: rest)) by done. cbn [mbind option_bind app].
      change ((1 - 1) `max` 0) with 0. rewrite Z.add_0_r, <- app_assoc.
      by rewrite (put_middle _ a1).
    - exists (d_buf d), z, intg. split_and!; [done|done|]. intros error.
      rewrite (put_number_spec d z intg t f k) by (done || lia). unfold dec_text_cut. by rewrite <- !app_assoc. }
  rewrite Es, string_layout_spec by (try done; cbv zeta; rewrite <- LI'; lia). unfold string_length. cbn [l_intg_len l_frac l_frac_len l_error].
  change (0 =? 0) with true. cbv iota. rewrite <- LI'. fold (frac_room d to_len). change (frac_room d to_len) with k.
  rewrite <- LT, (app_assoc a0), (app_assoc (a0 ++ a1)).
  rewrite (put_middle ((a0 ++ a1) ++ a2) [x] rest); [|rewrite LT, !length_app; lia|done].
  cbn [mbind option_bind app]. rewrite <- !app_assoc, sign_put by done. cbn [mbind option_bind].
  rewrite LI', EP. done.
Qed.

(** No more digits than the number declares. *)
Lemma view_intg_le d z intg t f : dec_wf d -> digits_view d z intg t f -> intg <= d_intg d.
Proof.
  intros Hd [_ _ Hi _ Lf Fok Ev _ Hl]. pose proof (wf_intg d Hd) as Hi0. pose proof (wf_top d Hd) as Ht.
  pose proof (wf_frac_words d Hd) as Hf. apply Forall_app in Fok as [_ Ff]. pose proof (dval_bounds f Ff) as Bf.
  destruct (Z.le_gt_cases intg (d_intg d)) as [|Hgt]; [done|].
  assert (10 ^ d_intg d * 10 ^ (9 * ROUND_UP (d_frac d)) <= dval t * 10 ^ (9 * ROUND_UP (d_frac d))).
  { apply Z.mul_le_mono_nonneg_r; [lia|]. transitivity (10 ^ (intg - 1)); [apply Z.pow_le_mono_r; lia|apply Hl; lia]. }
  rewrite Z.pow_add_r in Ht by lia. rewrite <- Ev, dval_app, Lf, DIG_BASE_pow in Ht by done. lia.
Qed.

Lemma int_text_length_le d : dec_wf d -> Z.of_nat (length (int_text d)) <= if d_intg d =? 0 then 1 else d_intg d.
Proof.
  intros Hd. pose proof (wf_intg d Hd) as Hi. destruct (remove_leading_zeroes_spec d Hd) as (z & intg & t & f & E & V).
  rewrite (view_int_text d z intg t f Hd V). pose proof (view_intg_le d z intg t f Hd V). pose proof (dv_intg _ _ _ _ _ V).
  destruct (Z.eqb_spec intg 0), (Z.eqb_spec (d_intg d) 0); simpl; try lia;
    rewrite digit_text_length, fixed_digits_length; lia.
Qed.

(** [decimal_string_size] is enough for the whole text. *)
Lemma decimal_string_size_room d to_len : dec_wf d -> decimal_string_size d <= to_len ->
  Z.of_nat (length (sign_text d)) + Z.of_nat (length (int_text d)) <= to_len - 1 /\ frac_room d to_len = d_frac d.
Proof.
  intros Hd. pose proof (wf_frac d Hd) as Hf. pose proof (int_text_length_le d Hd) as LI.
  assert (Z.of_nat (length (sign_text d)) <= 1) by (unfold sign_text; destruct (d_sign d); simpl; lia).
  unfold decimal_string_size, frac_room. destruct (d_intg d =? 0), (Z.ltb_spec 0 (d_frac d)); lia.
Qed.

(** C11: [decimal2string] in the variable-length format: as long as the digits before
    the point fit in the buffer, the bytes stored are the sign, the digits of the
    integer part without leading zeroes (a single 0 when it is zero), a point and as
    many digits after it as there is room for, and a final zero byte; the length that is returned is
    the length of that text, and the error is [E_DEC_TRUNCATED] exactly when digits
    are cut.  A buffer of [decimal_string_size] bytes holds all of them. *)
Theorem decimal2string_correct d to to_len filler : dec_wf d ->
  Z.of_nat (length (sign_text d)) + Z.of_nat (length (int_text d)) <= to_len - 1 ->
  to_len <= Z.of_nat (length to) ->
  let k := frac_room d to_len in
  (exists rest, decimal2string d to to_len 0 0 filler =
    Some (dec_text_cut d k ++ 0 :: rest, Z.of_nat (length (dec_text_cut d k)),
          if k =? d_frac d then E_DEC_OK else E_DEC_TRUNCATED)) /\
  (decimal_string_size d <= to_len -> dec_text_cut d k = dec_text d).
Proof.
  intros Hd Hw Hto k. split; [by apply decimal2string_spec|].
  intros Hs. unfold k. by rewrite (proj2 (decimal_string_size_room d to_len Hd Hs)).
Qed.

(** -12.345, which a buffer of six bytes takes as -12.3 *)
Definition ex_dec_text : decimal_t := mk_decimal 4 3 2 true [12; 345000000].

Lemma decimal2string_correct_witness :
  (exists rest, decimal2string ex_dec_text (replicate 12 7) 6 0 0 0 = Some ([45; 49; 50; 46; 51] ++ 0 :: rest, 5, E_DEC_TRUNCATED)).
Proof. apply (decimal2string_correct ex_dec_text (replicate 12 7) 6 0); [by apply dec_wfb_wf|done|done]. Defined.
