(* ===== verification/DecimalShift.v ===== *)
(** * Fixed-point decimals: multiplication by a power of ten

    [digits_bounds], [do_mini_left_shift], [do_mini_right_shift] and
    [decimal_shift] of [strings/decimal.c].  Digits are counted from 0 at the first
    digit of the first word.  The sums and products of the two small shifts stay
    below 2^31 for any 32-bit words, so that they do not wrap. *)

From Stdlib Require Import ZArith Lia QArith Qround Qabs Qpower.
From stdpp Require Import base numbers option tactics list.
From S2P Require Import Prelude Decimal DecimalArith DecimalDigits DecimalRound DecimalRounding.

#[local] Open Scope Z_scope.

(** [while (buf_beg < end && *buf_beg == 0) buf_beg++], the words that are passed. *)
Fixpoint zero_words (ws : list Z) : Z :=
  match ws with
  | w :: ws => if w =? 0 then 1 + zero_words ws else 0
  | [] => 0
  end.

(** The indices of the first digit that is not zero and of the one after the last;
    both are 0 when there is none. *)
Definition digits_bounds (from : decimal_t) : option (Z * Z) :=
  let n := ROUND_UP (d_intg from) + ROUND_UP (d_frac from) in
  ws ← words (d_buf from) 0 n;
  let buf_beg := zero_words ws in
  if n <=? buf_beg then Some (0, 0)
  else
    first ← rd (d_buf from) buf_beg;
    let '(start, i) :=
      if (buf_beg =? 0) && negb (d_intg from =? 0) then
        let i := Z.rem (d_intg from - 1) DIG_PER_DEC1 + 1 in (DIG_PER_DEC1 - i, i - 1)
      else (buf_beg * DIG_PER_DEC1, DIG_PER_DEC1 - 1) in
    let buf_end := n - 1 - zero_words (rev (drop (Z.to_nat (buf_beg + 1)) ws)) in
    last ← rd (d_buf from) buf_end;
    let '(stop, j) :=
      if (buf_end =? n - 1) && negb (d_frac from =? 0) then
        let i := Z.rem (d_frac from - 1) DIG_PER_DEC1 + 1 in (buf_end * DIG_PER_DEC1 + i, DIG_PER_DEC1 - i + 1)
      else ((buf_end + 1) * DIG_PER_DEC1, 1) in
    Some (start + count_leading_zeroes i first, stop - count_trailing_zeroes j last).

(** The words moved left by [shift] digits, the first ones lost. *)
Fixpoint left_words (shift : Z) (ws : list Z) : list Z :=
  match ws with
  | [] => []
  | w :: ws =>
      Z.rem w (powers10 (DIG_PER_DEC1 - shift)) * powers10 shift +
      match ws with [] => 0 | w' :: _ => Z.quot w' (powers10 (DIG_PER_DEC1 - shift)) end :: left_words shift ws
  end.

Definition do_mini_left_shift (buf : list Z) (shift beg last : Z) : option (list Z) :=
  let from := ROUND_UP (beg + 1) - 1 in
  let end_ := ROUND_UP last - 1 in
  w ← rd buf from;
  buf ← (if Z.rem beg DIG_PER_DEC1 <? shift then wr buf (from - 1) (Z.quot w (powers10 (DIG_PER_DEC1 - shift)))
         else Some buf);
  ws ← words buf from (Z.max from end_ + 1);
  store_down buf (Z.max from end_ + 1) (left_words shift ws).

(** The words, down from the last one, moved right by [shift] digits. *)
Fixpoint right_words (shift : Z) (r : list Z) : list Z :=
  match r with
  | [] => []
  | w :: r =>
      Z.quot w (powers10 shift) +
      match r with [] => 0 | w' :: _ => Z.rem w' (powers10 shift) * powers10 (DIG_PER_DEC1 - shift) end ::
      right_words shift r
  end.

Definition do_mini_right_shift (buf : list Z) (shift beg last : Z) : option (list Z) :=
  let from := ROUND_UP last - 1 in
  let end_ := ROUND_UP (beg + 1) - 1 in
  w ← rd buf from;
  buf ← (if DIG_PER_DEC1 - (Z.rem (last - 1) DIG_PER_DEC1 + 1) <? shift
         then wr buf (from + 1) (Z.rem w (powers10 shift) * powers10 (DIG_PER_DEC1 - shift))
         else Some buf);
  ws ← words buf (Z.min from end_) (from + 1);
  store_down buf (from + 1) (rev (right_words shift (rev ws))).

(** The shift inside of the words, and by how many digits it moves them. *)
Definition mini_shift (buf : list Z) (len shift beg end_ : Z) : option (list Z * Z) :=
  if 0 <? shift then
    let l_mini_shift := Z.rem shift DIG_PER_DEC1 in
    let r_mini_shift := DIG_PER_DEC1 - l_mini_shift in
    if l_mini_shift <=? beg
    then buf ← do_mini_left_shift buf l_mini_shift beg end_; Some (buf, - l_mini_shift)
    else buf ← do_mini_right_shift buf r_mini_shift beg end_; Some (buf, r_mini_shift)
  else
    let r_mini_shift := Z.rem (- shift) DIG_PER_DEC1 in
    let l_mini_shift := DIG_PER_DEC1 - r_mini_shift in
    if r_mini_shift <=? len * DIG_PER_DEC1 - end_
    then buf ← do_mini_right_shift buf r_mini_shift beg end_; Some (buf, r_mini_shift)
    else buf ← do_mini_left_shift buf l_mini_shift beg end_; Some (buf, - l_mini_shift).

(** The shift by whole words, and by how many digits it moves them. *)
Definition move_words (buf : list Z) (beg end_ new_front : Z) : option (list Z * Z) :=
  let first := ROUND_UP (beg + 1) - 1 in
  let last := ROUND_UP end_ - 1 in
  ws ← words buf first (last + 1);
  if 0 <? new_front then
    let d_shift := Z.quot new_front DIG_PER_DEC1 in
    buf ← store_down buf (last - d_shift + 1) ws;
    buf ← store_down buf (last + 1) (replicate (Z.to_nat d_shift) 0);
    Some (buf, - d_shift * DIG_PER_DEC1)
  else
    let d_shift := Z.quot (1 - new_front) DIG_PER_DEC1 in
    buf ← store_down buf (last + d_shift + 1) ws;
    buf ← store_down buf (first + d_shift) (replicate (Z.to_nat d_shift) 0);
    Some (buf, d_shift * DIG_PER_DEC1).

(** Zeroes between the digits and the point. *)
Definition fill_gap (buf : list Z) (beg end_ new_point : Z) : option (list Z) :=
  let beg := ROUND_UP (beg + 1) - 1 in
  let end_ := ROUND_UP end_ - 1 in
  let new_point := if new_point =? 0 then 0 else ROUND_UP new_point - 1 in
  if end_ <? new_point then store_down buf (new_point + 1) (replicate (Z.to_nat (new_point - end_)) 0)
  else if new_point <? beg then store_down buf beg (replicate (Z.to_nat (beg - new_point)) 0)
  else Some buf.

(** The digits are put in their place. *)
Definition shift_digits (buf : list Z) (len shift beg end_ new_point digits_int : Z) : option (list Z) :=
  '(buf, mini) ← (if Z.rem shift DIG_PER_DEC1 =? 0 then Some (buf, 0) else mini_shift buf len shift beg end_);
  let new_point := new_point + mini in
  if negb (Z.rem shift DIG_PER_DEC1 =? 0) && (shift + mini =? 0) && (new_point - digits_int <? DIG_PER_DEC1)
  then Some buf
  else
    let beg := beg + mini in
    let end_ := end_ + mini in
    let new_front := new_point - digits_int in
    '(buf, moved) ← (if (DIG_PER_DEC1 <=? new_front) || (new_front <? 0) then move_words buf beg end_ new_front
                     else Some (buf, 0));
    fill_gap buf (beg + moved) (end_ + moved) (new_point + moved).

(** An [int] that does not overflow. *)
Definition int_ok (z : Z) : bool := (- 2 ^ 31 <=? z) && (z <? 2 ^ 31).

(** The numbers of digits before and after the new point, and their [ROUND_UP]. *)
Definition shift_ints (new_point beg end_ : Z) : bool :=
  int_ok (new_point - beg) && int_ok (end_ - new_point) &&
  int_ok (Z.max (new_point - beg) 0 + DIG_PER_DEC1) && int_ok (Z.max (end_ - new_point) 0 + DIG_PER_DEC1).

(** [None] also stands for an [int] that overflows. *)
Definition decimal_shift (dec : decimal_t) (shift : Z) : option (decimal_t * Z) :=
  let point := ROUND_UP (d_intg dec) * DIG_PER_DEC1 in
  let new_point := point + shift in
  if negb (int_ok new_point) then None
  else if shift =? 0 then Some (dec, E_DEC_OK)
  else
    '(beg, end_) ← digits_bounds dec;
    if beg =? end_ then zero ← decimal_make_zero dec; Some (zero, E_DEC_OK)
    else if negb (shift_ints new_point beg end_) then None
    else
      let digits_int := Z.max (new_point - beg) 0 in
      let digits_frac := Z.max (end_ - new_point) 0 in
      let new_frac_len := ROUND_UP digits_frac in
      let new_len := ROUND_UP digits_int + new_frac_len in
      if d_len dec <? new_len then
        let lack := new_len - d_len dec in
        if new_frac_len <? lack then Some (dec, E_DEC_OVERFLOW)
        else
          let new_frac_len := new_frac_len - lack in
          let diff := digits_frac - new_frac_len * DIG_PER_DEC1 in
          '(dec, _) ← decimal_round dec None (end_ - point - diff) HALF_UP;
          let end_ := end_ - diff in
          if end_ <=? beg then zero ← decimal_make_zero dec; Some (zero, E_DEC_TRUNCATED)
          else
            buf ← shift_digits (d_buf dec) (d_len dec) shift beg end_ new_point digits_int;
            Some (mk_decimal digits_int (new_frac_len * DIG_PER_DEC1) (d_len dec) (d_sign dec) buf, E_DEC_TRUNCATED)
      else
        buf ← shift_digits (d_buf dec) (d_len dec) shift beg end_ new_point digits_int;
        Some (mk_decimal digits_int digits_frac (d_len dec) (d_sign dec) buf, E_DEC_OK).

(** ** Digits in a buffer *)

(** The words from index [lo] or before to [hi] or behind hold the number [M] with
    its digits at [beg .. end_) and zeroes around it. *)
Definition block (buf : list Z) (lo hi beg end_ M : Z) : Prop :=
  exists p b r, buf = p ++ b ++ r /\ Z.of_nat (length p) <= lo /\ 9 * Z.of_nat (length p) <= beg /\
    hi <= Z.of_nat (length p + length b) /\ end_ <= 9 * Z.of_nat (length p + length b) /\
    Forall word_ok b /\ dval b = M * 10 ^ (9 * Z.of_nat (length p + length b) - end_).

Lemma dval_zero_words ws : Forall word_ok ws -> dval ws = 0 -> ws = replicate (length ws) 0.
Proof.
  induction ws as [|w ws IH]; intros F E; [done|]. apply Forall_cons in F as [Hw F]. rewrite dval_cons in E.
  pose proof (dval_bounds ws F). pose proof (DIG_BASE_pow_pos (Z.of_nat (length ws)) ltac:(lia)). unfold word_ok in Hw.
  assert (w = 0) as -> by nia. simpl. f_equal. apply IH; [done|lia].
Qed.

(** Zero words around a part of the words. *)
Lemma dval_pad i j ws : dval (replicate i 0 ++ ws ++ replicate j 0) = dval ws * DIG_BASE ^ Z.of_nat j.
Proof. rewrite !dval_app, !dval_zeroes, length_replicate. lia. Qed.

Lemma block_trim buf lo hi beg end_ M l h : block buf lo hi beg end_ M -> 0 <= M < 10 ^ (end_ - beg) -> beg <= end_ ->
  0 <= l <= h -> 9 * l <= beg -> (lo <= l \/ beg < 9 * l + 9) -> end_ <= 9 * h -> (h <= hi \/ 9 * h < end_ + 9) ->
  exists p i b j r, buf = p ++ replicate i 0 ++ b ++ replicate j 0 ++ r /\ Z.of_nat (length p) <= lo /\
    Z.of_nat (length p + i) = l /\ Z.of_nat (length p + i + length b) = h /\
    hi <= Z.of_nat (length p + i + length b + j) /\ Forall word_ok b /\ dval b = M * 10 ^ (9 * h - end_).
Proof.
  intros (p & b0 & r & -> & Hp & Hp9 & Hh & He & F & E) HM Hbe Hlh Hl Hl' Heh Hh'.
  destruct (split_words b0 (l - Z.of_nat (length p)) (h - l)) as (z & b & y & -> & Lz & Lb); [lia..|].
  rewrite !length_app in *. apply Forall_app in F as [Fz F]. apply Forall_app in F as [Fb Fy].
  pose proof (dval_bounds z Fz) as Bz. pose proof (dval_bounds b Fb) as Bb. pose proof (dval_bounds y Fy) as By.
  set (n := Z.of_nat (length p + (length z + (length b + length y)))) in *.
  assert (n = h + Z.of_nat (length y)) as En by (unfold n; lia). clearbody n. subst n.
  rewrite !dval_app, !length_app, Nat2Z.inj_add, Z.pow_add_r in E by lia.
  set (X := DIG_BASE ^ Z.of_nat (length b)) in *. set (Y := DIG_BASE ^ Z.of_nat (length y)) in *.
  assert (0 < Y) as HY by (apply DIG_BASE_pow_pos; lia). assert (0 < X) as HX by (apply DIG_BASE_pow_pos; lia).
  assert (10 ^ (9 * (h + Z.of_nat (length y)) - end_) = 10 ^ (9 * h - end_) * Y) as E10.
  { unfold Y. rewrite DIG_BASE_pow, <- Z.pow_add_r by lia. f_equal. lia. }
  assert (M * 10 ^ (9 * h - end_) < X) as HMX.
  { unfold X. rewrite DIG_BASE_pow by lia. apply Z.lt_le_trans with (10 ^ (end_ - beg) * 10 ^ (9 * h - end_)).
    - apply Z.mul_lt_mono_pos_r; [apply Z.pow_pos_nonneg; lia|lia].
    - rewrite <- Z.pow_add_r by lia. apply Z.pow_le_mono_r; lia. }
  rewrite E10, (Z.mul_assoc M) in E. assert (0 <= M * 10 ^ (9 * h - end_)) by (apply Z.mul_nonneg_nonneg; [lia|apply Z.pow_nonneg; lia]).
  set (V := M * 10 ^ (9 * h - end_)) in *. clearbody X Y V. clear E10.
  assert (dval z = 0) as Ez.
  { assert (dval z * X * Y <= V * Y) as H1 by (rewrite <- E; nia). apply Z.mul_le_mono_pos_r in H1; [nia|done]. }
  rewrite Ez in E. assert (dval y = 0 /\ dval b = V) as [Ey Eb].
  { assert (dval y = (V - dval b) * Y) as H1 by (rewrite Z.mul_sub_distr_r, <- E; ring).
    assert (V - dval b = 0) as H2 by (clear E HMX; nia). rewrite H2 in H1. lia. }
  exists p, (length z), b, (length y), r. rewrite <- (dval_zero_words z), <- (dval_zero_words y) by done.
  split_and!; try done; try lia. by rewrite <- !app_assoc.
Qed.

(** A block made of its digits and zero words. *)
Lemma block_pad p i b j r lo hi beg end_ M :
  Z.of_nat (length p) <= lo -> 9 * Z.of_nat (length p) <= beg -> hi <= Z.of_nat (length p + i + length b + j) ->
  end_ <= 9 * Z.of_nat (length p + i + length b) -> Forall word_ok b ->
  dval b = M * 10 ^ (9 * Z.of_nat (length p + i + length b) - end_) ->
  block (p ++ replicate i 0 ++ b ++ replicate j 0 ++ r) lo hi beg end_ M.
Proof.
  intros Hp Hp9 Hh He F E. exists p, (replicate i 0 ++ b ++ replicate j 0), r.
  rewrite dval_pad, E, !length_app, !length_replicate.
  split_and!; try done; try lia.
  - by rewrite <- !app_assoc.
  - rewrite !Forall_app. split_and!; [apply word_ok_zeroes|done|apply word_ok_zeroes].
  - rewrite DIG_BASE_pow, <- Z.mul_assoc, <- Z.pow_add_r by lia. do 2 f_equal. lia.
Qed.

Lemma ROUND_UP_index x : 0 <= x -> ROUND_UP (x + 1) - 1 = x / 9.
Proof. intros H. rewrite ROUND_UP_nonneg by lia. Z.to_euclidean_division_equations. lia. Qed.

(** The words that hold the digits. *)
Lemma block_tight buf lo hi beg end_ M : block buf lo hi beg end_ M -> 0 <= M < 10 ^ (end_ - beg) -> 0 <= beg < end_ ->
  exists p i b j r, buf = p ++ replicate i 0 ++ b ++ replicate j 0 ++ r /\ Z.of_nat (length p) <= lo /\
    Z.of_nat (length p + i) = ROUND_UP (beg + 1) - 1 /\ Z.of_nat (length p + i + length b) = ROUND_UP end_ /\
    hi <= Z.of_nat (length p + i + length b + j) /\ (0 < length b)%nat /\ Forall word_ok b /\
    dval b = M * 10 ^ (9 * ROUND_UP end_ - end_).
Proof.
  intros Hb HM Hbe. pose proof (ROUND_UP_bounds end_ ltac:(lia)) as He. pose proof (ROUND_UP_bounds (beg + 1) ltac:(lia)) as Hg.
  pose proof (ROUND_UP_mono (beg + 1) end_ ltac:(lia)).
  destruct (block_trim buf lo hi beg end_ M (ROUND_UP (beg + 1) - 1) (ROUND_UP end_))
    as (p & i & b & j & r & E & H1 & H2 & H3 & H4 & F & V); try done; try lia.
  exists p, i, b, j, r. split_and!; try done. lia.
Qed.

(** *** Shifts inside of the words *)

Section mini.
Context (s : Z) (Hs : 1 <= s <= 8).

Lemma mini_base : DIG_BASE = 10 ^ (9 - s) * 10 ^ s /\ 0 < 10 ^ (9 - s) /\ 0 < 10 ^ s.
Proof.
  split_and!; [|apply Z.pow_pos_nonneg; lia..]. rewrite <- Z.pow_add_r by lia. by replace (9 - s + s) with 9 by lia.
Qed.

Lemma left_words_spec ws : Forall word_ok ws ->
  length (left_words s ws) = length ws /\ Forall word_ok (left_words s ws) /\
  dval (left_words s ws) + (match ws with [] => 0 | w :: _ => Z.quot w (powers10 (9 - s)) end) * DIG_BASE ^ Z.of_nat (length ws) =
  dval ws * 10 ^ s.
Proof.
  destruct mini_base as (EB & HA & HC). induction ws as [|w ws IH]; intros F; [done|].
  apply Forall_cons in F as [Hw F]. destruct (IH F) as (L & F' & E). cbn [left_words]. unfold DIG_PER_DEC1.
  set (q := match ws with [] => 0 | w' :: _ => Z.quot w' (powers10 (9 - s)) end) in *.
  assert (0 <= q < 10 ^ s) as Hq.
  { unfold q. destruct ws as [|w' ws']; [lia|]. apply Forall_cons in F as [[H1 H2] _].
    rewrite powers10_pow, Z.quot_div_nonneg by lia. split; [apply Z.div_pos; lia|]. apply Z.div_lt_upper_bound; lia. }
  clearbody q. rewrite !powers10_pow in * by lia. unfold word_ok in Hw.
  rewrite Z.quot_div_nonneg, Z.rem_mod_nonneg by lia.
  pose proof (Z.div_mod w (10 ^ (9 - s)) ltac:(lia)) as Ew. pose proof (Z.mod_pos_bound w (10 ^ (9 - s)) HA) as Bm.
  rewrite !dval_cons. simpl length. rewrite L, Nat2Z.inj_succ, Z.pow_succ_r by lia.
  set (X := DIG_BASE ^ Z.of_nat (length ws)) in *. set (a := w / 10 ^ (9 - s)) in *. set (m := w mod 10 ^ (9 - s)) in *.
  clearbody X a m. split_and!; [lia| |].
  - constructor; [|done]. unfold word_ok. rewrite EB. nia.
  - rewrite Ew, (Z.mul_add_distr_r (_ * X)), <- E, EB. ring.
Qed.

Lemma right_words_spec r : Forall word_ok r ->
  length (right_words s r) = length r /\ Forall word_ok (right_words s r) /\
  rval (right_words s r) * DIG_BASE + (match r with [] => 0 | w :: _ => Z.rem w (powers10 s) * powers10 (9 - s) end) =
  rval r * 10 ^ (9 - s).
Proof.
  destruct mini_base as (EB & HA & HC). induction r as [|w r IH]; intros F; [done|].
  apply Forall_cons in F as [Hw F]. destruct (IH F) as (L & F' & E). cbn [right_words]. unfold DIG_PER_DEC1.
  set (q := match r with [] => 0 | w' :: _ => Z.rem w' (powers10 s) * powers10 (9 - s) end) in *.
  assert (0 <= q <= (10 ^ s - 1) * 10 ^ (9 - s)) as Hq.
  { unfold q. destruct r as [|w' r']; [nia|]. apply Forall_cons in F as [[H1 H2] _].
    rewrite !powers10_pow, Z.rem_mod_nonneg by lia. pose proof (Z.mod_pos_bound w' (10 ^ s) HC). nia. }
  clearbody q. rewrite !powers10_pow in * by lia. unfold word_ok in Hw.
  rewrite Z.quot_div_nonneg, Z.rem_mod_nonneg by lia.
  pose proof (Z.div_mod w (10 ^ s) ltac:(lia)) as Ew. pose proof (Z.mod_pos_bound w (10 ^ s) HC) as Bm.
  rewrite !rval_cons. simpl length.
  assert (0 <= w / 10 ^ s < 10 ^ (9 - s)) as Bd.
  { split; [apply Z.div_pos; lia|]. apply Z.div_lt_upper_bound; lia. }
  set (a := w / 10 ^ s) in *. set (m := w mod 10 ^ s) in *. clearbody a m. split_and!; [lia| |].
  - constructor; [|done]. unfold word_ok. rewrite EB. nia.
  - rewrite Ew. rewrite (Z.mul_comm DIG_BASE (rval (right_words s r))).
    replace (a + q + rval (right_words s r) * DIG_BASE) with (a + (rval (right_words s r) * DIG_BASE + q)) by ring.
    rewrite E, EB. ring.
Qed.

Context (buf : list Z) (lo hi beg end_ M : Z).
Context (Hblock : block buf lo hi beg end_ M) (HM : 0 <= M < 10 ^ (end_ - beg)) (Hbe : 0 <= beg < end_).

(** The word before the digits, if there is one. *)
Lemma pad_last (p : list Z) i : (0 < length p + i)%nat ->
  exists p' i' x, p ++ replicate i 0 = p' ++ replicate i' 0 ++ [x] /\ (length p' <= length p)%nat /\
    (S (length p' + i') = length p + i)%nat.
Proof.
  intros H. destruct i as [|i].
  - destruct p as [|x p' _] using rev_ind; [simpl in H; lia|]. exists p', 0%nat, x. rewrite app_nil_r, length_app.
    simpl. split_and!; [done|lia|lia].
  - exists p, i, 0. split_and!; [|lia|lia]. f_equal. by rewrite replicate_S_end.
Qed.

(** The first word has as many zeroes as the digits say. *)
Lemma shift_first_word w b h : Forall word_ok (w :: b) -> h = beg / 9 + Z.of_nat (length (w :: b)) -> end_ <= 9 * h ->
  dval (w :: b) = M * 10 ^ (9 * h - end_) -> s <= beg mod 9 -> w < 10 ^ (9 - s).
Proof.
  intros F Eh He E Hsb. apply Forall_cons in F as [_ F]. pose proof (dval_bounds b F) as B. rewrite dval_cons in E.
  assert (0 < 10 ^ (9 * h - end_)) by (apply Z.pow_pos_nonneg; lia).
  pose proof (Z.div_mod beg 9 ltac:(lia)) as Ed. simpl length in Eh.
  assert (10 ^ (end_ - beg) * 10 ^ (9 * h - end_) <= 10 ^ (9 - s) * DIG_BASE ^ Z.of_nat (length b)) as H1.
  { rewrite DIG_BASE_pow, <- !Z.pow_add_r by lia. apply Z.pow_le_mono_r; lia. }
  pose proof (DIG_BASE_pow_pos (Z.of_nat (length b)) ltac:(lia)).
  set (X := DIG_BASE ^ Z.of_nat (length b)) in *. set (Y := 10 ^ (9 * h - end_)) in *. set (Z1 := 10 ^ (end_ - beg)) in *.
  set (Z2 := 10 ^ (9 - s)) in *. clearbody X Y Z1 Z2. apply (Z.mul_lt_mono_pos_r X); [done|]. nia.
Qed.

Lemma mini_left_spec : s <= beg ->
  exists buf', do_mini_left_shift buf s beg end_ = Some buf' /\ length buf' = length buf /\
    block buf' lo hi (beg - s) (end_ - s) M.
Proof.
  intros Hsb. destruct (block_tight _ _ _ _ _ _ Hblock HM Hbe) as (p & i & b & j & r & -> & Hp & Hl & Hh & Hhi & Hb & F & E).
  destruct b as [|w b]; [simpl in Hb; lia|]. unfold do_mini_left_shift. rewrite <- Hl, <- Hh.
  rewrite (app_assoc p). cbn [app]. rewrite (rd_middle _ w) by (by rewrite length_app, length_replicate). cbn [mbind option_bind].
  destruct (left_words_spec (w :: b) F) as (L & F' & EL). pose proof (ROUND_UP_index beg ltac:(lia)) as Ei.
  pose proof (ROUND_UP_bounds end_ ltac:(lia)) as Bh. unfold DIG_PER_DEC1. rewrite Z.rem_mod_nonneg by lia.
  pose proof (Z.div_mod beg 9 ltac:(lia)) as Ed. pose proof (Z.mod_pos_bound beg 9 ltac:(lia)) as Bd.
  replace (Z.max _ _ + 1) with (Z.of_nat (length p + i + length (w :: b))) by (simpl length; lia).
  rewrite E in EL. rewrite <- Hh in EL.
  assert (M * 10 ^ (9 * Z.of_nat (length p + i + length (w :: b)) - end_) * 10 ^ s =
    M * 10 ^ (9 * Z.of_nat (length p + i + length (w :: b)) - (end_ - s))) as E10.
  { rewrite <- Z.mul_assoc, <- Z.pow_add_r by lia. do 2 f_equal. lia. }
  destruct (Z.ltb_spec (beg mod 9) s) as [Hlt|Hge].
  - destruct (pad_last p i) as (p' & i' & x & EA & Lp & Li); [lia|]. rewrite EA. rewrite (app_assoc p' (replicate i' 0)).
    rewrite <- (app_assoc _ [x]). cbn [app]. rewrite (wr_middle _ x) by (rewrite length_app, length_replicate; lia).
    cbn [mbind option_bind].
    change (?q :: w :: b ++ ?R) with ([q] ++ (w :: b) ++ R). rewrite (app_assoc _ [_]).
    rewrite words_app by (rewrite !length_app, length_replicate; simpl length; lia). cbn [mbind option_bind].
    rewrite store_middle; [|rewrite !length_app, length_replicate; simpl length; lia|done].
    eexists. split; [done|]. set (lw := left_words s (w :: b)) in *. clearbody lw. split.
    + rewrite !length_app, L. simpl length. lia.
    + rewrite <- !app_assoc. rewrite (app_assoc [_] lw). apply block_pad; simpl length; rewrite ?L; try (simpl length in *; lia).
      * constructor; [|done]. apply Forall_cons in F as [[H1 H2] _]. destruct mini_base as (EB & HA & HC).
        rewrite powers10_pow, Z.quot_div_nonneg by lia. split; [apply Z.div_pos; lia|].
        apply Z.div_lt_upper_bound; [done|]. nia.
      * simpl app. rewrite dval_cons, L, Z.add_comm, EL, E10. do 2 f_equal. simpl length. lia.
  - cbn [mbind option_bind]. change (w :: b ++ ?R) with ((w :: b) ++ R).
    rewrite words_app by (rewrite !length_app, length_replicate; simpl length; lia). cbn [mbind option_bind].
    rewrite store_middle; [|rewrite !length_app, length_replicate; simpl length; lia|done].
    eexists. split; [done|]. set (lw := left_words s (w :: b)) in *. clearbody lw. split.
    + rewrite !length_app, L. simpl length. lia.
    + rewrite <- !app_assoc. assert (w < 10 ^ (9 - s)) as Hw.
      { eapply (shift_first_word w b (ROUND_UP end_)); try done; try lia. }
      rewrite powers10_pow, Z.quot_small in EL by (try lia; apply Forall_cons in F as [[H1 H2] _]; lia).
      apply block_pad; rewrite ?L; try (simpl length in *; lia); try done.
Qed.

(** The word behind the digits. *)
Lemma pad_first j (r : list Z) : (0 < j + length r)%nat ->
  exists x j' r', replicate j 0 ++ r = x :: replicate j' 0 ++ r' /\ (j <= S j')%nat /\
    (S (j' + length r') = j + length r)%nat.
Proof.
  intros H. destruct j as [|j].
  - destruct r as [|x r]; [simpl in H; lia|]. exists x, 0%nat, r. split_and!; [done|lia|simpl; lia].
  - exists 0, j, r. split_and!; [done|lia|lia].
Qed.

Lemma mini_right_spec : end_ + s <= 9 * Z.of_nat (length buf) ->
  exists buf', do_mini_right_shift buf s beg end_ = Some buf' /\ length buf' = length buf /\
    block buf' lo hi (beg + s) (end_ + s) M.
Proof.
  intros Hfit. destruct (block_tight _ _ _ _ _ _ Hblock HM Hbe) as (p & i & b & j & r & -> & Hp & Hl & Hh & Hhi & Hb & F & E).
  destruct b as [|w b _] using rev_ind; [simpl in Hb; lia|]. unfold do_mini_right_shift. rewrite <- Hl, <- Hh.
  rewrite !length_app, !length_replicate in Hfit. rewrite length_app in Hh, Hhi, Hb |- *. simpl length in Hfit, Hh, Hhi, Hb |- *.
  rewrite <- (app_assoc b), (app_assoc p), (app_assoc _ b). cbn [app].
  rewrite (rd_middle _ w) by (rewrite !length_app, length_replicate; lia). cbn [mbind option_bind].
  destruct (right_words_spec (w :: rev b)) as (L & F' & ER).
  { pose proof (List.Forall_rev F) as G. by rewrite rev_app_distr in G. }
  pose proof (ROUND_UP_bounds end_ ltac:(lia)) as Bh. pose proof (ROUND_UP_bounds (beg + 1) ltac:(lia)) as Bg.
  unfold DIG_PER_DEC1. rewrite Z.rem_mod_nonneg by lia. pose proof (Z.div_mod (end_ - 1) 9 ltac:(lia)) as Ed. pose proof (Z.mod_pos_bound (end_ - 1) 9 ltac:(lia)) as Bd.
  pose proof (ROUND_UP_index (end_ - 1) ltac:(lia)) as Ei. replace (end_ - 1 + 1) with end_ in Ei by lia.
  rewrite Z.min_r by lia. replace (Z.of_nat (length p + i + (length b + 1)) - 1 + 1)
    with (Z.of_nat (length p + i + length (b ++ [w]))) by (rewrite length_app; simpl; lia).
  assert (rval (w :: rev b) = dval (b ++ [w])) as Er by (unfold rval; simpl; by rewrite rev_involutive).
  rewrite Er, E in ER. clear Er.
  assert (forall R, words ((p ++ replicate i 0) ++ (b ++ [w]) ++ R) (Z.of_nat (length p + i))
     (Z.of_nat (length p + i + length (b ++ [w]))) = Some (b ++ [w])) as EW.
  { intros R. apply words_app; rewrite !length_app, length_replicate; lia. }
  assert (forall R, store_down ((p ++ replicate i 0) ++ (b ++ [w]) ++ R) (Z.of_nat (length p + i + length (b ++ [w])))
     (rev (right_words s (w :: rev b))) = Some ((p ++ replicate i 0) ++ rev (right_words s (w :: rev b)) ++ R)) as ES.
  { intros R. apply store_middle; [rewrite !length_app, length_replicate; lia|].
    rewrite length_rev, L, length_app. simpl. rewrite length_rev. lia. }
  assert (rev (b ++ [w]) = w :: rev b) as Erev by apply rev_app_distr.
  assert (length (rev (right_words s (w :: rev b))) = S (length b)) as LR by (rewrite length_rev, L; simpl; by rewrite length_rev).
  assert (Forall word_ok (rev (right_words s (w :: rev b)))) as FR by (by apply List.Forall_rev).
  unfold rval in ER. set (rw := rev (right_words s (w :: rev b))) in *.
  set (v := Z.rem w (powers10 s) * powers10 (9 - s)) in *. assert (word_ok v) as Hv.
  { unfold v. apply Forall_app in F as [_ F]. apply Forall_cons in F as [[H1 H2] _]. destruct mini_base as (EB & HA & HC).
    rewrite !powers10_pow, Z.rem_mod_nonneg by lia. pose proof (Z.mod_pos_bound w (10 ^ s) HC). unfold word_ok. rewrite EB. nia. }
  clearbody v. destruct (Z.ltb_spec (9 - ((end_ - 1) mod 9 + 1)) s) as [Hlt|Hge].
  - destruct (pad_first j r) as (x & j' & r' & EA & Lj & Lr); [lia|]. rewrite EA.
    change (w :: x :: ?R) with ([w] ++ x :: R). rewrite (app_assoc _ [w]).
    rewrite (wr_middle _ x) by (rewrite !length_app, length_replicate; simpl; lia). cbn [mbind option_bind].
    rewrite <- (app_assoc _ [w]), <- (app_assoc _ b), (app_assoc b), EW. cbn [mbind option_bind]. rewrite Erev, ES.
    clearbody rw. eexists. split; [done|]. split.
    + rewrite !length_app, LR. simpl length. rewrite !length_app, !length_replicate. simpl length. lia.
    + rewrite <- !app_assoc.
      change (v :: ?R) with ([v] ++ R). rewrite (app_assoc rw). apply block_pad; rewrite ?length_app, ?LR; simpl length; try lia.
      * apply Forall_app. split; [done|]. by constructor.
      * rewrite dval_snoc, ER, <- Z.mul_assoc, <- Z.pow_add_r by lia. do 2 f_equal. lia.
  - cbn [mbind option_bind]. change (w :: ?R) with ([w] ++ R).
    rewrite <- (app_assoc _ b), (app_assoc b), EW. cbn [mbind option_bind]. rewrite Erev, ES.
    clearbody rw. eexists. split; [done|]. split.
    + rewrite !length_app, LR. simpl length. lia.
    + rewrite <- !app_assoc. apply block_pad; rewrite ?LR; try lia; [done|].
      replace (9 * _ - (end_ + s)) with (9 * ROUND_UP end_ - end_ - s) by lia.
      replace (9 * ROUND_UP end_ - end_) with (9 * ROUND_UP end_ - end_ - s + s) in ER by lia.
      rewrite Z.pow_add_r, <- !Z.mul_assoc, <- (Z.pow_add_r 10 s) in ER by lia. replace (s + (9 - s)) with 9 in ER by lia.
      change (10 ^ 9) with DIG_BASE in ER. rewrite Z.mul_assoc in ER. unfold word_ok in Hv.
      set (Y := M * _) in *. clearbody Y. clear -Hv ER. unfold DIG_BASE in *. lia.
Qed.

End mini.

(** *** Shifts by whole words *)

Section move.
Context (buf : list Z) (lo hi beg end_ M : Z).
Context (Hblock : block buf lo hi beg end_ M) (HM : 0 <= M < 10 ^ (end_ - beg)) (Hbe : 0 <= beg < end_).

Lemma split_at {A} (l : list A) n : (n <= length l)%nat ->
  exists l1 l2, l = l1 ++ l2 /\ length l1 = n /\ length l2 = (length l - n)%nat.
Proof.
  intros H. exists (take n l), (drop n l). rewrite take_drop, length_take, length_drop. split_and!; [done|lia|done].
Qed.

Lemma move_left_spec new_front : 9 <= new_front <= beg ->
  let k := new_front / 9 in
  exists buf', move_words buf beg end_ new_front = Some (buf', - k * 9) /\ length buf' = length buf /\
    block buf' (ROUND_UP (beg + 1) - 1 - k) (ROUND_UP end_) (beg - 9 * k) (end_ - 9 * k) M.
Proof.
  intros Hf k. destruct (block_tight _ _ _ _ _ _ Hblock HM Hbe) as (p & i & b & j & r & -> & _ & Hl & Hh & _ & Hb & F & E).
  rewrite app_assoc. set (A := p ++ replicate i 0). set (R := replicate j 0 ++ r).
  assert (length A = length p + i)%nat as LA by (unfold A; by rewrite length_app, length_replicate). clearbody A R.
  pose proof (ROUND_UP_index beg ltac:(lia)) as Ei. pose proof (ROUND_UP_bounds end_ ltac:(lia)) as Bh.
  pose proof (Z.div_mod beg 9 ltac:(lia)) as Ed. pose proof (Z.mod_pos_bound beg 9 ltac:(lia)) as Bd.
  assert (1 <= k <= beg / 9) as Hk by (unfold k; Z.to_euclidean_division_equations; lia).
  unfold move_words. rewrite words_app by lia. cbn [mbind option_bind]. rewrite (proj2 (Z.ltb_lt 0 new_front)) by lia.
  unfold DIG_PER_DEC1. rewrite Z.quot_div_nonneg by lia. fold k. rewrite Ei in *.
  destruct (split_at A (Z.to_nat (beg / 9 - k))) as (A1 & A2 & -> & L1 & L2); [lia|].
  destruct (split_at (A2 ++ b) (length b)) as (m & t & Emt & Lm & Lt); [rewrite length_app; lia|].
  rewrite length_app in Lt, LA. rewrite <- (app_assoc A1), (app_assoc A2), Emt, <- (app_assoc m).
  rewrite store_middle by lia. cbn [mbind option_bind]. rewrite (app_assoc A1).
  rewrite store_middle by (rewrite ?length_app, ?length_replicate; lia). cbn [mbind option_bind].
  eexists. split; [done|]. split.
  - rewrite <- (app_assoc A1), !length_app, length_replicate. lia.
  - rewrite <- (app_assoc A1). apply (block_pad A1 0 b (Z.to_nat k) R); try lia; [done|].
    rewrite E. do 2 f_equal. lia.
Qed.

Lemma move_right_spec new_front : new_front <= 0 ->
  let k := (1 - new_front) / 9 in
  ROUND_UP end_ + k <= Z.of_nat (length buf) ->
  exists buf', move_words buf beg end_ new_front = Some (buf', k * 9) /\ length buf' = length buf /\
    block buf' (ROUND_UP (beg + 1) - 1) (ROUND_UP end_ + k) (beg + 9 * k) (end_ + 9 * k) M.
Proof.
  intros Hf k. destruct (block_tight _ _ _ _ _ _ Hblock HM Hbe) as (p & i & b & j & r & -> & _ & Hl & Hh & _ & Hb & F & E).
  rewrite app_assoc. set (A := p ++ replicate i 0). set (R := replicate j 0 ++ r).
  assert (length A = length p + i)%nat as LA by (unfold A; by rewrite length_app, length_replicate). clearbody A R.
  pose proof (ROUND_UP_bounds (beg + 1) ltac:(lia)) as Bg. pose proof (ROUND_UP_bounds end_ ltac:(lia)) as Bh.
  assert (0 <= k) as Hk by (apply Z.div_pos; lia). intros Hfit. rewrite !length_app in Hfit.
  unfold move_words. rewrite words_app by lia. cbn [mbind option_bind]. rewrite (proj2 (Z.ltb_ge 0 new_front)) by lia.
  unfold DIG_PER_DEC1. rewrite Z.quot_div_nonneg by lia. fold k. clearbody k.
  destruct (split_at R (Z.to_nat k)) as (R1 & R2 & -> & L1 & L2); [lia|].
  destruct (split_at (b ++ R1) (Z.to_nat k)) as (t & m & Etm & Lt & Lm); [rewrite length_app; lia|].
  rewrite length_app in Lm. rewrite (app_assoc b), Etm, <- (app_assoc t), (app_assoc A).
  rewrite store_middle by (rewrite ?length_app; lia). cbn [mbind option_bind]. rewrite <- (app_assoc A).
  rewrite store_middle by (rewrite ?length_replicate; lia). cbn [mbind option_bind].
  eexists. split; [done|]. split.
  - rewrite !length_app, length_replicate. lia.
  - apply (block_pad A (Z.to_nat k) b 0 R2); try lia; [done|]. rewrite E. do 2 f_equal. lia.
Qed.

(** The zeroes between the digits and the point. *)
Lemma fill_gap_spec new_point : 0 <= new_point <= 9 * Z.of_nat (length buf) ->
  let n := if new_point =? 0 then 0 else ROUND_UP new_point - 1 in
  exists buf', fill_gap buf beg end_ new_point = Some buf' /\ length buf' = length buf /\
    block buf' (Z.min (ROUND_UP (beg + 1) - 1) n) (Z.max (ROUND_UP end_) (n + 1)) beg end_ M.
Proof.
  intros Hn n. destruct (block_tight _ _ _ _ _ _ Hblock HM Hbe) as (p & i & b & j & r & E0 & _ & Hl & Hh & _ & Hb & F & E).
  rewrite app_assoc in E0. set (A := p ++ replicate i 0) in *. set (R := replicate j 0 ++ r) in *.
  assert (length A = length p + i)%nat as LA by (unfold A; by rewrite length_app, length_replicate). clearbody A R.
  pose proof (ROUND_UP_bounds (beg + 1) ltac:(lia)) as Bg. pose proof (ROUND_UP_bounds end_ ltac:(lia)) as Bh.
  pose proof (ROUND_UP_bounds new_point ltac:(lia)) as Bn. unfold fill_gap. fold n.
  assert (0 <= n < Z.of_nat (length buf)) as Hn' by (unfold n; rewrite E0, !length_app in *; destruct (Z.eqb_spec new_point 0); lia).
  clearbody n. destruct (Z.ltb_spec (ROUND_UP end_ - 1) n) as [H1|H1].
  - rewrite E0, !length_app in Hn'. destruct (split_at R (Z.to_nat (n - (ROUND_UP end_ - 1)))) as (R1 & R2 & ER & L1 & L2); [lia|].
    rewrite E0, ER, app_assoc, store_middle by (rewrite ?length_app, ?length_replicate; lia). eexists. split; [done|]. split.
    + rewrite !length_app, length_replicate. lia.
    + rewrite <- (app_assoc A). apply (block_pad A 0 b _ R2); try lia; [done|]. rewrite E. do 2 f_equal. lia.
  - destruct (Z.ltb_spec n (ROUND_UP (beg + 1) - 1)) as [H2|H2].
    + destruct (split_at A (Z.to_nat n)) as (A1 & A2 & EA & L1 & L2); [lia|].
      rewrite E0, EA, <- app_assoc, store_middle by (rewrite ?length_replicate; lia). eexists. split; [done|]. split.
      * rewrite !length_app, length_replicate. lia.
      * apply (block_pad A1 _ b 0 R); rewrite ?L1; try lia; [done|]. rewrite E. do 2 f_equal. lia.
    + exists buf. split_and!; [done|done|]. rewrite E0. apply (block_pad A 0 b 0 R); try lia; [done|].
      rewrite E. do 2 f_equal. lia.
Qed.

End move.

(** *** All digits *)

Lemma block_weaken buf lo hi lo' hi' beg end_ M : lo <= lo' -> hi' <= Z.max hi (ROUND_UP end_) -> 0 <= end_ ->
  block buf lo hi beg end_ M -> block buf lo' hi' beg end_ M.
Proof.
  intros H1 H2 H3 (p & b & r & E & Hp & Hp9 & Hh & He & F & V). exists p, b, r.
  pose proof (ROUND_UP_bounds end_ H3). split_and!; try done; lia.
Qed.

(** The point is at the boundary of a word, [T]. *)
Lemma place_digits buf lo hi beg end_ M T : block buf lo hi beg end_ M -> 0 <= M < 10 ^ (end_ - beg) -> 0 <= beg < end_ ->
  let digits_int := Z.max (T * 9 - beg) 0 in
  let digits_frac := Z.max (end_ - T * 9) 0 in
  ROUND_UP digits_int + ROUND_UP digits_frac <= Z.of_nat (length buf) ->
  let new_front := T * 9 - digits_int in
  exists buf', ('(buf, moved) ← (if (9 <=? new_front) || (new_front <? 0) then move_words buf beg end_ new_front
                                 else Some (buf, 0));
                fill_gap buf (beg + moved) (end_ + moved) (T * 9 + moved)) = Some buf' /\ length buf' = length buf /\
    block buf' 0 (ROUND_UP digits_int + ROUND_UP digits_frac)
      (beg + 9 * (ROUND_UP digits_int - T)) (end_ + 9 * (ROUND_UP digits_int - T)) M.
Proof.
  intros Hb HM Hbe di df Hfit nf.
  pose proof (ROUND_UP_bounds di ltac:(lia)) as B1. pose proof (ROUND_UP_bounds df ltac:(lia)) as B2.
  pose proof (ROUND_UP_bounds end_ ltac:(lia)) as Be.
  assert (exists buf1 lo1 hi1 k, (if (9 <=? nf) || (nf <? 0) then move_words buf beg end_ nf else Some (buf, 0)) = Some (buf1, 9 * k) /\
    length buf1 = length buf /\ block buf1 lo1 hi1 (beg + 9 * k) (end_ + 9 * k) M /\ ROUND_UP di = T + k /\ 0 <= beg + 9 * k)
    as (buf1 & lo1 & hi1 & k & -> & L1 & Hb1 & Ek & Hk).
  { destruct (Z.leb_spec 9 nf) as [H9|H9]; [|destruct (Z.ltb_spec nf 0) as [H0|H0]]; cbn [orb].
    - destruct (move_left_spec _ _ _ _ _ _ Hb HM Hbe nf) as (buf1 & -> & L1 & Hb1); [lia|].
      pose proof (Z.div_mod nf 9 ltac:(lia)) as Ed. pose proof (Z.mod_pos_bound nf 9 ltac:(lia)) as Bd.
      exists buf1, (ROUND_UP (beg + 1) - 1 - nf / 9), (ROUND_UP end_), (- (nf / 9)). split_and!; try done; try lia.
      + do 2 f_equal. lia.
      + by replace (beg + 9 * - (nf / 9)) with (beg - 9 * (nf / 9)) by lia;
          replace (end_ + 9 * - (nf / 9)) with (end_ - 9 * (nf / 9)) by lia.
    - assert ((1 - nf) / 9 = - T) as EK by (symmetry; apply Z.div_unique with 1; lia).
      destruct (move_right_spec _ _ _ _ _ _ Hb HM Hbe nf) as (buf1 & -> & L1 & Hb1); [lia|rewrite EK; lia|].
      rewrite EK in *. exists buf1, (ROUND_UP (beg + 1) - 1), (ROUND_UP end_ + - T), (- T).
      split_and!; try done; try lia. do 2 f_equal. lia.
    - exists buf, lo, hi, 0. rewrite !Z.add_0_r. split_and!; try done; lia. }
  cbn [mbind option_bind]. replace (T * 9 + 9 * k) with (9 * (T + k)) by lia. rewrite <- Ek.
  replace (ROUND_UP di - T) with k by lia.
  destruct (fill_gap_spec buf1 lo1 hi1 (beg + 9 * k) (end_ + 9 * k) M Hb1) with (new_point := 9 * ROUND_UP di)
    as (buf' & -> & L' & Hb'); [by replace (end_ + 9 * k - (beg + 9 * k)) with (end_ - beg) by lia|lia|rewrite L1; lia|].
  exists buf'. split_and!; [done|lia|]. eapply block_weaken; [| | |exact Hb'].
  - destruct (Z.eqb_spec (9 * ROUND_UP di) 0) as [E0|E0]; [lia|].
    pose proof (ROUND_UP_bounds (beg + 9 * k + 1) ltac:(lia)). lia.
  - pose proof (ROUND_UP_bounds (end_ + 9 * k) ltac:(lia)).
    destruct (Z.eqb_spec (9 * ROUND_UP di) 0) as [E0|E0]; [lia|].
    pose proof (ROUND_UP_bounds (9 * ROUND_UP di) ltac:(lia)). lia.
  - lia.
Qed.

Section digits.
Context (buf : list Z) (hi beg end_ M P shift : Z).
Context (Hblock : block buf 0 hi beg end_ M) (HM : 0 <= M < 10 ^ (end_ - beg)) (Hbe : 0 <= beg < end_).
Context (HP : 0 <= P <= hi).

Let len := Z.of_nat (length buf).
Let new_point := P * 9 + shift.
Let digits_int := Z.max (new_point - beg) 0.
Let digits_frac := Z.max (end_ - new_point) 0.

Context (Hfit : ROUND_UP digits_int + ROUND_UP digits_frac <= len).

Lemma digits_end : end_ <= 9 * len.
Proof.
  destruct Hblock as (p & b & r & E & _ & _ & _ & He & _). unfold len. rewrite E, !length_app. lia.
Qed.

Lemma mini_shift_spec : Z.rem shift 9 <> 0 ->
  exists buf' m, mini_shift buf len shift beg end_ = Some (buf', m) /\ length buf' = length buf /\
    block buf' 0 hi (beg + m) (end_ + m) M /\ (9 | shift + m) /\ 0 <= beg + m.
Proof.
  intros Hr. pose proof digits_end as He.
  pose proof (ROUND_UP_bounds digits_int ltac:(lia)) as B1. pose proof (ROUND_UP_bounds digits_frac ltac:(lia)) as B2.
  unfold mini_shift, DIG_PER_DEC1. destruct (Z.ltb_spec 0 shift) as [Hs|Hs].
  - rewrite Z.rem_mod_nonneg in * by lia. pose proof (Z.mod_pos_bound shift 9 ltac:(lia)) as Bs.
    pose proof (Z.div_mod shift 9 ltac:(lia)) as Es. set (l := shift mod 9) in *. set (q := shift / 9) in *. clearbody l q.
    destruct (Z.leb_spec l beg) as [Hl|Hl].
    + destruct (mini_left_spec l ltac:(lia) buf 0 hi beg end_ M Hblock HM Hbe Hl) as (buf' & -> & L & B).
      exists buf', (- l). split_and!; try done; [exists q; lia|lia].
    + destruct (mini_right_spec (9 - l) ltac:(lia) buf 0 hi beg end_ M Hblock HM Hbe) as (buf' & -> & L & B).
      { fold len. unfold digits_int, digits_frac, new_point in *. lia. }
      exists buf', (9 - l). split_and!; try done; [exists (q + 1); lia|lia].
  - assert (Z.rem (- shift) 9 = (- shift) mod 9) as Er by (apply Z.rem_mod_nonneg; lia).
    rewrite Z.rem_opp_l in Er by lia. rewrite Z.rem_opp_l, Er by lia.
    pose proof (Z.mod_pos_bound (- shift) 9 ltac:(lia)) as Bs. pose proof (Z.div_mod (- shift) 9 ltac:(lia)) as Es.
    set (l := (- shift) mod 9) in *. set (q := (- shift) / 9) in *. clearbody l q.
    destruct (Z.leb_spec l (len * 9 - end_)) as [Hl|Hl].
    + destruct (mini_right_spec l ltac:(lia) buf 0 hi beg end_ M Hblock HM Hbe) as (buf' & -> & L & B); [lia|].
      exists buf', l. split_and!; try done; [exists (- q); lia|lia].
    + destruct (mini_left_spec (9 - l) ltac:(lia) buf 0 hi beg end_ M Hblock HM Hbe) as (buf' & -> & L & B).
      { unfold digits_int, digits_frac, new_point in *. lia. }
      exists buf', (- (9 - l)). replace (beg + - (9 - l)) with (beg - (9 - l)) by lia.
      split_and!; try done; [exists (- q - 1); lia|].
      unfold digits_int, digits_frac, new_point in *. lia.
Qed.

Lemma shift_digits_spec :
  exists buf', shift_digits buf len shift beg end_ new_point digits_int = Some buf' /\ length buf' = length buf /\
    block buf' 0 (ROUND_UP digits_int + ROUND_UP digits_frac)
      (beg - new_point + 9 * ROUND_UP digits_int) (end_ - new_point + 9 * ROUND_UP digits_int) M.
Proof.
  unfold shift_digits, DIG_PER_DEC1.
  assert (exists buf1 m, (if Z.rem shift 9 =? 0 then Some (buf, 0) else mini_shift buf len shift beg end_) = Some (buf1, m) /\
    length buf1 = length buf /\ block buf1 0 hi (beg + m) (end_ + m) M /\ (9 | shift + m) /\ 0 <= beg + m)
    as (buf1 & m & -> & L1 & Hb1 & [T ET] & Hm).
  { destruct (Z.eqb_spec (Z.rem shift 9) 0) as [E0|E0]; [|by apply mini_shift_spec].
    exists buf, 0. rewrite !Z.add_0_r. split_and!; try done; [|lia]. by apply Z.rem_divide. }
  cbn [mbind option_bind]. replace (new_point + m) with ((P + T) * 9) by (unfold new_point; lia).
  assert (0 <= M < 10 ^ (end_ + m - (beg + m))) as HM1 by (by replace (end_ + m - (beg + m)) with (end_ - beg) by lia).
  assert (Z.max ((P + T) * 9 - (beg + m)) 0 = digits_int) as Ei by (unfold digits_int, new_point; lia).
  assert (Z.max (end_ + m - (P + T) * 9) 0 = digits_frac) as Ef by (unfold digits_frac, new_point; lia).
  pose proof (ROUND_UP_bounds digits_int ltac:(lia)) as B1. pose proof (ROUND_UP_bounds digits_frac ltac:(lia)) as B2.
  destruct (negb _ && (shift + m =? 0) && _) eqn:Ec.
  - apply andb_true_iff in Ec as [Ec Hlt%Z.ltb_lt]. apply andb_true_iff in Ec as [_ Ez%Z.eqb_eq].
    assert (ROUND_UP digits_int = P) as EP by (unfold digits_int, new_point in *; lia).
    exists buf1. split_and!; [done|done|]. pose proof (ROUND_UP_bounds (end_ + m) ltac:(lia)).
    replace (beg - new_point + 9 * ROUND_UP digits_int) with (beg + m) by (unfold new_point; lia).
    replace (end_ - new_point + 9 * ROUND_UP digits_int) with (end_ + m) by (unfold new_point; lia).
    eapply block_weaken; [done| |lia|exact Hb1]. unfold digits_frac, new_point in *. lia.
  - destruct (place_digits buf1 0 hi (beg + m) (end_ + m) M (P + T) Hb1 HM1 ltac:(lia)) as (buf' & E & L & Hb');
      rewrite ?Ei, ?Ef in *; [unfold len in Hfit; lia|].
    exists buf'. split_and!; [exact E|lia|].
    replace (beg - new_point + 9 * ROUND_UP digits_int) with (beg + m + 9 * (ROUND_UP digits_int - (P + T)))
      by (unfold new_point; lia).
    by replace (end_ - new_point + 9 * ROUND_UP digits_int) with (end_ + m + 9 * (ROUND_UP digits_int - (P + T)))
      by (unfold new_point; lia).
Qed.

End digits.

(** ** The bounds of the digits *)

Lemma zero_words_spec ws :
  exists z t, zero_words ws = Z.of_nat z /\ ws = replicate z 0 ++ t /\ (t = [] \/ exists w t', t = w :: t' /\ w <> 0).
Proof.
  induction ws as [|w ws (z & t & E & -> & Ht)]; cbn [zero_words].
  - exists 0%nat, []. split_and!; [done..|by left].
  - destruct (Z.eqb_spec w 0) as [->|Hw].
    + exists (S z), t. rewrite E. split_and!; [lia|done|done].
    + eexists 0%nat, _. split_and!; [done|done|]. right. by eexists _, _.
Qed.

(** The first power of ten that does not divide the word. *)
Lemma trailing_zero_step i val : 1 <= i -> (10 ^ (i - 1) | val) -> val mod 10 ^ i <> 0 ->
  exists q, val = q * 10 ^ (i - 1) /\ q mod 10 <> 0.
Proof.
  intros Hi [q ->] Hm. exists q. split; [done|]. intros E. apply Hm.
  replace i with (1 + (i - 1)) at 2 by lia. rewrite Z.pow_add_r by lia.
  rewrite Z.mul_mod_distr_r by (try apply Z.pow_nonzero; lia). change (10 ^ 1) with 10. by rewrite E.
Qed.

Lemma count_trailing_zeroes_spec i val : 1 <= i <= 9 -> word_ok val -> val <> 0 -> (10 ^ (i - 1) | val) ->
  let c := i - 1 + count_trailing_zeroes i val in
  0 <= c <= 8 /\ exists q, val = q * 10 ^ c /\ q mod 10 <> 0.
Proof.
  unfold count_trailing_zeroes. intros Hi [Hv1 Hv2] Hne Hd. remember (Z.to_nat (9 - i)) as fuel eqn:Ef.
  revert i Hi Hd Ef. induction fuel as [|fuel IH]; intros i Hi Hd Ef; cbn [count_trailing_zeroes_from]; cbv zeta;
    rewrite powers10_pow, Z.rem_mod_nonneg by lia.
  - assert (i = 9) as -> by lia. change (10 ^ 9) with DIG_BASE. rewrite Z.mod_small by lia.
    rewrite (proj2 (Z.eqb_neq val 0) Hne). cbn [negb]. rewrite Z.add_0_r. split; [done|].
    apply trailing_zero_step; [done|done|]. change (10 ^ 9) with DIG_BASE. by rewrite Z.mod_small by lia.
  - destruct (Z.eqb_spec (val mod 10 ^ i) 0) as [E|E]; cbn [negb].
    + destruct (IH (i + 1)) as [Hc Hq]; [lia| |lia|].
      { replace (i + 1 - 1) with i by lia. apply Z.mod_divide; [|done]. apply Z.pow_nonzero; lia. }
      replace (i - 1 + (1 + count_trailing_zeroes_from fuel (i + 1) val))
        with (i + 1 - 1 + count_trailing_zeroes_from fuel (i + 1) val) by lia. done.
    + rewrite Z.add_0_r. split; [lia|]. apply trailing_zero_step; [lia|done|done].
Qed.

(** The number of digits of a word, as the code counts it. *)
Lemma word_digits i w : 1 <= i <= 9 -> 0 < w < 10 ^ i ->
  let c := count_leading_zeroes (i - 1) w in 0 <= c < i /\ 10 ^ (i - c - 1) <= w < 10 ^ (i - c).
Proof.
  intros Hi Hw. unfold count_leading_zeroes.
  destruct (count_leading_zeroes_from_spec (Z.to_nat (i - 1)) w) as [Hc Hb]; [lia|by replace (Z.of_nat (Z.to_nat (i - 1)) + 1) with i by lia|].
  cbv zeta. set (c := count_leading_zeroes_from _ _) in *. clearbody c.
  replace (i - c - 1) with (Z.of_nat (Z.to_nat (i - 1)) - c) by lia.
  replace (i - c) with (Z.of_nat (Z.to_nat (i - 1)) + 1 - c) by lia. split; [lia|done].
Qed.

(** The words without zero words around them: where the digits start and end, and
    the number they make. *)
Lemma core_digits w t x e dw tz q : Forall word_ok (w :: t) -> w :: t = e ++ [x] ->
  1 <= dw -> 10 ^ (dw - 1) <= w < 10 ^ dw -> 0 <= tz <= 8 -> x = q * 10 ^ tz -> q mod 10 <> 0 ->
  tz < 9 * Z.of_nat (length t) + dw /\ exists M, dval (w :: t) = M * 10 ^ tz /\ M mod 10 <> 0 /\
    10 ^ (9 * Z.of_nat (length t) + dw - tz - 1) <= M < 10 ^ (9 * Z.of_nat (length t) + dw - tz).
Proof.
  intros F Ee Hd Hw Htz -> Hq.
  assert (0 < 10 ^ tz) as HP by (apply Z.pow_pos_nonneg; lia).
  assert (DIG_BASE = 10 ^ (9 - tz) * 10 ^ tz) as EB.
  { rewrite <- Z.pow_add_r by lia. by replace (9 - tz + tz) with 9 by lia. }
  assert (dval (w :: t) = (dval e * 10 ^ (9 - tz) + q) * 10 ^ tz) as E by (rewrite Ee, dval_snoc, EB; ring).
  assert (tz < 9 * Z.of_nat (length t) + dw) as Hlt.
  { destruct t as [|]; [|simpl length; lia]. destruct e as [|? e]; [|by destruct e]. simplify_eq/=.
    destruct (Z.le_gt_cases dw tz) as [Hle|]; [|lia]. assert (10 ^ dw <= 10 ^ tz) by (apply Z.pow_le_mono_r; lia).
    assert (0 < 10 ^ (dw - 1)) by (apply Z.pow_pos_nonneg; lia).
    assert (0 < q) by nia. nia. }
  split; [done|]. exists (dval e * 10 ^ (9 - tz) + q). split; [done|]. split.
  - replace (9 - tz) with (8 - tz + 1) by lia. rewrite Z.pow_add_r by lia. change (10 ^ 1) with 10.
    rewrite Z.mul_assoc, Z.add_comm, Z_mod_plus_full. done.
  - set (M := dval e * 10 ^ (9 - tz) + q) in *. clearbody M. apply Forall_cons in F as [_ F]. pose proof (dval_bounds t F) as Bt.
    rewrite dval_cons, DIG_BASE_pow in E by lia. rewrite DIG_BASE_pow in Bt by lia.
    set (n := 9 * Z.of_nat (length t)) in *. assert (0 < 10 ^ n) as Hn by (apply Z.pow_pos_nonneg; lia).
    split; [apply (Z.mul_le_mono_pos_r _ _ (10 ^ tz))|apply (Z.mul_lt_mono_pos_r (10 ^ tz))]; try done;
      rewrite <- E, <- Z.pow_add_r by lia.
    + replace (n + dw - tz - 1 + tz) with (dw - 1 + n) by lia. rewrite Z.pow_add_r by lia. nia.
    + replace (n + dw - tz + tz) with (dw + n) by lia. rewrite Z.pow_add_r by lia. nia.
Qed.

(** The first word that is not zero, at index [z]: how many digits it has. *)
Lemma first_digits_start d z w t : dec_wf d -> dec_words d = replicate z 0 ++ w :: t -> w <> 0 ->
  exists dw, 1 <= dw /\ 10 ^ (dw - 1) <= w < 10 ^ dw /\
    (let '(start, i) := if (Z.of_nat z =? 0) && negb (d_intg d =? 0)
       then (9 - (Z.rem (d_intg d - 1) 9 + 1), Z.rem (d_intg d - 1) 9 + 1 - 1) else (Z.of_nat z * 9, 9 - 1) in
     start + count_leading_zeroes i w) = 9 * Z.of_nat z + 9 - dw /\ dw <= 9.
Proof.
  intros Hd E Hne. pose proof (wf_words d Hd) as F. rewrite E in F. apply Forall_app in F as [_ F].
  apply Forall_cons in F as [[Hw1 Hw2] _]. pose proof (wf_intg d Hd).
  destruct (_ && _) eqn:Ec.
  - apply andb_true_iff in Ec as [Hz%Z.eqb_eq Hi%negb_true_iff%Z.eqb_neq]. assert (z = 0%nat) as -> by lia.
    pose proof (first_word_digits d w t Hd E ltac:(lia)) as Hb.
    set (i := Z.rem (d_intg d - 1) 9 + 1) in *.
    assert (1 <= i <= 9 /\ d_intg d - 9 * (ROUND_UP (d_intg d) - 1) = i) as [Hi9 Ei].
    { unfold i. rewrite Z.rem_mod_nonneg, ROUND_UP_nonneg by lia. Z.to_euclidean_division_equations. lia. }
    rewrite Ei in Hb. destruct (word_digits i w Hi9 ltac:(lia)) as [Hc HB]. exists (i - count_leading_zeroes (i - 1) w).
    split_and!; try done; lia.
  - destruct (word_digits 9 w ltac:(lia)) as [Hc HB]; [by split; [lia|]|].
    exists (9 - count_leading_zeroes (9 - 1) w). split_and!; try done; lia.
Qed.

(** The last word that is not zero, at index [k] of [n]: its trailing zeroes. *)
Lemma last_digits_stop d e x y n : dec_wf d -> dec_words d = e ++ x :: replicate y 0 -> x <> 0 ->
  n = ROUND_UP (d_intg d) + ROUND_UP (d_frac d) -> let k := n - 1 - Z.of_nat y in
  exists tz q, 0 <= tz <= 8 /\ x = q * 10 ^ tz /\ q mod 10 <> 0 /\ k = Z.of_nat (length e) /\
    (let '(stop, j) := if (k =? n - 1) && negb (d_frac d =? 0)
       then (k * 9 + (Z.rem (d_frac d - 1) 9 + 1), 9 - (Z.rem (d_frac d - 1) 9 + 1) + 1) else ((k + 1) * 9, 1) in
     stop - count_trailing_zeroes j x) = 9 * (k + 1) - tz.
Proof.
  intros Hd E Hne -> k. pose proof (dec_words_length d Hd) as L. pose proof (wf_words d Hd) as F. rewrite E in F.
  apply Forall_app in F as [_ F]. apply Forall_cons in F as [Hx _]. pose proof (wf_frac d Hd).
  rewrite E, length_app in L. simpl length in L. rewrite length_replicate in L.
  assert (k = Z.of_nat (length e)) as Ek by lia.
  destruct (_ && _) eqn:Ec.
  - apply andb_true_iff in Ec as [Hz%Z.eqb_eq Hf%negb_true_iff%Z.eqb_neq]. assert (y = 0%nat) as -> by lia.
    set (i := Z.rem (d_frac d - 1) 9 + 1) in *.
    assert (1 <= i <= 9 /\ 9 * ROUND_UP (d_frac d) - d_frac d = 9 - i) as [Hi9 Ei].
    { unfold i. rewrite Z.rem_mod_nonneg, ROUND_UP_nonneg by lia. Z.to_euclidean_division_equations. lia. }
    destruct (count_trailing_zeroes_spec (9 - i + 1) x) as (Hc & q & Eq & Hq); [lia|done|done| |].
    { replace (9 - i + 1 - 1) with (9 - i) by lia. rewrite <- Ei. pose proof (wf_aligned d Hd) as [v Ev].
      unfold dec_val in Ev. rewrite E, dval_app in Ev. simpl replicate in Ev.
      assert ((10 ^ (9 * ROUND_UP (d_frac d) - d_frac d) | DIG_BASE)) as [u Eu].
      { exists (10 ^ i). rewrite Ei, <- Z.pow_add_r by lia. by replace (i + (9 - i)) with 9 by lia. }
      exists (v - dval e * u). change (DIG_BASE ^ Z.of_nat (length [x])) with DIG_BASE in Ev. unfold dval at 2 in Ev. simpl in Ev. lia. }
    eexists _, q. split_and!; [apply Hc..|done|done|done|]. lia.
  - destruct (count_trailing_zeroes_spec 1 x) as (Hc & q & Eq & Hq); [lia|done|done|by exists x; change (10 ^ (1 - 1)) with 1; lia|].
    eexists _, q. split_and!; [apply Hc..|done|done|done|]. lia.
Qed.

(** [M] has no zeroes at its ends. *)
Definition digits_at (d : decimal_t) (beg end_ M : Z) : Prop :=
  let n := ROUND_UP (d_intg d) + ROUND_UP (d_frac d) in
  0 <= beg < end_ /\ end_ <= 9 * n /\ dec_val d = M * 10 ^ (9 * n - end_) /\ M mod 10 <> 0 /\
  10 ^ (end_ - beg - 1) <= M < 10 ^ (end_ - beg).

Lemma digits_bounds_spec d : dec_wf d ->
  (dec_val d = 0 /\ digits_bounds d = Some (0, 0)) \/
  exists beg end_ M, digits_bounds d = Some (beg, end_) /\ digits_at d beg end_ M.
Proof.
  intros Hd. pose proof (dec_words_length d Hd) as L. unfold digits_bounds.
  set (n := ROUND_UP (d_intg d) + ROUND_UP (d_frac d)) in *.
  assert (words (d_buf d) 0 n = Some (dec_words d)) as ->.
  { rewrite dec_buf_words. change (dec_words d ++ ?R) with ([] ++ dec_words d ++ R). apply words_app; simpl; lia. }
  cbn [mbind option_bind]. destruct (zero_words_spec (dec_words d)) as (z & t0 & Ez & E & Ht). rewrite Ez.
  rewrite E, length_app, length_replicate in L. destruct Ht as [->|(w & t & -> & Hw)].
  - left. rewrite (proj2 (Z.leb_le n _)) by (simpl in L; lia). split; [|done].
    unfold dec_val. rewrite E, app_nil_r. apply dval_zeroes.
  - right. simpl length in L. rewrite (proj2 (Z.leb_gt n _)) by lia.
    pose proof (dec_buf_words d) as EB. set (R := drop _ (d_buf d)) in EB. clearbody R.
    assert (rd (d_buf d) (Z.of_nat z) = Some w) as ->.
    { rewrite EB, E, <- app_assoc. apply rd_middle. by rewrite length_replicate. }
    cbn [mbind option_bind]. replace (drop (Z.to_nat (Z.of_nat z + 1)) (dec_words d)) with t.
    2:{ rewrite E. change (w :: t) with ([w] ++ t). rewrite app_assoc, drop_app_length'; [done|].
        rewrite length_app, length_replicate. simpl. lia. }
    destruct (zero_words_spec (rev t)) as (y & r & Ey & Er & Hr). rewrite Ey.
    assert (t = rev r ++ replicate y 0) as Et by (rewrite <- (rev_involutive t), Er, rev_app_distr; by rewrite rev_zeroes).
    assert (exists e x, w :: rev r = e ++ [x] /\ x <> 0) as (e & x & Ee & Hx).
    { destruct Hr as [->|(x & r' & -> & Hx)]; [by exists [], w|]. exists (w :: rev r'), x. by split. }
    assert (dec_words d = (replicate z 0 ++ e) ++ x :: replicate y 0) as E'.
    { rewrite E, Et, app_comm_cons, Ee, <- !app_assoc. done. }
    destruct (first_digits_start d z w t Hd E Hw) as (dw & Hdw & Bw & Es & Hdw9). unfold DIG_PER_DEC1.
    destruct (last_digits_stop d (replicate z 0 ++ e) x y n Hd E' Hx eq_refl) as (tz & q & Htz & Eq & Hq & Ek & Est).
    cbv zeta in *. rewrite Ek in *. clear Ek.
    replace (rd (d_buf d) _) with (Some x) by (symmetry; rewrite EB, E', <- app_assoc; by apply rd_middle).
    cbn [mbind option_bind].
    match goal with |- context [let '(start, i) := ?g in _] => destruct g as [start i] end.
    match goal with |- context [let '(stop, j) := ?g in _] => destruct g as [stop j] end.
    rewrite Es, Est. rewrite length_app, length_replicate.
    assert (length e = length r) as Le.
    { apply (f_equal length) in Ee. rewrite length_app in Ee. simpl in Ee. rewrite length_rev in Ee. lia. }
    assert (length t = length r + y)%nat as Lt by (rewrite Et, length_app, length_rev, length_replicate; done).
    assert (Forall word_ok (w :: rev r)) as F.
    { pose proof (wf_words d Hd) as F. rewrite E, Et, app_comm_cons in F. apply Forall_app in F as [_ F]. by apply Forall_app in F as [F _]. }
    destruct (core_digits w (rev r) x e dw tz q) as (Htd & M & EM & HM & BM); try done. rewrite length_rev, <- Le in Htd, BM.
    exists (9 * Z.of_nat z + 9 - dw), (9 * (Z.of_nat (z + length e) + 1) - tz), M. split; [done|]. unfold digits_at. fold n.
    split; [lia|]. split; [lia|]. split; [|split; [done|]].
    + unfold dec_val. rewrite E, Et, app_comm_cons, dval_pad, EM, DIG_BASE_pow, <- Z.mul_assoc, <- Z.pow_add_r by lia. do 2 f_equal. lia.
    + replace (9 * (Z.of_nat (z + length e) + 1) - tz - (9 * Z.of_nat z + 9 - dw)) with (9 * Z.of_nat (length e) + dw - tz) by lia. done.
Qed.
