(* ===== verification/DecimalShifting.v ===== *)
(** * Fixed-point decimals: correctness of the multiplication by a power of ten

    [decimal_shift] against the product with a power of ten: exact where the digits
    fit, rounded half up where they do not, and an overflow where the integer part
    does not fit. *)

From Stdlib Require Import ZArith Lia QArith Qround Qabs Qpower.
From stdpp Require Import base numbers option tactics list.
From S2P Require Import Prelude Decimal DecimalArith DecimalRound DecimalRounding DecimalShift.

#[local] Open Scope Z_scope.

(** ** The digits of a decimal *)

Lemma digits_block d beg end_ M : dec_wf d -> digits_at d beg end_ M ->
  block (d_buf d) 0 (ROUND_UP (d_intg d) + ROUND_UP (d_frac d)) beg end_ M.
Proof.
  intros Hd (Hbe & He & E & _ & _). pose proof (dec_words_length d Hd) as L.
  exists [], (dec_words d), (drop (length (dec_words d)) (d_buf d)). simpl length.
  split_and!; [apply dec_buf_words|done|lia|simpl; lia|simpl; lia|apply Hd|].
  fold (dec_val d). rewrite E. do 2 f_equal. simpl. lia.
Qed.

Lemma digits_Q d beg end_ M : dec_wf d -> digits_at d beg end_ M ->
  (dec_Q d == inject_Z (sgn d * M) * Q10 (9 * ROUND_UP (d_intg d) - end_))%Q.
Proof.
  intros Hd (Hbe & He & E & _ & _). replace (9 * _ - end_) with (- (end_ - 9 * ROUND_UP (d_intg d))) by lia.
  apply (dec_Q_shift d _ _ (ROUND_UP (d_frac d))); [done|done|lia|].
  unfold dec_sval, sgn. rewrite E. replace (9 * ROUND_UP (d_frac d) - (end_ - 9 * ROUND_UP (d_intg d)))
    with (9 * (ROUND_UP (d_intg d) + ROUND_UP (d_frac d)) - end_) by lia. destruct (d_sign d); ring.
Qed.

(** The digits of a decimal after the shift, [x] of them before the point. *)
Lemma shifted_decimal buf len sign x y M : let di := Z.max x 0 in let df := Z.max y 0 in
  len = Z.of_nat (length buf) -> 0 < x + y -> 0 < M < 10 ^ (x + y) -> ROUND_UP di + ROUND_UP df <= len ->
  block buf 0 (ROUND_UP di + ROUND_UP df) (9 * ROUND_UP di - x) (9 * ROUND_UP di + y) M ->
  let d := mk_decimal di df len sign buf in
  dec_wf d /\ dec_val d <> 0 /\ (dec_Q d == inject_Z (sgn d * M) * Q10 (- y))%Q.
Proof.
  intros di df Hlen Hxy HM Hfit Hb d.
  pose proof (ROUND_UP_bounds di ltac:(lia)) as Bi. pose proof (ROUND_UP_bounds df ltac:(lia)) as Bf.
  set (n := ROUND_UP di + ROUND_UP df) in *.
  destruct (block_trim buf 0 n _ _ M 0 n Hb) as (p & i & b & j & r & E & Hp & Hi & Hn & _ & F & V); try lia.
  { replace (9 * ROUND_UP di + y - (9 * ROUND_UP di - x)) with (x + y) by lia. lia. }
  assert (p = [] /\ i = 0%nat) as [-> ->] by (split; [destruct p; [done|simpl in *; lia]|lia]).
  simpl in E, Hn. set (rest := replicate j 0 ++ r) in *.
  assert (dval b = M * 10 ^ (9 * ROUND_UP df - y)) as EV by (rewrite V; do 2 f_equal; unfold n; lia).
  assert (0 < 10 ^ (9 * ROUND_UP df - y)) as HP by (apply Z.pow_pos_nonneg; lia).
  assert (dec_wf d /\ dec_val d = dval b) as [W Ev].
  { unfold d. rewrite E. apply mk_decimal_wf; try lia; try done.
    - rewrite Hlen, E, !length_app. lia.
    - rewrite EV. apply Z.lt_le_trans with (10 ^ (x + y) * 10 ^ (9 * ROUND_UP df - y)).
      + apply Z.mul_lt_mono_pos_r; lia.
      + rewrite <- Z.pow_add_r by lia. apply Z.pow_le_mono_r; lia.
    - rewrite EV. apply Z.divide_mul_r. exists (10 ^ (df - y)). rewrite <- Z.pow_add_r by lia. f_equal. lia. }
  split_and!; [done|rewrite Ev, EV; nia|].
  apply (dec_Q_shift d _ _ (ROUND_UP df)); [done|done|lia|]. unfold dec_sval, sgn. rewrite Ev, EV. destruct (d_sign d); ring.
Qed.

(** A shift for which no [int] overflows. *)
Definition shift_small (d : decimal_t) (shift : Z) : Prop := Z.abs shift + 18 * d_len d + 9 < 2 ^ 31.

Lemma shift_small_ints d shift : dec_wf d -> shift_small d shift ->
  int_ok (ROUND_UP (d_intg d) * 9 + shift) = true /\
  forall beg end_ M, digits_at d beg end_ M -> shift_ints (ROUND_UP (d_intg d) * 9 + shift) beg end_ = true.
Proof.
  intros Hd Hs. unfold shift_small in Hs. pose proof (wf_fit d Hd). pose proof (wf_intg_words d Hd). pose proof (wf_frac_words d Hd).
  assert (forall z, - 2 ^ 31 <= z < 2 ^ 31 -> int_ok z = true) as Hok.
  { intros z Hz. unfold int_ok. by rewrite (proj2 (Z.leb_le _ _)), (proj2 (Z.ltb_lt _ _)) by lia. }
  split; [apply Hok; lia|]. intros beg end_ M (Hb & He & _). unfold shift_ints, DIG_PER_DEC1. rewrite !Hok by lia. done.
Qed.

(** Where the digits fit. *)
Lemma decimal_shift_exact d shift beg end_ M : dec_wf d -> shift_small d shift -> shift <> 0 -> digits_bounds d = Some (beg, end_) ->
  digits_at d beg end_ M ->
  let np := ROUND_UP (d_intg d) * 9 + shift in
  ROUND_UP (Z.max (np - beg) 0) + ROUND_UP (Z.max (end_ - np) 0) <= d_len d ->
  exists d', decimal_shift d shift = Some (d', E_DEC_OK) /\ dec_wf d' /\ d_len d' = d_len d /\ d_sign d' = d_sign d /\
    dec_val d' <> 0 /\ (dec_Q d' == inject_Z (sgn d * M) * Q10 (- (end_ - np)))%Q.
Proof.
  intros Hd Hsm Hs Eb Ha np Hfit. destruct (shift_small_ints d shift Hd Hsm) as [I1 I2]. specialize (I2 _ _ _ Ha).
  pose proof (digits_block d beg end_ M Hd Ha) as Hb. destruct Ha as (Hbe & He & E & Hm & HM).
  pose proof (wf_room d Hd) as [_ Hlen]. pose proof (wf_intg_words d Hd). pose proof (wf_frac_words d Hd).
  assert (0 < 10 ^ (end_ - beg - 1)) by (apply Z.pow_pos_nonneg; lia).
  unfold decimal_shift, DIG_PER_DEC1. rewrite I1, (proj2 (Z.eqb_neq shift 0) Hs), Eb. cbn [negb mbind option_bind].
  rewrite (proj2 (Z.eqb_neq beg end_)), I2 by lia. cbn [negb]. fold np. rewrite (proj2 (Z.ltb_ge (d_len d) _) Hfit).
  destruct (shift_digits_spec (d_buf d) (ROUND_UP (d_intg d) + ROUND_UP (d_frac d)) beg end_ M (ROUND_UP (d_intg d)) shift)
    as (buf & Es & L & Hb'); [done|lia|lia|lia|by rewrite <- Hlen|].
  fold np in Es, Hb'. rewrite Hlen, Es. cbn [mbind option_bind]. rewrite <- Hlen. eexists. split; [done|].
  destruct (shifted_decimal buf (d_len d) (d_sign d) (np - beg) (end_ - np) M) as (W & Hv & Q); try done; try lia.
  - replace (np - beg + (end_ - np)) with (end_ - beg) by lia. lia.
  - replace (9 * ROUND_UP (Z.max (np - beg) 0) - (np - beg)) with (beg - np + 9 * ROUND_UP (Z.max (np - beg) 0)) by lia.
    by replace (9 * ROUND_UP (Z.max (np - beg) 0) + (end_ - np)) with (end_ - np + 9 * ROUND_UP (Z.max (np - beg) 0)) by lia.
Qed.

(** ** Digits that are lost *)

Lemma round_mag_scale mode sign v D X : 0 < D -> 0 < X -> round_mag mode sign (v * X) (D * X) = round_mag mode sign v D.
Proof.
  intros HD HX. unfold round_mag. rewrite Z.div_mul_cancel_r, Z.mul_mod_distr_r by lia. f_equal. f_equal.
  unfold rounds_up. destruct mode; try done.
  - destruct (Z.leb_spec D (2 * (v mod D))), (Z.leb_spec (D * X) (2 * (v mod D * X))); try done; nia.
  - f_equal. f_equal. destruct (Z.eqb_spec (v mod D * X) 0), (Z.eqb_spec (v mod D) 0); try done; nia.
  - f_equal. f_equal. destruct (Z.eqb_spec (v mod D * X) 0), (Z.eqb_spec (v mod D) 0); try done; nia.
Qed.

(** The digits lie in the parts of the number. *)
Lemma digits_inside d beg end_ M : dec_wf d -> digits_at d beg end_ M ->
  9 * ROUND_UP (d_intg d) - d_intg d <= beg /\ end_ - 9 * ROUND_UP (d_intg d) <= d_frac d.
Proof.
  intros Hd (Hbe & He & E & Hm & HM). pose proof (ROUND_UP_bounds _ (wf_intg d Hd)) as Bi.
  pose proof (ROUND_UP_bounds _ (wf_frac d Hd)) as Bf. set (P := ROUND_UP (d_intg d)) in *. set (F := ROUND_UP (d_frac d)) in *.
  split.
  - pose proof (wf_top d Hd) as Ht. fold F in Ht. rewrite E in Ht. destruct (Z.le_gt_cases (9 * P - d_intg d) beg) as [|Hlt]; [done|].
    exfalso. assert (10 ^ (d_intg d + 9 * F) <= M * 10 ^ (9 * (P + F) - end_)); [|lia].
    etransitivity; [|apply Z.mul_le_mono_nonneg_r; [apply Z.pow_nonneg; lia|apply HM]].
    rewrite <- Z.pow_add_r by plia. apply Z.pow_le_mono_r; plia.
  - destruct (Z.le_gt_cases (end_ - 9 * P) (d_frac d)) as [|Hgt]; [done|]. exfalso. apply Hm.
    destruct (wf_aligned d Hd) as [v Ev]. fold F in Ev. rewrite E in Ev.
    set (a := end_ - 9 * P - d_frac d) in *. assert (M = v * 10 ^ (a - 1) * 10) as ->; [|by rewrite Z_mod_mult].
    replace (9 * F - d_frac d) with (a - 1 + 1 + (9 * (P + F) - end_)) in Ev by (unfold a; lia).
    rewrite !Z.pow_add_r, !Z.mul_assoc in Ev by (unfold a; plia). apply Z.mul_reg_r in Ev; [by rewrite Ev|].
    apply Z.pow_nonzero; plia.
Qed.

(** Rounding in place, before the shift, when the number keeps its first digit and
    gets none before it. *)
Lemma round_in_place d beg end_ M diff : dec_wf d -> digits_at d beg end_ M -> 0 < diff -> beg < end_ - diff ->
  let M' := round_mag HALF_UP (d_sign d) M (10 ^ diff) in 0 < M' < 10 ^ (end_ - diff - beg) ->
  exists d1, decimal_round d None (end_ - ROUND_UP (d_intg d) * 9 - diff) HALF_UP = Some (d1, E_DEC_OK) /\
    d_len d1 = d_len d /\ d_sign d1 = d_sign d /\ dec_room d1 /\
    exists hi, ROUND_UP (d_intg d) <= hi /\ block (d_buf d1) 0 hi beg (end_ - diff) M'.
Proof.
  intros Hd Ha Hdiff Hbe' M' HM'. destruct (digits_inside d beg end_ M Hd Ha) as [Hin1 Hin2]. destruct Ha as (Hbe & He & E & Hm & HM).
  set (P := ROUND_UP (d_intg d)) in *. set (scale := end_ - P * 9 - diff). pose proof (wf_frac d Hd) as Hf.
  assert (0 <= P) as HP by (apply wf_intg_words; done). pose proof (wf_fit d Hd) as Hfit. fold P in Hfit.
  pose proof (ROUND_UP_bounds (d_frac d) Hf) as Bf. destruct (round_frac0 scale) as (H1 & H2 & _). cbv zeta in *.
  set (frac0 := if 0 <? scale then ROUND_UP scale else Z.quot (scale + 1) 9) in *.
  assert (ROUND_UP (Z.max scale 0) <= ROUND_UP (d_frac d)) as Hmono by (apply ROUND_UP_mono; plia).
  assert (scale < d_frac d /\ 0 <= scale + d_intg d) as [Hs1 Hs2] by plia.
  assert (round_mag HALF_UP (d_sign d) (dec_val d) (10 ^ (9 * ROUND_UP (d_frac d) - scale)) = M') as ER.
  { rewrite E. unfold M'. rewrite <- (round_mag_scale _ _ M (10 ^ diff) (10 ^ (9 * (P + ROUND_UP (d_frac d)) - end_))); try apply Z.pow_pos_nonneg; try plia.
    f_equal. rewrite <- Z.pow_add_r by plia. f_equal. unfold scale. plia. }
  destruct (round_rest_spec d scale HALF_UP) with (to := d) (rest := drop (length (dec_words d)) (d_buf d))
    as (d1 & Er & W & L & S & F & V & I); try done; try apply dec_buf_words; try apply (wf_room d Hd).
  { fold P. clear -Hmono Hfit. lia. }
  { right. rewrite ER. fold P. split; [clear -HM'; lia|]. eapply Z.lt_le_trans; [apply HM'|]. apply Z.pow_le_mono_r; unfold scale; plia. }
  rewrite ER in S, V, I. fold P in I.
  rewrite (proj2 (Z.eqb_neq M' 0)) in S by lia.
  exists d1. rewrite (decimal_round_unfold d None scale HALF_UP d) by (try done; fold P frac0; plia). fold frac0.
  rewrite (proj2 (Z.ltb_ge (ROUND_UP (d_frac d)) frac0)), (proj2 (Z.leb_gt (d_frac d) scale)) by plia.
  split; [done|]. split_and!; try done; [apply W|]. exists (P + ROUND_UP (d_frac d1)).
  pose proof (wf_frac_words d1 W). split; [plia|].
  assert (ROUND_UP (d_intg d1) = P) as EI.
  { apply I. split; [apply HM'|]. eapply Z.lt_le_trans; [apply HM'|]. apply Z.pow_le_mono_r; unfold scale; plia. }
  pose proof (dec_words_length d1 W) as L1. rewrite EI in L1. fold frac0 in V.
  exists [], (dec_words d1), (drop (length (dec_words d1)) (d_buf d1)). simpl length.
  assert (ROUND_UP (d_frac d1) = Z.max frac0 0) as EF by (by rewrite F).
  split_and!; [apply dec_buf_words|done|plia|simpl; plia|simpl; unfold scale in *; plia|apply W|].
  fold (dec_val d1). rewrite V. do 2 f_equal. simpl. unfold scale. plia.
Qed.

Lemma decimal_shift_truncated d shift beg end_ M : dec_wf d -> shift_small d shift -> shift <> 0 -> digits_bounds d = Some (beg, end_) ->
  digits_at d beg end_ M ->
  let np := ROUND_UP (d_intg d) * 9 + shift in
  let n := ROUND_UP (Z.max (np - beg) 0) in
  let s := 9 * (d_len d - n) in
  let diff := end_ - np - s in
  n <= d_len d -> 0 < diff -> beg < end_ - diff ->
  let M' := round_mag HALF_UP (d_sign d) M (10 ^ diff) in 0 < M' < 10 ^ (end_ - diff - beg) ->
  exists d', decimal_shift d shift = Some (d', E_DEC_TRUNCATED) /\ dec_wf d' /\ d_len d' = d_len d /\
    d_sign d' = d_sign d /\ dec_val d' <> 0 /\ (dec_Q d' == inject_Z (sgn d * M') * Q10 (- s))%Q.
Proof.
  intros Hd Hsm Hs Eb Ha np n s diff Hn Hdiff Hbe' M' HM'. destruct (shift_small_ints d shift Hd Hsm) as [I1 I2]. specialize (I2 _ _ _ Ha).
  destruct (round_in_place d beg end_ M diff Hd Ha Hdiff Hbe' HM') as (d1 & Er & L1 & S1 & [_ R1] & hi & Hhi & Hb).
  destruct Ha as (Hbe & He & _ & _ & _). pose proof (wf_intg_words d Hd).
  pose proof (ROUND_UP_bounds (Z.max (end_ - np) 0) ltac:(lia)) as Bf.
  pose proof (ROUND_UP_bounds (Z.max (np - beg) 0) ltac:(lia)) as Bi. fold n in Bi.
  assert (d_len d < n + ROUND_UP (Z.max (end_ - np) 0)) as Hlen by (unfold diff, s in *; plia).
  unfold decimal_shift, DIG_PER_DEC1. rewrite I1, (proj2 (Z.eqb_neq shift 0) Hs), Eb. cbn [negb mbind option_bind].
  rewrite (proj2 (Z.eqb_neq beg end_)), I2 by plia. cbn [negb]. fold np. fold n. rewrite (proj2 (Z.ltb_lt (d_len d) _) Hlen).
  set (F := ROUND_UP (Z.max (end_ - np) 0)) in *. rewrite (proj2 (Z.ltb_ge F _)) by plia.
  replace (F - (n + F - d_len d)) with (d_len d - n) by lia.
  replace (Z.max (end_ - np) 0 - (d_len d - n) * 9) with diff by (unfold diff, s in *; plia).
  rewrite Er. cbn [mbind option_bind]. rewrite (proj2 (Z.leb_gt (end_ - diff) beg) Hbe').
  assert (end_ - diff - np = s) as Ediff by (unfold diff; plia).
  destruct (shift_digits_spec (d_buf d1) hi beg (end_ - diff) M' (ROUND_UP (d_intg d)) shift)
    as (buf & Es & L & Hb'); fold np; rewrite ?Ediff; try done; try plia.
  { split; [apply Z.lt_le_incl|]; apply HM'. }
  { fold n. replace (Z.max s 0) with ((d_len d - n) * 9) by (unfold s; plia). rewrite ROUND_UP_mul9 by plia. plia. }
  fold np in Es, Hb'. fold n in Es, Hb'. rewrite Ediff in Hb'. rewrite R1, Es. cbn [mbind option_bind]. rewrite <- R1, L1, S1.
  eexists. split; [done|].
  destruct (shifted_decimal buf (d_len d) (d_sign d) (np - beg) s M') as (W & Hv & Q); fold n; try done; try plia.
  - replace (np - beg + s) with (end_ - diff - beg) by plia. done.
  - replace (Z.max s 0) with ((d_len d - n) * 9) by (unfold s; plia). rewrite ROUND_UP_mul9 by plia. plia.
  - replace (9 * n - (np - beg)) with (beg - np + 9 * n) by plia. by replace (9 * n + s) with (s + 9 * n) by plia.
  - replace (Z.max s 0) with ((d_len d - n) * 9) in W, Hv, Q by (unfold s; plia). by split_and!.
Qed.

(** Where the integer part does not fit. *)
Lemma decimal_shift_overflow d shift beg end_ M : dec_wf d -> shift_small d shift -> shift <> 0 -> digits_bounds d = Some (beg, end_) ->
  digits_at d beg end_ M -> d_len d < ROUND_UP (Z.max (ROUND_UP (d_intg d) * 9 + shift - beg) 0) ->
  decimal_shift d shift = Some (d, E_DEC_OVERFLOW).
Proof.
  intros Hd Hsm Hs Eb Ha Hn. destruct (shift_small_ints d shift Hd Hsm) as [I1 I2]. specialize (I2 _ _ _ Ha). destruct Ha as (Hbe & _).
  unfold decimal_shift, DIG_PER_DEC1. rewrite I1, (proj2 (Z.eqb_neq shift 0) Hs), Eb. cbn [negb mbind option_bind].
  rewrite (proj2 (Z.eqb_neq beg end_)), I2 by lia. cbn [negb]. set (np := ROUND_UP (d_intg d) * 9 + shift) in *.
  pose proof (ROUND_UP_bounds (Z.max (end_ - np) 0) ltac:(lia)) as Bf.
  rewrite (proj2 (Z.ltb_lt (d_len d) _)), (proj2 (Z.ltb_lt (ROUND_UP (Z.max (end_ - np) 0)) _)) by lia. done.
Qed.

(** ** Orders of magnitude *)

(** [q] has its first digit at [e] places before the point. *)
Definition leads (q : Q) (e : Z) : Prop := (Q10 (e - 1) <= Qabs q /\ Qabs q < Q10 e)%Q.

#[export] Instance leads_proper : Proper (Qeq ==> eq ==> iff) leads.
Proof. intros p q E e ? <-. unfold leads. by rewrite E. Qed.

Lemma Q10_lt j k : j < k -> (Q10 j < Q10 k)%Q.
Proof. intros H. by apply Qpower_lt_compat_l. Qed.

Lemma Q10_lt_inv j k : (Q10 j < Q10 k)%Q -> j < k.
Proof.
  intros H. destruct (Z.lt_trichotomy j k) as [|[->|Hlt]]; [done|by apply Qlt_irrefl in H|].
  apply Q10_lt in Hlt. by destruct (Qlt_irrefl (Q10 j)); apply Qlt_trans with (Q10 k).
Qed.

Lemma leads_unique q e e' : leads q e -> leads q e' -> e = e'.
Proof.
  intros [H1 H2] [H3 H4]. assert (e - 1 < e') by (apply Q10_lt_inv; by apply Qle_lt_trans with (Qabs q)).
  assert (e' - 1 < e) by (apply Q10_lt_inv; by apply Qle_lt_trans with (Qabs q)). lia.
Qed.

Lemma Q10_pos k : (0 < Q10 k)%Q.
Proof. by apply Qpower_0_lt. Qed.

Definition sg (sign : bool) : Z := if sign then -1 else 1.

Lemma Qabs_digits sign M k : 0 <= M -> (Qabs (inject_Z (sg sign * M) * Q10 k) == inject_Z M * Q10 k)%Q.
Proof.
  intros HM. rewrite Qabs_Qmult, (Qabs_pos (Q10 k)) by (apply Qlt_le_weak, Q10_pos).
  apply Qmult_comp; [|done]. unfold sg. rewrite <- (Z.abs_eq M HM) at 2.
  change (Qabs (inject_Z ?x)) with (inject_Z (Z.abs x)). apply inject_Z_injective. destruct sign; lia.
Qed.

Lemma leads_digits sign M k t : 0 < t -> (10 ^ (t - 1) <= M < 10 ^ t <-> 0 <= M /\ leads (inject_Z (sg sign * M) * Q10 k) (t + k)).
Proof.
  intros Ht. assert (0 <= M -> (leads (inject_Z (sg sign * M) * Q10 k) (t + k) <-> 10 ^ (t - 1) <= M < 10 ^ t)) as H.
  { intros HM. unfold leads. rewrite Qabs_digits by done. replace (t + k - 1) with (t - 1 + k) by lia. rewrite (Q10_add (t - 1)), (Q10_add t), (Q10_Z (t - 1)), (Q10_Z t) by lia.
    rewrite Qmult_le_r, Qmult_lt_r by apply Q10_pos. by rewrite <- Zle_Qle, <- Zlt_Qlt. }
  split; [intros HM|by intros [HM HL]; apply H].
  assert (0 <= M) by (pose proof (Z.pow_nonneg 10 (t - 1)); lia). split; [done|by apply H].
Qed.

(** Rounding digits half up. *)
Lemma round_digits sign M y s : 0 <= M -> s <= y ->
  (round_Q HALF_UP (inject_Z (sg sign * M) * Q10 (- y)) s ==
   inject_Z (sg sign * round_mag HALF_UP sign M (10 ^ (y - s))) * Q10 (- s))%Q.
Proof.
  intros HM Hs. unfold round_Q. apply Qmult_comp; [|done].
  assert (inject_Z (sg sign * M) * Q10 (- y) * Q10 s == Qmake (if sign then - M else M) (Z.to_pos (10 ^ (y - s))))%Q as ->.
  { rewrite <- Qmult_assoc, <- Q10_add, <- Q10_div by lia. replace (- y + s) with (- (y - s)) by lia.
    apply Qmult_comp; [|done]. apply inject_Z_injective. unfold sg. destruct sign; lia. }
  rewrite round_to_int_mag; [|done|done|apply Z.pow_pos_nonneg; lia]. apply inject_Z_injective. unfold sg. destruct sign; lia.
Qed.

Lemma round_digits_exact sign M y s : y <= s ->
  (round_Q HALF_UP (inject_Z (sg sign * M) * Q10 (- y)) s == inject_Z (sg sign * M) * Q10 (- y))%Q.
Proof.
  intros Hs. unfold round_Q. assert (inject_Z (sg sign * M) * Q10 (- y) * Q10 s == inject_Z (sg sign * M * 10 ^ (s - y)))%Q as E.
  { rewrite (inject_Z_mult (sg sign * M)), <- Q10_Z, <- Qmult_assoc, <- Q10_add by lia. by replace (- y + s) with (s - y) by lia. }
  rewrite E, round_to_int_Z, <- E, <- !Qmult_assoc, <- !Q10_add. apply Qmult_comp; [done|].
  by replace (- y + (s + - s)) with (- y) by lia.
Qed.

(** Digits with no zero at the end are not rounded to themselves. *)
Lemma round_digits_lossy sign M y s : 0 <= M -> M mod 10 <> 0 -> s < y ->
  Qeq_bool (round_Q HALF_UP (inject_Z (sg sign * M) * Q10 (- y)) s) (inject_Z (sg sign * M) * Q10 (- y)) = false.
Proof.
  intros HM Hm Hs. apply not_true_iff_false. rewrite Qeq_bool_iff, round_digits by lia. intros E. apply Hm.
  set (M' := round_mag _ _ _ _) in *. clearbody M'.
  replace (- s) with (y - s + - y) in E by lia. rewrite Q10_add, Qmult_assoc, (Q10_Z (y - s)), <- inject_Z_mult in E by lia.
  apply Qmult_inj_r in E; [|apply Q10_nonzero]. apply (proj1 (inject_Z_injective _ _)) in E.
  assert (M = M' * 10 ^ (y - s - 1) * 10) as ->; [|by rewrite Z_mod_mult].
  rewrite <- Z.mul_assoc, (Z.mul_comm _ 10), <- Z.pow_succ_r by lia. replace (Z.succ (y - s - 1)) with (y - s) by lia.
  unfold sg in E. destruct sign; lia.
Qed.

(** A number of one digit or more after rounding. *)
Lemma leads_pos sign M s e : 0 <= M -> leads (inject_Z (sg sign * M) * Q10 (- s)) e -> 0 < e + s.
Proof.
  intros HM [H1 H2]. rewrite Qabs_digits in H1, H2 by done. apply Q10_lt_inv.
  assert (0 < M) as HM'.
  { destruct (Z.eq_dec M 0) as [->|]; [|lia]. exfalso. pose proof (Q10_pos (e - 1)) as Hp.
    apply (Qlt_irrefl 0). eapply Qlt_le_trans; [exact Hp|]. by rewrite Qmult_0_l in H1. }
  rewrite Q10_add. change (Q10 0) with 1%Q. apply Qle_lt_trans with (inject_Z M); [rewrite <- (Zle_Qle 1); lia|].
  assert (inject_Z M == inject_Z M * Q10 (- s) * Q10 s)%Q as ->.
  { rewrite <- Qmult_assoc, <- Q10_add, Z.add_opp_diag_l. by rewrite Qmult_1_r. }
  apply Qmult_lt_r; [apply Q10_pos|done].
Qed.

Lemma decimal_shift_spec d shift e (Hd : dec_wf d) (Hsm : shift_small d shift) (He : leads (dec_Q d * Q10 shift) e) :
  let q := (dec_Q d * Q10 shift)%Q in
  let n := ROUND_UP (Z.max e 0) in
  let s := 9 * (d_len d - n) in
  (d_len d < n -> decimal_shift d shift = Some (d, E_DEC_OVERFLOW)) /\
  (n <= d_len d -> leads (round_Q HALF_UP q s) e ->
   exists d', decimal_shift d shift =
       Some (d', if Qeq_bool (round_Q HALF_UP q s) q then E_DEC_OK else E_DEC_TRUNCATED) /\
     dec_wf d' /\ d_len d' = d_len d /\ d_sign d' = d_sign d /\ (dec_Q d' == round_Q HALF_UP q s)%Q).
Proof.
  intros q n s. destruct (digits_bounds_spec d Hd) as [[E0 _]|(beg & end_ & M & Eb & Ha)].
  { exfalso. apply dec_Q_zero in E0. rewrite E0, Qmult_0_l in He. destruct He as [H1 _].
    apply (Qlt_irrefl 0). eapply Qlt_le_trans; [apply (Q10_pos (e - 1))|exact H1]. }
  pose proof (digits_Q d beg end_ M Hd Ha) as EQ. pose proof Ha as (Hbe & Hen & _ & Hm & HM).
  set (np := ROUND_UP (d_intg d) * 9 + shift). set (y := end_ - np).
  assert (q == inject_Z (sg (d_sign d) * M) * Q10 (- y))%Q as Eq.
  { unfold q. rewrite EQ, <- Qmult_assoc, <- Q10_add. change (sgn d) with (sg (d_sign d)).
    by replace (9 * ROUND_UP (d_intg d) - end_ + shift) with (- y) by (unfold y, np; lia). }
  fold q in He. rewrite Eq in He.
  pose proof (proj1 (leads_digits (d_sign d) M (- y) (end_ - beg) ltac:(lia)) HM) as [HM0 Hle].
  assert (e = np - beg) as -> by (rewrite (leads_unique _ _ _ He Hle); unfold y; lia).
  clear He Hle. clearbody q. pose proof (wf_fit d Hd) as Hfit. pose proof (wf_frac_words d Hd) as Hf0.
  pose proof (wf_intg_words d Hd) as Hi0. pose proof (ROUND_UP_bounds (Z.max (np - beg) 0) ltac:(lia)) as Bi. fold n in Bi.
  assert (y <= s -> (round_Q HALF_UP q s == q)%Q) as Hex by (intros Hy; rewrite Eq; by apply round_digits_exact).
  destruct (Z.eq_dec shift 0) as [E0|Hs].
  { assert (n <= ROUND_UP (d_intg d)) by (unfold np in *; plia). split; [plia|]. intros _ _. exists d.
    assert (y <= s) as Hy by (unfold y, np, s in *; plia). rewrite (proj2 (Qeq_bool_iff _ _) (Hex Hy)). split_and!; try done.
    { unfold decimal_shift, DIG_PER_DEC1. rewrite (proj1 (shift_small_ints d shift Hd Hsm)). by rewrite E0. }
    rewrite (Hex Hy), Eq, EQ. by replace (- y) with (9 * ROUND_UP (d_intg d) - end_) by (unfold y, np; plia). }
  split; [by apply (decimal_shift_overflow d shift beg end_ M)|]. intros Hn HL.
  destruct (Z.le_gt_cases y s) as [Hy|Hy].
  - destruct (decimal_shift_exact d shift beg end_ M) as (d' & E & W & L & S & _ & Q); try done.
    { fold np n y. pose proof (ROUND_UP_mono (Z.max y 0) (9 * (d_len d - n)) ltac:(unfold s in *; plia)) as Hr.
      rewrite (Z.mul_comm 9), ROUND_UP_mul9 in Hr by plia. plia. }
    exists d'. rewrite (proj2 (Qeq_bool_iff _ _) (Hex Hy)). split_and!; try done. by rewrite (Hex Hy), Eq, Q.
  - assert (Qeq_bool (round_Q HALF_UP q s) q = false) as ->.
    { rewrite <- (round_digits_lossy (d_sign d) M y s) by done. apply Qeqb_comp; [by rewrite Eq|done]. }
    assert (round_Q HALF_UP q s == inject_Z (sg (d_sign d) * round_mag HALF_UP (d_sign d) M (10 ^ (y - s))) * Q10 (- s))%Q as ER.
    { rewrite Eq. apply round_digits; [done|plia]. }
    rewrite ER in HL. set (M' := round_mag _ _ _ _) in *.
    assert (0 <= M') as HM'.
    { unfold M', round_mag. pose proof (Z.div_pos M (10 ^ (y - s)) HM0 ltac:(apply Z.pow_pos_nonneg; plia)). destruct (rounds_up _ _ _ _); simpl; lia. }
    pose proof (leads_pos _ _ _ _ HM' HL) as Hpos.
    destruct (decimal_shift_truncated d shift beg end_ M) as (d' & E & W & L & S & _ & Q); try done; fold np n s y; try plia.
    { fold M'. replace (np - beg) with (np - beg + s + - s) in HL by lia.
      pose proof (proj2 (leads_digits (d_sign d) M' (- s) _ Hpos) (conj HM' HL)) as B.
      replace (end_ - (y - s) - beg) with (np - beg + s) by (unfold y; lia).
      pose proof (Z.pow_pos_nonneg 10 (np - beg + s - 1)). lia. }
    exists d'. split_and!; try done. by rewrite ER.
Qed.

(** Zero stays zero. *)
Lemma decimal_shift_zero d shift : dec_wf d -> shift_small d shift -> dec_val d = 0 ->
  exists d', decimal_shift d shift = Some (d', E_DEC_OK) /\ dec_wf d' /\ d_len d' = d_len d /\ dec_val d' = 0.
Proof.
  intros Hd Hsm E0. unfold decimal_shift, DIG_PER_DEC1. rewrite (proj1 (shift_small_ints d shift Hd Hsm)). cbn [negb].
  destruct (shift =? 0); [by exists d|].
  destruct (digits_bounds_spec d Hd) as [[_ ->]|(beg & end_ & M & _ & (Hbe & Hen & E & _ & HM))].
  - destruct (decimal_make_zero_spec d (wf_room d Hd)) as (d' & Ez & W & L & _ & _ & V). exists d'.
    cbn [mbind option_bind]. rewrite Z.eqb_refl, Ez. by split_and!.
  - exfalso. rewrite E in E0. apply Z.eq_mul_0 in E0 as [->|E0]; [|revert E0; apply Z.pow_nonzero; lia].
    pose proof (Z.pow_pos_nonneg 10 (end_ - beg - 1)). lia.
Qed.

(** ** Claims *)

(** C14: [decimal_shift] multiplies a number other than zero by 10^[shift], for the
    shifts that are within [shift_small], so that no [int] of the code overflows.  With [e] the place of the first digit of the
    product, the error is [E_DEC_OVERFLOW] and the decimal untouched when the digits
    before the point need more words than there are.  Otherwise, provided that
    rounding does not move the first digit to another place, the result is the
    product rounded half up to the words that remain for the fraction, with
    [E_DEC_TRUNCATED] exactly when that loses digits; [decimal_shift_defects] shows
    what happens when rounding moves the first digit. *)
Theorem decimal_shift_correct d shift e (Hd : dec_wf d) (Hsm : shift_small d shift) (He : leads (dec_Q d * Q10 shift) e) :
  let q := (dec_Q d * Q10 shift)%Q in
  let n := ROUND_UP (Z.max e 0) in
  let s := 9 * (d_len d - n) in
  (d_len d < n -> decimal_shift d shift = Some (d, E_DEC_OVERFLOW)) /\
  (n <= d_len d -> leads (round_Q HALF_UP q s) e ->
   exists d', decimal_shift d shift =
       Some (d', if Qeq_bool (round_Q HALF_UP q s) q then E_DEC_OK else E_DEC_TRUNCATED) /\
     dec_wf d' /\ d_len d' = d_len d /\ d_sign d' = d_sign d /\ (dec_Q d' == round_Q HALF_UP q s)%Q).
Proof. by apply decimal_shift_spec. Qed.

(** -123.45, which becomes -1.2345 *)
Definition ex_shift : decimal_t := mk_decimal 3 2 2 true [123; 450000000].

Lemma decimal_shift_correct_witness :
  exists d', decimal_shift ex_shift (-2) = Some (d', E_DEC_OK) /\ (dec_Q d' == - 12345 # 10000)%Q.
Proof.
  assert (leads (dec_Q ex_shift * Q10 (-2)) 1) as H by (split; vm_compute; congruence).
  destruct (decimal_shift_correct ex_shift (-2) 1) as [_ Hc]; [by apply dec_wfb_wf|done|exact H|].
  destruct Hc as (d' & E & _ & _ & _ & Q); [vm_compute; congruence|split; vm_compute; congruence|].
  exists d'. split; [exact E|]. rewrite Q. by vm_compute.
Defined.

(** What [decimal_shift] does when rounding moves the first digit.  In two words
    999999999.999999999 divided by ten should round to 100000000.000000000, but the
    result is 0.1: the carry moves the digits by one word, and the shift takes them
    where they were.  And in three words 6.2345e-28 should round to 1e-27, but the
    result is 0. *)
Theorem decimal_shift_defects :
  (exists d', decimal_shift (mk_decimal 9 9 2 false [999999999; 999999999]) (-1) = Some (d', E_DEC_TRUNCATED) /\
     (dec_Q d' == 1 # 10)%Q /\ (round_Q HALF_UP (999999999999999999 # 10000000000) 9 == inject_Z 100000000)%Q) /\
  (exists d', decimal_shift (mk_decimal 3 2 3 false [623; 450000000; 0]) (-30) = Some (d', E_DEC_TRUNCATED) /\
     (dec_Q d' == 0)%Q /\ (round_Q HALF_UP ((62345 # 100) * Q10 (-30)) 27 == Q10 (-27))%Q).
Proof. split; eexists; (split; [reflexivity|by split; vm_compute]). Qed.
