(* ===== verification/DecimalParse.v ===== *)
(** * Fixed-point decimals: reading a text

    [internal_str2dec] of [strings/decimal.c], which is [string2decimal] and, with
    [fixed], [string2decimal_fixed].  A text is a list of byte values, a pointer into
    it an index; the text ends where the list ends. *)

From Stdlib Require Import ZArith Lia QArith Qround Qabs Qpower.
From stdpp Require Import base numbers option tactics list.
From S2P Require Import Prelude NumText Bytes Decimal DecimalArith DecimalDigits DecimalRound DecimalRounding.
From S2P Require Import DecimalText DecimalShift DecimalShifting.

#[local] Open Scope Z_scope.

Definition E_DEC_OOM : Z := 16.
Definition INT_MAX : Z := 2 ^ 31 - 1.
Definition INT_MIN : Z := - 2 ^ 31.

(** [my_isspace] and [my_isdigit] of [my_charset_latin1]: the bytes whose entry of
    [ctype_latin1] has the bit [_MY_SPC] or [_MY_NMR]. *)
Definition latin1_isspace (c : Z) : bool := (c =? 32) || ((9 <=? c) && (c <=? 13)) || (c =? 160).
Definition latin1_isdigit (c : Z) : bool := (48 <=? c) && (c <=? 57).

(** The loop over the integer digits, from the last one down; the words in front of
    [acc] in the order they lie in the buffer. *)
Fixpoint str_int_words (cs : list Z) (x i : Z) (acc : list Z) : list Z :=
  match cs with
  | [] => if i =? 0 then acc else x :: acc
  | c :: cs =>
      let x := x + (c - ZERO) * powers10 i in
      if i + 1 =? DIG_PER_DEC1 then str_int_words cs 0 0 (x :: acc) else str_int_words cs x (i + 1) acc
  end.

(** The loop over the digits after the point. *)
Fixpoint str_frac_words (cs : list Z) (x i : Z) : list Z :=
  match cs with
  | [] => if i =? 0 then [] else [x * powers10 (DIG_PER_DEC1 - i)]
  | c :: cs =>
      let x := c - ZERO + x * 10 in
      if i + 1 =? DIG_PER_DEC1 then x :: str_frac_words cs 0 0 else str_frac_words cs x (i + 1)
  end.

(** The digits that are stored, of [intg] and [frac] ones in the text, and the words
    they take, with the error. *)
Definition str_sizes (to : decimal_t) (fixed : bool) (intg frac : Z) : Z * Z * Z * Z * Z :=
  if fixed then
    let '(frac, error) := if d_frac to <? frac then (d_frac to, E_DEC_TRUNCATED) else (frac, E_DEC_OK) in
    let '(intg, error) := if d_intg to <? intg then (d_intg to, E_DEC_OVERFLOW) else (intg, error) in
    let intg1 := ROUND_UP intg in
    let frac1 := ROUND_UP frac in
    (intg, frac, intg1, frac1, if d_len to <? intg1 + frac1 then E_DEC_OOM else error)
  else
    let '(intg1, frac1, error) := FIX_INTG_FRAC_ERROR (d_len to) (ROUND_UP intg) (ROUND_UP frac) in
    if error =? E_DEC_OK then (intg, frac, intg1, frac1, error)
    else (if error =? E_DEC_OVERFLOW then intg1 * DIG_PER_DEC1 else intg, frac1 * DIG_PER_DEC1, intg1, frac1, error).

(** [fatal_error:] *)
Definition str_fatal (to : decimal_t) (end_ : nat) (error : Z) : option (decimal_t * nat * Z) :=
  to ← decimal_make_zero to; Some (to, end_, error).

(** A negative zero is avoided. *)
Definition str_return (to : decimal_t) (end_ : nat) (error : Z) : option (decimal_t * nat * Z) :=
  zero ← (if d_sign to then decimal_is_zero to else Some false);
  Some (if (zero : bool) then mk_decimal (d_intg to) (d_frac to) (d_len to) false (d_buf to) else to, end_, error).

(** The exponent behind the digits, which end at [endp]. *)
Definition str_exponent (from : list Z) (to : decimal_t) (endp : nat) (error : Z) : option (decimal_t * nat * Z) :=
  if (S endp <? length from)%nat && ((char_at from endp =? 101) || (char_at from endp =? 69)) then
    let r := my_strtoll10 (drop (S endp) from) (Some (length from - S endp)%nat) in
    let exponent := st_value r in
    if (st_endptr r =? 0)%nat then str_return to endp error
    else
      let end_ := (S endp + st_endptr r)%nat in
      if 0 <? st_error r then str_fatal to end_ E_DEC_BAD_NUM
      else if (Z.quot INT_MAX 2 <? exponent) || ((st_error r =? 0) && (exponent <? 0)) then str_fatal to end_ E_DEC_OVERFLOW
      else if (exponent <? Z.quot INT_MIN 2) && negb (error =? E_DEC_OVERFLOW) then str_fatal to end_ E_DEC_TRUNCATED
      else if error =? E_DEC_OVERFLOW then str_return to end_ error
      else '(to, error) ← decimal_shift to exponent; str_return to end_ error
  else str_return to endp error.

(** The sign and where the digits start; [None] when there is nothing but spaces. *)
Definition str_start (from : list Z) : option (bool * nat) :=
  let s := count_while latin1_isspace from in
  if (s =? length from)%nat then None
  else
    let sign := char_at from s =? MINUS in
    Some (sign, if sign || (char_at from s =? PLUS) then S s else s).

(** The digits after the point at [s], and where they end. *)
Definition str_frac (from : list Z) (s : nat) : nat * nat :=
  if (s <? length from)%nat && (char_at from s =? POINT) then
    let frac := count_while latin1_isdigit (drop (S s) from) in (frac, S s + frac)%nat
  else (0, s)%nat.

(** The decimal, the end of what was read, and the error. *)
Definition internal_str2dec (from : list Z) (to : decimal_t) (fixed : bool) : option (decimal_t * nat * Z) :=
  match str_start from with
  | None => str_fatal to (length from) E_DEC_BAD_NUM
  | Some (sign, s1) =>
      let intg := count_while latin1_isdigit (drop s1 from) in
      let s := (s1 + intg)%nat in
      let '(frac, endp) := str_frac from s in
      if (frac + intg =? 0)%nat then str_fatal to endp E_DEC_BAD_NUM
      else
        let '(intg, frac, intg1, frac1, error) := str_sizes to fixed (Z.of_nat intg) (Z.of_nat frac) in
        if error =? E_DEC_OOM then str_fatal to endp error
        else
          buf ← store_down (d_buf to) intg1 (str_int_words (take (Z.to_nat intg) (rev (take s from))) 0 0 []);
          buf ← store_down buf (intg1 + frac1) (str_frac_words (take (Z.to_nat frac) (drop (S s) from)) 0 0);
          str_exponent from (mk_decimal intg frac (d_len to) sign buf) endp error
  end.

Definition string2decimal (from : list Z) (to : decimal_t) : option (decimal_t * nat * Z) :=
  internal_str2dec from to false.
Definition string2decimal_fixed (from : list Z) (to : decimal_t) : option (decimal_t * nat * Z) :=
  internal_str2dec from to true.

(** ** The words of a text *)

Definition is_dig (d : Z) : Prop := 0 <= d < 10.

Lemma pow_step i : 0 <= i -> 10 ^ (i + 1) = 10 ^ i * 10.
Proof. intros. by rewrite Z.pow_add_r by lia. Qed.

(** A word that is begun stays below the power of its digits. *)
Lemma word_grows x d i : 0 <= x < 10 ^ i -> is_dig d -> 0 <= i -> 0 <= x + d * 10 ^ i < 10 ^ (i + 1).
Proof. intros Hx Hd Hi. rewrite pow_step by done. unfold is_dig in Hd. nia. Qed.

Lemma ROUND_UP_step n : 0 <= n -> ROUND_UP (9 + n) = ROUND_UP n + 1.
Proof. intros H. rewrite !ROUND_UP_nonneg by lia. Z.to_euclidean_division_equations. lia. Qed.

Lemma ROUND_UP_one i : 1 <= i <= 9 -> ROUND_UP i = 1.
Proof. intros H. rewrite ROUND_UP_nonneg by lia. Z.to_euclidean_division_equations. lia. Qed.

Lemma str_int_words_spec ds : forall x i acc, Forall is_dig ds -> 0 <= i <= 8 -> 0 <= x < 10 ^ i ->
  exists W, str_int_words (digit_text ds) x i acc = W ++ acc /\
    Z.of_nat (length W) = ROUND_UP (i + Z.of_nat (length ds)) /\ Forall word_ok W /\
    dval W = of_digits 10 (rev ds) * 10 ^ i + x.
Proof.
  induction ds as [|d ds IH]; intros x i acc F Hi Hx; cbn [str_int_words digit_text map].
  - destruct (Z.eqb_spec i 0) as [->|Hn].
    + exists []. assert (x = 0) as -> by (change (10 ^ 0) with 1 in Hx; lia). split_and!; done || constructor.
    + exists [x]. simpl length. rewrite Z.add_0_r. split_and!; [done|rewrite ROUND_UP_one by lia; done| |unfold dval, of_digits; simpl; lia].
      constructor; [|done]. split; [lia|]. apply Z.lt_le_trans with (10 ^ i); [lia|]. change DIG_BASE with (10 ^ 9). apply Z.pow_le_mono_r; lia.
  - apply Forall_cons in F as [Hd F]. fold (digit_text ds). replace (ZERO + d - ZERO) with d by lia.
    rewrite powers10_pow by lia. unfold DIG_PER_DEC1. pose proof (word_grows x d i Hx Hd ltac:(lia)) as Hx'.
    simpl length. simpl rev. rewrite of_digits_app. change (of_digits 10 [d]) with d. change (10 ^ Z.of_nat (length [d])) with 10.
    destruct (Z.eqb_spec (i + 1) 9) as [E|E].
    + assert (i = 8) as -> by lia. destruct (IH 0 0 (x + d * 10 ^ 8 :: acc) F) as (W & -> & L & FW & V); [lia|done|].
      exists (W ++ [x + d * 10 ^ 8]). rewrite <- app_assoc, length_app, dval_snoc, V. split_and!; [done| | |].
      * rewrite Z.add_0_l in L. simpl length. replace (8 + Z.of_nat (S (length ds))) with (9 + Z.of_nat (length ds)) by lia. rewrite ROUND_UP_step; lia.
      * apply Forall_app. split; [done|]. by constructor.
      * change DIG_BASE with (10 ^ 9). change (10 ^ 0) with 1. change (10 ^ 9) with (10 * 10 ^ 8). ring.
    + destruct (IH (x + d * 10 ^ i) (i + 1) acc F) as (W & -> & L & FW & V); [lia|done|].
      exists W. split_and!; [done|rewrite L; f_equal; lia|done|]. rewrite V, pow_step by lia. ring.
Qed.

Lemma str_frac_words_spec ds : forall x i, Forall is_dig ds -> 0 <= i <= 8 -> 0 <= x < 10 ^ i ->
  let n := i + Z.of_nat (length ds) in let W := str_frac_words (digit_text ds) x i in
  Z.of_nat (length W) = ROUND_UP n /\ Forall word_ok W /\
  dval W = (x * 10 ^ Z.of_nat (length ds) + of_digits 10 ds) * 10 ^ (9 * ROUND_UP n - n).
Proof.
  induction ds as [|d ds IH]; intros x i F Hi Hx; cbn [str_frac_words digit_text map length]; cbv zeta.
  - rewrite Z.add_0_r. change (10 ^ Z.of_nat 0) with 1. change (of_digits 10 []) with 0. destruct (Z.eqb_spec i 0) as [->|Hn].
    + assert (x = 0) as -> by (change (10 ^ 0) with 1 in Hx; lia). split_and!; done || constructor.
    + unfold DIG_PER_DEC1. rewrite ROUND_UP_one by lia.
      rewrite powers10_pow by lia. split_and!; [done| |change (x * 10 ^ (9 - i) = (x * 1 + 0) * 10 ^ (9 * 1 - i)); change (9 * 1) with 9; ring]. constructor; [|done].
      assert (0 < 10 ^ (9 - i)) by (apply Z.pow_pos_nonneg; lia). unfold word_ok.
      assert (DIG_BASE = 10 ^ i * 10 ^ (9 - i)) as -> by (rewrite <- Z.pow_add_r by lia; by replace (i + (9 - i)) with 9 by lia). nia.
  - apply Forall_cons in F as [Hd F]. fold (digit_text ds). replace (ZERO + d - ZERO) with d by lia.
    rewrite of_digits_cons, Nat2Z.inj_succ, Z.pow_succ_r by lia. set (m := Z.of_nat (length ds)) in *.
    assert (0 <= d + x * 10 < 10 ^ (i + 1)) as Hx' by (rewrite pow_step by lia; unfold is_dig in Hd; lia).
    unfold DIG_PER_DEC1. destruct (Z.eqb_spec (i + 1) 9) as [E|E].
    + assert (i = 8) as -> by lia. destruct (IH 0 0 F) as (L & FW & V); [lia|done|]. rewrite Z.add_0_l in L, V.
      replace (8 + Z.succ m) with (9 + m) by lia. rewrite ROUND_UP_step by lia. simpl length.
      split_and!; [lia|by constructor|]. rewrite dval_cons, L, V, DIG_BASE_pow by (apply Z.le_trans with 0; [done|]; pose proof (ROUND_UP_bounds m); lia).
      replace (9 * (ROUND_UP m + 1) - (9 + m)) with (9 * ROUND_UP m - m) by lia.
      replace (9 * ROUND_UP m) with (m + (9 * ROUND_UP m - m)) at 1 by lia.
      rewrite Z.pow_add_r by (pose proof (ROUND_UP_bounds m); lia). rewrite Z.add_0_l. ring.
    + destruct (IH (d + x * 10) (i + 1) F) as (L & FW & V); [lia|done|].
      replace (i + 1 + m) with (i + Z.succ m) in L, V by lia. split_and!; [done|done|]. rewrite V. ring.
Qed.

Lemma digit_text_rev ds : digit_text (rev ds) = rev (digit_text ds).
Proof. apply map_rev. Qed.

(** The decimal that the two loops store, from the digits [ids] and [fds]. *)
Lemma str_stored to sign ids fds : let i := Z.of_nat (length ids) in let f := Z.of_nat (length fds) in
  dec_room to -> Forall is_dig ids -> Forall is_dig fds -> 0 < i + f -> ROUND_UP i + ROUND_UP f <= d_len to ->
  exists d, (buf ← store_down (d_buf to) (ROUND_UP i) (str_int_words (digit_text (rev ids)) 0 0 []);
             buf ← store_down buf (ROUND_UP i + ROUND_UP f) (str_frac_words (digit_text fds) 0 0);
             Some (mk_decimal i f (d_len to) sign buf)) = Some d /\
    dec_wf d /\ d_len d = d_len to /\ d_sign d = sign /\ d_intg d = i /\ d_frac d = f /\
    dec_val d = of_digits 10 (ids ++ fds) * 10 ^ (9 * ROUND_UP f - f).
Proof.
  intros i f [_ Hlen] Fi Ff Hs Hfit. pose proof (ROUND_UP_bounds i ltac:(lia)) as Bi. pose proof (ROUND_UP_bounds f ltac:(lia)) as Bf.
  destruct (str_int_words_spec (rev ids) 0 0 []) as (Wi & -> & Li & FWi & Vi); [by apply List.Forall_rev|lia|done|].
  destruct (str_frac_words_spec fds 0 0 Ff ltac:(lia) ltac:(done)) as (Lf & FWf & Vf).
  rewrite length_rev, Z.add_0_l in Li. fold i in Li. rewrite !Z.add_0_l in Lf, Vf. fold f in Lf, Vf.
  rewrite rev_involutive, Z.mul_1_r, Z.add_0_r in Vi. rewrite app_nil_r.
  set (Wf := str_frac_words _ _ _) in *. clearbody Wf.
  destruct (split_words (d_buf to) (ROUND_UP i) (ROUND_UP f)) as (h & m & l & E & Lh & Lm); [lia..|].
  pose proof (store_middle [] h (m ++ l) (ROUND_UP i) Wi) as S1. simpl in S1. rewrite E, S1 by lia. cbn [mbind option_bind].
  rewrite (store_middle Wi m l) by lia. cbn [mbind option_bind]. eexists. split; [done|].
  assert (dval (Wi ++ Wf) = of_digits 10 (ids ++ fds) * 10 ^ (9 * ROUND_UP f - f)) as EV.
  { rewrite dval_app, Vi, Vf, Lf, of_digits_app, DIG_BASE_pow by lia. fold f.
    replace (9 * ROUND_UP f) with (f + (9 * ROUND_UP f - f)) at 1 by lia. rewrite Z.pow_add_r by lia. rewrite Z.add_0_l. ring. }
  rewrite (app_assoc Wi). destruct (mk_decimal_wf i f (d_len to) sign (Wi ++ Wf) l) as [W V]; try lia.
  - rewrite length_app. lia.
  - rewrite Hlen, E, !length_app. lia.
  - by apply Forall_app.
  - assert (Forall is_dig (ids ++ fds)) as F by (by apply Forall_app). pose proof (of_digits_bound 10 _ ltac:(lia) F) as B.
    rewrite length_app, Nat2Z.inj_add in B. fold i f in B. rewrite EV.
    apply Z.lt_le_trans with (10 ^ (i + f) * 10 ^ (9 * ROUND_UP f - f)).
    + apply Z.mul_lt_mono_pos_r; [apply Z.pow_pos_nonneg; lia|lia].
    + rewrite <- Z.pow_add_r by lia. apply Z.pow_le_mono_r; lia.
  - rewrite EV. by apply Z.divide_mul_r.
  - split_and!; try done. by rewrite V.
Qed.

(** ** The numbers in a text *)

(** The text starts with spaces, a sign, digits, a point and digits; one digit at
    least, and the digits do not go on in [tail]. *)
Definition stops (P : Z -> bool) (l : list Z) : Prop := forall c r, l = c :: r -> P c = false.

Record literal (text : list Z) (sign : bool) (ids fds tail : list Z) : Prop := {
  lit_text : exists sp sg pt, text = sp ++ sg ++ digit_text ids ++ pt ++ tail /\
    Forall (fun c => latin1_isspace c = true) sp /\
    (sg = [MINUS] /\ sign = true \/ sg = [PLUS] /\ sign = false \/ sg = [] /\ sign = false) /\
    (pt = POINT :: digit_text fds \/ pt = [] /\ fds = [] /\ stops (Z.eqb POINT) tail);
  lit_ids : Forall is_dig ids;
  lit_fds : Forall is_dig fds;
  lit_some : ids ++ fds <> [];
  lit_end : stops latin1_isdigit tail
}.

(** Counting stops at the first byte that does not belong. *)
Lemma count_while_stop P s t : Forall (fun c => P c = true) s -> stops P t -> count_while P (s ++ t) = length s.
Proof.
  intros F Ht. induction s as [|c s IH]; simpl.
  - destruct t as [|c t]; [done|]. simpl. by rewrite (Ht c t).
  - apply Forall_cons in F as [-> F]. by rewrite IH.
Qed.

Lemma count_while_split P l : exists s t, l = s ++ t /\ Forall (fun c => P c = true) s /\ stops P t /\ count_while P l = length s.
Proof.
  induction l as [|c l (s & t & -> & F & Ht & E)]; [by exists [], []|]. simpl. destruct (P c) eqn:Ec.
  - exists (c :: s), t. split_and!; [done|by constructor|done|simpl; lia].
  - eexists [], _. split_and!; [done|done| |done]. intros ?? [= <- <-]. done.
Qed.

Lemma digit_text_isdigit ds : Forall is_dig ds -> Forall (fun c => latin1_isdigit c = true) (digit_text ds).
Proof.
  intros F. apply Forall_fmap. eapply Forall_impl; [exact F|]. intros d Hd. unfold is_dig in Hd.
  unfold latin1_isdigit, ZERO. simpl. zcases.
Qed.

Lemma isdigit_digit_text cs : Forall (fun c => latin1_isdigit c = true) cs -> exists ds, cs = digit_text ds /\ Forall is_dig ds.
Proof.
  induction cs as [|c cs IH]; intros F; [by exists []|]. apply Forall_cons in F as [Hc F]. destruct (IH F) as (ds & -> & Fd).
  exists (c - ZERO :: ds). unfold latin1_isdigit in Hc. unfold ZERO, is_dig in *. split.
  - cbn [digit_text map]. f_equal. unfold ZERO. lia.
  - constructor; [lia|done].
Qed.

Lemma char_at_app l1 l2 n : n = length l1 -> char_at (l1 ++ l2) n = match l2 with [] => 0 | c :: _ => c end.
Proof. intros ->. unfold char_at. rewrite app_nth2, Nat.sub_diag by lia. by destruct l2. Qed.

Lemma isspace_not c : latin1_isdigit c = true \/ c = POINT \/ c = MINUS \/ c = PLUS -> latin1_isspace c = false.
Proof. unfold latin1_isdigit, latin1_isspace, POINT, MINUS, PLUS. intros H. zcases. Qed.

(** What the scan finds in a text with a number. *)
Lemma literal_scan text sign ids fds tail : literal text sign ids fds tail ->
  exists s1, str_start text = Some (sign, s1) /\ count_while latin1_isdigit (drop s1 text) = length ids /\
    (forall i, (i <= length ids)%nat ->
       take i (rev (take (s1 + length ids) text)) = digit_text (rev (drop (length ids - i) ids))) /\
    str_frac text (s1 + length ids) = (length fds, (length text - length tail)%nat) /\
    (forall k, (k <= length fds)%nat -> take k (drop (S (s1 + length ids)) text) = digit_text (take k fds)) /\
    drop (length text - length tail) text = tail.
Proof.
  intros [(sp & sg & pt & -> & Fsp & Hsg & Hpt) Fi Ff Hsome Hend].
  assert (stops latin1_isdigit (pt ++ tail)) as Hpe by (destruct Hpt as [->|(-> & _ & _)]; [by intros ?? [= <- <-]|done]).
  assert (ids <> [] \/ exists r, pt = POINT :: r) as Hne.
  { destruct Hpt as [->|(-> & -> & _)]; [right; by eexists|left]. by rewrite app_nil_r in Hsome. }
  set (body := digit_text ids ++ pt ++ tail) in *.
  assert (exists c r, body = c :: r /\ latin1_isspace c = false /\ c <> MINUS /\ c <> PLUS) as (c & r & Eb & Hc & Hm & Hp).
  { unfold body. destruct ids as [|d ids].
    - destruct Hne as [|[r ->]]; [done|]. eexists POINT, _. split; [done|]. by split_and!.
    - pose proof (digit_text_isdigit _ Fi) as Fd. apply Forall_cons in Fd as [Hd _]. apply Forall_cons in Fi as [Hd' _]. unfold is_dig in Hd'.
      eexists (ZERO + d), _. split; [done|]. unfold MINUS, PLUS. split_and!; [apply isspace_not; by left|unfold ZERO; lia..]. }
  exists (length sp + length sg)%nat.
  assert (drop (length sp + length sg) (sp ++ sg ++ body) = body) as Ed by (rewrite app_assoc; apply drop_app_length'; by rewrite length_app).
  assert (drop (length sp + length sg + length ids) (sp ++ sg ++ body) = pt ++ tail) as Ed2.
  { rewrite <- drop_drop, Ed. unfold body. apply drop_app_length'. by rewrite digit_text_length. }
  split_and!.
  - unfold str_start. assert (count_while latin1_isspace (sp ++ sg ++ body) = length sp) as ->.
    { apply count_while_stop; [done|]. rewrite Eb. destruct Hsg as [[-> _]|[[-> _]|[-> _]]]; by intros ?? [= <- <-]. }
    rewrite (proj2 (Nat.eqb_neq _ _)) by (rewrite !length_app, Eb; simpl; lia). rewrite char_at_app by done. rewrite Eb.
    destruct Hsg as [[-> ->]|[[-> ->]|[-> ->]]]; simpl; rewrite ?(proj2 (Z.eqb_neq c _)) by done; simpl; do 2 f_equal; lia.
  - rewrite Ed. unfold body. rewrite count_while_stop; [apply digit_text_length|by apply digit_text_isdigit|done].
  - intros i Hi. unfold body. rewrite (app_assoc sp), (app_assoc _ (digit_text ids)).
    rewrite take_app_length' by (rewrite !length_app, digit_text_length; lia). rewrite rev_app_distr, <- digit_text_rev.
    rewrite take_app_le by (rewrite digit_text_length, length_rev; lia).
    unfold digit_text. rewrite firstn_map. f_equal. by rewrite firstn_rev.
  - unfold str_frac. set (p := (length sp + length sg + length ids)%nat) in *.
    assert (length (sp ++ sg ++ body) = (p + length (pt ++ tail))%nat) as EL.
    { unfold body, p. rewrite !length_app, digit_text_length. lia. }
    rewrite EL, char_at_drop, Ed2, length_app. destruct Hpt as [->|(-> & -> & Ht)].
    + cbn [app length]. rewrite (proj2 (Nat.ltb_lt _ _)), Z.eqb_refl by lia. cbn [andb].
      rewrite (drop_S _ _ _ _ Ed2), count_while_stop by (done || by apply digit_text_isdigit). rewrite digit_text_length. f_equal. lia.
    + cbn [app length]. rewrite Nat.add_0_l, Nat.add_sub. destruct tail as [|t tail]; [by rewrite andb_comm|].
      rewrite Z.eqb_sym, (Ht t tail) by done. by rewrite andb_comm.
  - intros k Hk. destruct Hpt as [->|(-> & -> & _)].
    + cbn [app] in Ed2. rewrite (drop_S _ _ _ _ Ed2), take_app_le by (by rewrite digit_text_length). unfold digit_text. by rewrite firstn_map.
    + simpl in Hk. assert (k = 0%nat) as -> by lia. done.
  - unfold body. rewrite !app_assoc. rewrite length_app, Nat.add_sub. by apply drop_app_length'.
Qed.

Lemma literal_text_length text sign ids fds tail : literal text sign ids fds tail -> (length tail < length text)%nat.
Proof.
  intros [(sp & sg & pt & -> & _ & _ & Hpt) _ _ Hs _]. rewrite !length_app, digit_text_length.
  destruct ids; simpl; [|lia]. destruct Hpt as [->|(-> & -> & _)]; [simpl; lia|done].
Qed.

Lemma str2dec_literal text sign ids fds tail to fixed i f error : literal text sign ids fds tail -> dec_room to ->
  str_sizes to fixed (Z.of_nat (length ids)) (Z.of_nat (length fds)) = (i, f, ROUND_UP i, ROUND_UP f, error) ->
  error <> E_DEC_OOM -> 0 <= i <= Z.of_nat (length ids) -> 0 <= f <= Z.of_nat (length fds) -> 0 < i + f ->
  ROUND_UP i + ROUND_UP f <= d_len to ->
  exists d, internal_str2dec text to fixed = str_exponent text d (length text - length tail) error /\
    dec_wf d /\ d_len d = d_len to /\ d_frac d = f /\ d_sign d = sign /\
    (dec_Q d == inject_Z (sg sign * of_digits 10 (drop (length ids - Z.to_nat i) ids ++ take (Z.to_nat f) fds)) * Q10 (- f))%Q.
Proof.
  intros HL Hto Es He Hi Hf Hs Hfit. destruct (literal_scan _ _ _ _ _ HL) as (s1 & E1 & E2 & E3 & E4 & E5 & _).
  unfold internal_str2dec. rewrite E1, E2, E4. rewrite (proj2 (Nat.eqb_neq _ 0)) by lia. rewrite Es.
  rewrite (proj2 (Z.eqb_neq error _) He), E3, E5 by lia.
  set (ids' := drop (length ids - Z.to_nat i) ids). set (fds' := take (Z.to_nat f) fds).
  assert (Z.of_nat (length ids') = i) as Li by (unfold ids'; rewrite length_drop; lia).
  assert (Z.of_nat (length fds') = f) as Lf by (unfold fds'; rewrite length_take; lia).
  destruct (str_stored to sign ids' fds') as (d & E & W & L & S & Ei & Ef & V).
  { done. }
  { by apply Forall_drop, (lit_ids _ _ _ _ _ HL). }
  { by apply Forall_take, (lit_fds _ _ _ _ _ HL). }
  { lia. }
  { by rewrite Li, Lf. }
  rewrite Li, Lf in *. exists d. split_and!; try done.
  - destruct (store_down (d_buf to) _ _) as [b1|]; [|done]. cbn [mbind option_bind] in *.
    destruct (store_down b1 _ _) as [b2|]; [|done]. cbn [mbind option_bind] in *. by injection E as <-.
  - apply (dec_Q_shift d _ f (ROUND_UP f)); [done|by rewrite Ef|pose proof (ROUND_UP_bounds f); lia|].
    unfold dec_sval, sg. rewrite S, V. destruct sign; ring.
Qed.

(** The sizes without limits. *)
Lemma str_sizes_free to i f : dec_room to -> 0 <= i -> 0 <= f ->
  let n := ROUND_UP i in let k := Z.min f (9 * (d_len to - n)) in
  str_sizes to false i f =
    if d_len to <? n then (9 * d_len to, 0, ROUND_UP (9 * d_len to), ROUND_UP 0, E_DEC_OVERFLOW)
    else (i, k, ROUND_UP i, ROUND_UP k, if k =? f then E_DEC_OK else E_DEC_TRUNCATED).
Proof.
  intros [Hl _] Hi Hf n k. unfold str_sizes, FIX_INTG_FRAC_ERROR, DIG_PER_DEC1. fold n.
  pose proof (ROUND_UP_bounds f Hf) as Bf. pose proof (ROUND_UP_bounds i Hi) as Bi. fold n in Bi.
  rewrite (Z.mul_comm 9 (d_len to)), ROUND_UP_mul9 by lia. change (ROUND_UP 0) with 0.
  destruct (Z.ltb_spec (d_len to) n) as [H1|H1].
  - rewrite (proj2 (Z.ltb_lt (d_len to) _)) by lia. done.
  - destruct (Z.ltb_spec (d_len to) (n + ROUND_UP f)) as [H2|H2].
    + assert (k = (d_len to - n) * 9) as -> by lia. rewrite ROUND_UP_mul9 by lia.
      rewrite (proj2 (Z.eqb_neq _ f)) by lia. done.
    + assert (k = f) as -> by lia. by rewrite (Z.eqb_refl f).
Qed.

Lemma decimal_is_zero_spec d : dec_wf d -> decimal_is_zero d = Some (dec_val d =? 0).
Proof.
  intros Hd. unfold decimal_is_zero. pose proof (dec_words_length d Hd) as L.
  assert (words (d_buf d) 0 (ROUND_UP (d_intg d) + ROUND_UP (d_frac d)) = Some (dec_words d)) as ->.
  { rewrite (dec_buf_words d). change (dec_words d ++ ?R) with ([] ++ dec_words d ++ R). apply words_app; simpl; lia. }
  cbn [mbind option_bind]. f_equal. pose proof (existsb_nonzero _ (wf_words d Hd)) as E. fold (dec_val d) in E.
  destruct (dec_val d =? 0); simpl in E.
  - apply forallb_forall. intros w Hw. destruct (w =? 0) eqn:Ew; [done|].
    assert (existsb (fun w => negb (w =? 0)) (dec_words d) = true) as E'; [|congruence].
    apply existsb_exists. exists w. by rewrite Ew.
  - apply existsb_exists in E as (w & Hw & Ew). apply not_true_iff_false. rewrite forallb_forall. intros H.
    rewrite (H w Hw) in Ew. done.
Qed.

Lemma str_return_spec d end_ error : dec_wf d ->
  exists d', str_return d end_ error = Some (d', end_, error) /\ dec_wf d' /\ dec_nz d' /\ d_len d' = d_len d /\
    d_frac d' = d_frac d /\ (dec_Q d' == dec_Q d)%Q.
Proof.
  intros Hd. unfold str_return. destruct (d_sign d) eqn:Es.
  - rewrite decimal_is_zero_spec by done. cbn [mbind option_bind]. destruct (Z.eqb_spec (dec_val d) 0) as [E0|E0].
    + eexists. split; [done|]. split_and!; try done.
      * by destruct Hd.
      * rewrite (dec_Q_zero d E0). by apply dec_Q_zero.
    + exists d. split_and!; try done. by intros _.
  - cbn [mbind option_bind]. exists d. split_and!; try done. unfold dec_nz. by rewrite Es.
Qed.

(** Digits that the scan finds make a number. *)
Lemma scan_literal text sign s1 frac endp : str_start text = Some (sign, s1) ->
  let intg := count_while latin1_isdigit (drop s1 text) in
  str_frac text (s1 + intg) = (frac, endp) -> (frac + intg <> 0)%nat ->
  exists ids fds tail, literal text sign ids fds tail.
Proof.
  unfold str_start. destruct (count_while_split latin1_isspace text) as (sp & t0 & -> & Fsp & _ & ->).
  rewrite char_at_app by done. destruct (_ =? _)%nat eqn:En; [done|]. intros [= Hsign Hs1] Ef Hne.
  assert (exists sg t1, t0 = sg ++ t1 /\ s1 = length (sp ++ sg) /\
    (sg = [MINUS] /\ sign = true \/ sg = [PLUS] /\ sign = false \/ sg = [] /\ sign = false)) as (sg & t1 & -> & -> & Hsg).
  { destruct t0 as [|c t0]; [rewrite app_nil_r, Nat.eqb_refl in En; done|].
    destruct (Z.eqb_spec c MINUS) as [->|]; [|destruct (Z.eqb_spec c PLUS) as [->|]]; simpl in Hsign, Hs1; subst.
    - exists [MINUS], t0. rewrite length_app. simpl. split_and!; [done|lia|by left].
    - exists [PLUS], t0. rewrite length_app. simpl. split_and!; [done|lia|by right; left].
    - exists [], (c :: t0). rewrite app_nil_r. split_and!; [done|done|by right; right]. }
  clear Hsign En. rewrite app_assoc, drop_app_length in Ef, Hne.
  destruct (count_while_split latin1_isdigit t1) as (it & t2 & -> & Fi & Ht2 & Ei). rewrite Ei in *.
  destruct (isdigit_digit_text it Fi) as (ids & -> & Fid). rewrite digit_text_length in *.
  unfold str_frac in Ef. rewrite (app_assoc (sp ++ sg)), char_at_app in Ef by (rewrite !length_app, digit_text_length; lia).
  destruct t2 as [|c t2]; [|destruct (Z.eqb_spec c POINT) as [->|Hc]].
  - rewrite andb_comm in Ef. simpl in Ef. simplify_eq. exists ids, [], []. split; [|done|done| |done].
    + exists sp, sg, []. split_and!; try done. by right.
    + rewrite app_nil_r. by destruct ids.
  - rewrite (proj2 (Nat.ltb_lt _ _)) in Ef by (rewrite !length_app, digit_text_length; simpl; lia). simpl andb in Ef. cbv iota in Ef.
    replace (drop (S (length (sp ++ sg) + length ids)) (((sp ++ sg) ++ digit_text ids) ++ POINT :: t2)) with t2 in Ef.
    2:{ change (POINT :: t2) with ([POINT] ++ t2). rewrite app_assoc, drop_app_length'; [done|].
        rewrite !length_app, digit_text_length. simpl. lia. }
    destruct (count_while_split latin1_isdigit t2) as (ft & tail & -> & Ff & Ht & Eft). rewrite Eft in Ef.
    destruct (isdigit_digit_text ft Ff) as (fds & -> & Ffd). rewrite digit_text_length in Ef. simplify_eq.
    exists ids, fds, tail. split; try done.
    + exists sp, sg, (POINT :: digit_text fds). split_and!; try done. by left.
    + intros E. apply Hne. apply (f_equal length) in E. rewrite length_app in E. simpl in E. lia.
  - rewrite andb_comm in Ef. simpl in Ef. simplify_eq. exists ids, [], (c :: t2). split; try done.
    + exists sp, sg, []. split_and!; try done. right. split_and!; try done.
      intros ?? [= <- <-]. apply Z.eqb_neq. congruence.
    + rewrite app_nil_r. by destruct ids.
Qed.

(** No exponent follows the digits. *)
Definition no_exponent (tail : list Z) : Prop :=
  match tail with c :: _ :: _ => c <> 101 /\ c <> 69 | _ => True end.

Lemma str_exponent_none text d tail error : (length tail <= length text)%nat ->
  drop (length text - length tail) text = tail -> no_exponent tail ->
  str_exponent text d (length text - length tail) error = str_return d (length text - length tail) error.
Proof.
  intros Hl Ed Hn. unfold str_exponent. rewrite char_at_drop, Ed. destruct tail as [|c [|c' tail]].
  - rewrite (proj2 (Nat.ltb_ge _ _)) by (simpl; lia). done.
  - rewrite (proj2 (Nat.ltb_ge _ _)) by (simpl; lia). done.
  - destruct Hn as [H1 H2]. rewrite (proj2 (Z.eqb_neq c _) H1), (proj2 (Z.eqb_neq c _) H2). by rewrite andb_comm.
Qed.

Lemma str_fatal_spec to end_ error : dec_room to ->
  exists d, str_fatal to end_ error = Some (d, end_, error) /\ dec_wf d /\ (dec_Q d == 0)%Q.
Proof.
  intros H. destruct (decimal_make_zero_spec to H) as (d & E & W & _ & _ & _ & V). exists d.
  unfold str_fatal. rewrite E. split_and!; try done. by apply dec_Q_zero.
Qed.

(** A number that fits and no exponent. *)
Lemma string2decimal_literal text to sign ids fds tail : dec_room to -> literal text sign ids fds tail ->
  let n := ROUND_UP (Z.of_nat (length ids)) in
  let k := Z.min (Z.of_nat (length fds)) (9 * (d_len to - n)) in
  n <= d_len to ->
  exists d, string2decimal text to = str_exponent text d (length text - length tail)
      (if k =? Z.of_nat (length fds) then E_DEC_OK else E_DEC_TRUNCATED) /\
    dec_wf d /\ d_len d = d_len to /\ d_frac d = k /\ d_sign d = sign /\
    (dec_Q d == inject_Z (sg sign * of_digits 10 (ids ++ take (Z.to_nat k) fds)) * Q10 (- k))%Q.
Proof.
  intros Hto HL n k Hn. pose proof (ROUND_UP_bounds (Z.of_nat (length ids)) ltac:(lia)) as B. fold n in B.
  pose proof (str_sizes_free to (Z.of_nat (length ids)) (Z.of_nat (length fds)) Hto ltac:(lia) ltac:(lia)) as Es.
  cbv zeta in Es. fold n k in Es. rewrite (proj2 (Z.ltb_ge _ _) Hn) in Es. destruct Hto as [Hl Hb].
  destruct (str2dec_literal text sign ids fds tail to false (Z.of_nat (length ids)) k
    (if k =? Z.of_nat (length fds) then E_DEC_OK else E_DEC_TRUNCATED)) as (d & E & W & L & F & S & Q); try done; try lia.
  - by destruct (_ =? _).
  - pose proof (lit_some _ _ _ _ _ HL) as Hs. destruct ids; [|simpl; lia]. destruct fds; [done|].
    change (ROUND_UP (Z.of_nat (length []))) with 0 in n. simpl in *. lia.
  - fold n. pose proof (ROUND_UP_mono k (9 * (d_len to - n)) ltac:(lia)) as Hr.
    rewrite (Z.mul_comm 9), ROUND_UP_mul9 in Hr by lia. lia.
  - exists d. split_and!; try done. by rewrite Nat2Z.id, Nat.sub_diag in Q.
Qed.

Lemma decimal_run_digits l : Forall is_dig (map (fun c => c - ZERO) (take (count_while is_decimal l) l)).
Proof.
  induction l as [|c l IH]; [constructor|]. simpl. destruct (is_decimal c) eqn:E; [|constructor].
  constructor; [|done]. unfold is_decimal in E. unfold is_dig, ZERO. lia.
Qed.

Lemma decimal_ref_nonneg t negative pos eds : decimal_ref t = (negative, pos, eds) -> 0 <= of_digits 10 eds.
Proof.
  unfold decimal_ref. intros E. repeat case_match; simplify_eq; apply of_digits_bound; try lia; apply decimal_run_digits.
Qed.

(** What the number of the exponent is. *)
Lemma str_exponent_some text d c t error negative pos eds : (length (c :: t) <= length text)%nat ->
  drop (length text - length (c :: t)) text = c :: t -> c = 101 \/ c = 69 -> Forall (fun c => 0 <= c < 256) t ->
  decimal_ref t = (negative, pos, eds) -> eds <> [] -> of_digits 10 eds <= 2 ^ 30 - 1 -> error <> E_DEC_OVERFLOW ->
  str_exponent text d (length text - length (c :: t)) error =
    '(d, error) ← decimal_shift d (if negative then - of_digits 10 eds else of_digits 10 eds);
    str_return d (length text - length t + (pos + length eds)) error.
Proof.
  intros Hl Ed Hc Ft Er Hne Hv He. unfold str_exponent. rewrite char_at_drop, (drop_S _ _ _ _ Ed), Ed.
  replace (S (length text - length (c :: t))) with (length text - length t)%nat by (simpl in *; lia).
  replace (length text - (length text - length t))%nat with (length t) by (simpl in *; lia).
  assert (t <> []) as Ht by (intros ->; vm_compute in Er; by simplify_eq).
  rewrite (proj2 (Nat.ltb_lt _ _)) by (destruct t; [done|simpl in *; lia]).
  replace ((c =? 101) || (c =? 69)) with true by (by destruct Hc as [-> | ->]). cbn [andb].
  pose proof (my_strtoll10_spec t (Some (length t)) t Ft) as H. rewrite Er in H.
  destruct H as [_ H]; [split; [done|by rewrite firstn_all]|]. specialize (H Hne). unfold strtoll_answer in H.
  assert (Forall is_dig eds) as Fe.
  { unfold decimal_ref in Er. injection Er as _ _ <-. apply decimal_run_digits. }
  pose proof (of_digits_bound 10 eds ltac:(lia) Fe) as B. set (v := of_digits 10 eds) in *. 
  rewrite (proj2 (Z.leb_le v _)) in H by (unfold strtoll_limit, MAX_NEGATIVE_NUMBER, ULLONG_MAX; destruct negative; lia).
  rewrite H. cbn [st_endptr st_error st_value]. rewrite (proj2 (Nat.eqb_neq _ 0)) by (destruct eds; [done|simpl; lia]).
  rewrite (proj2 (Z.eqb_neq error _) He). change (Z.quot INT_MAX 2) with (2 ^ 30 - 1). change (Z.quot INT_MIN 2) with (- 2 ^ 30).
  destruct negative; cbn [Z.ltb Z.compare].
  - change (-1 =? 0) with false. cbn [andb].
    rewrite (proj2 (Z.ltb_ge (2 ^ 30 - 1) (- v))), (proj2 (Z.ltb_ge (- v) (- 2 ^ 30))) by lia. done.
  - rewrite wraps_id by (unfold in_s; lia). change (0 =? 0) with true. cbn [andb].
    rewrite (proj2 (Z.ltb_ge (2 ^ 30 - 1) v)), (proj2 (Z.ltb_ge v 0)), (proj2 (Z.ltb_ge v (- 2 ^ 30))) by lia. done.
Qed.

(** ** Claims *)

(** C12: [string2decimal] reads spaces, a sign, digits, a point and digits.  A text
    that has no number is reported as [E_DEC_BAD_NUM].  Of a number without exponent
    the digits before the point are all stored, and as many after it as there are
    words for, with [E_DEC_TRUNCATED] exactly when some are dropped; the decimal is
    never a negative zero.  When the digits before the point do not fit, the lowest
    ones are stored and the error is [E_DEC_OVERFLOW].  The end is reported behind
    the last digit, or the point. *)
Theorem string2decimal_correct text to (Hto : dec_room to) :
  ((forall sign ids fds tail, ~ literal text sign ids fds tail) ->
   exists d end_, string2decimal text to = Some (d, end_, E_DEC_BAD_NUM) /\ dec_wf d /\ (dec_Q d == 0)%Q) /\
  (forall sign ids fds tail, literal text sign ids fds tail -> no_exponent tail ->
   let n := ROUND_UP (Z.of_nat (length ids)) in
   let k := Z.min (Z.of_nat (length fds)) (9 * (d_len to - n)) in
   let end_ := (length text - length tail)%nat in
   if d_len to <? n then
     exists d, string2decimal text to = Some (d, end_, E_DEC_OVERFLOW) /\ dec_wf d /\ dec_nz d /\ d_frac d = 0 /\
       (dec_Q d == inject_Z (sg sign * (of_digits 10 ids mod 10 ^ (9 * d_len to))))%Q
   else
     exists d, string2decimal text to =
         Some (d, end_, if k =? Z.of_nat (length fds) then E_DEC_OK else E_DEC_TRUNCATED) /\
       dec_wf d /\ dec_nz d /\ d_frac d = k /\
       (dec_Q d == inject_Z (sg sign * of_digits 10 (ids ++ take (Z.to_nat k) fds)) * Q10 (- k))%Q).
Proof.
  split.
  - intros Hno. unfold string2decimal, internal_str2dec. destruct (str_start text) as [[sign s1]|] eqn:E1.
    + destruct (str_frac text _) as [frac endp] eqn:E2. destruct (Nat.eqb_spec (frac + count_while latin1_isdigit (drop s1 text)) 0) as [E0|E0].
      * destruct (str_fatal_spec to endp E_DEC_BAD_NUM Hto) as (d & E & W). by exists d, endp.
      * destruct (scan_literal _ _ _ _ _ E1 E2 E0) as (ids & fds & tail & HL). by destruct (Hno sign ids fds tail).
    + destruct (str_fatal_spec to (length text) E_DEC_BAD_NUM Hto) as (d & E & W). by exists d, (length text).
  - intros sign ids fds tail HL Hn n k end_. pose proof (literal_text_length _ _ _ _ _ HL) as Hlt.
    destruct (literal_scan _ _ _ _ _ HL) as (_ & _ & _ & _ & _ & _ & Ed).
    pose proof (ROUND_UP_bounds (Z.of_nat (length ids)) ltac:(lia)) as B. fold n in B. destruct Hto as [Hl Hb].
    destruct (Z.ltb_spec (d_len to) n) as [Hov|Hfit].
    + pose proof (str_sizes_free to (Z.of_nat (length ids)) (Z.of_nat (length fds)) (conj Hl Hb) ltac:(lia) ltac:(lia)) as Es.
      cbv zeta in Es. fold n in Es. rewrite (proj2 (Z.ltb_lt _ _) Hov) in Es.
      destruct (str2dec_literal text sign ids fds tail to false (9 * d_len to) 0 E_DEC_OVERFLOW) as (d & E & W & L & F & S & Q); try done; try lia.
      { rewrite (Z.mul_comm 9), ROUND_UP_mul9 by lia. change (ROUND_UP 0) with 0. lia. }
      destruct (str_return_spec d end_ E_DEC_OVERFLOW W) as (d' & E' & W' & N' & L' & F' & Q').
      exists d'. split_and!; try done; [|by rewrite F'|].
      * unfold string2decimal. by rewrite E, str_exponent_none by (done || lia).
      * rewrite Q', Q. change (Q10 (- 0)) with 1%Q. rewrite Qmult_1_r. apply inject_Z_injective. f_equal.
        rewrite app_nil_r. set (m := (length ids - Z.to_nat (9 * d_len to))%nat).
        rewrite <- (take_drop m ids) at 2. rewrite of_digits_app, length_drop.
        replace (Z.of_nat (length ids - m)) with (9 * d_len to) by lia.
        rewrite Z.add_comm, Z_mod_plus_full, Z.mod_small; [done|].
        pose proof (of_digits_bound 10 (drop m ids) ltac:(lia) (Forall_drop _ _ _ (lit_ids _ _ _ _ _ HL))) as Bd.
        rewrite length_drop in Bd. by replace (Z.of_nat (length ids - m)) with (9 * d_len to) in Bd by lia.
    + destruct (string2decimal_literal text to sign ids fds tail (conj Hl Hb) HL Hfit) as (d & E & W & L & F & S & Q). fold n k end_ in E, F, Q.
      destruct (str_return_spec d end_ (if k =? Z.of_nat (length fds) then E_DEC_OK else E_DEC_TRUNCATED) W) as (d' & E' & W' & N' & L' & F' & Q').
      exists d'. split_and!; try done; [|by rewrite F'|by rewrite Q'].
      unfold end_ in E. by rewrite E, str_exponent_none by (done || lia).
Qed.

(** -12.50 with a space before and a letter behind it, and room for two words *)
Definition ex_parse_room : decimal_t := mk_decimal 0 0 2 false [7; 7].
Definition ex_parse_text : list Z := [32; 45; 49; 50; 46; 53; 48; 120].

Lemma string2decimal_correct_witness :
  exists d, string2decimal ex_parse_text ex_parse_room = Some (d, 7%nat, E_DEC_OK) /\ (dec_Q d == - 125 # 10)%Q.
Proof.
  destruct (string2decimal_correct ex_parse_text ex_parse_room) as [_ H]; [by split|].
  destruct (H true [1; 2] [5; 0] [120]) as (d & E & _ & _ & _ & Q).
  - split; try done.
    + exists [32], [45], [46; 53; 48]. split_and!; [done|by constructor|by left|by left].
    + repeat constructor; done.
    + repeat constructor; done.
    + by intros ?? [= <- <-].
  - done.
  - exists d. split; [exact E|]. rewrite Q. by vm_compute.
Defined.

(** A number with an exponent, whose digits fit: the decimal is the number times
    the power of ten, rounded half up to the words that are left for the fraction.
    [E_DEC_TRUNCATED] says that digits were lost, [E_DEC_OVERFLOW] that the digits
    before the point do not fit; the end is behind the exponent.  The exponent may
    have a sign and blanks before it and be up to 2^30 - 1. *)
Theorem string2decimal_exponent text to sign ids fds c t negative pos eds (Hto : dec_room to)
  (HL : literal text sign ids fds (c :: t)) (Hc : c = 101 \/ c = 69) (Ht : Forall (fun c => 0 <= c < 256) t)
  (Her : decimal_ref t = (negative, pos, eds)) (Hne : eds <> []) (Hv : of_digits 10 eds <= 2 ^ 30 - 1)
  (Hfit : ROUND_UP (Z.of_nat (length ids)) + ROUND_UP (Z.of_nat (length fds)) <= d_len to) (Hlen : d_len to <= 2 ^ 25) :
  let v := if negative then - of_digits 10 eds else of_digits 10 eds in
  let m := of_digits 10 (ids ++ fds) in
  let q := (inject_Z (sg sign * m) * Q10 (v - Z.of_nat (length fds)))%Q in
  let end_ := (length text - length t + (pos + length eds))%nat in
  (m = 0 -> exists d, string2decimal text to = Some (d, end_, E_DEC_OK) /\ dec_wf d /\ dec_nz d /\ (dec_Q d == 0)%Q) /\
  forall e, leads q e ->
    let n := ROUND_UP (Z.max e 0) in
    let s := 9 * (d_len to - n) in
    (d_len to < n -> exists d, string2decimal text to = Some (d, end_, E_DEC_OVERFLOW) /\ dec_wf d /\ dec_nz d) /\
    (n <= d_len to -> leads (round_Q HALF_UP q s) e ->
     exists d, string2decimal text to =
         Some (d, end_, if Qeq_bool (round_Q HALF_UP q s) q then E_DEC_OK else E_DEC_TRUNCATED) /\
       dec_wf d /\ dec_nz d /\ (dec_Q d == round_Q HALF_UP q s)%Q).
Proof.
  intros v m q end_. pose proof (literal_text_length _ _ _ _ _ HL) as Hlt.
  destruct (literal_scan _ _ _ _ _ HL) as (_ & _ & _ & _ & _ & _ & Ed).
  pose proof (ROUND_UP_bounds (Z.of_nat (length ids)) ltac:(lia)) as Bi.
  pose proof (ROUND_UP_bounds (Z.of_nat (length fds)) ltac:(lia)) as Bf.
  destruct (string2decimal_literal text to sign ids fds (c :: t) Hto HL) as (d & E & W & L & F & S & Q); [lia|].
  rewrite (Z.min_l (Z.of_nat (length fds))) in E, F, Q by lia. rewrite Z.eqb_refl in E. rewrite Nat2Z.id, firstn_all in Q.
  rewrite (str_exponent_some text d c t E_DEC_OK negative pos eds) in E by (done || lia). fold v end_ in E. fold m in Q.
  assert (q == dec_Q d * Q10 v)%Q as Eq.
  { unfold q. rewrite Q, <- Qmult_assoc, <- Q10_add. by replace (- Z.of_nat (length fds) + v) with (v - Z.of_nat (length fds)) by lia. }
  assert (shift_small d v) as Hsm.
  { unfold shift_small. rewrite L. assert (0 <= of_digits 10 eds) by by eapply decimal_ref_nonneg. unfold v. destruct negative; lia. }
  split.
  - intros E0. destruct (decimal_shift_zero d v W Hsm) as (d1 & E1 & W1 & L1 & V1).
    { apply dec_Q_zero_inv. rewrite Q, E0, Z.mul_0_r. apply Qmult_0_l. }
    destruct (str_return_spec d1 end_ E_DEC_OK W1) as (d' & E' & W' & N' & _ & _ & Q'). exists d'.
    rewrite E, E1. split_and!; try done. rewrite Q'. by apply dec_Q_zero.
  - intros e He n s. destruct (decimal_shift_spec d v e W Hsm) as [Hov Hok]; [by rewrite <- Eq|]. rewrite L in Hov, Hok. fold n s in Hov, Hok.
    split.
    + intros Hn. rewrite E, Hov by done. destruct (str_return_spec d end_ E_DEC_OVERFLOW W) as (d' & E' & W' & N' & _). by exists d'.
    + intros Hn HLe. destruct Hok as (d1 & E1 & W1 & _ & _ & Q1); [done|by rewrite <- Eq|].
      assert (Qeq_bool (round_Q HALF_UP q s) q = Qeq_bool (round_Q HALF_UP (dec_Q d * Q10 v) s) (dec_Q d * Q10 v)) as ->
        by (apply Qeqb_comp; [by rewrite Eq|done]).
      set (err := if Qeq_bool _ _ then _ else _) in *.
      destruct (str_return_spec d1 end_ err W1) as (d' & E' & W' & N' & _ & _ & Q'). exists d'.
      rewrite E, E1. split_and!; try done. by rewrite Q', Q1, Eq.
Qed.

(** 1.25E 2z *)
Definition ex_exponent_text : list Z := [49; 46; 50; 53; 69; 32; 50; 122].

Lemma string2decimal_exponent_witness :
  exists d, string2decimal ex_exponent_text ex_parse_room = Some (d, 7%nat, E_DEC_OK) /\ (dec_Q d == inject_Z 125)%Q.
Proof.
  destruct (string2decimal_exponent ex_exponent_text ex_parse_room false [1] [2; 5] 69 [32; 50; 122] false 1 [2]) as [_ H].
  - by split.
  - split; try done.
    + exists [], [], [46; 50; 53]. split_and!; [done|constructor|by right; right|by left].
    + repeat constructor; done.
    + repeat constructor; done.
    + by intros ?? [= <- <-].
  - by right.
  - repeat constructor; done.
  - done.
  - done.
  - vm_compute. congruence.
  - vm_compute. congruence.
  - vm_compute. congruence.
  - destruct (H 3) as [_ Hc]; [by split; vm_compute|].
    destruct Hc as (d & E & _ & _ & Q); [vm_compute; congruence|by split; vm_compute|].
    exists d. split; [exact E|]. rewrite Q. by vm_compute.
Defined.

(** The error for digits that are dropped is lost when an exponent follows: in
    one word 1.5 becomes 1 with [E_DEC_TRUNCATED], but 1.5e0 becomes 1 without error. *)
Theorem string2decimal_error_lost : let to := mk_decimal 0 0 1 false [0] in
  string2decimal [49; 46; 53] to = Some (mk_decimal 1 0 1 false [1], 3%nat, E_DEC_TRUNCATED) /\
  string2decimal [49; 46; 53; 101; 48] to = Some (mk_decimal 1 0 1 false [1], 5%nat, E_DEC_OK).
Proof. done. Qed.

(** ** Round trip *)

Lemma dec_val_parts d : dec_wf d ->
  dec_val d = (int_value d * 10 ^ d_frac d + frac_value d) * 10 ^ (9 * ROUND_UP (d_frac d) - d_frac d) /\
  0 <= int_value d /\ 0 <= frac_value d < 10 ^ d_frac d.
Proof.
  intros Hd. pose proof (ROUND_UP_bounds _ (wf_frac d Hd)) as B. pose proof (wf_frac d Hd). pose proof (dec_val_nonneg d Hd).
  pose proof (wf_aligned d Hd) as [q Eq]. unfold int_value, frac_value. rewrite DIG_BASE_pow by lia.
  set (f := d_frac d) in *. set (e := 9 * ROUND_UP f - f) in *. assert (9 * ROUND_UP f = f + e) as -> by lia.
  assert (0 < 10 ^ f /\ 0 < 10 ^ e) as [Hpf Hpe] by (split; apply Z.pow_pos_nonneg; lia).
  rewrite Z.pow_add_r, Eq by lia. set (A := 10 ^ f) in *. set (C := 10 ^ e) in *. clearbody A C.
  rewrite Z.div_mul_cancel_r, Z.mul_mod_distr_r, Z.div_mul by lia.
  assert (0 <= q) by nia. pose proof (Z.div_mod q A ltac:(lia)) as Edm. split_and!.
  - f_equal. lia.
  - apply Z.div_pos; lia.
  - apply Z.mod_pos_bound. lia.
  - apply Z.mod_pos_bound. lia.
Qed.

(** The text of a decimal is a number. *)
Lemma dec_text_literal d : dec_wf d ->
  literal (dec_text d) (d_sign d) (digits 10 (int_value d)) (fixed_digits (Z.to_nat (d_frac d)) (frac_value d)) [].
Proof.
  intros Hd. pose proof (dec_val_parts d Hd) as (_ & Hi & _). split.
  - exists [], (sign_text d), (if d_frac d =? 0 then [] else POINT :: frac_text d). split_and!.
    + unfold dec_text, dec_text_cut, int_text. rewrite app_nil_r, <- frac_text_length, firstn_all. done.
    + constructor.
    + unfold sign_text. destruct (d_sign d); [by left|by right; right].
    + destruct (Z.eqb_spec (d_frac d) 0) as [->|]; [by right|by left].
  - apply (digits_spec 10); lia.
  - apply fixed_digits_ok.
  - intros E. apply (f_equal length) in E. rewrite length_app in E.
    destruct (Z.eq_dec (int_value d) 0) as [E0|]; [rewrite E0 in E; simpl in E; lia|].
    destruct (digits_head 10 (int_value d)) as (x & xs & Ex & _); [lia|lia|]. rewrite Ex in E. simpl in E. lia.
  - done.
Qed.

(** C13: [string2decimal] reads back what [decimal2string] prints: the same number,
    with the same number of digits after the point, when both buffers are large
    enough.  A negative zero is read back as zero. *)
Theorem decimal_text_roundtrip d to buf to_len filler (Hd : dec_wf d) (Hto : dec_room to)
  (Hlen : decimal_string_size d <= to_len) (Hbuf : to_len <= Z.of_nat (length buf))
  (Hfit : ROUND_UP (Z.max 1 (d_intg d)) + ROUND_UP (d_frac d) <= d_len to) :
  exists buf' len d', decimal2string d buf to_len 0 0 filler = Some (buf', len, E_DEC_OK) /\
    string2decimal (take (Z.to_nat len) buf') to = Some (d', Z.to_nat len, E_DEC_OK) /\
    dec_wf d' /\ dec_nz d' /\ d_frac d' = d_frac d /\ (dec_Q d' == dec_Q d)%Q.
Proof.
  destruct (decimal_string_size_room d to_len Hd Hlen) as [Hr Hk].
  destruct (decimal2string_spec d buf to_len filler Hd Hr Hbuf) as (rest & E). rewrite Hk, Z.eqb_refl in E. fold (dec_text d) in E.
  pose proof (dec_text_literal d Hd) as HL. pose proof (dec_val_parts d Hd) as (EV & Hi & Hf).
  set (ids := digits 10 (int_value d)) in *. set (fds := fixed_digits _ _) in *.
  pose proof (wf_frac d Hd) as Hf0. pose proof (wf_intg d Hd) as Hi0.
  assert (Z.of_nat (length fds) = d_frac d) as Lf by (unfold fds; rewrite fixed_digits_length; lia).
  assert (ROUND_UP (Z.of_nat (length ids)) <= ROUND_UP (Z.max 1 (d_intg d))) as Ln.
  { apply ROUND_UP_mono. pose proof (int_text_length_le d Hd) as LI. unfold int_text in LI. rewrite digit_text_length in LI.
    fold ids in LI. destruct (d_intg d =? 0) eqn:E0; lia. }
  pose proof (ROUND_UP_bounds (d_frac d) Hf0) as Bf.
  destruct (string2decimal_literal (dec_text d) to (d_sign d) ids fds [] Hto HL) as (d1 & E1 & W1 & _ & F1 & S1 & Q1); [lia|].
  rewrite Lf, (Z.min_l (d_frac d)), Z.eqb_refl, str_exponent_none in E1 by (done || simpl; lia || apply drop_ge; simpl; lia).
  destruct (str_return_spec d1 (length (dec_text d) - length (@nil Z)) E_DEC_OK W1) as (d' & E' & W' & N' & _ & F' & Q').
  rewrite Nat.sub_0_r in E', E1. exists (dec_text d ++ 0 :: rest), (Z.of_nat (length (dec_text d))), d'.
  rewrite Nat2Z.id, take_app_length, E1. rewrite Lf, (Z.min_l (d_frac d)) in F1, Q1 by lia.
  split_and!; try done; [by rewrite F'|]. rewrite Q', Q1. symmetry.
  apply (dec_Q_shift d _ _ (ROUND_UP (d_frac d))); [done|done|lia|]. unfold dec_sval, sg. rewrite EV.
  assert (of_digits 10 (ids ++ take (Z.to_nat (d_frac d)) fds) = int_value d * 10 ^ d_frac d + frac_value d) as ->.
  { rewrite firstn_all2 by (unfold fds; rewrite fixed_digits_length; lia). rewrite of_digits_app, Lf. unfold ids, fds.
    rewrite (proj1 (digits_spec 10 (int_value d) ltac:(lia) Hi)), fixed_digits_value, Z2Nat.id, Z.mod_small by lia. done. }
  destruct (d_sign d); ring.
Qed.

(** -12.345, written to 20 bytes and read back into two words *)
Lemma decimal_text_roundtrip_witness :
  exists buf' len d', decimal2string ex_dec_text (replicate 20 7) 20 0 0 0 = Some (buf', len, E_DEC_OK) /\
    string2decimal (take (Z.to_nat len) buf') ex_parse_room = Some (d', Z.to_nat len, E_DEC_OK) /\
    (dec_Q d' == - 12345 # 1000)%Q.
Proof.
  destruct (decimal_text_roundtrip ex_dec_text ex_parse_room (replicate 20 7) 20 0) as (b & l & d' & E & E' & _ & _ & _ & Q).
  - by apply dec_wfb_wf.
  - by split.
  - vm_compute. congruence.
  - vm_compute. congruence.
  - vm_compute. congruence.
  - exists b, l, d'. split; [exact E|]. split; [exact E'|]. rewrite Q. by vm_compute.
Defined.
