(* ===== verification/DecimalDiv.v ===== *)
(** * Fixed-point decimals: division

    [do_div_mod] of [strings/decimal.c] with [decimal_div] and [decimal_mod]:
    division of word by word, with a guess for each word of the quotient that is
    made from the first two words of the divisor and corrected afterwards.  The
    arrays of the operands and of the result are different ones. *)

From Stdlib Require Import ZArith Lia.
From stdpp Require Import base numbers option tactics list.
From S2P Require Import Prelude NumText Decimal DecimalArith DecimalDigits.

#[local] Open Scope Z_scope.

Definition E_DEC_DIV_ZERO : Z := 4.

Definition SUB2 (from1 from2 carry : Z) : Z * Z :=
  let a := wraps 32 (from1 - from2 - carry) in
  let '(a, carry) := if a <? 0 then (wraps 32 (a + DIG_BASE), 1) else (a, 0) in
  if a <? 0 then (wraps 32 (a + DIG_BASE), carry + 1) else (a, carry).

(** The index of the first word that is not zero and the digits from there on, with
    those of the whole last word of the fraction; no digits when there is none. *)
Definition div_strip (from : decimal_t) : option (Z * Z) :=
  let prec := d_intg from + ROUND_UP (d_frac from) * DIG_PER_DEC1 in
  '(prec, buf) ← leading_zero_words (d_buf from) prec (Z.rem (prec - 1) DIG_PER_DEC1 + 1);
  if 0 <? prec then
    w ← rd (d_buf from) buf;
    Some (buf, prec - count_leading_zeroes (Z.rem (prec - 1) DIG_PER_DEC1) w)
  else Some (buf, 0).

(** [while ( *stop2 == 0 && stop2 >= start2) stop2--], on the words from the last. *)
Fixpoint drop_zero_words (r : list Z) : list Z :=
  match r with
  | w :: r' => if w =? 0 then drop_zero_words r' else r
  | [] => []
  end.

(** The divisor, its words [start2 .. stop2), and what is derived from it. *)
Definition norm_factor (ds : list Z) : Z :=
  match ds with d0 :: _ => Z.quot DIG_BASE (d0 + 1) | [] => 0 end.

Definition norm2 (ds : list Z) : Z :=
  match ds with
  | d0 :: d1 :: _ => wraps 32 (wraps 32 (norm_factor ds * d0) + wraps 32 (Z.quot (norm_factor ds * d1) DIG_BASE))
  | d0 :: [] => wraps 32 (norm_factor ds * d0)
  | [] => 0
  end.

(** The test that a guess is too large. *)
Definition guess_large (d0 d1 x y guess : Z) : bool :=
  wraps 64 (wraps 64 (x - guess * d0) * DIG_BASE + y) <? d1 * guess.

(** D3: the guess, from [x] and [y]. *)
Definition div_guess (ds : list Z) (x y : Z) : Z :=
  let nf := norm_factor ds in
  let guess := Z.quot (wraps 64 (wraps 64 (nf * x) + Z.quot (nf * y) DIG_BASE)) (norm2 ds) in
  let guess := if DIG_BASE <=? guess then DIG_BASE - 1 else guess in
  match ds with
  | d0 :: d1 :: _ =>
      let guess := if guess_large d0 d1 x y guess then guess - 1 else guess in
      if guess_large d0 d1 x y guess then guess - 1 else guess
  | _ => guess
  end.

(** D4: multiply and subtract, on the words from the last one on. *)
Fixpoint mul_sub (guess : Z) (r2 r1 : list Z) (carry : Z) : list Z * Z :=
  match r2, r1 with
  | w2 :: r2, w1 :: r1 =>
      let x := guess * w2 in
      let hi := Z.quot x DIG_BASE in
      let lo := x - hi * DIG_BASE in
      let '(a, carry) := SUB2 w1 lo carry in
      let '(r, carry) := mul_sub guess r2 r1 (carry + hi) in
      (a :: r, carry)
  | _, _ => (r1, carry)
  end.

(** D6: add the divisor back. *)
Fixpoint add_back (r2 r1 : list Z) (carry : Z) : list Z :=
  match r2, r1 with
  | w2 :: r2, w1 :: r1 => let '(a, carry) := ADD w1 w2 carry in a :: add_back r2 r1 carry
  | _, _ => r1
  end.

(** A word of the quotient, and the words [ts] from [start1] on after it. *)
Definition div_word (ds : list Z) (dcarry : Z) (ts : list Z) : option (Z * list Z) :=
  match ds, ts with
  | d0 :: _, t0 :: ts' =>
      if (dcarry =? 0) && (t0 <? d0) then Some (0, ts)
      else
        match ts' with
        | [] => None
        | y :: _ =>
            let guess := div_guess ds (t0 + dcarry * DIG_BASE) y in
            let n := length ds in
            if (length ts <? n)%nat then None
            else
              let '(r, carry) := mul_sub guess (rev ds) (rev (take n ts)) 0 in
              if dcarry <? carry then Some (guess - 1, rev (add_back (rev ds) r 0) ++ drop n ts)
              else Some (guess, rev r ++ drop n ts)
        end
  | _, _ => None
  end.

(** The main loop: [n] words of the quotient, the last [dcarry] and the words that
    are left. *)
Fixpoint div_loop (n : nat) (ds : list Z) (dcarry : Z) (ts : list Z) : option (list Z * Z * list Z) :=
  match n with
  | O => Some ([], dcarry, ts)
  | S n =>
      '(guess, ts) ← div_word ds dcarry ts;
      match ts with
      | [] => None
      | t0 :: ts =>
          '(guesses, dcarry, ts) ← div_loop n ds t0 ts;
          Some (guess :: guesses, dcarry, ts)
      end
  end.

(** [if ( *start1 < *start2) dcarry= *start1++; else dcarry= 0] *)
Definition div_start (ds ts : list Z) : option (Z * list Z) :=
  match ds, ts with
  | d0 :: _, t0 :: ts' => Some (if t0 <? d0 then (t0, ts') else (0, ts))
  | _, _ => None
  end.

(** [done:], without the zero words in front. *)
Definition div_done (to : decimal_t) (error : Z) : option (decimal_t * Z) :=
  '(buf0, intg) ← remove_leading_zeroes to;
  buf ← (if buf0 =? 0 then Some (d_buf to)
         else
           let n := ROUND_UP intg + ROUND_UP (d_frac to) in
           ws ← words (d_buf to) buf0 (buf0 + n); store_down (d_buf to) n ws);
  Some (mk_decimal intg (d_frac to) (d_len to) (d_sign to) buf, error).

(** The quotient, of [intg0] and [frac0] words, after [- dintg] words of zeroes. *)
Definition div_quotient (to : decimal_t) (sign : bool) (dintg intg0 frac0 : Z) (ds : list Z) (dcarry : Z) (ts : list Z)
  : option (decimal_t * Z) :=
  let '(intg0, frac0, error) := FIX_INTG_FRAC_ERROR (d_len to) intg0 frac0 in
  let zeroes := Z.min (Z.max 0 (- dintg)) (d_len to) in
  '(guesses, _, _) ← div_loop (Z.to_nat (intg0 + frac0 - zeroes)) ds dcarry ts;
  buf ← store_down (d_buf to) (Z.max zeroes (intg0 + frac0)) (replicate (Z.to_nat zeroes) 0 ++ guesses);
  div_done (mk_decimal (intg0 * DIG_PER_DEC1) (frac0 * DIG_PER_DEC1) (d_len to) sign buf) error.

(** The remainder: [ts] are the words from [start1] on, which is the word at
    [start] of [tmp1], and [digits] the digits before the point of the dividend. *)
Definition mod_remainder (to : decimal_t) (sign : bool) (frac intg2 digits start : Z) (ts : list Z) : option (decimal_t * Z) :=
  let dintg := digits - start * DIG_PER_DEC1 in
  let intg0 := if dintg <? 0 then Z.quot dintg DIG_PER_DEC1 else ROUND_UP dintg in
  let frac0 := ROUND_UP frac in
  if (frac0 =? 0) && (intg0 =? 0) then zero ← decimal_make_zero to; div_done zero E_DEC_OK
  else if (intg0 <=? 0) && (d_len to <=? - intg0) then zero ← decimal_make_zero to; div_done zero E_DEC_TRUNCATED
  else if d_len to <? intg0 then div_done (mk_decimal (d_intg to) frac (d_len to) sign (d_buf to)) E_DEC_OVERFLOW
  else
    let zeroes := Z.max 0 (- intg0) in
    let n := frac0 + intg0 in
    let '(intg, intg0, frac0) :=
      if intg0 <=? 0 then (0, 1, frac0 + intg0) else (Z.min (intg0 * DIG_PER_DEC1) intg2, intg0, frac0) in
    let '(n, frac, error) :=
      if d_len to <? intg0 + frac0
      then (n - (frac0 + intg0 - d_len to), (d_len to - intg0) * DIG_PER_DEC1, E_DEC_TRUNCATED)
      else (n, frac, E_DEC_OK) in
    ws ← words ts 0 (Z.max 0 n);
    buf ← store_down (d_buf to) (zeroes + Z.max 0 n) (replicate (Z.to_nat zeroes) 0 ++ ws);
    div_done (mk_decimal intg frac (d_len to) sign buf) error.

(** [is_mod] is [false] for a division. *)
Definition do_div_mod (from1 from2 to : decimal_t) (is_mod : bool) (scale_incr : Z) : option (decimal_t * Z) :=
  let frac1 := ROUND_UP (d_frac from1) * DIG_PER_DEC1 in
  let frac2 := ROUND_UP (d_frac from2) * DIG_PER_DEC1 in
  '(buf2, prec2) ← div_strip from2;
  if prec2 <=? 0 then Some (to, E_DEC_DIV_ZERO)
  else
    '(buf1, prec1) ← div_strip from1;
    if prec1 <=? 0 then zero ← decimal_make_zero to; Some (zero, E_DEC_OK)
    else
      w1 ← rd (d_buf from1) buf1;
      w2 ← rd (d_buf from2) buf2;
      let scale_incr := Z.max 0 (scale_incr - (frac1 - d_frac from1 + frac2 - d_frac from2)) in
      let dintg := prec1 - frac1 - (prec2 - frac2) + (if w2 <=? w1 then 1 else 0) in
      let '(dintg, intg0) := if dintg <? 0 then (Z.quot dintg DIG_PER_DEC1, 0) else (dintg, ROUND_UP dintg) in
      let n1 := ROUND_UP prec1 in
      let len1 := Z.max 3 (n1 + ROUND_UP (2 * frac2 + scale_incr + 1) + 1) in
      ws1 ← words (d_buf from1) buf1 (buf1 + n1);
      ws2 ← words (d_buf from2) buf2 (buf2 + ROUND_UP prec2);
      let ds := rev (drop_zero_words (rev ws2)) in
      '(dcarry, ts) ← div_start ds (ws1 ++ replicate (Z.to_nat (len1 - n1)) 0);
      if is_mod then
        '(_, dcarry, ts) ← div_loop (Z.to_nat intg0) ds dcarry ts;
        let ts := if dcarry =? 0 then ts else dcarry :: ts in
        mod_remainder to (d_sign from1) (Z.max (d_frac from1) (d_frac from2)) (d_intg from2) (prec1 - frac1)
          (len1 - Z.of_nat (length ts)) ts
      else
        div_quotient to (xorb (d_sign from1) (d_sign from2)) dintg intg0 (ROUND_UP (frac1 + frac2 + scale_incr)) ds dcarry ts.

Definition decimal_div (from1 from2 to : decimal_t) (scale_incr : Z) : option (decimal_t * Z) :=
  do_div_mod from1 from2 to false scale_incr.

Definition decimal_mod (from1 from2 to : decimal_t) : option (decimal_t * Z) :=
  do_div_mod from1 from2 to true 0.

(** ** A word of the quotient *)

Lemma SUB2_spec w1 w2 c : word_ok w1 -> word_ok w2 -> 0 <= c <= DIG_BASE ->
  exists a c', SUB2 w1 w2 c = (a, c') /\ word_ok a /\ 0 <= c' <= 2 /\ a - c' * DIG_BASE = w1 - w2 - c.
Proof.
  unfold word_ok, SUB2, DIG_BASE. intros H1 H2 Hc. rewrite (wraps_id 32 (w1 - w2 - c)) by (unfold in_s; lia).
  destruct (Z.ltb_spec (w1 - w2 - c) 0).
  - rewrite wraps_id by (unfold in_s; lia). destruct (Z.ltb_spec (w1 - w2 - c + 1000000000) 0).
    + rewrite wraps_id by (unfold in_s; lia). eexists _, _. split; [done|]. lia.
    + eexists _, _. split; [done|]. lia.
  - destruct (Z.ltb_spec (w1 - w2 - c) 0); [lia|]. eexists _, _. split; [done|]. lia.
Qed.

Lemma mul_sub_spec guess r2 r1 c : length r2 = length r1 -> Forall word_ok r2 -> Forall word_ok r1 ->
  word_ok guess -> 0 <= c <= DIG_BASE ->
  exists r c', mul_sub guess r2 r1 c = (r, c') /\ length r = length r1 /\ Forall word_ok r /\ 0 <= c' /\
    rval r - c' * DIG_BASE ^ Z.of_nat (length r1) = rval r1 - guess * rval r2 - c.
Proof.
  intros Hl F2 F1 Hg. revert r1 c Hl F1. induction F2 as [|w2 r2 H2 F2 IH]; intros [|w1 r1] c Hl F1 Hc; try done.
  { exists [], c. split_and!; try done; [lia|]. change (rval []) with 0. cbn [length]. change (DIG_BASE ^ Z.of_nat 0) with 1. lia. }
  inversion_clear F1 as [|?? H1 F1']. cbn [mul_sub]. cbv zeta. set (hi := Z.quot (guess * w2) DIG_BASE).
  assert (0 <= hi <= DIG_BASE - 2 /\ word_ok (guess * w2 - hi * DIG_BASE)) as [Hh Hlo].
  { unfold hi. clear -Hg H2. unfold word_ok in *. rewrite Z.quot_div_nonneg by (unfold DIG_BASE in *; nia).
    pose proof (Z.mod_pos_bound (guess * w2) DIG_BASE ltac:(done)) as B. rewrite Z.mod_eq in B by done.
    split; [|lia]. split; [apply Z.div_pos; [nia|done]|].
    assert (guess * w2 / DIG_BASE < DIG_BASE - 1); [|lia]. apply Z.div_lt_upper_bound; unfold DIG_BASE in *; nia. }
  destruct (SUB2_spec w1 (guess * w2 - hi * DIG_BASE) c) as (a & c1 & -> & Ha & Hc1 & Ea); [done..|].
  destruct (IH r1 (c1 + hi)) as (r & c' & -> & Lr & Fr & Hc' & Er); [by inversion Hl|done|unfold DIG_BASE in *; lia|].
  exists (a :: r), c'. simpl length. rewrite Lr. split_and!; [done..|by constructor|done|].
  rewrite !rval_cons, Nat2Z.inj_succ, Z.pow_succ_r by lia.
  transitivity (a + DIG_BASE * (rval r - c' * DIG_BASE ^ Z.of_nat (length r1))); [ring|]. rewrite Er.
  transitivity (a - c1 * DIG_BASE - hi * DIG_BASE + DIG_BASE * (rval r1 - guess * rval r2)); [ring|]. rewrite Ea. ring.
Qed.

Lemma add_back_spec r2 r1 c : length r2 = length r1 -> Forall word_ok r2 -> Forall word_ok r1 -> 0 <= c <= 1 ->
  exists c', length (add_back r2 r1 c) = length r1 /\ Forall word_ok (add_back r2 r1 c) /\ 0 <= c' <= 1 /\
    rval (add_back r2 r1 c) + c' * DIG_BASE ^ Z.of_nat (length r1) = rval r1 + rval r2 + c.
Proof.
  intros Hl F2. revert r1 c Hl. induction F2 as [|w2 r2 H2 F2 IH]; intros [|w1 r1] c Hl F1 Hc; try done.
  { exists c. cbn [add_back]. split_and!; try done; [lia..|]. change (rval []) with 0. cbn [length]. change (DIG_BASE ^ Z.of_nat 0) with 1. lia. }
  inversion_clear F1 as [|?? H1 F1']. cbn [add_back].
  destruct (ADD_spec w1 w2 c) as (a & c1 & -> & Ha & Hc1 & Ea); [done..|].
  destruct (IH r1 c1) as (c' & Lr & Fr & Hc' & Er); [by inversion Hl|done..|].
  exists c'. simpl length. rewrite Lr. split_and!; [done|by constructor|lia|lia|].
  rewrite !rval_cons, Nat2Z.inj_succ, Z.pow_succ_r by lia.
  transitivity (a + DIG_BASE * (rval (add_back r2 r1 c1) + c' * DIG_BASE ^ Z.of_nat (length r1))); [ring|].
  rewrite Er. transitivity (a + c1 * DIG_BASE + DIG_BASE * (rval r1 + rval r2)); [ring|]. rewrite Ea. ring.
Qed.

(** The divisor's first word is normalised to at least half of the base. *)
Lemma norm_factor_bounds d0 ds : word_ok d0 -> 0 < d0 ->
  let nf := norm_factor (d0 :: ds) in
  1 <= nf /\ nf * (d0 + 1) <= DIG_BASE /\ DIG_BASE <= 2 * (nf * d0).
Proof.
  intros Hd Hp. cbn [norm_factor]. rewrite Z.quot_div_nonneg by (unfold DIG_BASE; lia). cbv zeta.
  pose proof (Z.mul_div_le DIG_BASE (d0 + 1) ltac:(lia)) as L.
  pose proof (Z.mul_succ_div_gt DIG_BASE (d0 + 1) ltac:(lia)) as U.
  set (nf := DIG_BASE / (d0 + 1)) in *. clearbody nf. unfold word_ok, DIG_BASE in *.
  assert (1 <= nf) by nia. split_and!; [done|lia|].
  destruct (Z.le_gt_cases 500000000 d0); [nia|].
  destruct (Z.le_gt_cases 1000000000 (2 * (nf * d0))); [done|exfalso].
  assert (2 * (nf * d0) <= 999999998) as H2 by lia.
  assert ((1000000000 - d0) * d0 <= nf * (d0 + 1) * d0) as H3 by (apply Z.mul_le_mono_nonneg_r; nia).
  assert (nf * d0 * (d0 + 1) <= 499999999 * (d0 + 1)) as H4 by (apply Z.mul_le_mono_nonneg_r; lia).
  nia.
Qed.

Lemma guess_large_spec d0 d1 x y g : word_ok y -> - 3 * DIG_BASE <= x - g * d0 <= 3 * DIG_BASE ->
  guess_large d0 d1 x y g = (x * DIG_BASE + y <? g * (d0 * DIG_BASE + d1)).
Proof.
  unfold guess_large, word_ok, DIG_BASE. intros Hy Hx.
  rewrite (wraps_id 64 (x - g * d0)), wraps_id by (unfold in_s; lia).
  destruct (Z.ltb_spec ((x - g * d0) * 1000000000 + y) (d1 * g)), (Z.ltb_spec (x * 1000000000 + y) (g * (d0 * 1000000000 + d1)));
    try done; nia.
Qed.

(** The guess before its corrections, against the quotient of the leading words. *)
Lemma guess_bounds nf d0 d1 x y : 1 <= nf -> nf * (d0 + 1) <= DIG_BASE -> DIG_BASE <= 2 * (nf * d0) ->
  word_ok d0 -> word_ok d1 -> word_ok y -> 0 <= x ->
  let p := (x * DIG_BASE + y) / (d0 * DIG_BASE + d1) in
  let g := (nf * x + nf * y / DIG_BASE) / (nf * d0 + nf * d1 / DIG_BASE) in
  0 <= p <= g /\ (p < DIG_BASE -> g <= p + 2).
Proof.
  intros Hn Hu Hh H0 H1 Hy Hx p g. unfold word_ok in *.
  assert (0 < d0) by (destruct (Z.le_gt_cases d0 0); [nia|done]).
  set (X := x * DIG_BASE + y) in *. set (E := d0 * DIG_BASE + d1) in *.
  assert (0 < E) as HE by (unfold E; nia). assert (0 <= X) as HX by (unfold X; nia).
  assert (nf * x + nf * y / DIG_BASE = nf * X / DIG_BASE) as EN.
  { unfold X. replace (nf * (x * DIG_BASE + y)) with (nf * x * DIG_BASE + nf * y) by ring. by rewrite Z.div_add_l. }
  assert (nf * d0 + nf * d1 / DIG_BASE = nf * E / DIG_BASE) as EM.
  { unfold E. replace (nf * (d0 * DIG_BASE + d1)) with (nf * d0 * DIG_BASE + nf * d1) by ring. by rewrite Z.div_add_l. }
  assert (nf * d0 <= nf * E / DIG_BASE) as HM by (rewrite <- EM; pose proof (Z.div_pos (nf * d1) DIG_BASE ltac:(nia) ltac:(done)); lia).
  unfold g. rewrite EN, EM. clear g EN EM. set (N := nf * X / DIG_BASE). set (M := nf * E / DIG_BASE) in *.
  assert (0 <= p) as Hp by (apply Z.div_pos; lia).
  pose proof (Z.mul_div_le X E HE) as L. pose proof (Z.mul_succ_div_gt X E HE) as U. fold p in L, U.
  pose proof (Z.mul_div_le (nf * E) DIG_BASE ltac:(done)) as LM. pose proof (Z.mul_succ_div_gt (nf * E) DIG_BASE ltac:(done)) as UM.
  fold M in LM, UM. assert (0 < M) by nia. clearbody M p X E. split; [split; [done|]|].
  - apply Z.div_le_lower_bound; [done|]. apply Z.div_le_lower_bound; [done|].
    transitivity (p * (nf * E)); [nia|]. transitivity (nf * (E * p)); [lia|]. nia.
  - intros HpB. apply Z.lt_succ_r. apply Z.div_lt_upper_bound; [done|]. apply Z.div_lt_upper_bound; [done|].
    apply Z.lt_le_trans with (nf * (E * Z.succ p)); [nia|].
    transitivity (DIG_BASE * Z.succ M * Z.succ p); [nia|].
    replace (DIG_BASE * Z.succ M * Z.succ p) with (DIG_BASE * (Z.succ M * Z.succ p)) by ring.
    apply Z.mul_le_mono_nonneg_l; [done|]. unfold DIG_BASE in *. nia.
Qed.

(** No product of the guess is cut at 64 bits. *)
Lemma div_guess_wide nf d0 x y : 1 <= nf -> nf * (d0 + 1) <= DIG_BASE -> 0 <= d0 -> 0 <= x < (d0 + 1) * DIG_BASE ->
  word_ok y ->
  wraps 64 (wraps 64 (nf * x) + Z.quot (nf * y) DIG_BASE) = nf * x + nf * y / DIG_BASE.
Proof.
  unfold word_ok. intros Hn Hu Hd Hx Hy. rewrite Z.quot_div_nonneg by (try done; nia).
  assert (0 <= nf * x < DIG_BASE * DIG_BASE) as B1.
  { split; [nia|]. apply Z.lt_le_trans with (nf * ((d0 + 1) * DIG_BASE)); [nia|].
    rewrite Z.mul_assoc. apply Z.mul_le_mono_nonneg_r; [done|lia]. }
  assert (0 <= nf * y / DIG_BASE < DIG_BASE) as B2.
  { split; [apply Z.div_pos; [nia|done]|]. apply Z.div_lt_upper_bound; [done|]. unfold DIG_BASE in *. nia. }
  set (a := nf * x) in *. set (b := nf * y / DIG_BASE) in *. clearbody a b. unfold DIG_BASE in *.
  rewrite (wraps_id 64 a), wraps_id by (unfold in_s; lia). done.
Qed.

(** With a divisor of one word the guess is the quotient. *)
Lemma div_guess_one d0 x y : word_ok d0 -> 0 < d0 -> word_ok y -> 0 <= x < d0 * DIG_BASE ->
  div_guess [d0] x y = x / d0.
Proof.
  intros Hd Hp Hy Hx. unfold div_guess. destruct (norm_factor_bounds d0 [] Hd Hp) as (Hn & Hu & Hh).
  cbn [norm2]. set (nf := norm_factor [d0]) in *. clearbody nf. cbv zeta.
  rewrite (div_guess_wide nf d0 x y) by (try done; nia).
  rewrite (wraps_id 32 (nf * d0)) by (unfold in_s, DIG_BASE in *; lia).
  rewrite Z.quot_div_nonneg; [|pose proof (Z.div_pos (nf * y) DIG_BASE ltac:(unfold word_ok in Hy; nia) ltac:(done)); nia|nia].
  assert ((nf * x + nf * y / DIG_BASE) / (nf * d0) = x / d0) as ->.
  { rewrite <- Z.div_div by lia. f_equal. rewrite (Z.mul_comm nf x), Z.div_add_l by lia.
    rewrite Z.div_div, (Z.mul_comm DIG_BASE), <- Z.div_div by (done || lia).
    rewrite (Z.mul_comm nf y), Z.div_mul, Z.div_small by (done || lia). lia. }
  assert (x / d0 < DIG_BASE) by (apply Z.div_lt_upper_bound; lia).
  by rewrite (proj2 (Z.leb_gt _ _)).
Qed.

(** With a longer one it is the quotient of the leading words, or the greatest
    word. *)
Lemma div_guess_two d0 d1 ds x y : word_ok d0 -> word_ok d1 -> 0 < d0 -> word_ok y -> 0 <= x < (d0 + 1) * DIG_BASE ->
  div_guess (d0 :: d1 :: ds) x y = Z.min ((x * DIG_BASE + y) / (d0 * DIG_BASE + d1)) (DIG_BASE - 1).
Proof.
  intros Hd Hd1 Hp Hy Hx. unfold div_guess. destruct (norm_factor_bounds d0 (d1 :: ds) Hd Hp) as (Hn & Hu & Hh).
  cbn [norm2]. set (nf := norm_factor (d0 :: d1 :: ds)) in *. clearbody nf. cbv zeta.
  rewrite (div_guess_wide nf d0 x y) by (done || unfold word_ok in *; lia).
  destruct (guess_bounds nf d0 d1 x y) as [[Hp0 Hpg] Hg2]; [try done; lia..|].
  assert (0 <= nf * d1 / DIG_BASE < nf) as B1.
  { split; [apply Z.div_pos; [unfold word_ok in *; nia|done]|]. apply Z.div_lt_upper_bound; [done|]. unfold word_ok in *. nia. }
  assert (0 <= nf * y / DIG_BASE) as B2 by (apply Z.div_pos; [unfold word_ok in *; nia|done]).
  rewrite (Z.quot_div_nonneg (nf * d1)) by (try done; unfold word_ok in *; nia).
  rewrite (wraps_id 32 (nf * d0)), (wraps_id 32 (nf * d1 / DIG_BASE)), wraps_id by (unfold in_s, DIG_BASE, word_ok in *; lia).
  rewrite Z.quot_div_nonneg by nia.
  set (g := (nf * x + nf * y / DIG_BASE) / (nf * d0 + nf * d1 / DIG_BASE)) in *.
  set (E := d0 * DIG_BASE + d1). assert (0 < E) as HE by (unfold E, word_ok in *; nia).
  pose proof (Z.mul_div_le (x * DIG_BASE + y) E HE) as L. pose proof (Z.mul_succ_div_gt (x * DIG_BASE + y) E HE) as U.
  fold E in Hp0, Hpg, Hg2. set (p := (x * DIG_BASE + y) / E) in *. clearbody p g. clear B1 B2 Hn Hu Hh nf.
  assert (forall k, Z.min p (DIG_BASE - 1) <= k <= p + 2 -> k < DIG_BASE ->
    guess_large d0 d1 x y k = (p <? k)) as Hl.
  { intros k Hk HkB. rewrite guess_large_spec; [|done|].
    - fold E. clearbody E. destruct (Z.ltb_spec p k), (Z.ltb_spec (x * DIG_BASE + y) (k * E)); try done; nia.
    - clear Hpg Hg2 g. unfold word_ok in *.
      assert (k * E <= x * DIG_BASE + y + 2 * E) as H1 by (transitivity ((p + 2) * E); [apply Z.mul_le_mono_nonneg_r|]; lia).
      assert (0 <= k * d1 <= k * DIG_BASE) as H2 by (split; [apply Z.mul_nonneg_nonneg|apply Z.mul_le_mono_nonneg_l]; lia).
      assert (p <= k -> x * DIG_BASE + y < (k + 1) * E) as H3.
      { intros. apply Z.lt_le_trans with (E * Z.succ p); [done|]. rewrite Z.mul_comm. apply Z.mul_le_mono_nonneg_r; lia. }
      unfold E, DIG_BASE in *. clear E HE L U. split; [lia|].
      destruct (Z.le_gt_cases p k) as [Hpk|]; [specialize (H3 Hpk); lia|]. assert (k = 999999999) as -> by lia. lia. }
  set (g1 := if DIG_BASE <=? g then DIG_BASE - 1 else g).
  assert (Z.min p (DIG_BASE - 1) <= g1 <= p + 2 /\ g1 < DIG_BASE) as [B1 B2].
  { unfold g1. destruct (Z.leb_spec DIG_BASE g); destruct (Z.lt_ge_cases p DIG_BASE); lia. }
  clearbody g1. rewrite (Hl g1) by done. destruct (Z.ltb_spec p g1).
  - rewrite Hl by lia. destruct (Z.ltb_spec p (g1 - 1)); lia.
  - rewrite Hl by lia. destruct (Z.ltb_spec p g1); lia.
Qed.

(** The quotient of the leading words is the quotient, or one more. *)
Lemma leading_quotient X E d r P : 0 < P -> 0 <= d < P -> 0 <= r < P -> DIG_BASE <= E -> 0 <= X ->
  X * P + r < (E * P + d) * DIG_BASE ->
  let q := (X * P + r) / (E * P + d) in
  q <= Z.min (X / E) (DIG_BASE - 1) <= q + 1.
Proof.
  intros HP Hd Hr HE HX HR q. set (R := X * P + r) in *. set (D := E * P + d) in *.
  assert (0 < E) as HE0 by (unfold DIG_BASE in HE; lia). assert (0 < D) as HD by (unfold D; nia).
  assert (0 <= q) as Hq by (apply Z.div_pos; [unfold R; nia|done]).
  pose proof (Z.mul_div_le R D HD) as L. fold q in L. split.
  - assert (q < DIG_BASE) by (apply Z.div_lt_upper_bound; lia).
    assert (q <= X / E); [|lia]. apply Z.div_le_lower_bound; [done|].
    assert (E * q * P < (X + 1) * P) as Hlt; [|apply Z.mul_lt_mono_pos_r in Hlt; lia].
    apply Z.le_lt_trans with (D * q); [unfold D; nia|]. unfold R in L. lia.
  - set (g := Z.min (X / E) (DIG_BASE - 1)). assert (0 <= g) as Hg by (pose proof (Z.div_pos X E); unfold g, DIG_BASE; lia).
    destruct (Z.eq_dec g 0); [lia|]. assert (g - 1 <= q); [|lia]. apply Z.div_le_lower_bound; [done|].
    assert (g * E <= X) as HgE.
    { pose proof (Z.mul_div_le X E HE0). transitivity (X / E * E); [apply Z.mul_le_mono_nonneg_r; lia|lia]. }
    transitivity ((E + 1) * P * (g - 1)); [apply Z.mul_le_mono_nonneg_r; unfold D; lia|].
    transitivity (X * P); [|unfold R; lia].
    replace ((E + 1) * P * (g - 1)) with ((g * E + (g - 1 - E)) * P) by ring. apply Z.mul_le_mono_nonneg_r; lia.
Qed.

Section division.
Context (d0 : Z) (ds' : list Z) (Hds : Forall word_ok (d0 :: ds')) (Hd0 : 0 < d0).
Let ds := d0 :: ds'.
Let D := dval ds.
Let n := Z.of_nat (length ds).

Lemma divisor_bounds : d0 * DIG_BASE ^ (n - 1) <= D < (d0 + 1) * DIG_BASE ^ (n - 1) /\ 0 < D /\ D < DIG_BASE ^ n.
Proof.
  pose proof (dval_bounds ds Hds) as B. inversion_clear Hds as [|?? H0 H'].
  pose proof (dval_bounds ds' H') as B'. unfold D, n, ds in *. rewrite dval_cons in *.
  replace (Z.of_nat (length (d0 :: ds')) - 1) with (Z.of_nat (length ds')) by (simpl length; lia).
  pose proof (DIG_BASE_pow_pos (Z.of_nat (length ds')) ltac:(lia)). set (P := DIG_BASE ^ Z.of_nat (length ds')) in *.
  split_and!; try lia.
Qed.

(** The guess for a window of words. *)
Lemma div_guess_spec c t0 y ws ts : ts = t0 :: y :: ws -> word_ok c -> Forall word_ok ts -> n <= Z.of_nat (length ts) ->
  let R := dval (c :: take (length ds) ts) in
  R < D * DIG_BASE ->
  R / D <= div_guess ds (t0 + c * DIG_BASE) y <= R / D + 1 /\ word_ok (div_guess ds (t0 + c * DIG_BASE) y).
Proof.
  intros -> Hc F Hn R HR. pose proof divisor_bounds as (BD & HD & _).
  inversion_clear F as [|?? H0 F1]. inversion_clear F1 as [|?? Hy Fw]. inversion_clear Hds as [|?? Hd Hd'].
  unfold word_ok in Hc, H0.
  destruct ds' as [|d1 l] eqn:El.
  - assert (D = d0) as ED by (unfold D, ds, dval; simpl; lia).
    assert (R = t0 + c * DIG_BASE) as ER by (unfold R, ds, dval; simpl; lia).
    unfold ds. rewrite div_guess_one by (try done; rewrite <- ?ED, <- ?ER; unfold DIG_BASE in *; lia).
    rewrite <- ER, <- ED. split; [lia|]. split; [apply Z.div_pos; unfold DIG_BASE in *; lia|apply Z.div_lt_upper_bound; lia].
  - inversion_clear Hd' as [|?? Hd1 Fl]. set (P := DIG_BASE ^ Z.of_nat (length l)).
    assert (0 < P) as HP by (apply DIG_BASE_pow_pos; lia).
    assert (D = (d0 * DIG_BASE + d1) * P + dval l) as ED.
    { unfold D, ds, P. rewrite !dval_cons. simpl length. rewrite Nat2Z.inj_succ, Z.pow_succ_r by lia. ring. }
    assert (Z.of_nat (length (take (length l) ws)) = Z.of_nat (length l)) as Ll.
    { unfold n, ds in Hn. simpl length in Hn. rewrite length_take. lia. }
    assert (R = ((t0 + c * DIG_BASE) * DIG_BASE + y) * P + dval (take (length l) ws)) as ER.
    { unfold R, ds, P. cbn [length take]. rewrite !dval_cons. cbn [length]. rewrite !Nat2Z.inj_succ, Ll, !Z.pow_succ_r by lia. ring. }
    pose proof (dval_bounds l Fl) as Bl. pose proof (dval_bounds _ (Forall_take _ (length l) _ Fw)) as Bw. rewrite Ll in Bw. fold P in Bl, Bw.
    assert (t0 + c * DIG_BASE < (d0 + 1) * DIG_BASE) as Hx.
    { assert (c <= d0) as Hle; [|unfold DIG_BASE in *; lia].
      apply Z.lt_succ_r. apply (Z.mul_lt_mono_pos_r (DIG_BASE * DIG_BASE * P)); [unfold DIG_BASE; lia|].
      unfold word_ok in *. assert (d1 * P <= (DIG_BASE - 1) * P) by (apply Z.mul_le_mono_nonneg_r; lia).
      assert (0 <= t0 * P) by (apply Z.mul_nonneg_nonneg; lia). assert (0 <= y * P) by (apply Z.mul_nonneg_nonneg; lia).
      unfold DIG_BASE in *. clear BD. lia. }
    unfold ds. rewrite div_guess_two by (try done; unfold DIG_BASE in *; lia).
    rewrite ED, ER. rewrite ED, ER in HR. unfold word_ok in *.
    split; [apply leading_quotient; try done; unfold DIG_BASE in *; lia|].
    split; [|lia]. apply Z.min_glb; [apply Z.div_pos; unfold DIG_BASE in *; lia|unfold DIG_BASE; lia].
Qed.

(** The product is subtracted, and the divisor added back when it was too much. *)
Lemma window_quotient c ws g : word_ok c -> Forall word_ok ws -> length ws = length ds ->
  let R := dval (c :: ws) in
  R / D <= g <= R / D + 1 -> word_ok g ->
  exists r carry ws', mul_sub g (rev ds) (rev ws) 0 = (r, carry) /\
    (if c <? carry then (g - 1, rev (add_back (rev ds) r 0)) else (g, rev r)) = (R / D, ws') /\
    dval ws' = R mod D /\ length ws' = length ds /\ Forall word_ok ws'.
Proof.
  intros Hc Fw Hl R Hg Hgo. pose proof divisor_bounds as (_ & HD & HDn).
  pose proof (Z.div_mod R D ltac:(lia)) as EdR. pose proof (Z.mod_pos_bound R D HD) as Bm.
  assert (R = c * DIG_BASE ^ n + dval ws) as ER by (unfold R, n; rewrite dval_cons; by rewrite Hl).
  destruct (mul_sub_spec g (rev ds) (rev ws) 0) as (r & carry & Em & Lr & Fr & Hca & Er);
    [by rewrite !length_rev|by apply List.Forall_rev..|done|unfold DIG_BASE; lia|].
  rewrite length_rev, Hl in Lr. unfold rval in Er at 2 3. rewrite !rev_involutive, length_rev, Hl in Er. fold D n in Er.
  pose proof (rval_bounds r Fr) as Br. rewrite Lr in Br. fold n in Br.
  pose proof (DIG_BASE_pow_pos n ltac:(lia)) as HB. set (Bn := DIG_BASE ^ n) in *.
  exists r, carry. rewrite Em. destruct (Z.ltb_spec c carry).
  - assert (g = R / D + 1) as Eg by nia. assert (carry = c + 1) as -> by nia.
    destruct (add_back_spec (rev ds) r 0) as (c' & La & Fa & Hc' & Ea); [by rewrite Lr, length_rev|by apply List.Forall_rev|done|lia|].
    exists (rev (add_back (rev ds) r 0)). split_and!; [done|f_equal; lia| |by rewrite length_rev, La|by apply List.Forall_rev].
    unfold rval in Ea at 1 3. rewrite rev_involutive, Lr in Ea. fold D n Bn in Ea.
    pose proof (rval_bounds _ Fa) as Ba. rewrite La, Lr in Ba. unfold rval in Ba. fold n Bn in Ba.
    rewrite Eg in Er. assert (c' = 0 \/ c' = 1) as [-> | ->] by lia; lia.
  - assert (g = R / D) as Eg by nia. assert (carry = c) as -> by nia.
    exists (rev r). split_and!; [done|by rewrite Eg|fold (rval r); nia|by rewrite length_rev|by apply List.Forall_rev].
Qed.

(** The words before the divisor's length are passed over. *)
Lemma div_skip t0 ws : Forall word_ok (t0 :: ws) -> n <= Z.of_nat (length (t0 :: ws)) -> t0 < d0 ->
  dval (t0 :: ws) < D * DIG_BASE ^ (Z.of_nat (length (t0 :: ws)) - n).
Proof.
  intros F Hn Ht. pose proof divisor_bounds as (BD & HD & _). assert (1 <= n) as Hn1 by (unfold n, ds; simpl length; lia).
  inversion_clear F as [|?? H0 F1]. pose proof (dval_bounds _ F1) as B1. rewrite dval_cons. simpl length in *.
  set (L := Z.of_nat (S (length ws))) in *. replace (Z.of_nat (length ws)) with (n - 1 + (L - n)) in * by lia.
  rewrite Z.pow_add_r in * by lia. pose proof (DIG_BASE_pow_pos (n - 1) ltac:(lia)). pose proof (DIG_BASE_pow_pos (L - n) ltac:(lia)).
  set (P1 := DIG_BASE ^ (n - 1)) in *. set (P2 := DIG_BASE ^ (L - n)) in *.
  apply Z.lt_le_trans with ((t0 + 1) * (P1 * P2)); [lia|]. rewrite Z.mul_assoc. apply Z.mul_le_mono_nonneg_r; [lia|].
  transitivity (d0 * P1); [apply Z.mul_le_mono_nonneg_r|]; lia.
Qed.

(** A word of the quotient, by the value of all words that are left. *)
Lemma div_word_spec c ts : word_ok c -> Forall word_ok ts ->
  let L := Z.of_nat (length ts) in
  n <= L -> 2 <= L -> dval (c :: ts) < D * DIG_BASE ^ (L - n + 1) ->
  exists g ts', div_word ds c ts = Some (g, ts') /\ length ts' = length ts /\ Forall word_ok ts' /\ word_ok g /\
    dval (c :: ts) = g * D * DIG_BASE ^ (L - n) + dval ts' /\ dval ts' < D * DIG_BASE ^ (L - n).
Proof.
  intros Hc F L Hn H2 HT. pose proof divisor_bounds as (BD & HD & _).
  assert (exists t0 y ws, ts = t0 :: y :: ws) as (t0 & y & ws & Ets).
  { destruct ts as [|t0 [|y ws]]; [simpl in L; lia..|by eexists _, _, _]. }
  pose proof (DIG_BASE_pow_pos (L - n) ltac:(lia)) as HP.
  destruct ((c =? 0) && (t0 <? d0)) eqn:Eb.
  { apply andb_prop in Eb as [->%Z.eqb_eq Ht%Z.ltb_lt]. exists 0, ts. rewrite Ets. unfold div_word, ds. fold ds.
    rewrite (proj2 (Z.ltb_lt _ _) Ht). rewrite <- Ets, dval_cons. cbn [andb Z.eqb].
    split_and!; try done. unfold L. subst ts. by apply div_skip. }
  pose proof (take_drop (length ds) ts) as Etd. set (w1 := take (length ds) ts) in *. set (w2 := drop (length ds) ts) in *.
  assert (length w1 = length ds) as L1 by (unfold w1; rewrite length_take; unfold n, L in *; lia).
  assert (Z.of_nat (length w2) = L - n) as L2 by (unfold w2; rewrite length_drop; unfold n, L in *; lia).
  assert (Forall word_ok w1 /\ Forall word_ok w2) as [F1 F2] by (apply Forall_app; by rewrite Etd).
  set (R := dval (c :: w1)). pose proof (dval_bounds w2 F2) as B2. rewrite L2 in B2. set (P := DIG_BASE ^ (L - n)) in *.
  assert (dval (c :: ts) = R * P + dval w2) as ET.
  { rewrite <- Etd. unfold R, P. change (c :: w1 ++ w2) with ((c :: w1) ++ w2). by rewrite dval_app, L2. }
  assert (R < D * DIG_BASE) as HR.
  { rewrite Z.pow_add_r in HT by lia. fold P in HT. change (DIG_BASE ^ 1) with DIG_BASE in HT.
    apply (Z.mul_lt_mono_pos_r P); lia. }
  destruct (div_guess_spec c t0 y ws ts) as [Hg Hgo]; [done..|].
  destruct (window_quotient c w1 _ Hc F1 L1 Hg Hgo) as (r & carry & ws' & Em & Eif & Ev & Lw & Fw'). fold R in Eif, Ev.
  pose proof (Z.div_mod R D ltac:(lia)) as EdR. pose proof (Z.mod_pos_bound R D HD) as Bm.
  assert (0 <= R) as HR0 by (apply (dval_bounds (c :: w1)); by constructor).
  exists (R / D), (ws' ++ w2). rewrite dval_app, L2, Ev, ET. fold P. split_and!.
  - unfold div_word. rewrite Ets. unfold ds at 1. cbv match. rewrite Eb. rewrite <- Ets.
    rewrite (proj2 (Nat.ltb_ge _ _)) by (unfold n, L in *; lia). fold w1 w2. rewrite Em.
    destruct (c <? carry); apply pair_equal_spec in Eif as [E1 E2]; by rewrite E1, E2.
  - rewrite length_app. unfold n, L in *. lia.
  - by apply Forall_app.
  - split; [apply Z.div_pos; lia|apply Z.div_lt_upper_bound; lia].
  - rewrite EdR at 1. ring.
  - apply Z.lt_le_trans with ((R mod D + 1) * P); [lia|]. apply Z.mul_le_mono_nonneg_r; lia.
Qed.

Lemma div_loop_spec k c ts : word_ok c -> Forall word_ok ts ->
  let L := Z.of_nat (length ts) in
  Z.max 2 n + Z.of_nat k <= L + 1 -> dval (c :: ts) < D * DIG_BASE ^ (L - n + 1) ->
  exists gs c' ts', div_loop k ds c ts = Some (gs, c', ts') /\ length gs = k /\ Forall word_ok gs /\ word_ok c' /\
    Forall word_ok ts' /\ Z.of_nat (length ts') = L - Z.of_nat k /\
    dval (c :: ts) = dval gs * (D * DIG_BASE ^ (L - n - Z.of_nat k + 1)) + dval (c' :: ts') /\
    dval (c' :: ts') < D * DIG_BASE ^ (L - n - Z.of_nat k + 1).
Proof.
  revert c ts. induction k as [|k IH]; intros c ts Hc F L Hk HT.
  { exists [], c, ts. rewrite dval_nil. replace (L - n - Z.of_nat 0 + 1) with (L - n + 1) by lia.
    split_and!; try done; unfold L; lia. }
  destruct (div_word_spec c ts Hc F) as (g & ts1 & Ew & L1 & F1 & Hg & E1 & B1); [fold L; lia..|done|].
  destruct ts1 as [|t0 ts1]; [unfold L in *; simpl in L1; lia|]. inversion_clear F1 as [|?? H0 F1'].
  simpl length in L1.
  destruct (IH t0 ts1 H0 F1') as (gs & c' & ts' & El & Lg & Fg & Hc' & F' & L' & E' & B'); [unfold L in *; lia| |].
  { replace (Z.of_nat (length ts1) - n + 1) with (L - n) by (unfold L; lia). done. }
  replace (Z.of_nat (length ts1) - n - Z.of_nat k + 1) with (L - n - Z.of_nat (S k) + 1) in E', B' by (unfold L; lia).
  exists (g :: gs), c', ts'. cbn [div_loop]. rewrite Ew. cbn [mbind option_bind]. rewrite El.
  split_and!; try done; [simpl; lia|by constructor|unfold L; lia|].
  rewrite E1. fold L. rewrite E', (dval_cons g gs), Lg.
  replace (L - n) with (Z.of_nat k + (L - n - Z.of_nat (S k) + 1)) at 1 by lia. rewrite Z.pow_add_r by lia. ring.
Qed.
End division.
