(* ===== verification/DecimalDivision.v ===== *)
(** * Fixed-point decimals: the quotient and the remainder

    What [decimal_div] and [decimal_mod] compute, as rational numbers: the
    quotient cut to the digits of the result, and the remainder of the quotient's
    integer part.  [DecimalDiv] has the words of the quotient; here are the
    places of the words, before and after them. *)

From Stdlib Require Import ZArith Lia QArith Qabs.
From stdpp Require Import base numbers option tactics list.
From S2P Require Import Prelude NumText Decimal DecimalArith DecimalDigits DecimalRound DecimalRounding DecimalText DecimalDiv.

#[local] Open Scope Z_scope.

(** ** The operands *)

(** The words of a number that is not zero, from the first one that is not zero. *)
Record stripped (d : decimal_t) (z prec w : Z) (ws : list Z) : Prop := {
  st_buf : exists rest, d_buf d = replicate (Z.to_nat z) 0 ++ (w :: ws) ++ rest;
  st_z : 0 <= z;
  st_len : Z.of_nat (length (w :: ws)) = ROUND_UP prec;
  st_ok : Forall word_ok (w :: ws);
  st_val : dval (w :: ws) = dec_val d;
  st_prec : 0 < prec <= d_intg d + 9 * ROUND_UP (d_frac d);
  st_word : 10 ^ (prec - 9 * (ROUND_UP prec - 1) - 1) <= w < 10 ^ (prec - 9 * (ROUND_UP prec - 1))
}.

(** A number as the integer all of its words make. *)
Definition all_words (d : decimal_t) : decimal_t :=
  mk_decimal (d_intg d + ROUND_UP (d_frac d) * DIG_PER_DEC1) 0 (d_len d) (d_sign d) (d_buf d).

Lemma all_words_wf d : dec_wf d -> dec_wf (all_words d) /\ dec_words (all_words d) = dec_words d.
Proof.
  intros Hd. pose proof (wf_intg d Hd). pose proof (wf_frac_words d Hd). pose proof (wf_some d Hd).
  pose proof (ROUND_UP_bounds (d_frac d) (wf_frac d Hd)).
  assert (ROUND_UP (d_intg d + ROUND_UP (d_frac d) * DIG_PER_DEC1) = ROUND_UP (d_intg d) + ROUND_UP (d_frac d)) as E.
  { unfold DIG_PER_DEC1. rewrite !(ROUND_UP_nonneg (d_intg d)), ROUND_UP_nonneg by lia. Z.to_euclidean_division_equations. lia. }
  assert (dec_words (all_words d) = dec_words d) as EW.
  { unfold dec_words, all_words. cbn [d_intg d_frac d_buf]. rewrite E. change (ROUND_UP 0) with 0. by rewrite Z.add_0_r. }
  split; [|done]. destruct Hd. split; unfold dec_val; rewrite ?EW; unfold all_words in *; cbn [d_intg d_frac d_len d_buf] in *;
    try done; rewrite ?E; change (ROUND_UP 0) with 0; unfold DIG_PER_DEC1; try plia.
  - replace (d_intg d + ROUND_UP (d_frac d) * 9 + 9 * 0) with (d_intg d + 9 * ROUND_UP (d_frac d)) by plia. done.
  - apply Z.divide_1_l.
Qed.

(** The digits of the first word. *)
Lemma first_digits_word prec w ws : 0 < prec -> Z.of_nat (length (w :: ws)) = ROUND_UP prec -> Forall word_ok (w :: ws) ->
  10 ^ (prec - 1) <= dval (w :: ws) < 10 ^ prec ->
  10 ^ (prec - 9 * (ROUND_UP prec - 1) - 1) <= w < 10 ^ (prec - 9 * (ROUND_UP prec - 1)).
Proof.
  intros Hp Hl F Hv. pose proof (ROUND_UP_bounds prec ltac:(lia)) as B. inversion_clear F as [|?? Hw Fw].
  pose proof (dval_bounds ws Fw) as Bw. rewrite dval_cons, DIG_BASE_pow in Hv by lia. rewrite DIG_BASE_pow in Bw by lia.
  simpl length in Hl. replace (Z.of_nat (length ws)) with (ROUND_UP prec - 1) in * by plia. clear Hl Fw.
  set (k := 9 * (ROUND_UP prec - 1)) in *. assert (0 <= k) as Hk by (unfold k; plia).
  assert (0 <= prec - k - 1) as Hr by (unfold k; plia). pose proof (Z.pow_pos_nonneg 10 k ltac:(lia) Hk) as HP.
  assert (10 ^ (prec - 1) = 10 ^ (prec - k - 1) * 10 ^ k) as E1 by (rewrite <- Z.pow_add_r by lia; f_equal; lia).
  assert (10 ^ prec = 10 ^ (prec - k) * 10 ^ k) as E2 by (rewrite <- Z.pow_add_r by lia; f_equal; lia).
  rewrite E1, E2 in Hv. clear E1 E2. set (P := 10 ^ k) in *. clearbody P. split.
  - apply Z.lt_succ_r. apply (Z.mul_lt_mono_pos_r P); [done|]. lia.
  - apply (Z.mul_lt_mono_pos_r P); [done|]. lia.
Qed.

Lemma div_strip_spec d : dec_wf d ->
  (dec_val d = 0 /\ exists z, div_strip d = Some (z, 0)) \/
  (0 < dec_val d /\ exists z prec w ws, div_strip d = Some (z, prec) /\ stripped d z prec w ws).
Proof.
  intros Hd. destruct (all_words_wf d Hd) as [Ha Ew].
  destruct (remove_leading_zeroes_spec _ Ha) as (z & prec & t & f & Er & V).
  change (remove_leading_zeroes (all_words d)) with (div_strip d) in Er.
  destruct V as [[rest Eb] Hz Hp Lt Lf Fo Ev Ht Hleast]. change (Z.of_nat (length f) = 0) in Lf.
  destruct f; [|simpl in Lf; lia]. rewrite app_nil_r in *. unfold dec_val in Ev. rewrite Ew in Ev. fold (dec_val d) in Ev.
  destruct (Z.eq_dec prec 0) as [->|Hne]; [left|right].
  { split; [|by exists z]. pose proof (dec_val_nonneg d Hd). rewrite Z.pow_0_r in Ht. lia. }
  assert (0 < prec) as Hp1 by lia. specialize (Hleast Hp1).
  assert (0 < 10 ^ (prec - 1)) as HP by (apply Z.pow_pos_nonneg; lia). split; [lia|].
  pose proof (ROUND_UP_bounds prec ltac:(lia)).
  destruct t as [|w ws]; [simpl in Lt; exfalso; clear Ht Hleast HP; lia|].
  exists z, prec, w, ws. split; [done|]. split; try done; [by exists rest| |by apply (first_digits_word prec w ws)].
  split; [done|]. pose proof (wf_top d Hd) as T. rewrite <- Ev in T.
  assert (10 ^ (prec - 1) < 10 ^ (d_intg d + 9 * ROUND_UP (d_frac d))) as Hlt by lia.
  apply Z.pow_lt_mono_r_iff in Hlt; [lia|lia|]. pose proof (wf_intg d Hd). pose proof (wf_frac_words d Hd). plia.
Qed.

(** The divisor without the zero words at its end. *)
Lemma drop_zero_words_spec w ws : w <> 0 ->
  exists ds' k, rev (drop_zero_words (rev (w :: ws))) = w :: ds' /\ w :: ws = w :: ds' ++ replicate k 0.
Proof.
  intros Hw. assert (forall r, exists k, rev r = rev (drop_zero_words r) ++ replicate k 0) as H.
  { induction r as [|v r [k IH]]; [by exists 0%nat|]. cbn [drop_zero_words]. destruct (Z.eqb_spec v 0) as [->|].
    - exists (k + 1)%nat. simpl rev. by rewrite IH, replicate_add, app_assoc.
    - exists 0%nat. by rewrite app_nil_r. }
  destruct (H (rev (w :: ws))) as [k E]. rewrite rev_involutive in E.
  destruct (rev (drop_zero_words (rev (w :: ws)))) as [|d ds'].
  - destruct k; simpl in E; [done|]. by injection E as -> _.
  - injection E as <- ->. by exists ds', k.
Qed.

(** Words with no zero in front have as many digits as the first word leaves. *)
Lemma more_digits w1 w2 r1 r2 : 10 ^ (r1 - 1) <= w1 < 10 ^ r1 -> 10 ^ (r2 - 1) <= w2 < 10 ^ r2 -> 0 <= r1 ->
  w2 <= w1 -> r2 <= r1.
Proof.
  intros H1 H2 Hr H. assert (10 ^ (r2 - 1) < 10 ^ r1) as Hlt by lia.
  destruct (Z.le_gt_cases r2 r1); [done|]. assert (10 ^ r1 <= 10 ^ (r2 - 1)); [|lia]. apply Z.pow_le_mono_r; lia.
Qed.

(** The integer words of the quotient, and the zero words before the first word of a
    quotient that has none. *)
Lemma quotient_words prec1 prec2 f1 f2 w1 w2 :
  let n1 := ROUND_UP prec1 in let n2 := ROUND_UP prec2 in
  let c := if w2 <=? w1 then 1 else 0 in
  0 < prec1 -> 0 < prec2 ->
  10 ^ (prec1 - 9 * (n1 - 1) - 1) <= w1 < 10 ^ (prec1 - 9 * (n1 - 1)) ->
  10 ^ (prec2 - 9 * (n2 - 1) - 1) <= w2 < 10 ^ (prec2 - 9 * (n2 - 1)) ->
  let dintg := prec1 - f1 * 9 - (prec2 - f2 * 9) + c in
  let I := n1 - n2 + c - f1 + f2 in
  exists dintg', (if dintg <? 0 then (Z.quot dintg 9, 0) else (dintg, ROUND_UP dintg)) = (dintg', Z.max 0 I) /\
    Z.max 0 (- dintg') = Z.max 0 (- I).
Proof.
  intros n1 n2 c H1 H2 B1 B2 dintg I.
  pose proof (ROUND_UP_bounds prec1 ltac:(lia)) as R1. pose proof (ROUND_UP_bounds prec2 ltac:(lia)) as R2. fold n1 in R1. fold n2 in R2.
  assert (9 * I - 9 < dintg <= 9 * I) as HI.
  { unfold dintg, I, c. destruct (Z.leb_spec w2 w1) as [Hle|Hlt].
    - pose proof (more_digits w1 w2 _ _ B1 B2 ltac:(plia) Hle). plia.
    - pose proof (more_digits w2 w1 _ _ B2 B1 ltac:(plia) ltac:(plia)). plia. }
  clearbody I dintg. destruct (Z.ltb_spec dintg 0).
  - exists (Z.quot dintg 9). split; [f_equal|]; clear -H HI; Z.to_euclidean_division_equations; lia.
  - exists dintg. split; [f_equal|lia]. rewrite ROUND_UP_nonneg by done. clear -H HI. Z.to_euclidean_division_equations. lia.
Qed.

Section start.
Context (d0 : Z) (ds' : list Z) (Hds : Forall word_ok (d0 :: ds')) (Hd0 : 0 < d0).
Let D := dval (d0 :: ds').
Let n := Z.of_nat (length (d0 :: ds')).

(** The first word of the dividend is carried when it is less than the divisor's. *)
Lemma div_start_spec t0 ts : Forall word_ok (t0 :: ts) -> let L := Z.of_nat (length (t0 :: ts)) in
  let c := if d0 <=? t0 then 1 else 0 in
  exists dcarry ts', div_start (d0 :: ds') (t0 :: ts) = Some (dcarry, ts') /\ word_ok dcarry /\ Forall word_ok ts' /\
    dval (dcarry :: ts') = dval (t0 :: ts) /\ Z.of_nat (length ts') = L - 1 + c /\
    (dcarry = 0 <-> d0 <= t0 \/ t0 = 0) /\
    (n <= L -> dval (dcarry :: ts') < D * DIG_BASE ^ (L + c - n)).
Proof.
  intros F L c. cbn [div_start]. inversion_clear F as [|?? H0 F']. unfold c.
  destruct (Z.ltb_spec t0 d0), (Z.leb_spec d0 t0); try lia.
  - exists t0, ts. split_and!; try done; [unfold L; simpl length; lia|lia|]. intros Hn. rewrite Z.add_0_r.
    apply div_skip; try done. by constructor.
  - exists 0, (t0 :: ts). assert (Forall word_ok (t0 :: ts)) as F2 by by constructor.
    split_and!; try done; [unfold L; simpl length; lia|lia|]. intros Hn. rewrite dval_cons. simpl (0 * _ + _).
    destruct (divisor_bounds d0 ds' Hds Hd0) as ([BD _] & _ & _). fold D n in BD.
    pose proof (dval_bounds _ F2) as B. fold L in B. apply Z.lt_le_trans with (DIG_BASE ^ L); [lia|].
    assert (1 <= n) by (unfold n; simpl length; lia).
    replace (DIG_BASE ^ L) with (DIG_BASE ^ (n - 1) * DIG_BASE ^ (L + 1 - n)) by (rewrite <- Z.pow_add_r by lia; f_equal; lia).
    apply Z.mul_le_mono_nonneg_r; [by apply Z.pow_nonneg|]. pose proof (DIG_BASE_pow_pos (n - 1) ltac:(lia)). nia.
Qed.
End start.

(** Inequalities and quotients with powers of the base on both sides. *)
Lemma scale_lt U V a b a' b' : 0 <= U -> 0 <= V -> 0 <= a -> 0 <= b -> 0 <= a' -> 0 <= b' ->
  U * DIG_BASE ^ a < V * DIG_BASE ^ b -> a' + b <= a + b' -> U * DIG_BASE ^ a' < V * DIG_BASE ^ b'.
Proof.
  intros HU HV Ha Hb Ha' Hb' H Hle. pose proof (DIG_BASE_pow_pos a Ha) as P1. pose proof (DIG_BASE_pow_pos a' Ha') as P2.
  apply (Z.mul_lt_mono_pos_r (DIG_BASE ^ a)); [done|].
  apply Z.lt_le_trans with (V * DIG_BASE ^ b * DIG_BASE ^ a').
  - replace (U * DIG_BASE ^ a' * DIG_BASE ^ a) with (U * DIG_BASE ^ a * DIG_BASE ^ a') by ring.
    by apply Z.mul_lt_mono_pos_r.
  - rewrite <- !Z.mul_assoc, <- !Z.pow_add_r by lia. apply Z.mul_le_mono_nonneg_l; [done|]. apply Z.pow_le_mono_r; [done|lia].
Qed.

Lemma ratio_div a b c d : 0 < b -> 0 < d -> a * d = c * b -> a / b = c / d.
Proof.
  intros Hb Hd E. rewrite <- (Z.div_mul_cancel_r a b d), <- (Z.div_mul_cancel_r c d b) by lia. rewrite E. f_equal. ring.
Qed.

(** ** The result *)

(** A well-formed number, or one of no digits at all, which stands for zero. *)
Definition dec_digits (d : decimal_t) : Prop := dec_room d /\ (dec_wf d \/ d_intg d = 0 /\ d_frac d = 0).

Lemma store_front buf b ws : b = Z.of_nat (length ws) -> b <= Z.of_nat (length buf) ->
  store_down buf b ws = Some (ws ++ drop (length ws) buf).
Proof.
  intros -> Hl. unfold store_down. rewrite (proj2 (Z.leb_le _ _)), (proj2 (Z.leb_le _ _)), Nat2Z.id by lia.
  by rewrite Nat.sub_diag.
Qed.

Lemma div_done_spec d error : dec_digits d ->
  exists d', div_done d error = Some (d', error) /\ dec_digits d' /\ d_frac d' = d_frac d /\ d_len d' = d_len d /\
    d_sign d' = d_sign d /\ dec_val d' = dec_val d.
Proof.
  intros [Hr [Hd|[Ei Ef]]].
  - destruct (remove_leading_zeroes_spec d Hd) as (z & intg & t & f & Er & [[rest Eb] Hz Hi Lt Lf Fo Ev Ht _]).
    pose proof (wf_frac_words d Hd) as Hfw. unfold div_done. rewrite Er. cbn [mbind option_bind].
    pose proof (ROUND_UP_bounds intg Hi) as Bi. set (n := ROUND_UP intg + ROUND_UP (d_frac d)).
    rewrite (app_assoc t f) in Eb.
    assert (dval (t ++ f) < 10 ^ (intg + 9 * ROUND_UP (d_frac d))) as Htop.
    { rewrite dval_app, Z.pow_add_r, <- DIG_BASE_pow, Lf by plia. apply Forall_app in Fo as [_ Ff].
      pose proof (dval_bounds f Ff) as Bf. rewrite Lf in Bf. pose proof (DIG_BASE_pow_pos _ Hfw). nia. }
    assert (Z.of_nat (length (t ++ f)) = n) as Ln by (rewrite length_app; unfold n; plia). set (ws := t ++ f) in *.
    assert (words (d_buf d) z (z + n) = Some ws) as -> by (rewrite Eb; apply words_app; rewrite length_replicate; plia).
    cbn [mbind option_bind]. assert (n <= Z.of_nat (length (d_buf d))) as Hfit by (rewrite Eb, !length_app; plia).
    rewrite store_front by done.
    assert ((if z =? 0 then Some (d_buf d) else Some (ws ++ drop (length ws) (d_buf d))) = Some (ws ++ drop (length ws) (d_buf d))) as ->.
    { destruct (Z.eqb_spec z 0) as [-> |]; [|done]. f_equal. rewrite Eb. change (replicate (Z.to_nat 0) 0 ++ ?l) with l. by rewrite drop_app_length. }
    cbn [mbind option_bind]. eexists. split; [done|]. unfold dec_digits. cbn [d_intg d_frac d_len d_sign].
    assert (d_len d = Z.of_nat (length (ws ++ drop (length ws) (d_buf d)))) as Hlen.
    { rewrite length_app, length_drop. destruct Hr. plia. }
    assert (dec_room (mk_decimal intg (d_frac d) (d_len d) (d_sign d) (ws ++ drop (length ws) (d_buf d)))) as HR2.
    { split; [apply Hr|done]. }
    pose proof (wf_frac d Hd). destruct (Z.eq_dec (intg + d_frac d) 0) as [E0|Hne].
    + split_and!; try done; [right; plia|]. rewrite <- Ev. unfold dec_val, dec_words. cbn [d_intg d_frac d_buf].
      fold n. rewrite <- Ln, Nat2Z.id. by rewrite take_app_length.
    + destruct (mk_decimal_wf intg (d_frac d) (d_len d) (d_sign d) ws (drop (length ws) (d_buf d))) as [W V]; try done; [plia| |].
      { rewrite Ev. apply Hd. }
      split_and!; try done; [by left|]. by rewrite V.
  - exists d. unfold div_done, remove_leading_zeroes. rewrite Ei, Ef.
    assert (leading_zero_words (d_buf d) 0 (Z.rem (0 - 1) DIG_PER_DEC1 + 1) = Some (0, 0)) as -> by by destruct (d_buf d).
    cbn [mbind option_bind]. change (0 <? 0) with false. cbn [mbind option_bind]. change (0 =? 0) with true. cbn [mbind option_bind].
    split_and!; try done; [destruct d; simpl in *; by subst|by split; [|right]].
Qed.

(** The words of a quotient, after words of zeroes, as a number. *)
Lemma div_store_spec to sign intg F zeroes gs error : dec_room to -> 0 <= intg -> 0 <= F -> intg + F <= d_len to ->
  0 <= zeroes <= d_len to -> length gs = Z.to_nat (intg + F - zeroes) -> Forall word_ok gs ->
  exists buf to', store_down (d_buf to) (Z.max zeroes (intg + F)) (replicate (Z.to_nat zeroes) 0 ++ gs) = Some buf /\
    div_done (mk_decimal (intg * DIG_PER_DEC1) (F * DIG_PER_DEC1) (d_len to) sign buf) error = Some (to', error) /\
    dec_digits to' /\ d_frac to' = F * 9 /\ d_len to' = d_len to /\ d_sign to' = sign /\ dec_val to' = dval gs.
Proof.
  intros [Hr0 Hr] Hi HF Hfit Hz Lg Fg. set (zs := replicate (Z.to_nat zeroes) 0).
  assert (length zs = Z.to_nat zeroes) as Lz by apply length_replicate.
  assert (Z.of_nat (length (zs ++ gs)) = Z.max zeroes (intg + F)) as Lw by (rewrite length_app; plia).
  exists ((zs ++ gs) ++ drop (length (zs ++ gs)) (d_buf to)). rewrite store_front by plia.
  set (buf := (zs ++ gs) ++ _). assert (length buf = length (d_buf to)) as Lb by (unfold buf; rewrite length_app, length_drop; plia).
  assert (ROUND_UP (F * 9) = F) as ERF by by apply ROUND_UP_mul9.
  assert (Forall word_ok (take (Z.to_nat (intg + F)) buf) /\ dval (take (Z.to_nat (intg + F)) buf) = dval gs) as [Ft Vt].
  { destruct (Z.le_gt_cases zeroes (intg + F)).
    - unfold buf. rewrite take_app_length' by plia. split; [apply Forall_app; split; [apply word_ok_zeroes|done]|].
      unfold zs. rewrite dval_app, dval_zeroes. lia.
    - destruct gs as [|g gs]; [|simpl in Lg; lia]. unfold buf. rewrite app_nil_r, take_app_le by plia.
      unfold zs. rewrite take_replicate. split; [apply word_ok_zeroes|apply dval_zeroes]. }
  set (d := mk_decimal _ _ _ _ _). assert (dec_room d) as Hd by (split; simpl; lia).
  assert (dec_digits d /\ dec_val d = dval gs) as [Hg Vg].
  { destruct (Z.eq_dec (intg + F) 0) as [E0|Hne].
    - assert (intg = 0) as -> by lia. assert (F = 0) as -> by lia. split; [split; [done|by right]|]. rewrite <- Vt.
      unfold dec_val, dec_words, d. reflexivity.
    - destruct (stored_wf (d_len to) sign buf intg (F * 9) (dval gs)) as [W V]; rewrite ?ERF; try done; try plia.
      { replace (9 * F - F * 9) with 0 by lia. apply Z.divide_1_l. }
      split; [split; [done|by left]|done]. }
  destruct (div_done_spec d error Hg) as (to' & E & D & ? & ? & ? & ?). exists to'. split_and!; try done. by transitivity (dec_val d).
Qed.

(** The number of words of [d] digits. *)
Lemma ceil_words d m : 9 * m - 9 < d <= 9 * m -> (if d <? 0 then Z.quot d 9 else ROUND_UP d) = m.
Proof.
  intros H. destruct (Z.ltb_spec d 0); [|rewrite ROUND_UP_nonneg by done]; Z.to_euclidean_division_equations; lia.
Qed.

(** Words stored after words of zeroes, as a number. *)
Lemma remainder_store to sign intg frac zeroes ws error : dec_room to -> 0 <= intg -> 0 <= frac -> 0 < intg + frac -> 0 <= zeroes ->
  zeroes + Z.of_nat (length ws) = ROUND_UP intg + ROUND_UP frac -> zeroes + Z.of_nat (length ws) <= d_len to ->
  Forall word_ok ws -> dval ws < 10 ^ (intg + 9 * ROUND_UP frac) -> (10 ^ (9 * ROUND_UP frac - frac) | dval ws) ->
  exists buf to', store_down (d_buf to) (zeroes + Z.of_nat (length ws)) (replicate (Z.to_nat zeroes) 0 ++ ws) = Some buf /\
    div_done (mk_decimal intg frac (d_len to) sign buf) error = Some (to', error) /\ dec_digits to' /\
    d_frac to' = frac /\ dec_val to' = dval ws /\ d_sign to' = sign.
Proof.
  intros [Hr0 Hr] Hi Hf Hs Hz Hl Hfit F Ht Ha. set (zs := replicate (Z.to_nat zeroes) 0 ++ ws).
  assert (Z.of_nat (length zs) = zeroes + Z.of_nat (length ws)) as Lz by (unfold zs; rewrite length_app, length_replicate; plia).
  assert (dval zs = dval ws) as Vz by (unfold zs; rewrite dval_app, dval_zeroes; lia).
  exists (zs ++ drop (length zs) (d_buf to)). rewrite store_front by plia.
  destruct (mk_decimal_wf intg frac (d_len to) sign zs (drop (length zs) (d_buf to))) as [W V]; try done.
  { plia. } { rewrite length_app, length_drop. plia. } { apply Forall_app. split; [apply word_ok_zeroes|done]. } { by rewrite Vz. } { by rewrite Vz. }
  destruct (div_done_spec _ error (conj (wf_room _ W) (or_introl W))) as (to' & E & D & ? & ? & ? & V').
  exists to'. split_and!; try done. by rewrite V', V.
Qed.

(** The remainder's words as a number: [m] words before the point. *)
Lemma mod_remainder_spec to sign frac intg2 digits start ts m v e : dec_room to -> 0 <= frac -> 0 <= intg2 ->
  let fm := ROUND_UP frac in
  9 * m - 9 < digits - start * 9 <= 9 * m -> m <= ROUND_UP intg2 -> 0 <= m + fm -> ROUND_UP intg2 + fm <= d_len to -> fm < d_len to ->
  Forall word_ok ts -> Z.of_nat (length ts) = m + fm + e -> 0 <= e -> dval ts = v * DIG_BASE ^ e ->
  v < 10 ^ (intg2 + 9 * fm) -> (10 ^ (9 * fm - frac) | v) ->
  exists to', mod_remainder to sign frac intg2 digits start ts = Some (to', E_DEC_OK) /\ dec_digits to' /\
    d_frac to' = frac /\ dec_val to' = v /\ (d_sign to' = sign \/ v = 0).
Proof.
  intros Hr Hf Hi2 fm Hd Hm Hmf Hfit Hfl F L He Ev Ht Ha. pose proof (ROUND_UP_bounds frac Hf) as Bf. fold fm in Bf.
  pose proof (ROUND_UP_bounds intg2 Hi2) as Bi.
  destruct (words_split ts 0 (m + fm)) as (l0 & ws & rest & Ets & L0 & Lw & Ew); [plia..|].
  destruct l0; [|simpl in L0; lia]. cbn [app] in Ets. rewrite Z.sub_0_r in Lw.
  assert (Forall word_ok ws /\ Forall word_ok rest) as [Fw Fr] by (rewrite Ets in F; by apply Forall_app in F).
  assert (dval ws = v) as Vw.
  { pose proof (dval_bounds rest Fr) as Br. rewrite Ets, dval_app in Ev. rewrite Ets, length_app in L.
    replace (Z.of_nat (length rest)) with e in * by plia. pose proof (DIG_BASE_pow_pos e He). clear -Ev Br H. nia. }
  pose proof (dval_bounds ws Fw) as Bw. rewrite Lw, Vw in Bw. destruct Hr as [Hr0 Hr].
  unfold mod_remainder, DIG_PER_DEC1. cbv zeta. rewrite (ceil_words _ m) by done. fold fm.
  destruct ((fm =? 0) && (m =? 0)) eqn:Ez.
  { apply andb_prop in Ez as [E1%Z.eqb_eq E2%Z.eqb_eq].
    destruct (decimal_make_zero_spec to) as (to0 & -> & W & _ & S0 & F0 & V0); [done|]. cbn [mbind option_bind].
    destruct (div_done_spec to0 E_DEC_OK) as (to' & -> & D & F' & _ & S' & V'); [split; [apply W|by left]|].
    assert (v = 0) as Ezv by (destruct ws; [done|simpl in Lw; plia]). exists to'. split_and!; try done; [plia|congruence|by right]. }
  assert (0 < fm \/ 0 < m) as Hpos.
  { apply andb_false_iff in Ez. rewrite !Z.eqb_neq in Ez. clear -Ez Hmf Bf Hf. lia. }
  assert ((m <=? 0) && (d_len to <=? - m) = false) as ->.
  { destruct (Z.leb_spec m 0), (Z.leb_spec (d_len to) (- m)); try done. plia. }
  rewrite (proj2 (Z.ltb_ge (d_len to) m)) by plia.
  destruct (Z.leb_spec m 0) as [Hm0|Hm0].
  - rewrite (proj2 (Z.ltb_ge (d_len to) (1 + (fm + m)))), (Z.max_r 0 (fm + m)), (Z.add_comm fm m), Ew, (Z.max_r 0 (- m)) by plia. cbn [mbind option_bind].
    destruct (remainder_store to sign 0 frac (- m) ws E_DEC_OK) as (buf & to' & Eb & Ed & D & Ff & V & Sg); fold fm; change (ROUND_UP 0) with 0; try done; try plia.
    { rewrite Vw, Z.add_0_l, <- DIG_BASE_pow by plia. apply Z.lt_le_trans with (DIG_BASE ^ (m + fm)); [apply Bw|apply Z.pow_le_mono_r; [done|plia]]. }
    { by rewrite Vw. }
    rewrite Lw in Eb. rewrite Eb. cbn [mbind option_bind]. rewrite Ed. exists to'. split_and!; try done; [congruence|by left].
  - rewrite (proj2 (Z.ltb_ge (d_len to) (m + fm))), (Z.max_r 0 (fm + m)), (Z.add_comm fm m), Ew, (Z.max_l 0 (- m)) by plia. cbn [mbind option_bind].
    assert (ROUND_UP (Z.min (m * 9) intg2) = m) as Emin.
    { destruct (Z.min_spec (m * 9) intg2) as [[? ->]|[? ->]]; [apply ROUND_UP_mul9; plia|]. plia. }
    destruct (remainder_store to sign (Z.min (m * 9) intg2) frac 0 ws E_DEC_OK) as (buf & to' & Eb & Ed & D & Ff & V & Sg); rewrite ?Emin; fold fm; try done; try plia.
    { rewrite Vw. destruct (Z.min_spec (m * 9) intg2) as [[? ->]|[? ->]]; [|done].
      replace (m * 9 + 9 * fm) with (9 * (m + fm)) by lia. rewrite <- DIG_BASE_pow by plia. apply Bw. }
    { by rewrite Vw. }
    rewrite Lw in Eb. rewrite Eb. cbn [mbind option_bind]. rewrite Ed. exists to'. split_and!; try done; [congruence|by left].
Qed.

(** ** The division of two numbers that are not zero *)

Lemma stripped_bounds d z prec w ws : stripped d z prec w ws ->
  1 <= ROUND_UP prec /\ 0 < w /\ word_ok w /\
  w * DIG_BASE ^ (ROUND_UP prec - 1) <= dec_val d < (w + 1) * DIG_BASE ^ (ROUND_UP prec - 1).
Proof.
  intros [_ _ Hl F E Hp Hw]. inversion_clear F as [|?? H0 F']. pose proof (dval_bounds ws F') as B.
  rewrite <- E, dval_cons. pose proof (ROUND_UP_bounds prec ltac:(lia)). simpl length in Hl.
  replace (Z.of_nat (length ws)) with (ROUND_UP prec - 1) in * by plia. split_and!; [plia| |apply H0..|lia|lia].
  eapply Z.lt_le_trans; [|apply Hw]. apply Z.pow_pos_nonneg; plia.
Qed.

Lemma FIX_INTG_FRAC_spec len intg0 frac0 : 0 <= intg0 -> 0 <= frac0 -> 0 <= len ->
  exists intg frac error, FIX_INTG_FRAC_ERROR len intg0 frac0 = (intg, frac, error) /\
    0 <= intg <= intg0 /\ 0 <= frac <= frac0 /\ intg + frac <= len /\
    (intg0 + frac0 <= len /\ error = E_DEC_OK /\ intg = intg0 /\ frac = frac0 \/
     intg0 <= len < intg0 + frac0 /\ error = E_DEC_TRUNCATED /\ intg = intg0 /\ frac = len - intg0 \/
     len < intg0 /\ error = E_DEC_OVERFLOW /\ intg = len /\ frac = 0).
Proof.
  intros Hi Hf Hl. unfold FIX_INTG_FRAC_ERROR.
  destruct (Z.ltb_spec len (intg0 + frac0)); [destruct (Z.ltb_spec len intg0)|]; eexists _, _, _; (split; [done|]); split_and!; lia.
Qed.

Section operands.
Context (from1 from2 : decimal_t) (z1 prec1 w1 z2 prec2 w2 : Z) (ws1 ws2 : list Z).
Context (S1 : stripped from1 z1 prec1 w1 ws1) (S2 : stripped from2 z2 prec2 w2 ws2).
Let n1 := ROUND_UP prec1.
Let n2 := ROUND_UP prec2.
Let c := if w2 <=? w1 then 1 else 0.
Let V1 := dec_val from1.
Let V2 := dec_val from2.

(** The quotient in powers of the base: less than [DIG_BASE ^ I], more than half of
    [DIG_BASE ^ (I - 1)], for [I = n1 - n2 + c] and the places of the points. *)
Lemma ratio_upper : V1 * DIG_BASE ^ n2 < V2 * DIG_BASE ^ (n1 + c).
Proof.
  destruct (stripped_bounds _ _ _ _ _ S1) as (Hn1 & Hw1 & Ho1 & B1). destruct (stripped_bounds _ _ _ _ _ S2) as (Hn2 & Hw2 & Ho2 & B2).
  fold n1 V1 in Hn1, B1. fold n2 V2 in Hn2, B2. unfold c, word_ok in *. pose proof (DIG_BASE_pow_pos (n1 - 1) ltac:(lia)). pose proof (DIG_BASE_pow_pos (n2 - 1) ltac:(lia)).
  replace (DIG_BASE ^ n2) with (DIG_BASE * DIG_BASE ^ (n2 - 1)) by (rewrite <- Z.pow_succ_r by lia; f_equal; lia).
  destruct (Z.leb_spec w2 w1).
  - replace (DIG_BASE ^ (n1 + 1)) with (DIG_BASE * DIG_BASE * DIG_BASE ^ (n1 - 1))
      by (rewrite <- Z.mul_assoc, <- !Z.pow_succ_r by lia; f_equal; lia).
    set (P1 := DIG_BASE ^ (n1 - 1)) in *. set (P2 := DIG_BASE ^ (n2 - 1)) in *. clearbody P1 P2. unfold DIG_BASE in *.
    apply Z.lt_le_trans with ((w1 + 1) * P1 * (1000000000 * P2)); [apply Z.mul_lt_mono_pos_r; lia|].
    transitivity (w2 * P2 * (1000000000 * 1000000000 * P1)); [|apply Z.mul_le_mono_nonneg_r; lia]. nia.
  - replace (DIG_BASE ^ (n1 + 0)) with (DIG_BASE * DIG_BASE ^ (n1 - 1)) by (rewrite <- Z.pow_succ_r by lia; f_equal; lia).
    set (P1 := DIG_BASE ^ (n1 - 1)) in *. set (P2 := DIG_BASE ^ (n2 - 1)) in *. clearbody P1 P2. unfold DIG_BASE in *.
    apply Z.lt_le_trans with ((w1 + 1) * P1 * (1000000000 * P2)); [apply Z.mul_lt_mono_pos_r; lia|].
    transitivity (w2 * P2 * (1000000000 * P1)); [|apply Z.mul_le_mono_nonneg_r; lia]. nia.
Qed.

Lemma ratio_lower : V2 * DIG_BASE ^ (n1 + c) < 2 * V1 * DIG_BASE ^ (n2 + 1).
Proof.
  destruct (stripped_bounds _ _ _ _ _ S1) as (Hn1 & Hw1 & Ho1 & B1). destruct (stripped_bounds _ _ _ _ _ S2) as (Hn2 & Hw2 & Ho2 & B2).
  fold n1 V1 in Hn1, B1. fold n2 V2 in Hn2, B2. unfold c, word_ok in *. pose proof (DIG_BASE_pow_pos (n1 - 1) ltac:(lia)). pose proof (DIG_BASE_pow_pos (n2 - 1) ltac:(lia)).
  replace (DIG_BASE ^ (n2 + 1)) with (DIG_BASE * DIG_BASE * DIG_BASE ^ (n2 - 1))
    by (rewrite <- Z.mul_assoc, <- !Z.pow_succ_r by lia; f_equal; lia).
  destruct (Z.leb_spec w2 w1).
  - replace (DIG_BASE ^ (n1 + 1)) with (DIG_BASE * DIG_BASE * DIG_BASE ^ (n1 - 1))
      by (rewrite <- Z.mul_assoc, <- !Z.pow_succ_r by lia; f_equal; lia).
    set (P1 := DIG_BASE ^ (n1 - 1)) in *. set (P2 := DIG_BASE ^ (n2 - 1)) in *. clearbody P1 P2. unfold DIG_BASE in *.
    apply Z.lt_le_trans with ((w2 + 1) * P2 * (1000000000 * 1000000000 * P1)); [apply Z.mul_lt_mono_pos_r; lia|].
    transitivity (2 * (w1 * P1) * (1000000000 * 1000000000 * P2)); [|apply Z.mul_le_mono_nonneg_r; lia]. nia.
  - replace (DIG_BASE ^ (n1 + 0)) with (DIG_BASE * DIG_BASE ^ (n1 - 1)) by (rewrite <- Z.pow_succ_r by lia; f_equal; lia).
    set (P1 := DIG_BASE ^ (n1 - 1)) in *. set (P2 := DIG_BASE ^ (n2 - 1)) in *. clearbody P1 P2. unfold DIG_BASE in *.
    apply Z.lt_le_trans with ((w2 + 1) * P2 * (1000000000 * P1)); [apply Z.mul_lt_mono_pos_r; lia|].
    transitivity (2 * (w1 * P1) * (1000000000 * 1000000000 * P2)); [|apply Z.mul_le_mono_nonneg_r; lia]. nia.
Qed.

(** The words of the quotient and what they leave of the dividend, of which [len1]
    words are at hand. *)
Lemma div_words_spec len1 k : n1 <= len1 -> (0 < Z.of_nat k -> Z.max 2 n2 + Z.of_nat k <= len1 + c) ->
  let ds := rev (drop_zero_words (rev (w2 :: ws2))) in
  exists dcarry ts gs c' ts',
    div_start ds ((w1 :: ws1) ++ replicate (Z.to_nat (len1 - n1)) 0) = Some (dcarry, ts) /\ (dcarry = 0 <-> w2 <= w1) /\
    div_loop k ds dcarry ts = Some (gs, c', ts') /\ (k = O -> c' = dcarry) /\
    length gs = k /\ Forall word_ok gs /\ Forall word_ok (c' :: ts') /\
    Z.of_nat (length ts') = len1 - 1 + c - Z.of_nat k /\
    V1 * DIG_BASE ^ (len1 - n1 + n2) = dval gs * (V2 * DIG_BASE ^ (len1 + c - Z.of_nat k)) + dval (c' :: ts') * DIG_BASE ^ n2 /\
    dval (c' :: ts') * DIG_BASE ^ n2 < V2 * DIG_BASE ^ (len1 + c - Z.of_nat k).
Proof.
  intros Hl Hk ds. destruct (stripped_bounds _ _ _ _ _ S1) as (Hn1 & Hw1 & Ho1 & B1).
  destruct (stripped_bounds _ _ _ _ _ S2) as (Hn2 & Hw2 & Ho2 & B2). fold n1 V1 in Hn1, B1. fold n2 V2 in Hn2, B2.
  pose proof (st_len _ _ _ _ _ S1) as L1. pose proof (st_len _ _ _ _ _ S2) as L2. fold n1 in L1. fold n2 in L2.
  pose proof (st_val _ _ _ _ _ S1) as E1. pose proof (st_val _ _ _ _ _ S2) as E2. fold V1 in E1. fold V2 in E2.
  assert (0 <= V1 /\ 0 <= V2) as [HV1 HV2] by (rewrite <- E1, <- E2; split; apply dval_bounds; [apply S1|apply S2]).
  clear B1 B2. destruct (drop_zero_words_spec w2 ws2 ltac:(lia)) as (ds' & z & Ed & Ez). unfold ds. rewrite Ed.
  pose proof (st_ok _ _ _ _ _ S2) as F2. rewrite Ez in F2, E2, L2.
  change (w2 :: ds' ++ replicate z 0) with ((w2 :: ds') ++ replicate z 0) in F2, E2, L2. apply Forall_app in F2 as [F2 _].
  rewrite dval_app, dval_zeroes, Z.add_0_r, length_replicate in E2. rewrite length_app, length_replicate in L2.
  set (zs := replicate (Z.to_nat (len1 - n1)) 0).
  assert (Z.of_nat (length (w1 :: ws1 ++ zs)) = len1) as Lz.
  { unfold zs. simpl length in L1 |- *. rewrite length_app, length_replicate. clear -L1 Hl. lia. }
  assert (dval (w1 :: ws1 ++ zs) = V1 * DIG_BASE ^ (len1 - n1)) as Ez1.
  { unfold zs. rewrite app_comm_cons, dval_app, dval_zeroes, E1, length_replicate, Z2Nat.id by (clear -Hl; lia). ring. }
  assert (Forall word_ok (w1 :: ws1 ++ zs)) as F1.
  { rewrite app_comm_cons. apply Forall_app. split; [apply S1|apply word_ok_zeroes]. }
  destruct (div_start_spec w2 ds' F2 Hw2 w1 _ F1) as (dcarry & ts & Es & Hc & Ft & Ev & Lt & H0 & Hinv).
  rewrite Lz in Lt, Hinv. rewrite Ez1 in Ev. clear Lz Ez1.
  assert (dcarry = 0 <-> w2 <= w1) as Hz by (clear -H0 Hw1; rewrite H0; split; [intros [|]|]; lia). clear H0.
  fold c in Lt, Hinv. pose proof ratio_upper as RU. assert (0 <= c <= 1) as Hc01 by (unfold c; destruct (w2 <=? w1); lia).
  destruct k as [|k].
  - exists dcarry, ts, [], dcarry, ts. cbn [div_loop]. rewrite dval_nil, Ev. split_and!; try done; [by constructor|plia| |].
    + rewrite Z.pow_add_r by plia. ring.
    + rewrite <- Z.mul_assoc, <- Z.pow_add_r by plia. apply (scale_lt V1 V2 n2 (n1 + c)); try done; plia.
  - pose proof divisor_bounds w2 ds' F2 Hw2 as (_ & HD & _). set (n := Z.of_nat (length (w2 :: ds'))) in *.
    destruct (div_loop_spec w2 ds' F2 Hw2 (S k) dcarry ts Hc Ft) as (gs & c' & ts' & El & Lg & Fg & Hc' & Ft' & Lt' & Eq & Bq).
    { rewrite Lt. fold n. plia. }
    { rewrite Lt. fold n. replace (len1 - 1 + c - n + 1) with (len1 + c - n) by plia. apply Hinv. plia. }
    rewrite Lt in *. fold n in Eq, Bq. replace (len1 - 1 + c - n - Z.of_nat (S k) + 1) with (len1 + c - n - Z.of_nat (S k)) in Eq, Bq by plia.
    assert (V2 * DIG_BASE ^ (len1 + c - Z.of_nat (S k)) = dval (w2 :: ds') * DIG_BASE ^ (len1 + c - n - Z.of_nat (S k)) * DIG_BASE ^ n2) as E3.
    { rewrite <- E2, <- !Z.mul_assoc, <- !Z.pow_add_r by plia. do 2 f_equal. plia. }
    exists dcarry, ts, gs, c', ts'. split_and!; try done; [by constructor| |].
    + rewrite E3, Z.pow_add_r, Z.mul_assoc, <- Ev, Eq by plia. ring.
    + rewrite E3. apply Z.mul_lt_mono_pos_r; [by apply DIG_BASE_pow_pos; plia|done].
Qed.

(** The places of the points: [I] is the number of integer words of the quotient. *)
Context (H1 : dec_wf from1) (H2 : dec_wf from2).
Let f1 := ROUND_UP (d_frac from1).
Let f2 := ROUND_UP (d_frac from2).
Let I := n1 - n2 + c - f1 + f2.
Let ds := rev (drop_zero_words (rev (w2 :: ws2))).

(** The quotient's words, for the places of the quotient. *)
Lemma quotient_value len1 gs T k F : n1 <= len1 -> 0 <= F -> 0 <= f1 -> 0 <= f2 -> 0 <= k <= len1 + c -> k = I + F -> 0 <= T ->
  V1 * DIG_BASE ^ (len1 - n1 + n2) = dval gs * (V2 * DIG_BASE ^ (len1 + c - k)) + T -> T < V2 * DIG_BASE ^ (len1 + c - k) ->
  dval gs = V1 * DIG_BASE ^ (f2 + F) / (V2 * DIG_BASE ^ f1).
Proof.
  intros Hl HF Hf1 Hf2 Hk Ek HT E B. destruct (stripped_bounds _ _ _ _ _ S2) as (Hn2 & Hw2 & Ho2 & B2).
  destruct (stripped_bounds _ _ _ _ _ S1) as (Hn1 & _). fold n2 V2 in Hn2, B2. fold n1 in Hn1.
  assert (0 < V2) as HV2 by (pose proof (DIG_BASE_pow_pos (n2 - 1) ltac:(plia)); nia). clear B2.
  transitivity (V1 * DIG_BASE ^ (len1 - n1 + n2) / (V2 * DIG_BASE ^ (len1 + c - k))).
  - apply Z.div_unique with T; lia.
  - apply ratio_div.
    + apply Z.mul_pos_pos; [done|]. apply DIG_BASE_pow_pos. plia.
    + apply Z.mul_pos_pos; [done|]. by apply DIG_BASE_pow_pos.
    + transitivity (V1 * V2 * (DIG_BASE ^ (len1 - n1 + n2) * DIG_BASE ^ f1)); [ring|].
      transitivity (V1 * V2 * (DIG_BASE ^ (f2 + F) * DIG_BASE ^ (len1 + c - k))); [|ring].
      rewrite <- !Z.pow_add_r by plia. do 2 f_equal. unfold I in Ek. plia.
Qed.

(** No word before the first one. *)
Lemma quotient_zero F : 0 <= F -> 0 <= f1 -> 0 <= f2 -> I + F <= 0 -> V1 * DIG_BASE ^ (f2 + F) / (V2 * DIG_BASE ^ f1) = 0.
Proof.
  intros HF Hf1 Hf2 HI. destruct (stripped_bounds _ _ _ _ _ S2) as (Hn2 & _). destruct (stripped_bounds _ _ _ _ _ S1) as (Hn1 & _).
  fold n2 in Hn2. fold n1 in Hn1. assert (0 <= V1 /\ 0 <= V2) as [HV1 HV2] by (split; by apply dec_val_nonneg).
  assert (0 <= c) by (unfold c; destruct (w2 <=? w1); lia). unfold I in HI.
  apply Z.div_small. split; [apply Z.mul_nonneg_nonneg; [done|apply Z.pow_nonneg; done]|].
  apply (scale_lt V1 V2 n2 (n1 + c)); try plia. apply ratio_upper.
Qed.

(** The start of [do_div_mod], up to its loop. *)
Lemma do_div_mod_start to is_mod scale_incr : div_strip from1 = Some (z1, prec1) -> div_strip from2 = Some (z2, prec2) ->
  let scale := Z.max 0 (scale_incr - (f1 * 9 - d_frac from1 + f2 * 9 - d_frac from2)) in
  let len1 := Z.max 3 (n1 + ROUND_UP (2 * (f2 * 9) + scale + 1) + 1) in
  exists dintg, Z.max 0 (- dintg) = Z.max 0 (- I) /\
  do_div_mod from1 from2 to is_mod scale_incr =
    ('(dcarry, ts) ← div_start ds ((w1 :: ws1) ++ replicate (Z.to_nat (len1 - n1)) 0);
     if is_mod then
       '(_, dcarry, ts) ← div_loop (Z.to_nat (Z.max 0 I)) ds dcarry ts;
       let ts := if dcarry =? 0 then ts else dcarry :: ts in
       mod_remainder to (d_sign from1) (Z.max (d_frac from1) (d_frac from2)) (d_intg from2) (prec1 - f1 * 9)
         (len1 - Z.of_nat (length ts)) ts
     else div_quotient to (xorb (d_sign from1) (d_sign from2)) dintg (Z.max 0 I) (ROUND_UP (f1 * 9 + f2 * 9 + scale)) ds dcarry ts).
Proof.
  intros E1 E2 scale len1. destruct (stripped_bounds _ _ _ _ _ S1) as (Hn1 & _). destruct (stripped_bounds _ _ _ _ _ S2) as (Hn2 & _).
  destruct (quotient_words prec1 prec2 f1 f2 w1 w2) as (dintg & Ed & Hd); [apply S1|apply S2|apply S1|apply S2|].
  fold n1 n2 c in Ed, Hd. fold I in Ed, Hd. exists dintg. split; [done|].
  unfold do_div_mod. rewrite E2. cbn [mbind option_bind]. rewrite (proj2 (Z.leb_gt prec2 0)) by apply S2.
  rewrite E1. cbn [mbind option_bind]. rewrite (proj2 (Z.leb_gt prec1 0)) by apply S1.
  destruct (st_buf _ _ _ _ _ S1) as [r1 B1]. destruct (st_buf _ _ _ _ _ S2) as [r2 B2].
  assert (rd (d_buf from1) z1 = Some w1) as ->
    by (rewrite B1; apply rd_middle; rewrite length_replicate; pose proof (st_z _ _ _ _ _ S1); lia).
  assert (rd (d_buf from2) z2 = Some w2) as ->
    by (rewrite B2; apply rd_middle; rewrite length_replicate; pose proof (st_z _ _ _ _ _ S2); lia).
  assert (words (d_buf from1) z1 (z1 + n1) = Some (w1 :: ws1)) as Ew1
    by (rewrite B1; apply words_app; rewrite length_replicate; pose proof (st_z _ _ _ _ _ S1); pose proof (st_len _ _ _ _ _ S1); unfold n1; plia).
  assert (words (d_buf from2) z2 (z2 + n2) = Some (w2 :: ws2)) as Ew2
    by (rewrite B2; apply words_app; rewrite length_replicate; pose proof (st_z _ _ _ _ _ S2); pose proof (st_len _ _ _ _ _ S2); unfold n2; plia).
  cbn [mbind option_bind]. cbv zeta. unfold DIG_PER_DEC1. fold f1 f2 c. rewrite Ed. fold n1 n2. rewrite Ew1, Ew2. done.
Qed.

(** The quotient, in units of its last word: cut after [F] words of the fraction. *)
Lemma div_spec to scale_incr : dec_room to -> div_strip from1 = Some (z1, prec1) -> div_strip from2 = Some (z2, prec2) ->
  let frac0 := ROUND_UP (f1 * 9 + f2 * 9 + Z.max 0 (scale_incr - (f1 * 9 - d_frac from1 + f2 * 9 - d_frac from2))) in
  exists to' error, do_div_mod from1 from2 to false scale_incr = Some (to', error) /\ dec_digits to' /\ d_len to' = d_len to /\
    d_sign to' = xorb (d_sign from1) (d_sign from2) /\
    (d_len to < I /\ error = E_DEC_OVERFLOW \/
     exists F, d_frac to' = F * 9 /\ 0 <= F /\ I <= d_len to /\ dec_val to' = V1 * DIG_BASE ^ (f2 + F) / (V2 * DIG_BASE ^ f1) /\
       (error = E_DEC_OK /\ F = frac0 \/ error = E_DEC_TRUNCATED /\ F = d_len to - Z.max 0 I)).
Proof.
  intros Hr E1 E2 frac0. destruct (stripped_bounds _ _ _ _ _ S1) as (Hn1 & _). destruct (stripped_bounds _ _ _ _ _ S2) as (Hn2 & _).
  fold n1 in Hn1. fold n2 in Hn2. pose proof (wf_frac_words _ H1) as Hf1. pose proof (wf_frac_words _ H2) as Hf2. fold f1 in Hf1. fold f2 in Hf2.
  destruct (do_div_mod_start to false scale_incr E1 E2) as (dintg & Hd & E). rewrite E. clear E. cbv match.
  unfold frac0. clear frac0. set (scale := Z.max 0 (scale_incr - _)). set (frac0 := ROUND_UP (f1 * 9 + f2 * 9 + scale)).
  set (len1 := Z.max 3 _). assert (0 <= scale) as Hs by apply Z.le_max_l.
  assert (n1 <= len1 /\ n1 + 2 * f2 + ROUND_UP scale + 1 <= len1 /\ n1 + 2 * f2 + 2 <= len1 /\ frac0 = f1 + f2 + ROUND_UP scale /\ 0 <= ROUND_UP scale) as (Hl1 & Hl2 & Hl3 & Hfr & Hs2).
  { unfold len1, frac0. clear -Hs Hf1 Hf2. clearbody f1 f2 scale n1. rewrite !ROUND_UP_nonneg by lia.
    Z.to_euclidean_division_equations. lia. }
  destruct (FIX_INTG_FRAC_spec (d_len to) (Z.max 0 I) frac0) as (intg & F & error & Ef & Hi & HF & Hfit & Hcase);
    [apply Z.le_max_l|lia|destruct Hr; lia|].
  assert (d_len to < I /\ error = E_DEC_OVERFLOW \/ I <= d_len to /\ intg = Z.max 0 I /\
    (error = E_DEC_OK /\ F = frac0 \/ error = E_DEC_TRUNCATED /\ F = d_len to - Z.max 0 I)) as Hcase'.
  { clear -Hcase Hr HF. destruct Hr as [Hr _]. clearbody I frac0. lia. }
  clear Hcase. set (zeroes := Z.min (Z.max 0 (- dintg)) (d_len to)). set (k := Z.to_nat (intg + F - zeroes)).
  assert (0 <= c <= 1) as Hc by (unfold c; destruct (w2 <=? w1); lia).
  assert (0 < Z.of_nat k -> Z.of_nat k <= I + frac0) as Hk
    by (unfold k, zeroes; clear -Hd Hi HF Hfit Hr; destruct Hr as [Hr _]; clearbody I; lia).
  destruct (div_words_spec len1 k Hl1) as (dcarry & ts & gs & c' & ts' & Es & _ & El & _ & Lg & Fg & Fo & _ & EV & BV).
  { intros Hp. specialize (Hk Hp). unfold I in Hk. clear Hd Hcase'. clearbody f1 f2 n1 n2 c len1 frac0 scale k. lia. }
  fold ds in Es, El. rewrite Es. cbn [mbind option_bind]. unfold div_quotient. rewrite Ef. fold zeroes. cbv zeta. fold k. rewrite El. cbn [mbind option_bind].
  destruct (div_store_spec to (xorb (d_sign from1) (d_sign from2)) intg F zeroes gs error) as (buf & to' & Eb & Ed & D & Fr & Ln & Sg & V);
    [done|apply Hi|apply HF|done|unfold zeroes; clear -Hr; destruct Hr; lia|done|done|].
  rewrite Eb. cbn [mbind option_bind]. rewrite Ed. exists to', error. split_and!; try done.
  destruct Hcase' as [Hov|(Hno & Ei & Her)]; [by left|right; exists F].
  assert (I + F = Z.of_nat k \/ I + F <= 0 /\ k = O) as Hkk
    by (unfold k, zeroes; destruct Hr as [Hr _]; clear -Hd Ei Hno HF Hr Hi Hfit; clearbody I; lia).
  split_and!; [done|apply HF|done| |done]. rewrite V. destruct Hkk as [Hkk|[Hkk ->]].
  - apply (quotient_value len1 gs (dval (c' :: ts') * DIG_BASE ^ n2) (Z.of_nat k) F); [done|apply HF|done|done| |done| |done|done].
    + destruct k as [|k']; [clear -Hl1 Hn1 Hc; lia|]. specialize (Hk ltac:(clear; lia)). unfold I in Hk. clear -Hk Hl2 Hfr Hn2 Hn1 Hc. lia.
    + apply Z.mul_nonneg_nonneg; [by apply dval_bounds|by apply Z.pow_nonneg].
  - destruct gs; [|done]. symmetry. by apply quotient_zero; [apply HF|..].
Qed.

(** *** The remainder *)

Let fm := Z.max f1 f2.
Let q := V1 * DIG_BASE ^ f2 / (V2 * DIG_BASE ^ f1).
Let R := dec_cut fm from1 - q * dec_cut fm from2.

(** What the loop leaves is the remainder, in units of the last word of the fraction. *)
Lemma remainder_value len1 k gs T : n1 + 2 * f2 + 2 <= len1 -> k = Z.max 0 I -> dval gs = q ->
  V1 * DIG_BASE ^ (len1 - n1 + n2) = dval gs * (V2 * DIG_BASE ^ (len1 + c - k)) + T * DIG_BASE ^ n2 ->
  T * DIG_BASE ^ n2 < V2 * DIG_BASE ^ (len1 + c - k) -> 0 <= T ->
  T = R * DIG_BASE ^ (len1 - n1 + f1 - fm) /\ 0 <= R < dec_cut fm from2.
Proof.
  intros Hl Hk Eg EV BV HT. pose proof (wf_frac_words _ H1) as Hf1. pose proof (wf_frac_words _ H2) as Hf2. fold f1 in Hf1. fold f2 in Hf2.
  destruct (stripped_bounds _ _ _ _ _ S1) as (Hn1 & _). destruct (stripped_bounds _ _ _ _ _ S2) as (Hn2 & _). fold n1 in Hn1. fold n2 in Hn2.
  assert (0 <= c <= 1) as Hc by (unfold c; destruct (w2 <=? w1); lia).
  assert (f1 <= fm /\ f2 <= fm /\ fm <= f1 + f2) as (Hm1 & Hm2 & Hm3) by (unfold fm; plia).
  set (e := len1 - n1 + f1 - fm) in *. assert (0 <= e) as He by (unfold e; plia).
  pose proof (DIG_BASE_pow_pos n2 ltac:(plia)) as P2. pose proof (DIG_BASE_pow_pos e He) as Pe.
  assert (V1 * DIG_BASE ^ (len1 - n1 + n2) = dec_cut fm from1 * DIG_BASE ^ e * DIG_BASE ^ n2) as E1.
  { rewrite dec_cut_extend by done. fold V1 f1. rewrite <- !Z.mul_assoc, <- !Z.pow_add_r by plia. do 2 f_equal. unfold e. plia. }
  assert (T = (dec_cut fm from1 - q * dec_cut fm from2) * DIG_BASE ^ e /\ dec_cut fm from1 - q * dec_cut fm from2 < dec_cut fm from2) as [ET Hlt].
  { destruct (Z.le_gt_cases 0 I) as [HI|HI].
    - assert (V2 * DIG_BASE ^ (len1 + c - k) = dec_cut fm from2 * DIG_BASE ^ e * DIG_BASE ^ n2) as E2.
      { rewrite dec_cut_extend by done. fold V2 f2. rewrite <- !Z.mul_assoc, <- !Z.pow_add_r by plia. do 2 f_equal. unfold e, I in *. plia. }
      rewrite E1, Eg, E2 in EV. rewrite E2 in BV. apply Z.mul_lt_mono_pos_r in BV; [|done].
      assert (T = (dec_cut fm from1 - q * dec_cut fm from2) * DIG_BASE ^ e) as ET.
      { apply (Z.mul_reg_r _ _ (DIG_BASE ^ n2)); [clear -P2; lia|].
        rewrite !Z.mul_sub_distr_r, EV. ring. }
      split; [done|]. rewrite ET in BV. by apply Z.mul_lt_mono_pos_r in BV.
    - assert (q = 0) as Eq. { pose proof (quotient_zero 0 ltac:(done) Hf1 Hf2 ltac:(plia)) as E0. by rewrite Z.add_0_r in E0. }
      rewrite E1, Eg, Eq in EV. rewrite Eq. split.
      + apply (Z.mul_reg_r _ _ (DIG_BASE ^ n2)); [clear -P2; lia|].
        rewrite Z.mul_0_l, Z.sub_0_r, EV. ring.
      + rewrite !dec_cut_extend by done. fold V1 V2 f1 f2. rewrite Z.mul_0_l, Z.sub_0_r.
        apply (scale_lt V1 V2 n2 (n1 + c)); try (by apply dec_val_nonneg); try apply ratio_upper; unfold I in HI; plia. }
  fold R in ET, Hlt. split; [done|]. split; [|done]. apply (Z.mul_nonneg_cancel_r R (DIG_BASE ^ e)); [done|by rewrite <- ET].
Qed.

Lemma remainder_digits : let frac := Z.max (d_frac from1) (d_frac from2) in
  ROUND_UP frac = fm /\ (10 ^ (9 * fm - frac) | R) /\ dec_cut fm from2 <= 10 ^ (d_intg from2 + 9 * fm).
Proof.
  intros frac. pose proof (wf_frac _ H1) as Hf1. pose proof (wf_frac _ H2) as Hf2. pose proof (wf_intg _ H2) as Hi2.
  assert (ROUND_UP frac = fm) as E by (unfold frac, fm; by apply ROUND_UP_max).
  pose proof (ROUND_UP_bounds frac ltac:(unfold frac; plia)) as B. rewrite E in B. pose proof (wf_frac_words _ H2) as Hw2. fold f2 in Hw2.
  split; [done|]. split.
  - apply Z.divide_sub_r; [|apply Z.divide_mul_r]; apply dec_cut_aligned; try done; fold f1 f2; unfold fm, frac in *; plia.
  - pose proof (wf_top _ H2) as T. assert (f2 <= fm) as Hle by (unfold fm; plia). rewrite dec_cut_extend, DIG_BASE_pow by (try done; fold f2; plia).
    fold f2 in T |- *. replace (d_intg from2 + 9 * fm) with (d_intg from2 + 9 * f2 + 9 * (fm - f2)) by lia.
    rewrite (Z.pow_add_r 10 (d_intg from2 + 9 * f2)) by plia. apply Z.mul_le_mono_nonneg_r; [by apply Z.pow_nonneg|lia].
Qed.

(** The integer words of the remainder, which are no more than the divisor's. *)
Lemma remainder_places z : 0 <= z <= 1 -> (I < 0 -> z = 1 - c) ->
  n1 - f1 - 1 + c - Z.max 0 I + z <= n2 - f2 /\ 0 <= n1 - f1 - 1 + c - Z.max 0 I + z + fm.
Proof.
  destruct (stripped_bounds _ _ _ _ _ S1) as (Hn1 & _). destruct (stripped_bounds _ _ _ _ _ S2) as (Hn2 & _).
  fold n1 in Hn1. fold n2 in Hn2. pose proof (wf_frac_words _ H1) as Hf1. pose proof (wf_frac_words _ H2) as Hf2. fold f1 in Hf1. fold f2 in Hf2.
  assert (0 <= c <= 1) as Hc by (unfold c; destruct (w2 <=? w1); lia).
  unfold fm, I. clear -Hn1 Hn2 Hc Hf1 Hf2. clearbody n1 n2 c f1 f2. lia.
Qed.

(** The words the loop leaves, [rs], and how many of them are before the point. *)
Lemma mod_words len1 : n1 + 2 * f2 + 2 <= len1 -> 0 <= f1 -> 0 <= f2 ->
  exists dcarry ts gs c' ts', div_start ds ((w1 :: ws1) ++ replicate (Z.to_nat (len1 - n1)) 0) = Some (dcarry, ts) /\
    div_loop (Z.to_nat (Z.max 0 I)) ds dcarry ts = Some (gs, c', ts') /\
    let rs := if c' =? 0 then ts' else c' :: ts' in
    let m := n1 - f1 - (len1 - Z.of_nat (length rs)) in
    Forall word_ok rs /\ dval rs = R * DIG_BASE ^ (len1 - n1 + f1 - fm) /\ 0 <= R < dec_cut fm from2 /\ m <= n2 - f2 /\ 0 <= m + fm.
Proof.
  intros Hl1 Hf1 Hf2. destruct (stripped_bounds _ _ _ _ _ S1) as (Hn1 & _). destruct (stripped_bounds _ _ _ _ _ S2) as (Hn2 & _).
  fold n1 in Hn1. fold n2 in Hn2. assert (0 <= c <= 1) as Hc by (unfold c; destruct (w2 <=? w1); lia). set (k := Z.to_nat (Z.max 0 I)).
  assert (Z.of_nat k = Z.max 0 I) as Ek by (unfold k; clear; clearbody I; lia).
  assert (Z.max 2 n2 + Z.max 0 I <= len1 + c \/ I <= 0) as Hroom.
  { unfold I. clear -Hl1 Hn1 Hn2 Hc Hf1 Hf2. clearbody n1 n2 c f1 f2. lia. }
  destruct (div_words_spec len1 k) as (dcarry & ts & gs & c' & ts' & Es & Hdc & El & Hk0 & Lg & Fg & Fo & Lt & EV & BV).
  { clear -Hl1 Hf2. lia. } { rewrite Ek. clear -Hroom. clearbody I. lia. }
  exists dcarry, ts, gs, c', ts'. split; [done|]. split; [done|]. clearbody k.
  set (T := dval (c' :: ts')) in *. assert (0 <= T) as HT by by apply dval_bounds.
  assert (dval gs = q) as Eg.
  { unfold q. rewrite <- (Z.add_0_r f2). destruct (Z.le_gt_cases I 0) as [HI|HI].
    - assert (k = O) as Ek0 by (clear -Ek HI; clearbody I; lia). rewrite Ek0 in Lg. destruct gs; [|done]. symmetry.
      apply quotient_zero; [done..|by rewrite Z.add_0_r].
    - apply (quotient_value len1 gs (T * DIG_BASE ^ n2) (Z.of_nat k) 0); try done.
      + clear -Hl1 Hf2. lia.
      + rewrite Ek. clear -Hroom HI Hn2. clearbody I. lia.
      + rewrite Ek. clear -HI. clearbody I. lia.
      + apply Z.mul_nonneg_nonneg; [done|by apply Z.pow_nonneg]. }
  destruct (remainder_value len1 (Z.of_nat k) gs T Hl1 Ek Eg EV BV HT) as [ET BR]. clear EV BV Eg.
  assert (Z.of_nat (length (if c' =? 0 then ts' else c' :: ts')) = len1 - 1 + c - Z.max 0 I + (if c' =? 0 then 0 else 1)) as Lrs.
  { rewrite <- Ek. clear -Lt. destruct (c' =? 0); simpl length; lia. }
  cbv zeta. rewrite Lrs. destruct (remainder_places (if c' =? 0 then 0 else 1)) as [Hm1 Hm2]; [by destruct (c' =? 0)| |].
  { intros HI. rewrite Hk0 by (clear -Ek HI; clearbody I; lia). clear -Hdc. unfold c.
    destruct (Z.eqb_spec dcarry 0) as [e|n], (Z.leb_spec w2 w1); try done; [apply Hdc in e; lia|by destruct n; apply Hdc]. }
  rewrite <- ET. revert Hm1 Hm2. generalize (if c' =? 0 then 0 else 1). intros z Hm1 Hm2.
  split_and!; [| |apply BR|apply BR|clear -Hm1; clearbody I; lia|clear -Hm2; clearbody I; lia].
  - destruct (c' =? 0); [by inversion Fo|done].
  - destruct (Z.eqb_spec c' 0) as [E0|]; [|done]. unfold T. rewrite E0, dval_cons. lia.
Qed.

(** The remainder, in units of the last word of its fraction. *)
Lemma mod_spec to : dec_room to -> div_strip from1 = Some (z1, prec1) -> div_strip from2 = Some (z2, prec2) ->
  ROUND_UP (d_intg from2) + fm <= d_len to -> fm < d_len to ->
  exists to', do_div_mod from1 from2 to true 0 = Some (to', E_DEC_OK) /\ dec_digits to' /\
    d_frac to' = Z.max (d_frac from1) (d_frac from2) /\ dec_val to' = R /\ (d_sign to' = d_sign from1 \/ R = 0).
Proof.
  intros Hr E1 E2 Hfit Hfl. destruct (stripped_bounds _ _ _ _ _ S1) as (Hn1 & _). fold n1 in Hn1.
  pose proof (wf_frac_words _ H1) as Hf1. pose proof (wf_frac_words _ H2) as Hf2. fold f1 in Hf1. fold f2 in Hf2.
  destruct (do_div_mod_start to true 0 E1 E2) as (dintg & _ & E). rewrite E. clear E. cbv match.
  set (scale := Z.max 0 (0 - _)). set (len1 := Z.max 3 _). assert (0 <= scale) as Hs by apply Z.le_max_l.
  assert (n1 + 2 * f2 + 2 <= len1) as Hl1.
  { unfold len1. clear -Hs Hf2 Hn1. clearbody f2 scale n1. rewrite ROUND_UP_nonneg by lia. Z.to_euclidean_division_equations. lia. }
  destruct (mod_words len1 Hl1 Hf1 Hf2) as (dcarry & ts & gs & c' & ts' & Es & El & Frs & Vrs & BR & Hm1 & Hm2).
  rewrite Es. cbn [mbind option_bind]. rewrite El. cbn [mbind option_bind]. cbv zeta. set (rs := if c' =? 0 then ts' else c' :: ts') in *.
  clearbody rs. set (st := len1 - Z.of_nat (length rs)) in *.
  destruct remainder_digits as (Efm & Hdiv & Hcut). pose proof (st_prec _ _ _ _ _ S1) as Hp1. pose proof (st_prec _ _ _ _ _ S2) as Hp2.
  pose proof (wf_intg _ H2) as Hi2. pose proof (wf_frac _ H1) as Hf. pose proof (ROUND_UP_bounds prec1 ltac:(clear -Hp1; lia)) as Bp1. fold n1 in Bp1.
  apply (mod_remainder_spec to _ _ _ _ _ rs (n1 - f1 - st) R (len1 - n1 + f1 - fm)); rewrite ?Efm; try done.
  - clear -Hf. lia.
  - clear -Bp1. clearbody n1 f1 st. lia.
  - transitivity (n2 - f2); [done|]. pose proof (ROUND_UP_bounds (d_intg from2) Hi2) as Bi.
    pose proof (ROUND_UP_bounds prec2 ltac:(clear -Hp2; lia)) as Bp2. fold n2 in Bp2. fold f2 in Hp2. clear -Hp2 Bi Bp2. clearbody n2 f2. lia.
  - unfold st. clearbody n1 f1 fm. clear. lia.
  - unfold fm. clear -Hl1 Hf1 Hf2. clearbody n1 f1 f2 len1. lia.
  - eapply Z.lt_le_trans; [apply BR|done].
Qed.
End operands.

(** ** The claims *)

Lemma Qmake_div a b : 0 < b -> (Qmake a (Z.to_pos b) == inject_Z a / inject_Z b)%Q.
Proof. intros H. rewrite <- (Z2Pos.id b H) at 2. unfold inject_Z, Qdiv, Qinv, Qmult, Qeq. simpl. rewrite !Pos2Z.inj_mul. ring. Qed.

Lemma inject_Z_pos a : 0 < a -> ~ (inject_Z a == 0)%Q.
Proof. intros H E. apply (proj1 (inject_Z_injective _ _)) in E. lia. Qed.

(** The quotient of two numbers, [k] words after the point. *)
Lemma quotient_Q d1 d2 k : dec_wf d1 -> dec_wf d2 -> 0 < dec_val d2 -> 0 <= k ->
  let v := dec_val d1 * DIG_BASE ^ (ROUND_UP (d_frac d2) + k) in
  (dec_Q d1 / dec_Q d2 * Q10 (9 * k) ==
   Qmake (if xorb (d_sign d1) (d_sign d2) then - v else v) (Z.to_pos (dec_val d2 * DIG_BASE ^ ROUND_UP (d_frac d1))))%Q.
Proof.
  intros H1 H2 HV Hk v. pose proof (DIG_BASE_pow_pos _ (wf_frac_words d1 H1)) as P1. pose proof (DIG_BASE_pow_pos _ (wf_frac_words d2 H2)) as P2.
  rewrite Q10_Z, <- DIG_BASE_pow by lia. unfold dec_Q. rewrite !Qmake_div by nia.
  unfold v. rewrite Z.pow_add_r by (by apply wf_frac_words || done). unfold dec_sval.
  pose proof (inject_Z_pos _ P1). pose proof (inject_Z_pos _ P2). pose proof (inject_Z_pos _ HV).
  destruct (d_sign d1), (d_sign d2); cbn [xorb]; rewrite ?inject_Z_opp, ?inject_Z_mult; field; done.
Qed.

Lemma quotient_truncated d1 d2 d F : dec_wf d1 -> dec_wf d2 -> 0 < dec_val d2 -> 0 <= F -> d_frac d = F * 9 ->
  d_sign d = xorb (d_sign d1) (d_sign d2) ->
  dec_val d = dec_val d1 * DIG_BASE ^ (ROUND_UP (d_frac d2) + F) / (dec_val d2 * DIG_BASE ^ ROUND_UP (d_frac d1)) ->
  (dec_Q d == round_Q TRUNCATE (dec_Q d1 / dec_Q d2) (9 * F))%Q.
Proof.
  intros H1 H2 HV HF Hf Hs Hd. unfold round_Q. pose proof (DIG_BASE_pow_pos _ (wf_frac_words d1 H1)) as P1.
  rewrite quotient_Q by done. pose proof (dec_val_nonneg d1 H1).
  rewrite round_to_int_mag; [|done|apply Z.mul_nonneg_nonneg; [done|by apply Z.pow_nonneg]|nia].
  unfold round_mag, rounds_up. rewrite Z.add_0_r, <- Hd, <- Hs, Q10_div, <- DIG_BASE_pow by lia.
  unfold dec_Q, dec_sval. by rewrite Hf, ROUND_UP_mul9.
Qed.

Lemma quotient_abs d1 d2 : dec_wf d1 -> dec_wf d2 -> 0 < dec_val d2 ->
  (Qabs (dec_Q d1 / dec_Q d2) ==
   Qmake (dec_val d1 * DIG_BASE ^ ROUND_UP (d_frac d2)) (Z.to_pos (dec_val d2 * DIG_BASE ^ ROUND_UP (d_frac d1))))%Q.
Proof.
  intros H1 H2 HV. pose proof (quotient_Q d1 d2 0 H1 H2 HV ltac:(lia)) as E. cbv zeta in E. rewrite Z.add_0_r in E.
  change (Q10 (9 * 0)) with 1%Q in E. rewrite Qmult_1_r in E. rewrite E. unfold Qabs.
  rewrite <- (Z.abs_eq (dec_val d1 * DIG_BASE ^ ROUND_UP (d_frac d2))) at 3.
  - destruct (xorb _ _); by rewrite ?Z.abs_opp.
  - apply Z.mul_nonneg_nonneg; [by apply dec_val_nonneg|by apply Z.pow_nonneg].
Qed.

(** The quotient and the limits of the result's words. *)
Lemma quotient_below d1 d2 k : dec_wf d1 -> dec_wf d2 -> 0 < dec_val d2 -> 0 <= k ->
  dec_val d1 * DIG_BASE ^ ROUND_UP (d_frac d2) < dec_val d2 * DIG_BASE ^ (ROUND_UP (d_frac d1) + k) ->
  (Qabs (dec_Q d1 / dec_Q d2) < inject_Z (DIG_BASE ^ k))%Q.
Proof.
  intros H1 H2 HV Hk H. pose proof (DIG_BASE_pow_pos _ (wf_frac_words d1 H1)) as P1.
  rewrite quotient_abs by done. unfold Qlt. simpl. rewrite Z2Pos.id by nia.
  rewrite Z.pow_add_r in H by (by apply wf_frac_words || done). lia.
Qed.

Lemma quotient_above d1 d2 k : dec_wf d1 -> dec_wf d2 -> 0 < dec_val d2 -> 0 <= k ->
  dec_val d2 * DIG_BASE ^ (ROUND_UP (d_frac d1) + k) < 2 * dec_val d1 * DIG_BASE ^ ROUND_UP (d_frac d2) ->
  (inject_Z (DIG_BASE ^ k) < 2 * Qabs (dec_Q d1 / dec_Q d2))%Q.
Proof.
  intros H1 H2 HV Hk H. pose proof (DIG_BASE_pow_pos _ (wf_frac_words d1 H1)) as P1.
  rewrite quotient_abs by done. unfold Qlt, Qmult. simpl Qnum. simpl Qden. rewrite Pos.mul_1_l, Z2Pos.id by nia.
  rewrite Z.pow_add_r in H by (by apply wf_frac_words || done). lia.
Qed.

Lemma round_Q_of_zero mode q scale : (q == 0)%Q -> (round_Q mode q scale == 0)%Q.
Proof.
  intros E. unfold round_Q. assert (q * Q10 scale == inject_Z 0)%Q as E' by (rewrite E; ring). rewrite E', round_to_int_Z. ring.
Qed.

(** A quotient of two numbers that are not zero. *)
Lemma div_result from1 from2 to scale_incr z1 prec1 w1 ws1 z2 prec2 w2 ws2 :
  dec_wf from1 -> dec_wf from2 -> dec_room to -> 0 < dec_val from2 ->
  stripped from1 z1 prec1 w1 ws1 -> stripped from2 z2 prec2 w2 ws2 ->
  div_strip from1 = Some (z1, prec1) -> div_strip from2 = Some (z2, prec2) ->
  let q := (dec_Q from1 / dec_Q from2)%Q in
  exists to' error, decimal_div from1 from2 to scale_incr = Some (to', error) /\ dec_digits to' /\ d_len to' = d_len to /\
    d_sign to' = xorb (d_sign from1) (d_sign from2) /\
    ((Qabs q < inject_Z (DIG_BASE ^ d_len to))%Q /\ (dec_Q to' == round_Q TRUNCATE q (d_frac to'))%Q /\
     (error = E_DEC_OK /\ d_frac from1 + d_frac from2 + scale_incr <= d_frac to' \/
      error = E_DEC_TRUNCATED /\ exists words, 0 <= words <= d_len to /\ d_frac to' = 9 * (d_len to - words) /\
        (0 < words -> (inject_Z (DIG_BASE ^ (words - 1)) < 2 * Qabs q)%Q)) \/
     error = E_DEC_OVERFLOW /\ (inject_Z (DIG_BASE ^ d_len to) < 2 * Qabs q)%Q).
Proof.
  intros H1 H2 Hr V2 S1 S2 E1 E2 q.
  destruct (div_spec from1 from2 z1 prec1 w1 z2 prec2 w2 ws1 ws2 S1 S2 H1 H2 to scale_incr Hr E1 E2) as (to' & error & Ed & Dg & Ln & Sg & Hcase).
  pose proof (ratio_upper from1 from2 z1 prec1 w1 z2 prec2 w2 ws1 ws2 S1 S2) as RU. pose proof (ratio_lower from1 from2 z1 prec1 w1 z2 prec2 w2 ws1 ws2 S1 S2) as RL.
  destruct (stripped_bounds _ _ _ _ _ S1) as (Hn1 & _). destruct (stripped_bounds _ _ _ _ _ S2) as (Hn2 & _).
  pose proof (wf_frac_words _ H1) as Hf1. pose proof (wf_frac_words _ H2) as Hf2. pose proof (dec_val_nonneg _ H1) as V1.
  set (n1 := ROUND_UP prec1) in *. set (n2 := ROUND_UP prec2) in *. set (c := if w2 <=? w1 then 1 else 0) in *.
  set (f1 := ROUND_UP (d_frac from1)) in *. set (f2 := ROUND_UP (d_frac from2)) in *.
  assert (0 <= c <= 1) as Hc by (unfold c; destruct (w2 <=? w1); lia). destruct Hr as [Hr _].
  assert (forall k, 0 <= k -> k < n1 - n2 + c - f1 + f2 -> (inject_Z (DIG_BASE ^ k) < 2 * Qabs q)%Q) as Habove.
  { intros k Hk HI. apply quotient_above; try done. fold f1 f2. apply (scale_lt _ _ (n1 + c) (n2 + 1)); try done; plia. }
  exists to', error. do 4 (split; [done|]). destruct Hcase as [[HI ->]|(F & Fr & HF & HI & Vt & Her)].
  { right. split; [done|]. apply Habove; plia. }
  left. split; [|split].
  - apply quotient_below; try done; [plia|]. fold f1 f2. apply (scale_lt _ _ n2 (n1 + c)); try done; plia.
  - rewrite Fr, Z.mul_comm. by apply quotient_truncated.
  - rewrite Fr. destruct Her as [[-> ->]|[-> ->]]; [left|right]; (split; [done|]).
    + clear RU RL Vt Habove. clearbody f1 f2. rewrite ROUND_UP_nonneg by lia. Z.to_euclidean_division_equations. lia.
    + exists (Z.max 0 (n1 - n2 + c - f1 + f2)). split_and!; [plia..|]. intros Hw. apply Habove; plia.
Qed.

(** The division, with the sign and the array of the result. *)
Lemma decimal_div_spec from1 from2 to scale_incr : dec_wf from1 -> dec_wf from2 -> dec_room to ->
  let q := (dec_Q from1 / dec_Q from2)%Q in
  exists to' error, decimal_div from1 from2 to scale_incr = Some (to', error) /\
    ((dec_Q from2 == 0)%Q -> error = E_DEC_DIV_ZERO /\ to' = to) /\
    (~ (dec_Q from2 == 0)%Q -> dec_digits to' /\ d_len to' = d_len to /\
      ((Qabs q < inject_Z (DIG_BASE ^ d_len to))%Q /\ (dec_Q to' == round_Q TRUNCATE q (d_frac to'))%Q /\
       (error = E_DEC_OK /\ (d_frac from1 + d_frac from2 + scale_incr <= d_frac to' \/ (dec_Q from1 == 0)%Q) \/
        error = E_DEC_TRUNCATED /\ exists words, 0 <= words <= d_len to /\ d_frac to' = 9 * (d_len to - words) /\
          (0 < words -> (inject_Z (DIG_BASE ^ (words - 1)) < 2 * Qabs q)%Q)) \/
       error = E_DEC_OVERFLOW /\ (inject_Z (DIG_BASE ^ d_len to) < 2 * Qabs q)%Q /\ d_sign to' = xorb (d_sign from1) (d_sign from2))).
Proof.
  intros H1 H2 Hr q. destruct (div_strip_spec from2 H2) as [[V2 [z2 E2]]|(V2 & z2 & prec2 & w2 & ws2 & E2 & S2)].
  { exists to, E_DEC_DIV_ZERO. unfold decimal_div, do_div_mod. rewrite E2. split; [done|]. split; [done|].
    intros Hn. by destruct Hn; apply dec_Q_zero. }
  assert (~ (dec_Q from2 == 0)%Q) as Hnz by (intros E; apply dec_Q_zero_inv in E; lia).
  destruct (div_strip_spec from1 H1) as [[V1 [z1 E1]]|(V1 & z1 & prec1 & w1 & ws1 & E1 & S1)].
  - destruct (decimal_make_zero_spec to Hr) as (to' & Ez & W & Lz & _ & _ & V). exists to', E_DEC_OK.
    assert (q == 0)%Q as Eq by (unfold q; rewrite (dec_Q_zero from1 V1); unfold Qdiv; ring).
    unfold decimal_div, do_div_mod. rewrite E2. cbn [mbind option_bind]. rewrite (proj2 (Z.leb_gt prec2 0)) by apply S2. rewrite E1.
    cbn [mbind option_bind]. rewrite Ez. split; [done|]. split; [done|]. intros _. split; [split; [apply W|by left]|]. split; [done|]. left.
    rewrite round_Q_of_zero by done. split_and!; [|by apply dec_Q_zero|left; split; [done|right; by apply dec_Q_zero]].
    rewrite Eq. destruct Hr. change (Qabs 0) with (inject_Z 0). rewrite <- Zlt_Qlt. apply DIG_BASE_pow_pos. lia.
  - destruct (div_result from1 from2 to scale_incr _ _ _ _ _ _ _ _ H1 H2 Hr V2 S1 S2 E1 E2) as (to' & error & Ed & Dg & Ln & Sg & Hc).
    exists to', error. split; [done|]. split; [done|]. intros _. do 2 (split; [done|]).
    destruct Hc as [(Hq & Eq & [[He Hf]|He])|[He Hq]]; [left..|right; by split_and!]; (split; [done|]); (split; [done|]); [left|by right].
    split; [done|by left].
Qed.

(** C8: [decimal_div] of any two well-formed decimals never leaves an array, and its
    result is right for every outcome.  A divisor of zero is reported and the
    result is not touched.  Otherwise the result is the quotient cut to its
    [d_frac] digits, negative when one operand is: without error the digits are
    at least those of both operands and [scale_incr] more, and with a truncation
    error the result takes the whole array, with no more words before the point
    than the quotient's size asks for.  The quotient is then less than the first
    number that does not fit, and an overflow is only reported for a quotient
    greater than half of that number. *)
Theorem decimal_div_correct from1 from2 to scale_incr : dec_wf from1 -> dec_wf from2 -> dec_room to ->
  let q := (dec_Q from1 / dec_Q from2)%Q in
  exists to' error, decimal_div from1 from2 to scale_incr = Some (to', error) /\
    ((dec_Q from2 == 0)%Q -> error = E_DEC_DIV_ZERO /\ to' = to) /\
    (~ (dec_Q from2 == 0)%Q -> dec_digits to' /\
      ((Qabs q < inject_Z (DIG_BASE ^ d_len to))%Q /\ (dec_Q to' == round_Q TRUNCATE q (d_frac to'))%Q /\
       (error = E_DEC_OK /\ (d_frac from1 + d_frac from2 + scale_incr <= d_frac to' \/ (dec_Q from1 == 0)%Q) \/
        error = E_DEC_TRUNCATED /\ exists words, 0 <= words <= d_len to /\ d_frac to' = 9 * (d_len to - words) /\
          (0 < words -> (inject_Z (DIG_BASE ^ (words - 1)) < 2 * Qabs q)%Q)) \/
       error = E_DEC_OVERFLOW /\ (inject_Z (DIG_BASE ^ d_len to) < 2 * Qabs q)%Q)).
Proof.
  intros H1 H2 Hr q. destruct (decimal_div_spec from1 from2 to scale_incr H1 H2 Hr) as (to' & error & E & Hz & Hn).
  exists to', error. split; [done|]. split; [done|]. intros Hq. destruct (Hn Hq) as (Dg & _ & Hc). split; [done|].
  destruct Hc as [Hc|(He & Hl & _)]; [by left|by right].
Qed.

Lemma decimal_div_correct_witness :
  let ten := mk_decimal 2 0 1 false [10] in let three := mk_decimal 1 0 1 false [3] in
  exists to', decimal_div ten three (mk_decimal 1 0 9 false (replicate 9 0)) 9 = Some (to', E_DEC_OK) /\
    (dec_Q to' == round_Q TRUNCATE (dec_Q ten / dec_Q three) (d_frac to'))%Q /\ 9 <= d_frac to'.
Proof.
  intros ten three.
  destruct (decimal_div_correct ten three (mk_decimal 1 0 9 false (replicate 9 0)) 9) as (to' & error & E & _ & H);
    [by apply dec_wfb_wf..|done|].
  destruct H as [_ [(_ & Q & [[He Hf]|[He _]])|[He _]]]; [by intros [=]| |rewrite He in E; vm_compute in E; discriminate E..].
  exists to'. rewrite He in E. split; [exact E|]. split; [exact Q|]. destruct Hf as [Hf|Hf]; [exact Hf|vm_compute in Hf; discriminate Hf].
Defined.

(** The remainder of the absolute values, as the remainder of the numbers. *)
Lemma remainder_Q d1 d2 d : dec_wf d1 -> dec_wf d2 -> 0 < dec_val d2 ->
  let k := Z.max (ROUND_UP (d_frac d1)) (ROUND_UP (d_frac d2)) in
  let r := dec_cut k d1 - dec_val d1 * DIG_BASE ^ ROUND_UP (d_frac d2) / (dec_val d2 * DIG_BASE ^ ROUND_UP (d_frac d1)) * dec_cut k d2 in
  ROUND_UP (d_frac d) = k -> dec_val d = r -> d_sign d = d_sign d1 \/ r = 0 ->
  (dec_Q d == dec_Q d1 - dec_Q d2 * inject_Z (round_to_int TRUNCATE (dec_Q d1 / dec_Q d2)))%Q.
Proof.
  intros H1 H2 HV k r Hf Hv Hs. pose proof (wf_frac_words d1 H1) as Hf1. pose proof (wf_frac_words d2 H2) as Hf2.
  pose proof (quotient_Q d1 d2 0 H1 H2 HV ltac:(lia)) as E. cbv zeta in E. rewrite Z.add_0_r in E.
  change (Q10 (9 * 0)) with 1%Q in E. rewrite Qmult_1_r in E. rewrite E.
  pose proof (DIG_BASE_pow_pos _ Hf1). pose proof (DIG_BASE_pow_pos k ltac:(unfold k; plia)) as Pk.
  rewrite round_to_int_mag; [|done|apply Z.mul_nonneg_nonneg; [by apply dec_val_nonneg|by apply Z.pow_nonneg]|nia].
  unfold round_mag, rounds_up. rewrite Z.add_0_r. rewrite (dec_Q_at k d1), (dec_Q_at k d2) by (try done; unfold k; plia).
  unfold dec_Q. rewrite Hf, !Qmake_div by done. pose proof (inject_Z_pos _ Pk).
  assert (dec_sval d = sgn d1 * r) as ->.
  { unfold dec_sval, sgn. rewrite Hv. destruct Hs as [-> | ->]; [destruct (d_sign d1); lia|by destruct (d_sign d), (d_sign d1)]. }
  unfold r, sgn. set (q := dec_val d1 * _ / _). set (a := dec_cut k d1). set (b := dec_cut k d2). set (D := DIG_BASE ^ k) in *.
  destruct (d_sign d1), (d_sign d2); cbn [xorb]; unfold Z.sub; rewrite ?inject_Z_mult, ?inject_Z_plus, ?inject_Z_opp, ?inject_Z_mult; field; done.
Qed.

(** C9: [decimal_mod] gives the dividend less the divisor times the integer part of
    the quotient, exactly and with the longer fraction of the two, in an array
    that has room for the divisor's integer words and for that fraction and one
    word.  A divisor of zero is reported and the result is not touched. *)
Theorem decimal_mod_correct from1 from2 to : dec_wf from1 -> dec_wf from2 -> dec_room to ->
  let frac := Z.max (d_frac from1) (d_frac from2) in
  ROUND_UP (d_intg from2) + ROUND_UP frac <= d_len to -> ROUND_UP frac < d_len to ->
  let q := (dec_Q from1 / dec_Q from2)%Q in
  exists to' error, decimal_mod from1 from2 to = Some (to', error) /\
    ((dec_Q from2 == 0)%Q -> error = E_DEC_DIV_ZERO /\ to' = to) /\
    (~ (dec_Q from2 == 0)%Q -> error = E_DEC_OK /\ dec_digits to' /\ (d_frac to' = frac \/ (dec_Q from1 == 0)%Q) /\
      (dec_Q to' == dec_Q from1 - dec_Q from2 * inject_Z (round_to_int TRUNCATE q))%Q).
Proof.
  intros H1 H2 Hr frac Hfit Hfl q. assert (ROUND_UP frac = Z.max (ROUND_UP (d_frac from1)) (ROUND_UP (d_frac from2))) as Efm.
  { unfold frac. apply ROUND_UP_max; by apply wf_frac. }
  destruct (div_strip_spec from2 H2) as [[V2 [z2 E2]]|(V2 & z2 & prec2 & w2 & ws2 & E2 & S2)].
  { exists to, E_DEC_DIV_ZERO. unfold decimal_mod, do_div_mod. rewrite E2. split; [done|]. split; [done|].
    intros Hn. by destruct Hn; apply dec_Q_zero. }
  assert (~ (dec_Q from2 == 0)%Q) as Hnz by (intros E; apply dec_Q_zero_inv in E; lia).
  destruct (div_strip_spec from1 H1) as [[V1 [z1 E1]]|(V1 & z1 & prec1 & w1 & ws1 & E1 & S1)].
  - destruct (decimal_make_zero_spec to Hr) as (to' & Ez & W & _ & _ & _ & V). exists to', E_DEC_OK.
    assert (q == inject_Z 0)%Q as Eq by (unfold q; rewrite (dec_Q_zero from1 V1); unfold Qdiv; ring).
    unfold decimal_mod, do_div_mod. rewrite E2. cbn [mbind option_bind]. rewrite (proj2 (Z.leb_gt prec2 0)) by apply S2. rewrite E1.
    cbn [mbind option_bind]. rewrite Ez. split; [done|]. split; [done|]. intros _. split; [done|]. split; [split; [apply W|by left]|].
    split; [right; by apply dec_Q_zero|]. rewrite Eq, round_to_int_Z, (dec_Q_zero to' V), (dec_Q_zero from1 V1). ring.
  - destruct (mod_spec from1 from2 z1 prec1 w1 z2 prec2 w2 ws1 ws2 S1 S2 H1 H2 to Hr E1 E2) as (to' & Em & Dg & Fr & V & Sg); [by rewrite <- Efm..|].
    exists to', E_DEC_OK. split; [done|]. split; [done|]. intros _. split_and!; try done; [by left|].
    apply remainder_Q; try done. by rewrite Fr.
Qed.

Lemma decimal_mod_correct_witness :
  exists to', decimal_mod (mk_decimal 2 1 2 true [10; 500000000]) (mk_decimal 1 0 1 false [3]) (mk_decimal 1 0 9 false (replicate 9 0)) =
    Some (to', E_DEC_OK) /\ (dec_Q to' == - (3 # 2))%Q.
Proof.
  destruct (decimal_mod_correct (mk_decimal 2 1 2 true [10; 500000000]) (mk_decimal 1 0 1 false [3]) (mk_decimal 1 0 9 false (replicate 9 0)))
    as (to' & error & E & _ & H); [by apply dec_wfb_wf..|done|done|done|].
  destruct H as (He & _ & _ & Q); [by intros [=]|]. rewrite He in E. exists to'. split; [exact E|]. rewrite Q. vm_compute. reflexivity.
Defined.

(** Where the division does not do what it says.  The quotient of 10^72 and
    0.0000000015 has 81 digits, which is what nine words hold, and is reported as
    an overflow and stored divided by 10^9.  The remainder of -6.0 and 3.0 is a
    negative zero, which prints as -0.0 and compares less than zero (the SQL layer
    takes the sign away, in [check_result_and_overflow]).  The remainder 0.2 of 0.5 and 0.3 fits in an array of one word and is cut to
    nothing.  1 mod 2 is 1, although the description of [decimal_mod] says that a
    remainder is less than the dividend.  And after an overflow [decimal_mod] goes
    on with the digits the result had before and the fraction of the operands,
    and moves a word from beyond the array. *)
Theorem division_defects :
  (let m := mk_decimal 73 0 9 false (1 :: replicate 8 0) in let n := mk_decimal 0 18 2 false [1; 500000000] in
   exists to', decimal_div m n (mk_decimal 1 0 9 false (replicate 9 0)) 4 = Some (to', E_DEC_OVERFLOW) /\
     (dec_Q m / dec_Q n < inject_Z (DIG_BASE ^ 9))%Q /\ dec_val to' = (10 ^ 72 - 1) * 2 / 3 /\ d_frac to' = 0) /\
  (exists to', decimal_mod (mk_decimal 1 1 2 true [6; 0]) (mk_decimal 1 1 2 false [3; 0]) (mk_decimal 1 0 9 false (replicate 9 0)) =
       Some (to', E_DEC_OK) /\ (dec_Q to' == 0)%Q /\ decimal_cmp to' (mk_decimal 1 0 1 false [0]) = Some (-1) /\
     decimal2string to' (replicate 5 0) 5 0 0 0 = Some ([45; 48; 46; 48; 0], 4, E_DEC_OK)) /\
  (exists to', decimal_mod (mk_decimal 0 1 1 false [500000000]) (mk_decimal 0 1 1 false [300000000]) (mk_decimal 1 0 1 false [0]) =
       Some (to', E_DEC_TRUNCATED) /\ (dec_Q to' == 0)%Q) /\
  (exists to', decimal_mod (mk_decimal 1 0 1 false [1]) (mk_decimal 1 0 1 false [2]) (mk_decimal 1 0 1 false [0]) =
       Some (to', E_DEC_OK) /\ (dec_Q to' == 1)%Q) /\
  decimal_mod (mk_decimal 10 1 3 false [5; 0; 500000000]) (mk_decimal 10 0 2 false [7; 0]) (mk_decimal 1 0 1 false [0]) = None.
Proof.
  split; [|split; [|split; [|split; [|done]]]]; (eexists; split; [vm_compute; reflexivity|]);
    repeat match goal with |- _ /\ _ => split end; vm_compute; reflexivity.
Qed.
