(* ===== verification/MyTime.v ===== *)
(** * Dates and times

    [sql-common/my_time.c] with [include/my_time.h] and [include/mysql_time.h]: the
    checks of dates and times, day numbers, dates and times as numbers of their
    digits, and the packed formats of columns of the types TIME, DATE, DATETIME
    and TIMESTAMP, in memory and on disk.

    The members of a [MYSQL_TIME] are unsigned integers of 32 bits, [second_part]
    of 64 bits.  A function that changes the structure it is given returns the new
    one. *)

From Stdlib Require Import ZArith Lia.
From stdpp Require Import base numbers option tactics list.
From S2P Require Import Prelude Bytes DecimalBin.

#[local] Open Scope Z_scope.

Inductive enum_mysql_timestamp_type :=
| MYSQL_TIMESTAMP_NONE | MYSQL_TIMESTAMP_ERROR | MYSQL_TIMESTAMP_DATE | MYSQL_TIMESTAMP_DATETIME | MYSQL_TIMESTAMP_TIME.

Record MYSQL_TIME := mk_time {
  year : Z; month : Z; day : Z; hour : Z; minute : Z; second : Z;
  second_part : Z;
  neg : bool;
  time_type : enum_mysql_timestamp_type
}.

#[export] Instance timestamp_type_eq_dec : EqDecision enum_mysql_timestamp_type.
Proof. solve_decision. Defined.

(** Assignments to the members. *)
Definition set_date (t : MYSQL_TIME) (y m d : Z) : MYSQL_TIME :=
  mk_time y m d (hour t) (minute t) (second t) (second_part t) (neg t) (time_type t).
Definition set_clock (t : MYSQL_TIME) (h m s : Z) : MYSQL_TIME :=
  mk_time (year t) (month t) (day t) h m s (second_part t) (neg t) (time_type t).
Definition set_second_part (t : MYSQL_TIME) (us : Z) : MYSQL_TIME :=
  mk_time (year t) (month t) (day t) (hour t) (minute t) (second t) us (neg t) (time_type t).
Definition set_neg (t : MYSQL_TIME) (n : bool) : MYSQL_TIME :=
  mk_time (year t) (month t) (day t) (hour t) (minute t) (second t) (second_part t) n (time_type t).
Definition set_time_type (t : MYSQL_TIME) (ty : enum_mysql_timestamp_type) : MYSQL_TIME :=
  mk_time (year t) (month t) (day t) (hour t) (minute t) (second t) (second_part t) (neg t) ty.

Definition DATETIME_MAX_DECIMALS : Z := 6.
Definition log_10_int_table : list Z := map (fun n => 10 ^ Z.of_nat n) (seq 0 20).
Definition log_10_int (i : Z) : Z := log_10_int_table !!! Z.to_nat i.
Definition days_in_month : list Z := [31; 28; 31; 30; 31; 30; 31; 31; 30; 31; 30; 31; 0].

Definition YY_PART_YEAR : Z := 70.
Definition TIME_FUZZY_DATE : Z := 1.
Definition TIME_DATETIME_ONLY : Z := 2.
Definition TIME_NO_NSEC_ROUNDING : Z := 4.
Definition TIME_NO_DATE_FRAC_WARN : Z := 8.
Definition TIME_NO_ZERO_IN_DATE : Z := 16.
Definition TIME_NO_ZERO_DATE : Z := 32.
Definition TIME_INVALID_DATES : Z := 64.
Definition MYSQL_TIME_WARN_TRUNCATED : Z := 1.
Definition MYSQL_TIME_WARN_OUT_OF_RANGE : Z := 2.
Definition MYSQL_TIME_WARN_ZERO_DATE : Z := 8.
Definition MYSQL_TIME_WARN_ZERO_IN_DATE : Z := 32.
Definition SECONDS_IN_24H : Z := 86400.
Definition TIME_MAX_HOUR : Z := 838.
Definition TIME_MAX_MINUTE : Z := 59.
Definition TIME_MAX_SECOND : Z := 59.
Definition TIME_MAX_VALUE : Z := TIME_MAX_HOUR * 10000 + TIME_MAX_MINUTE * 100 + TIME_MAX_SECOND.

(** The flag [f] is set. *)
Definition flag (flags f : Z) : bool := negb (Z.land flags f =? 0).

(** ** Checks *)

Definition calc_days_in_year (year : Z) : Z :=
  if (Z.land year 3 =? 0) && (negb (year mod 100 =? 0) || ((year mod 400 =? 0) && negb (year =? 0))) then 366 else 365.

Definition set_zero_time (time_type : enum_mysql_timestamp_type) : MYSQL_TIME := mk_time 0 0 0 0 0 0 0 false time_type.

Definition set_max_hhmmss (tm : MYSQL_TIME) : MYSQL_TIME := set_clock tm TIME_MAX_HOUR TIME_MAX_MINUTE TIME_MAX_SECOND.

Definition set_max_time (neg : bool) : MYSQL_TIME := set_neg (set_max_hhmmss (set_zero_time MYSQL_TIMESTAMP_TIME)) neg.

(** The result, and [was_cut]; [None] when the month is beyond the table. *)
Definition check_date (ltime : MYSQL_TIME) (not_zero_date : bool) (flags was_cut : Z) : option (bool * Z) :=
  if not_zero_date then
    if (flag flags TIME_NO_ZERO_IN_DATE || negb (flag flags TIME_FUZZY_DATE)) && ((month ltime =? 0) || (day ltime =? 0)) then
      Some (true, MYSQL_TIME_WARN_ZERO_IN_DATE)
    else if negb (flag flags TIME_INVALID_DATES) && negb (month ltime =? 0) then
      days ← days_in_month !! Z.to_nat (month ltime - 1);
      if (days <? day ltime) && (negb (month ltime =? 2) || negb (calc_days_in_year (year ltime) =? 366) || negb (day ltime =? 29)) then
        Some (true, MYSQL_TIME_WARN_OUT_OF_RANGE)
      else Some (false, was_cut)
    else Some (false, was_cut)
  else if flag flags TIME_NO_ZERO_DATE then Some (true, MYSQL_TIME_WARN_ZERO_DATE)
  else Some (false, was_cut).

Definition check_time_mmssff_range (ltime : MYSQL_TIME) : bool :=
  (60 <=? minute ltime) || (60 <=? second ltime) || (999999 <? second_part ltime).

Definition check_time_range_quick (ltime : MYSQL_TIME) : bool :=
  let hour := hour ltime + 24 * day ltime in
  negb ((hour <=? TIME_MAX_HOUR) &&
        (negb (hour =? TIME_MAX_HOUR) || negb (minute ltime =? TIME_MAX_MINUTE) || negb (second ltime =? TIME_MAX_SECOND) ||
         (second_part ltime =? 0))).

Definition check_datetime_range (ltime : MYSQL_TIME) : bool :=
  (9999 <? year ltime) || (12 <? month ltime) || (31 <? day ltime) || (59 <? minute ltime) || (59 <? second ltime) ||
  (999999 <? second_part ltime) ||
  ((if bool_decide (time_type ltime = MYSQL_TIMESTAMP_TIME) then TIME_MAX_HOUR else 23) <? hour ltime).

(** The time, and the warnings. *)
Definition adjust_time_range (my_time : MYSQL_TIME) (warning : Z) : MYSQL_TIME * Z :=
  if check_time_range_quick my_time then
    (set_max_hhmmss (set_second_part (set_date my_time (year my_time) (month my_time) 0) 0),
     Z.lor warning MYSQL_TIME_WARN_OUT_OF_RANGE)
  else (my_time, warning).

Definition year_2000_handling (year : Z) : Z :=
  let year := wrapu 32 (year + 1900) in
  if year <? 1900 + YY_PART_YEAR then wrapu 32 (year + 100) else year.

Definition calc_daynr (year month day : Z) : Z :=
  let y := wraps 32 year in
  if (y =? 0) && (month =? 0) then 0
  else
    let delsum := wraps 32 (365 * y + 31 * (wraps 32 month - 1) + wraps 32 day) in
    let '(y, delsum) := if month <=? 2 then (y - 1, delsum) else (y, delsum - Z.quot (wraps 32 month * 4 + 23) 10) in
    let temp := Z.quot ((Z.quot y 100 + 1) * 3) 4 in
    delsum + Z.quot y 4 - temp.

(** ** Numbers of digits *)

Definition TIME_to_ulonglong_date (t : MYSQL_TIME) : Z := wrapu 64 (year t * 10000 + month t * 100 + day t).
Definition TIME_to_ulonglong_time (t : MYSQL_TIME) : Z := wrapu 64 (hour t * 10000 + minute t * 100 + second t).
Definition TIME_to_ulonglong_datetime (t : MYSQL_TIME) : Z :=
  wrapu 64 (wrapu 64 (year t * 10000 + month t * 100 + day t) * 1000000 + wrapu 64 (hour t * 10000 + minute t * 100 + second t)).

Definition TIME_to_ulonglong (t : MYSQL_TIME) : Z :=
  match time_type t with
  | MYSQL_TIMESTAMP_DATETIME => TIME_to_ulonglong_datetime t
  | MYSQL_TIMESTAMP_DATE => TIME_to_ulonglong_date t
  | MYSQL_TIMESTAMP_TIME => TIME_to_ulonglong_time t
  | MYSQL_TIMESTAMP_NONE | MYSQL_TIMESTAMP_ERROR => 0
  end.

Definition TIME_set_yymmdd (ltime : MYSQL_TIME) (yymmdd : Z) : MYSQL_TIME :=
  set_date ltime (yymmdd / 10000) (yymmdd / 100 mod 100) (yymmdd mod 100).
Definition TIME_set_hhmmss (ltime : MYSQL_TIME) (hhmmss : Z) : MYSQL_TIME :=
  set_clock ltime (hhmmss / 10000) (hhmmss / 100 mod 100) (hhmmss mod 100).

(** The number with four digits for the year and six for the time, and the type,
    or with [None] for the number the type the structure has at the label [err]. *)
Definition complete_number (nr flags : Z) : option Z * enum_mysql_timestamp_type :=
  if (nr =? 0) || (10000101000000 <=? nr) then (Some nr, MYSQL_TIMESTAMP_DATETIME)
  else if nr <? 101 then (None, MYSQL_TIMESTAMP_DATE)
  else if nr <=? (YY_PART_YEAR - 1) * 10000 + 1231 then (Some ((nr + 20000000) * 1000000), MYSQL_TIMESTAMP_DATE)
  else if nr <? YY_PART_YEAR * 10000 + 101 then (None, MYSQL_TIMESTAMP_DATE)
  else if nr <=? 991231 then (Some ((nr + 19000000) * 1000000), MYSQL_TIMESTAMP_DATE)
  else if (nr <? 10000101) && negb (flag flags TIME_FUZZY_DATE) then (None, MYSQL_TIMESTAMP_DATE)
  else if nr <=? 99991231 then (Some (nr * 1000000), MYSQL_TIMESTAMP_DATE)
  else if nr <? 101000000 then (None, MYSQL_TIMESTAMP_DATE)
  else if nr <=? (YY_PART_YEAR - 1) * 10000000000 + 1231235959 then (Some (nr + 20000000000000), MYSQL_TIMESTAMP_DATETIME)
  else if nr <? YY_PART_YEAR * 10000000000 + 101000000 then (None, MYSQL_TIMESTAMP_DATETIME)
  else if nr <=? 991231235959 then (Some (nr + 19000000000000), MYSQL_TIMESTAMP_DATETIME)
  else (Some nr, MYSQL_TIMESTAMP_DATETIME).

(** The members from the parts of a number that has been completed. *)
Definition split_number (nr : Z) (ty : enum_mysql_timestamp_type) : MYSQL_TIME :=
  let part1 := Z.quot nr 1000000 in
  let part2 := nr - part1 * 1000000 in
  let year := Z.quot part1 10000 in let part1 := Z.rem part1 10000 in
  let hour := Z.quot part2 10000 in let part2 := Z.rem part2 10000 in
  mk_time year (Z.quot part1 100) (Z.rem part1 100) hour (Z.quot part2 100) (Z.rem part2 100) 0 false ty.

(** The number or -1, the time, and [was_cut]. *)
Definition number_to_datetime (nr flags : Z) : option (Z * MYSQL_TIME * Z) :=
  let '(nr', ty) := complete_number nr flags in
  if 99999999999999 <? nr then Some (-1, set_zero_time ty, MYSQL_TIME_WARN_OUT_OF_RANGE)
  else match nr' with
  | None => Some (-1, set_zero_time ty, MYSQL_TIME_WARN_TRUNCATED)
  | Some nr =>
      let time_res := split_number nr ty in
      '(bad, was_cut) ← (if check_datetime_range time_res then Some (true, 0) else check_date time_res (negb (nr =? 0)) flags 0);
      if negb bad then Some (nr, time_res, was_cut)
      else if (nr =? 0) && flag flags TIME_NO_ZERO_DATE then Some (-1, time_res, was_cut)
      else Some (-1, time_res, MYSQL_TIME_WARN_TRUNCATED)
  end.

(** The result, the time, and the warnings. *)
Definition number_to_time (nr : Z) (ltime : MYSQL_TIME) (warnings : Z) : option (bool * MYSQL_TIME * Z) :=
  if TIME_MAX_VALUE <? nr then
    r ← (if 10000000000 <=? nr then
           '(n, ltime, w) ← number_to_datetime nr 0; Some (if n =? -1 then None else Some (ltime, w))
         else Some None);
    match r with
    | Some (ltime, w) => Some (false, ltime, w)
    | None => Some (true, set_max_time false, Z.lor warnings MYSQL_TIME_WARN_OUT_OF_RANGE)
    end
  else if nr <? - TIME_MAX_VALUE then Some (true, set_max_time true, Z.lor warnings MYSQL_TIME_WARN_OUT_OF_RANGE)
  else
    let ltime := set_neg ltime (nr <? 0) in
    let nr := if nr <? 0 then - nr else nr in
    if (60 <=? Z.rem nr 100) || (60 <=? Z.rem (Z.quot nr 100) 100) then
      Some (true, set_zero_time MYSQL_TIMESTAMP_TIME, Z.lor warnings MYSQL_TIME_WARN_OUT_OF_RANGE)
    else
      Some (false, set_second_part (TIME_set_hhmmss (set_date (set_time_type ltime MYSQL_TIMESTAMP_TIME) 0 0 0) (wrapu 32 nr)) 0, warnings).

(** ** Packed formats in memory *)

Definition MY_PACKED_TIME_GET_INT_PART (x : Z) : Z := Z.shiftr x 24.
Definition MY_PACKED_TIME_GET_FRAC_PART (x : Z) : Z := Z.rem x (Z.shiftl 1 24).
Definition MY_PACKED_TIME_MAKE (i f : Z) : Z := wraps 64 (Z.shiftl i 24 + f).
Definition MY_PACKED_TIME_MAKE_INT (i : Z) : Z := wraps 64 (Z.shiftl i 24).

Definition TIME_to_longlong_time_packed (ltime : MYSQL_TIME) : Z :=
  let hms := Z.lor (Z.lor (wrapu 32 (Z.shiftl (wrapu 32 ((if month ltime =? 0 then wrapu 32 (day ltime * 24) else 0) + hour ltime)) 12))
                          (wrapu 32 (Z.shiftl (minute ltime) 6))) (second ltime) in
  let tmp := MY_PACKED_TIME_MAKE hms (second_part ltime) in
  if neg ltime then wraps 64 (- tmp) else tmp.

Definition TIME_from_longlong_time_packed (tmp : Z) : MYSQL_TIME :=
  let neg := tmp <? 0 in
  let tmp := if neg then wraps 64 (- tmp) else tmp in
  let hms := MY_PACKED_TIME_GET_INT_PART tmp in
  mk_time 0 0 0 (wrapu 32 (Z.shiftr hms 12) mod Z.shiftl 1 10) (wrapu 32 (Z.shiftr hms 6) mod Z.shiftl 1 6)
    (wrapu 32 hms mod Z.shiftl 1 6) (wrapu 64 (MY_PACKED_TIME_GET_FRAC_PART tmp)) neg MYSQL_TIMESTAMP_TIME.

Definition packed_ymd (ltime : MYSQL_TIME) : Z :=
  Z.lor (wrapu 32 (Z.shiftl (wrapu 32 (year ltime * 13 + month ltime)) 5)) (day ltime).

Definition TIME_to_longlong_datetime_packed (ltime : MYSQL_TIME) : Z :=
  let ymd := packed_ymd ltime in
  let hms := Z.lor (Z.lor (wrapu 32 (Z.shiftl (hour ltime) 12)) (wrapu 32 (Z.shiftl (minute ltime) 6))) (second ltime) in
  let tmp := MY_PACKED_TIME_MAKE (Z.lor (Z.shiftl ymd 17) hms) (second_part ltime) in
  if neg ltime then wraps 64 (- tmp) else tmp.

Definition TIME_to_longlong_date_packed (ltime : MYSQL_TIME) : Z := MY_PACKED_TIME_MAKE_INT (Z.shiftl (packed_ymd ltime) 17).

Definition year_to_longlong_datetime_packed (year : Z) : Z := MY_PACKED_TIME_MAKE_INT (Z.shiftl (Z.shiftl (year * 13) 5) 17).

Definition TIME_from_longlong_datetime_packed (tmp : Z) : MYSQL_TIME :=
  let neg := tmp <? 0 in
  let tmp := if neg then wraps 64 (- tmp) else tmp in
  let ymdhms := MY_PACKED_TIME_GET_INT_PART tmp in
  let ymd := Z.shiftr ymdhms 17 in
  let ym := Z.shiftr ymd 5 in
  let hms := Z.rem ymdhms (Z.shiftl 1 17) in
  mk_time (wrapu 32 (Z.quot ym 13)) (wrapu 32 (Z.rem ym 13)) (wrapu 32 (Z.rem ymd (Z.shiftl 1 5)))
    (wrapu 32 (Z.shiftr hms 12)) (wrapu 32 (Z.rem (Z.shiftr hms 6) (Z.shiftl 1 6))) (wrapu 32 (Z.rem hms (Z.shiftl 1 6)))
    (wrapu 64 (MY_PACKED_TIME_GET_FRAC_PART tmp)) neg MYSQL_TIMESTAMP_DATETIME.

Definition TIME_from_longlong_date_packed (tmp : Z) : MYSQL_TIME :=
  set_time_type (TIME_from_longlong_datetime_packed tmp) MYSQL_TIMESTAMP_DATE.

Definition TIME_to_longlong_packed (ltime : MYSQL_TIME) : Z :=
  match time_type ltime with
  | MYSQL_TIMESTAMP_DATE => TIME_to_longlong_date_packed ltime
  | MYSQL_TIMESTAMP_DATETIME => TIME_to_longlong_datetime_packed ltime
  | MYSQL_TIMESTAMP_TIME => TIME_to_longlong_time_packed ltime
  | MYSQL_TIMESTAMP_NONE | MYSQL_TIMESTAMP_ERROR => 0
  end.

(** ** Packed formats on disk *)

Definition mi_uint2korr (A : list Z) : Z := wrapu 16 (A !!! 1%nat + Z.shiftl (A !!! 0%nat) 8).
Definition mi_uint3korr (A : list Z) : Z := wrapu 32 (A !!! 2%nat + Z.shiftl (A !!! 1%nat) 8 + Z.shiftl (A !!! 0%nat) 16).
Definition mi_uint4korr (A : list Z) : Z :=
  wrapu 32 (A !!! 3%nat + Z.shiftl (A !!! 2%nat) 8 + Z.shiftl (A !!! 1%nat) 16 + Z.shiftl (A !!! 0%nat) 24).
Definition mi_uint5korr (A : list Z) : Z :=
  wrapu 64 (wrapu 32 (A !!! 4%nat + Z.shiftl (A !!! 3%nat) 8 + Z.shiftl (A !!! 2%nat) 16 + Z.shiftl (A !!! 1%nat) 24) +
            Z.shiftl (A !!! 0%nat) 32).
Definition mi_uint6korr (A : list Z) : Z :=
  wrapu 64 (wrapu 32 (A !!! 5%nat + Z.shiftl (A !!! 4%nat) 8 + Z.shiftl (A !!! 3%nat) 16 + Z.shiftl (A !!! 2%nat) 24) +
            Z.shiftl (A !!! 1%nat + Z.shiftl (A !!! 0%nat) 8) 32).

Definition mi_int5store (A : Z) : list Z :=
  [uchar (Z.shiftr A 32); uchar (Z.shiftr A 24); uchar (Z.shiftr A 16); uchar (Z.shiftr A 8); uchar A].
Definition mi_int6store (A : Z) : list Z :=
  [uchar (Z.shiftr A 40); uchar (Z.shiftr A 32); uchar (Z.shiftr A 24); uchar (Z.shiftr A 16); uchar (Z.shiftr A 8); uchar A].

Definition TIMEF_OFS : Z := 0x800000000000.
Definition TIMEF_INT_OFS : Z := 0x800000.
Definition DATETIMEF_INT_OFS : Z := 0x8000000000.

Definition my_time_packed_to_binary (nr dec : Z) : list Z :=
  let int3 := mi_int3store (TIMEF_INT_OFS + MY_PACKED_TIME_GET_INT_PART nr) in
  match dec with
  | 1 | 2 => int3 ++ [uchar (Z.quot (MY_PACKED_TIME_GET_FRAC_PART nr) 10000)]
  | 3 | 4 => int3 ++ mi_int2store (Z.quot (MY_PACKED_TIME_GET_FRAC_PART nr) 100)
  | 5 | 6 => mi_int6store (nr + TIMEF_OFS)
  | _ => int3
  end.

Definition my_time_packed_from_binary (ptr : list Z) (dec : Z) : Z :=
  let intpart := mi_uint3korr ptr - TIMEF_INT_OFS in
  match dec with
  | 1 | 2 =>
      let frac := ptr !!! 3%nat in
      let '(intpart, frac) := if (intpart <? 0) && negb (frac =? 0) then (intpart + 1, frac - 0x100) else (intpart, frac) in
      MY_PACKED_TIME_MAKE intpart (frac * 10000)
  | 3 | 4 =>
      let frac := mi_uint2korr (drop 3 ptr) in
      let '(intpart, frac) := if (intpart <? 0) && negb (frac =? 0) then (intpart + 1, frac - 0x10000) else (intpart, frac) in
      MY_PACKED_TIME_MAKE intpart (frac * 100)
  | 5 | 6 => wraps 64 (mi_uint6korr ptr) - TIMEF_OFS
  | _ => MY_PACKED_TIME_MAKE_INT intpart
  end.

Definition my_datetime_packed_from_binary (ptr : list Z) (dec : Z) : Z :=
  let intpart := wraps 64 (mi_uint5korr ptr - DATETIMEF_INT_OFS) in
  match dec with
  | 1 | 2 => MY_PACKED_TIME_MAKE intpart (wraps 8 (ptr !!! 5%nat) * 10000)
  | 3 | 4 => MY_PACKED_TIME_MAKE intpart (mi_sint2korr (drop 5 ptr) * 100)
  | 5 | 6 => MY_PACKED_TIME_MAKE intpart (mi_sint3korr (drop 5 ptr))
  | _ => MY_PACKED_TIME_MAKE_INT intpart
  end.

Definition my_datetime_packed_to_binary (nr dec : Z) : list Z :=
  let int5 := mi_int5store (MY_PACKED_TIME_GET_INT_PART nr + DATETIMEF_INT_OFS) in
  match dec with
  | 1 | 2 => int5 ++ [uchar (Z.quot (MY_PACKED_TIME_GET_FRAC_PART nr) 10000)]
  | 3 | 4 => int5 ++ mi_int2store (Z.quot (MY_PACKED_TIME_GET_FRAC_PART nr) 100)
  | 5 | 6 => int5 ++ mi_int3store (MY_PACKED_TIME_GET_FRAC_PART nr)
  | _ => int5
  end.

(** A [struct timeval]: seconds and microseconds. *)
Definition my_timestamp_from_binary (ptr : list Z) (dec : Z) : Z * Z :=
  let tv_sec := mi_uint4korr ptr in
  match dec with
  | 1 | 2 => (tv_sec, (ptr !!! 4%nat) * 10000)
  | 3 | 4 => (tv_sec, mi_sint2korr (drop 4 ptr) * 100)
  | 5 | 6 => (tv_sec, mi_sint3korr (drop 4 ptr))
  | _ => (tv_sec, 0)
  end.

Definition my_timestamp_to_binary (tm : Z * Z) (dec : Z) : list Z :=
  let '(tv_sec, tv_usec) := tm in
  match dec with
  | 1 | 2 => mi_int4store tv_sec ++ [uchar (Z.quot tv_usec 10000)]
  | 3 | 4 => mi_int4store tv_sec ++ mi_int2store (Z.quot tv_usec 100)
  | 5 | 6 => mi_int4store tv_sec ++ mi_int3store tv_usec
  | _ => mi_int4store tv_sec
  end.
