(* ===== verification/MyDecimal.v ===== *)
(** * Decimals of the SQL layer

    [my_decimal] of [sql/my_decimal.h] and [sql/my_decimal.cc]: decimals of nine
    words, and the operations of the decimal library with what the server makes of
    their errors: conditions for the client, the greatest number in place of an
    overflow, and no negative zero.  A [my_decimal] is a [decimal_t] with
    [DECIMAL_BUFF_LENGTH] words; copying one copies all of them.

    An operation returns its result, the error code and the conditions it has
    pushed.  Allocation never fails. *)

From Stdlib Require Import ZArith Lia.
From stdpp Require Import base numbers option tactics list.
From S2P Require Import Prelude NumText Decimal DecimalArith DecimalMul DecimalDiv DecimalBin DecimalInt DecimalRound DecimalText DecimalParse MyTime.

#[local] Open Scope Z_scope.

Definition DECIMAL_BUFF_LENGTH : Z := 9.
Definition DECIMAL_MAX_POSSIBLE_PRECISION : Z := DECIMAL_BUFF_LENGTH * 9.
Definition DECIMAL_MAX_PRECISION : Z := DECIMAL_MAX_POSSIBLE_PRECISION - 8 * 2.
Definition DECIMAL_MAX_SCALE : Z := 30.
Definition DECIMAL_NOT_SPECIFIED : Z := 31.
Definition DECIMAL_MAX_STR_LENGTH : Z := DECIMAL_MAX_POSSIBLE_PRECISION + 2.
Definition E_DEC_FATAL_ERROR : Z := 30.

(** ** Sizes *)

Definition my_decimal_size (precision scale : Z) : Z := wrapu 32 (decimal_size precision scale + 1).

Definition my_decimal_int_part (precision decimals : Z) : Z :=
  wraps 32 (precision - (if decimals =? DECIMAL_NOT_SPECIFIED then 0 else decimals)).

Definition my_decimal_length_to_precision (length scale : Z) (unsigned_flag : bool) : Z :=
  wrapu 32 (length - (if 0 <? scale then 1 else 0) - (if unsigned_flag || (length =? 0) then 0 else 1)).

Definition my_decimal_precision_to_length_no_truncation (precision scale : Z) (unsigned_flag : bool) : Z :=
  wrapu 32 (precision + (if 0 <? scale then 1 else 0) + (if unsigned_flag || (precision =? 0) then 0 else 1)).

Definition my_decimal_precision_to_length (precision scale : Z) (unsigned_flag : bool) : Z :=
  let precision := if DECIMAL_MAX_PRECISION <? precision then DECIMAL_MAX_PRECISION else precision in
  my_decimal_precision_to_length_no_truncation precision scale unsigned_flag.

Definition my_decimal_string_length (d : decimal_t) : Z := decimal_string_size d.
Definition my_decimal_max_length (d : decimal_t) : Z := decimal_string_size d - 1.
Definition my_decimal_get_binary_size (precision scale : Z) : Z := decimal_bin_size precision scale.

(** ** Errors *)

(** What is reported to the client, with the text of the number. *)
Inductive condition :=
| WARN_DATA_TRUNCATED
| ER_TRUNCATED_WRONG_VALUE (text : list Z)
| ER_DIVISION_BY_ZERO
| ER_TRUNCATED_WRONG_VALUE_FOR_FIELD (text : list Z)
| ER_OUT_OF_RESOURCES.

(** The text in [strbuff], whose content is not read before it is written. *)
Definition condition_text (d : decimal_t) : option (list Z) :=
  let strbuff := replicate (Z.to_nat (DECIMAL_MAX_STR_LENGTH + 2)) 0 in
  '(strbuff, length, _) ← decimal2string d strbuff (DECIMAL_MAX_STR_LENGTH + 1) 0 0 0;
  Some (take (Z.to_nat length) strbuff).

(** [None] is the [assert(0)] of a code that is not one of the errors. *)
Definition check_result (d : decimal_t) (mask result : Z) : option (list condition) :=
  if Z.land result mask =? 0 then Some []
  else if result =? E_DEC_TRUNCATED then Some [WARN_DATA_TRUNCATED]
  else if result =? E_DEC_OVERFLOW then text ← condition_text d; Some [ER_TRUNCATED_WRONG_VALUE text]
  else if result =? E_DEC_DIV_ZERO then Some [ER_DIVISION_BY_ZERO]
  else if result =? E_DEC_BAD_NUM then text ← condition_text d; Some [ER_TRUNCATED_WRONG_VALUE_FOR_FIELD text]
  else if result =? E_DEC_OOM then Some [ER_OUT_OF_RESOURCES]
  else None.

Definition with_sign (d : decimal_t) (sign : bool) : decimal_t :=
  mk_decimal (d_intg d) (d_frac d) (d_len d) sign (d_buf d).

Definition max_my_decimal (to : decimal_t) (precision frac : Z) : option decimal_t := max_decimal precision frac to.
Definition max_internal_decimal (to : decimal_t) : option decimal_t := max_my_decimal to DECIMAL_MAX_PRECISION 0.

Definition check_result_and_overflow (mask result : Z) (val : decimal_t) : option (decimal_t * Z * list condition) :=
  conditions ← check_result val mask result;
  val ← (if Z.land result E_DEC_OVERFLOW =? 0 then Some val
         else max ← max_internal_decimal val; Some (with_sign max (d_sign val)));
  val ← (if negb (result =? E_DEC_DIV_ZERO) && d_sign val then
           zero ← decimal_is_zero val; Some (if (zero : bool) then with_sign val false else val)
         else Some val);
  Some (val, result, conditions).

(** ** Operations *)

Definition my_decimal_set_zero (d : decimal_t) : option decimal_t := decimal_make_zero d.
Definition my_decimal_is_zero (d : decimal_t) : option bool := decimal_is_zero d.

Definition my_decimal_round (mask : Z) (from : decimal_t) (scale : Z) (truncate : bool) (to : option decimal_t)
  : option (decimal_t * Z * list condition) :=
  '(to, result) ← decimal_round from to scale (if truncate then TRUNCATE else HALF_UP);
  conditions ← check_result from mask result; Some (to, result, conditions).

Definition my_decimal_floor (mask : Z) (from : decimal_t) (to : option decimal_t) : option (decimal_t * Z * list condition) :=
  '(to, result) ← decimal_round from to 0 FLOOR;
  conditions ← check_result from mask result; Some (to, result, conditions).

Definition my_decimal_ceiling (mask : Z) (from : decimal_t) (to : option decimal_t) : option (decimal_t * Z * list condition) :=
  '(to, result) ← decimal_round from to 0 CEILING;
  conditions ← check_result from mask result; Some (to, result, conditions).

Definition my_decimal_neg (arg : decimal_t) : option decimal_t :=
  zero ← decimal_is_zero arg;
  Some (with_sign arg (if (zero : bool) then false else negb (d_sign arg))).

Definition my_decimal_add (mask : Z) (res a b : decimal_t) : option (decimal_t * Z * list condition) :=
  '(res, result) ← decimal_add a b res; check_result_and_overflow mask result res.

Definition my_decimal_sub (mask : Z) (res a b : decimal_t) : option (decimal_t * Z * list condition) :=
  '(res, result) ← decimal_sub a b res; check_result_and_overflow mask result res.

Definition my_decimal_mul (mask : Z) (res a b : decimal_t) : option (decimal_t * Z * list condition) :=
  '(res, result) ← decimal_mul a b res; check_result_and_overflow mask result res.

Definition my_decimal_div (mask : Z) (res a b : decimal_t) (div_scale_inc : Z) : option (decimal_t * Z * list condition) :=
  '(res, result) ← decimal_div a b res div_scale_inc; check_result_and_overflow mask result res.

Definition my_decimal_mod (mask : Z) (res a b : decimal_t) : option (decimal_t * Z * list condition) :=
  '(res, result) ← decimal_mod a b res; check_result_and_overflow mask result res.

Definition my_decimal_intg (a : decimal_t) : option Z := decimal_intg a.

Definition my_decimal_cmp (a b : decimal_t) : option Z := decimal_cmp a b.

(** ** Conversions *)

Definition with_frac (d : decimal_t) (frac : Z) : decimal_t :=
  mk_decimal (d_intg d) frac (d_len d) (d_sign d) (d_buf d).

(** The bytes, which hold the number rounded to [scale] digits. *)
Definition my_decimal2binary (mask : Z) (d : decimal_t) (prec scale : Z) : option (list Z * Z * list condition) :=
  frac ← decimal_actual_fraction d;
  let rounded := with_frac d frac in
  '(rounded, err1) ← (if scale <? frac then
                        '(rounded, _) ← decimal_round rounded None scale HALF_UP; Some (rounded, E_DEC_TRUNCATED)
                      else Some (rounded, E_DEC_OK));
  '(bin, err2) ← decimal2bin rounded prec scale;
  let err2 := if err2 =? 0 then err1 else err2 in
  conditions ← check_result d mask err2; Some (bin, err2, conditions).

Definition binary2my_decimal (mask : Z) (bin : list Z) (d : decimal_t) (prec scale : Z) : option (decimal_t * Z * list condition) :=
  '(d, result) ← bin2decimal bin d prec scale;
  conditions ← check_result d mask result; Some (d, result, conditions).

(** The text; the buffer of the [String] is as long as was asked for. *)
Definition my_decimal2string (mask : Z) (d : decimal_t) (fixed_prec fixed_dec filler : Z) : option (list Z * Z * list condition) :=
  let length := if fixed_prec =? 0 then my_decimal_string_length d
                else fixed_prec + (if fixed_prec =? fixed_dec then 1 else 0) + 1 + 1 in
  '(str, length, result) ← decimal2string d (replicate (Z.to_nat length) 0) length fixed_prec fixed_dec filler;
  conditions ← check_result d mask result; Some (take (Z.to_nat length) str, result, conditions).

(** [nonascii] is the flag of the character set, [copy] the conversion to it. *)
Definition str_set_decimal (mask : Z) (val : decimal_t) (fixed_prec fixed_dec filler : Z) (nonascii : bool) (copy : list Z -> list Z)
  : option (list Z * list condition) :=
  '(text, _, conditions) ← my_decimal2string mask val fixed_prec fixed_dec filler;
  Some (if nonascii then copy text else text, conditions).

(** [rounded] is the local variable, which is not initialised. *)
Definition my_decimal2int (mask : Z) (d : decimal_t) (unsigned_flag : bool) (rounded : decimal_t) : option (Z * Z * list condition) :=
  '(rounded, _) ← decimal_round d (Some rounded) 0 HALF_UP;
  '(l, result) ← (if unsigned_flag then '(l, e) ← decimal2ulonglong rounded; Some (wraps 64 l, e) else decimal2longlong rounded);
  conditions ← check_result d mask result; Some (l, result, conditions).

Definition my_decimal2lldiv_t (mask : Z) (d : decimal_t) : option (Z * Z * Z * list condition) :=
  '(quot, rem, result) ← decimal2lldiv_t d;
  conditions ← check_result d mask result; Some (quot, rem, result, conditions).

Definition int2my_decimal (mask i : Z) (unsigned_flag : bool) (d : decimal_t) : option (decimal_t * Z * list condition) :=
  '(d, result) ← (if unsigned_flag then ulonglong2decimal (wrapu 64 i) d else longlong2decimal i d);
  conditions ← check_result d mask result; Some (d, result, conditions).

(** [copy] converts the text of a character set with wide characters to Latin 1. *)
Definition str2my_decimal (mask : Z) (from : list Z) (mbminlen : Z) (copy : list Z -> list Z) (decimal_value : decimal_t)
  : option (decimal_t * Z * list condition) :=
  let from := if 1 <? mbminlen then copy from else from in
  '(decimal_value, end_, err) ← string2decimal from decimal_value;
  let err := if negb (end_ =? length from)%nat && (err =? 0) && negb (forallb latin1_isspace (drop end_ from))
             then E_DEC_TRUNCATED else err in
  '(decimal_value, _, conditions) ← check_result_and_overflow mask err decimal_value;
  Some (decimal_value, err, conditions).

(** ** Dates and times *)

(** [int2my_decimal] stores the number or reports an error; then the rest. *)
Definition lldiv_t2my_decimal (quot rem : Z) (neg : bool) (dec : decimal_t) : option (decimal_t * list condition) :=
  '(dec, result, conditions) ← int2my_decimal E_DEC_FATAL_ERROR quot false dec;
  if negb (result =? 0) then Some (dec, conditions)
  else
    dec ← (if rem =? 0 then Some dec
           else
             buf ← wr (d_buf dec) (Z.quot (d_intg dec - 1) 9 + 1) (wraps 32 rem);
             Some (mk_decimal (d_intg dec) 6 (d_len dec) (d_sign dec) buf));
    dec ← (if neg then my_decimal_neg dec else Some dec);
    Some (dec, conditions).

(** [time_type > MYSQL_TIMESTAMP_DATE] *)
Definition has_time (t : MYSQL_TIME) : bool :=
  match time_type t with MYSQL_TIMESTAMP_DATETIME | MYSQL_TIMESTAMP_TIME => true | _ => false end.

Definition date2my_decimal (ltime : MYSQL_TIME) (dec : decimal_t) : option (decimal_t * list condition) :=
  lldiv_t2my_decimal (wraps 64 (if has_time ltime then TIME_to_ulonglong_datetime ltime else TIME_to_ulonglong_date ltime))
    (wraps 64 (second_part ltime * 1000)) (neg ltime) dec.

Definition time2my_decimal (ltime : MYSQL_TIME) (dec : decimal_t) : option (decimal_t * list condition) :=
  lldiv_t2my_decimal (wraps 64 (TIME_to_ulonglong_time ltime)) (wraps 64 (second_part ltime * 1000)) (neg ltime) dec.

Definition timeval2my_decimal (tv_sec tv_usec : Z) (dec : decimal_t) : option (decimal_t * list condition) :=
  lldiv_t2my_decimal tv_sec (wraps 64 (tv_usec * 1000)) false dec.

Definition my_decimal_trim (precision scale : Z) : Z * Z :=
  if (precision =? 0) && (scale =? 0) then (10, 0) else (precision, scale).
