(* ===== verification/MyDecimalSpec.v ===== *)
(** * Decimals of the SQL layer: what the operations mean

    The trailing zeroes of a fraction, the DECIMAL columns as rounded numbers, the
    conversion to integers with rounding, the division with its errors, and the
    numbers that dates and times are converted to. *)

From Stdlib Require Import ZArith Lia QArith Qabs.
From stdpp Require Import base numbers option tactics list.
From S2P Require Import Prelude NumText Decimal DecimalArith DecimalSub DecimalMul DecimalDigits DecimalBin DecimalStore DecimalInt DecimalRound DecimalRounding DecimalText DecimalShift DecimalShifting DecimalParse DecimalDiv DecimalDivision MyTime MyDecimal.

#[local] Open Scope Z_scope.

(** ** The digits after the point that count *)

(** The loop over whole words, of which [m] are after the point. *)
Lemma trailing_words m r : (m <= length r)%nat ->
  exists j r', r = replicate j 0 ++ r' /\ (j <= m)%nat /\
    trailing_zero_words r (9 * Z.of_nat m) 9 = Some (9 * Z.of_nat (m - j), r') /\
    ((j < m)%nat -> exists w r'', r' = w :: r'' /\ w <> 0).
Proof.
  revert r. induction m as [|m IH]; intros r Hl.
  { exists 0%nat, r. split_and!; try done; [|lia]. by destruct r. }
  destruct r as [|w r]; [simpl in Hl; lia|]. cbn [trailing_zero_words].
  rewrite (proj2 (Z.ltb_lt 0 _)) by lia. destruct (Z.eqb_spec w 0) as [->|Hw].
  - destruct (IH r) as (j & r' & -> & Hj & E & H); [simpl in Hl; lia|]. exists (S j), r'.
    split_and!; try done; [lia| |]; [|intros; apply H; lia].
    replace (9 * Z.of_nat (S m) - 9) with (9 * Z.of_nat m) by lia. unfold DIG_PER_DEC1. by rewrite E.
  - exists 0%nat, (w :: r). split_and!; try done; [lia|]. intros _. by exists w, r.
Qed.

(** The same for [frac] digits, the last word of which may have less than nine. *)
Lemma trailing_fraction frac r : 0 < frac -> ROUND_UP frac <= Z.of_nat (length r) ->
  exists j r', r = replicate j 0 ++ r' /\ Z.of_nat j <= ROUND_UP frac /\
    trailing_zero_words r frac (Z.rem (frac - 1) DIG_PER_DEC1 + 1) =
      Some (if (j =? 0)%nat then frac else 9 * (ROUND_UP frac - Z.of_nat j), r') /\
    (Z.of_nat j < ROUND_UP frac -> exists w r'', r' = w :: r'' /\ w <> 0).
Proof.
  intros Hf Hl. pose proof (ROUND_UP_bounds frac ltac:(lia)) as B. set (f := ROUND_UP frac) in *. unfold DIG_PER_DEC1.
  assert (Z.rem (frac - 1) 9 + 1 = frac - 9 * (f - 1)) as -> by (clearbody f; Z.to_euclidean_division_equations; lia).
  destruct r as [|w r]; [simpl in Hl; lia|]. cbn [trailing_zero_words]. rewrite (proj2 (Z.ltb_lt 0 _)) by lia.
  destruct (Z.eqb_spec w 0) as [->|Hw].
  - destruct (trailing_words (Z.to_nat (f - 1)) r) as (j & r' & -> & Hj & E & H); [simpl in Hl; lia|]. exists (S j), r'.
    split_and!; try done; [lia| |intros; apply H; lia].
    replace (frac - (frac - 9 * (f - 1))) with (9 * Z.of_nat (Z.to_nat (f - 1))) by lia. unfold DIG_PER_DEC1. rewrite E.
    do 2 f_equal. cbn [Nat.eqb]. lia.
  - exists 0%nat, (w :: r). split_and!; try done; [lia|]. intros _. by exists w, r.
Qed.

Lemma rval_zero_words j r : rval (replicate j 0 ++ r) = 10 ^ (9 * Z.of_nat j) * rval r.
Proof.
  rewrite <- DIG_BASE_pow by lia. induction j as [|j IH]; simpl replicate; simpl app.
  - change (Z.of_nat 0) with 0. rewrite Z.pow_0_r. lia.
  - rewrite rval_cons, IH, Nat2Z.inj_succ, Z.pow_succ_r by lia. ring.
Qed.

(** Powers of ten that divide a number with zero words at its end. *)
Lemma trailing_divides j w r c : word_ok w -> 0 <= c < 9 -> (10 ^ c | w) -> ~ (10 ^ (c + 1) | w) ->
  let v := rval (replicate j 0 ++ w :: r) in
  (10 ^ (9 * Z.of_nat j + c) | v) /\ ~ (10 ^ (9 * Z.of_nat j + c + 1) | v).
Proof.
  intros Hw Hc Hd Hn v. set (u := w + DIG_BASE * rval r).
  assert (v = 10 ^ (9 * Z.of_nat j) * u) as Ev by (unfold v, u; by rewrite rval_zero_words, rval_cons).
  assert (forall k, 0 <= k <= 9 -> (10 ^ k | DIG_BASE)) as HB.
  { intros k Hk. exists (10 ^ (9 - k)). rewrite <- Z.pow_add_r by lia. by replace (9 - k + k) with 9 by lia. }
  rewrite Ev. replace (9 * Z.of_nat j + c + 1) with (9 * Z.of_nat j + (c + 1)) by lia. rewrite !Z.pow_add_r by lia.
  assert (0 < 10 ^ (9 * Z.of_nat j)) as HP by (apply Z.pow_pos_nonneg; lia). split.
  - apply Z.mul_divide_mono_l. apply Z.divide_add_r; [done|]. apply Z.divide_mul_l, HB. lia.
  - rewrite <- (Z.pow_add_r 10 c 1) by lia. intros H. apply Z.mul_divide_cancel_l in H; [|lia]. apply Hn.
    apply (Z.divide_add_cancel_r _ (DIG_BASE * rval r)); [apply Z.divide_mul_l, HB; lia|].
    by rewrite (Z.add_comm (DIG_BASE * rval r)).
Qed.

Lemma count_trailing_zeroes_nonneg i val : 0 <= count_trailing_zeroes i val.
Proof.
  unfold count_trailing_zeroes. generalize (Z.to_nat (9 - i)). intros fuel. revert i.
  induction fuel as [|fuel IH]; intros i; cbn [count_trailing_zeroes_from]; destruct (negb _); try lia. specialize (IH (i + 1)). lia.
Qed.

(** The digits of the fraction without the zeroes at its end. *)
Lemma decimal_actual_fraction_spec d : dec_wf d ->
  let f := ROUND_UP (d_frac d) in
  exists k, decimal_actual_fraction d = Some k /\ 0 <= k <= d_frac d /\ (10 ^ (9 * f - k) | dec_val d) /\
    (0 < k -> ~ (10 ^ (9 * f - k + 1) | dec_val d)).
Proof.
  intros Hd f. pose proof (wf_frac d Hd) as Hf. pose proof (dec_words_length d Hd) as L. pose proof (wf_intg_words d Hd) as Hi.
  unfold decimal_actual_fraction. destruct (Z.eqb_spec (d_frac d) 0) as [E0|Hne].
  { exists 0. unfold f. rewrite E0. change (ROUND_UP 0) with 0. split_and!; try done. apply Z.divide_1_l. }
  pose proof (ROUND_UP_bounds (d_frac d) Hf) as B. fold f in B, L |- *.
  assert (words (d_buf d) 0 (ROUND_UP (d_intg d) + f) = Some (dec_words d)) as ->.
  { rewrite (dec_buf_words d). apply (words_app [] (dec_words d)); simpl; lia. }
  cbn [mbind option_bind].
  assert (dec_val d = rval (rev (dec_words d))) as Ev by (unfold rval; by rewrite rev_involutive).
  assert (Forall word_ok (rev (dec_words d))) as F by (apply List.Forall_rev, wf_words, Hd).
  destruct (trailing_fraction (d_frac d) (rev (dec_words d))) as (j & r' & Er & Hj & -> & Hw); [lia|rewrite length_rev; fold f; lia|].
  fold f in Hj, Hw |- *. cbn [mbind option_bind]. rewrite Er in Ev, F. apply Forall_app in F as [_ F].
  destruct (Z.eq_dec (Z.of_nat j) f) as [Ej|Hjf].
  - rewrite (proj2 (Nat.eqb_neq j 0)), Ej, Z.sub_diag by lia. cbn [Z.mul Z.ltb Z.compare]. exists 0. split_and!; try done.
    rewrite Z.sub_0_r, Ev, rval_zero_words, Ej. apply Z.divide_factor_l.
  - destruct Hw as (w & r'' & -> & Hw); [lia|]. inversion_clear F as [|?? Hwo _].
    set (frac := if (j =? 0)%nat then d_frac d else 9 * (f - Z.of_nat j)).
    assert (0 < frac <= d_frac d /\ 9 * f - frac - 9 * Z.of_nat j = 8 - Z.rem (frac - 1) 9 /\ (10 ^ (8 - Z.rem (frac - 1) 9) | w)) as (Hfr & Er9 & Hdw).
    { unfold frac. destruct (Nat.eqb_spec j 0) as [->|Hj0].
      - assert (9 * f - d_frac d = 8 - Z.rem (d_frac d - 1) 9) as E9 by (clearbody f; Z.to_euclidean_division_equations; lia).
        split_and!; [lia..|]. rewrite <- E9. pose proof (wf_aligned d Hd) as A. fold f in A. rewrite Ev in A. simpl replicate in A. simpl app in A.
        rewrite rval_cons, Z.add_comm in A. apply Z.divide_add_cancel_r in A; [done|]. apply Z.divide_mul_l.
        exists (10 ^ (9 - (9 * f - d_frac d))). rewrite <- Z.pow_add_r by lia. by replace (9 - (9 * f - d_frac d) + (9 * f - d_frac d)) with 9 by lia.
      - assert (Z.rem (9 * (f - Z.of_nat j) - 1) 9 = 8) as -> by (clearbody f; Z.to_euclidean_division_equations; lia).
        split_and!; [lia..|]. apply Z.divide_1_l. }
    rewrite (proj2 (Z.ltb_lt 0 frac)) by lia. cbn [head mbind option_bind]. unfold DIG_PER_DEC1.
    pose proof (Z.rem_bound_pos (frac - 1) 9 ltac:(lia) ltac:(lia)) as Br. set (i := Z.rem (frac - 1) 9) in *.
    destruct (count_trailing_zeroes_spec (9 - i) w) as (Hc & q & Eq & Hq); [lia|done|done|by replace (9 - i - 1) with (8 - i) by lia|].
    set (t := count_trailing_zeroes (9 - i) w) in *. set (c := 9 - i - 1 + t) in *.
    destruct (trailing_divides j w r'' c Hwo ltac:(lia)) as [D1 D2].
    { by exists q. }
    { intros [x Ex]. apply Hq. rewrite Eq, Z.pow_add_r in Ex by lia. pose proof (Z.pow_pos_nonneg 10 c ltac:(lia) ltac:(lia)).
      assert (q = x * 10) as -> by (apply (Z.mul_reg_r _ _ (10 ^ c)); [|rewrite Ex, Z.pow_1_r; ring]; lia). by apply Z.mod_mul. }
    exists (frac - t). rewrite <- Ev in D1, D2. replace (9 * f - (frac - t)) with (9 * Z.of_nat j + c) by lia. split_and!; try done.
    + lia.
    + pose proof (count_trailing_zeroes_nonneg (9 - i) w). fold t in H. lia.
Qed.

(** A number with a shorter fraction that leaves out nothing but zeroes. *)
Lemma with_frac_spec d k : dec_wf d -> 0 <= k <= d_frac d -> (10 ^ (9 * ROUND_UP (d_frac d) - k) | dec_val d) ->
  dec_digits (with_frac d k) /\ (dec_Q (with_frac d k) == dec_Q d)%Q.
Proof.
  intros Hd Hk Hdiv. pose proof (ROUND_UP_bounds k ltac:(lia)) as Bk. pose proof (ROUND_UP_bounds (d_frac d) (wf_frac d Hd)) as Bf.
  pose proof (ROUND_UP_mono k (d_frac d) Hk) as Hm. set (f := ROUND_UP (d_frac d)) in *. set (k' := ROUND_UP k) in *.
  pose proof (dec_words_length d Hd) as L. fold f in L. pose proof (wf_intg_words d Hd) as Hi.
  destruct (split_words (dec_words d) 0 (ROUND_UP (d_intg d) + k')) as (h & ws & rest & Ew & Lh & Lw); [plia..|].
  destruct h; [|simpl in Lh; lia]. cbn [app] in Ew.
  assert (Z.of_nat (length rest) = f - k') as Lr by (rewrite Ew, length_app in L; plia).
  pose proof (wf_words d Hd) as F. rewrite Ew in F. apply Forall_app in F as [Fw Fr].
  assert (dec_val d = dval ws * DIG_BASE ^ (f - k')) as Ev.
  { unfold dec_val in *. rewrite Ew, dval_app, Lr in *. pose proof (dval_bounds rest Fr) as Br. rewrite Lr in Br.
    assert ((DIG_BASE ^ (f - k') | dval rest)) as [q Eq].
    { apply (Z.divide_add_cancel_r _ (dval ws * DIG_BASE ^ (f - k'))); [apply Z.divide_factor_r|].
      etransitivity; [|exact Hdiv]. rewrite DIG_BASE_pow by plia. exists (10 ^ (9 * f - k - 9 * (f - k'))).
      rewrite <- Z.pow_add_r by plia. f_equal. plia. }
    assert (q = 0) as -> by nia. lia. }
  assert (d_buf d = ws ++ (rest ++ drop (length (dec_words d)) (d_buf d))) as Eb by (rewrite app_assoc, <- Ew; apply dec_buf_words).
  set (rest' := rest ++ _) in Eb.
  assert (dec_words (with_frac d k) = ws) as Ews.
  { unfold dec_words, with_frac. cbn [d_intg d_frac d_buf]. fold k'. rewrite Eb. apply take_app_length'. plia. }
  assert (dec_room (with_frac d k)) as Hroom by apply (wf_room d Hd). pose proof (DIG_BASE_pow_pos (f - k') ltac:(plia)) as HP. split.
  - split; [done|]. destruct (Z.eq_dec (d_intg d + k) 0); [right; split; cbn; pose proof (wf_intg d Hd); plia|left].
    unfold with_frac. rewrite Eb. apply mk_decimal_wf; try done.
    + apply Hd.
    + plia.
    + pose proof (wf_intg d Hd). plia.
    + rewrite <- Eb. apply (wf_room d Hd).
    + fold k'. pose proof (wf_top d Hd) as T. rewrite Ev in T. fold f in T.
      replace (d_intg d + 9 * f) with (d_intg d + 9 * k' + 9 * (f - k')) in T by plia.
      rewrite (Z.pow_add_r 10 (d_intg d + 9 * k')), <- (DIG_BASE_pow (f - k')) in T by (pose proof (wf_intg d Hd); plia). by apply Z.mul_lt_mono_pos_r in T.
    + fold k'. rewrite Ev in Hdiv. replace (9 * f - k) with (9 * k' - k + 9 * (f - k')) in Hdiv by plia.
      rewrite Z.pow_add_r, <- (DIG_BASE_pow (f - k')) in Hdiv by plia. apply Z.mul_divide_cancel_r in Hdiv; [done|clear -HP; lia].
  - unfold dec_Q, Qeq. cbn [Qnum Qden]. unfold dec_sval. fold f k'. replace (ROUND_UP (d_frac (with_frac d k))) with k' by done.
    unfold dec_val at 1 2. rewrite Ews, Ev, !Z2Pos.id by (apply DIG_BASE_pow_pos; plia). cbn [with_frac d_sign].
    assert (DIG_BASE ^ f = DIG_BASE ^ (f - k') * DIG_BASE ^ k') as -> by (rewrite <- Z.pow_add_r by plia; f_equal; plia).
    destruct (d_sign d); ring.
Qed.

(** ** Columns *)

(** What [decimal2bin] stores and [bin2decimal] reads, also for a number of no digits. *)
Lemma column_value d prec scale : dec_digits d -> dec_nz d -> 0 <= scale <= prec -> 0 < prec -> d_frac d <= scale ->
  (Qabs (dec_Q d) < Q10 (prec - scale))%Q ->
  exists bytes, decimal2bin d prec scale = Some (bytes, E_DEC_OK) /\ Z.of_nat (length bytes) = decimal_bin_size prec scale /\
    forall to, dec_room to -> decimal_size prec scale <= d_len to ->
    exists to', bin2decimal bytes to prec scale = Some (to', E_DEC_OK) /\ dec_wf to' /\ dec_nz to' /\ (dec_Q to' == dec_Q d)%Q.
Proof.
  intros [Hr Hd] Hnz Hs Hp Hf Hlt.
  assert (exists d', dec_wf d' /\ dec_nz d' /\ (dec_Q d' == dec_Q d)%Q /\ d_frac d' <= scale /\ decimal2bin d prec scale = decimal2bin d' prec scale)
    as (d' & Hd' & Hnz' & EQ & Hf' & ->).
  { destruct Hd as [Hd|[Ei Ef]]; [by exists d|]. exists (mk_decimal 1 0 1 false [0]).
    assert (dec_val d = 0) as E0 by (unfold dec_val, dec_words; by rewrite Ei, Ef).
    split_and!; [by apply dec_wfb_wf|done|by rewrite (dec_Q_zero d E0)|simpl; lia|].
    unfold decimal2bin, remove_leading_zeroes. rewrite Ei, Ef.
    assert (leading_zero_words (d_buf d) 0 (Z.rem (0 - 1) DIG_PER_DEC1 + 1) = Some (0, 0)) as -> by by destruct (d_buf d). done. }
  assert (bin_fits d' prec scale) as HF.
  { split_and!; try lia. rewrite <- EQ in Hlt. rewrite Q10_Z in Hlt by lia. unfold dec_Q, Qabs, Qlt in Hlt. cbn [Qnum Qden inject_Z] in Hlt.
    pose proof (DIG_BASE_pow_pos _ (wf_frac_words d' Hd')) as P. rewrite Z2Pos.id in Hlt by done.
    pose proof (dec_val_nonneg d' Hd'). unfold dec_sval in Hlt. destruct (d_sign d'); lia. }
  destruct (decimal2bin_stored d' prec scale Hd' Hnz' HF) as (bytes & v & f & E & EB & Hv & Ff & Q & P).
  exists bytes. split_and!; [done|erewrite flip_first_length by exact EB; by apply format_length|]. intros to Hto Hsize.
  destruct (bin2decimal_format (d_sign d') prec scale v f bytes to Hs Hp Hv Ff Hto Hsize EB) as (to' & E' & W & Q' & N).
  exists to'. split_and!; [done|done|by apply N|]. by rewrite Q', <- EQ, Q.
Qed.

Lemma dec_nz_Q d d' : d_sign d' = d_sign d -> (dec_Q d' == dec_Q d)%Q -> dec_nz d -> dec_nz d'.
Proof. intros Es EQ Hnz Hs E. rewrite Es in Hs. apply (Hnz Hs). apply dec_Q_zero_inv. rewrite <- EQ. by apply dec_Q_zero. Qed.

(** A number with more than [scale] digits that count is not a multiple of
    [10 ^ - scale]. *)
Lemma rounded_differs d k scale mode : dec_wf d -> 0 <= scale < k -> k <= d_frac d ->
  ~ (10 ^ (9 * ROUND_UP (d_frac d) - k + 1) | dec_val d) -> ~ (round_Q mode (dec_Q d) scale == dec_Q d)%Q.
Proof.
  intros Hd Hs Hk Hn E. apply Hn. clear Hn. pose proof (ROUND_UP_bounds (d_frac d) (wf_frac d Hd)) as Bf.
  set (f := ROUND_UP (d_frac d)) in *. unfold round_Q in E. set (n := round_to_int _ _) in E. rewrite Q10_div in E by lia.
  unfold dec_Q, Qeq in E. cbn [Qnum Qden] in E. fold f in E.
  rewrite !Z2Pos.id in E by (try apply DIG_BASE_pow_pos; try apply Z.pow_pos_nonneg; lia). rewrite DIG_BASE_pow in E by lia.
  replace (9 * f) with (9 * f - k + 1 + (k - 1 - scale) + scale) in E by lia.
  rewrite !Z.pow_add_r in E by lia. assert (0 < 10 ^ scale) as P by (apply Z.pow_pos_nonneg; lia).
  assert (dec_sval d = n * 10 ^ (k - 1 - scale) * 10 ^ (9 * f - k + 1)) as Es.
  { apply (Z.mul_reg_r _ _ (10 ^ scale)); [lia|]. rewrite <- E, !Z.pow_add_r by lia. ring. }
  assert ((10 ^ (9 * f - k + 1) | dec_sval d)) as D by (rewrite Es; apply Z.divide_factor_r).
  unfold dec_sval in D. destruct (d_sign d); [by apply Z.divide_opp_r|done].
Qed.

(** The number [my_decimal2binary] stores: rounded, when digits that count are lost. *)
Lemma column_rounded d scale : dec_wf d -> dec_nz d -> 0 <= scale -> round_room d scale HALF_UP ->
  let r := round_Q HALF_UP (dec_Q d) scale in
  exists k rounded err, decimal_actual_fraction d = Some k /\
    (if scale <? k then '(rounded, _) ← decimal_round (with_frac d k) None scale HALF_UP; Some (rounded, E_DEC_TRUNCATED)
     else Some (with_frac d k, E_DEC_OK)) = Some (rounded, err) /\
    dec_digits rounded /\ dec_nz rounded /\ d_frac rounded <= scale /\ (dec_Q rounded == r)%Q /\
    (err = E_DEC_OK /\ (r == dec_Q d)%Q \/ err = E_DEC_TRUNCATED /\ ~ (r == dec_Q d)%Q).
Proof.
  intros Hd Hnz Hs Hroom r. destruct (decimal_actual_fraction_spec d Hd) as (k & Ek & Hk & Hdiv & Hleast).
  destruct (with_frac_spec d k Hd Hk Hdiv) as [Hg EQ]. pose proof (dec_nz_Q d (with_frac d k) eq_refl EQ Hnz) as Hnz'.
  exists k. destruct (Z.ltb_spec scale k) as [Hlt|Hge].
  - destruct (decimal_round_spec (with_frac d k) None scale HALF_UP) as (to' & Er & W & _ & Ff & Hn & Q); try done.
    { destruct Hg as [_ [Hg|[_ Hg]]]; [done|]. simpl in Hg. lia. }
    { unfold round_room. cbn [with_frac d_intg d_len]. by rewrite EQ. }
    exists to', E_DEC_TRUNCATED. rewrite Er. split_and!; try done; [split; [apply W|by left]|by apply Hn|lia|by rewrite Q, EQ|].
    right. split; [done|]. apply (rounded_differs d k); try done; [lia..|]. apply Hleast. lia.
  - exists (with_frac d k), E_DEC_OK.
    assert (r == dec_Q d)%Q as Er.
    { unfold r. rewrite <- EQ. destruct Hg as [_ [Hg|[Hi Hf]]]; [by apply round_Q_exact|].
      assert (dec_val (with_frac d k) = 0) as E0 by (unfold dec_val, dec_words; by rewrite Hi, Hf).
      rewrite round_Q_of_zero; by rewrite (dec_Q_zero _ E0). }
    split_and!; try done; [by rewrite Er|by left].
Qed.

Lemma check_result_small d mask result : result = E_DEC_OK \/ result = E_DEC_TRUNCATED ->
  check_result d mask result = Some (if Z.land result mask =? 0 then [] else [WARN_DATA_TRUNCATED]).
Proof. unfold check_result. intros [-> | ->]; [done|]. destruct (Z.land E_DEC_TRUNCATED mask =? 0); done. Qed.

(** The room a column needs is there: a number that fills its array has digits before
    the point, and keeps their number when the rounded one fits the column. *)
Lemma column_room d prec scale : dec_wf d -> d_len d = DECIMAL_BUFF_LENGTH -> 0 <= scale <= prec ->
  scale <= DECIMAL_MAX_SCALE -> decimal_size prec scale <= DECIMAL_BUFF_LENGTH ->
  ROUND_UP (d_intg d) + ROUND_UP scale <= DECIMAL_BUFF_LENGTH ->
  (Qabs (round_Q HALF_UP (dec_Q d) scale) < Q10 (prec - scale))%Q -> round_room d scale HALF_UP.
Proof.
  intros Hd Hlen Hs Hmax Hsize Hroom Hlt. unfold round_room. rewrite Z.max_l, Hlen by lia.
  destruct (Z.lt_ge_cases (ROUND_UP (d_intg d) + ROUND_UP scale) DECIMAL_BUFF_LENGTH) as [|Hfull]; [by left|right].
  pose proof (ROUND_UP_bounds (d_intg d) (wf_intg d Hd)). pose proof (ROUND_UP_bounds scale ltac:(lia)).
  pose proof (ROUND_UP_bounds (prec - scale) ltac:(lia)).
  unfold decimal_size, DECIMAL_BUFF_LENGTH, DECIMAL_MAX_SCALE in *. split_and!; [lia|lia|].
  eapply Qlt_le_trans; [exact Hlt|]. rewrite !Q10_Z by lia. rewrite <- Zle_Qle. apply Z.pow_le_mono_r; lia.
Qed.

(** C17: a DECIMAL([prec], [scale]) column, with at most [DECIMAL_MAX_SCALE] digits
    after the point and at most as many words as a decimal has.  A number whose
    digits before the point and [scale] digits after it have room in a decimal and
    that, once it is rounded half up to [scale] digits after the point, has at most
    [prec - scale] before it, is stored as [decimal_bin_size] bytes and read back as
    the rounded number.  The error is
    [E_DEC_TRUNCATED], with a warning when the caller asks for it, exactly when
    rounding changed the number. *)
Theorem my_decimal_column_rounds d to prec scale mask mask' : dec_wf d -> dec_nz d -> d_len d = DECIMAL_BUFF_LENGTH ->
  0 <= scale <= prec -> 0 < prec -> scale <= DECIMAL_MAX_SCALE -> decimal_size prec scale <= DECIMAL_BUFF_LENGTH ->
  ROUND_UP (d_intg d) + ROUND_UP scale <= DECIMAL_BUFF_LENGTH ->
  dec_room to -> decimal_size prec scale <= d_len to ->
  let r := round_Q HALF_UP (dec_Q d) scale in
  (Qabs r < Q10 (prec - scale))%Q ->
  exists bytes error to', my_decimal2binary mask d prec scale =
      Some (bytes, error, if Z.land error mask =? 0 then [] else [WARN_DATA_TRUNCATED]) /\
    Z.of_nat (length bytes) = my_decimal_get_binary_size prec scale /\
    (error = E_DEC_OK /\ (r == dec_Q d)%Q \/ error = E_DEC_TRUNCATED /\ ~ (r == dec_Q d)%Q) /\
    binary2my_decimal mask' bytes to prec scale = Some (to', E_DEC_OK, []) /\
    dec_wf to' /\ dec_nz to' /\ (dec_Q to' == r)%Q.
Proof.
  intros Hd Hnz Hlen Hs Hp Hmax Hcol Hroom Hto Hsize r Hlt.
  destruct (column_rounded d scale Hd Hnz (proj1 Hs) ltac:(by apply (column_room d prec))) as (k & rounded & err & Ek & Er & Hg & Hn & Hf & Q & He).
  fold r in Q, He. destruct (column_value rounded prec scale Hg Hn Hs Hp Hf ltac:(by rewrite Q)) as (bytes & Eb & Lb & Hread).
  destruct (Hread to Hto Hsize) as (to' & Et & W & N & Q'). exists bytes, err, to'.
  split_and!; try done; [| |by rewrite Q', Q].
  - unfold my_decimal2binary. rewrite Ek. cbn [mbind option_bind]. rewrite Er. cbn [mbind option_bind]. rewrite Eb.
    cbn [mbind option_bind]. change (E_DEC_OK =? 0) with true. cbv match. rewrite check_result_small by (destruct He as [[-> _]|[-> _]]; [by left|by right]). done.
  - unfold binary2my_decimal. rewrite Et. done.
Qed.

(** ** The text of a condition *)

Lemma condition_text_spec d : dec_digits d -> d_len d <= DECIMAL_BUFF_LENGTH -> exists text, condition_text d = Some text.
Proof.
  intros [Hr Hd] Hl. unfold condition_text. set (buf := replicate _ 0).
  assert (exists d', dec_wf d' /\ d_len d' <= DECIMAL_BUFF_LENGTH /\
    decimal2string d buf (DECIMAL_MAX_STR_LENGTH + 1) 0 0 0 = decimal2string d' buf (DECIMAL_MAX_STR_LENGTH + 1) 0 0 0) as (d' & Hd' & Hl' & ->).
  { destruct Hd as [Hd|[Ei Ef]]; [by exists d|]. exists (mk_decimal 1 0 1 (d_sign d) [0]).
    split_and!; [destruct (d_sign d); by apply dec_wfb_wf|done|].
    unfold decimal2string, remove_leading_zeroes. rewrite Ei, Ef.
    assert (leading_zero_words (d_buf d) 0 (Z.rem (0 - 1) DIG_PER_DEC1 + 1) = Some (0, 0)) as -> by by destruct (d_buf d).
    by destruct (d_sign d). }
  destruct (decimal2string_spec d' buf (DECIMAL_MAX_STR_LENGTH + 1) 0 Hd') as [rest E].
  { pose proof (int_text_length_le d' Hd') as LI. pose proof (wf_fit d' Hd') as Hfit. pose proof (wf_frac_words d' Hd').
    pose proof (ROUND_UP_bounds (d_intg d') (wf_intg d' Hd')). unfold sign_text.
    unfold DECIMAL_MAX_STR_LENGTH, DECIMAL_MAX_POSSIBLE_PRECISION, DECIMAL_BUFF_LENGTH in *.
    destruct (d_sign d'), (d_intg d' =? 0); simpl length; lia. }
  { unfold buf. rewrite length_replicate. done. }
  rewrite E. by eexists.
Qed.

(** Every error of the library is reported. *)
Lemma check_result_some d mask result : dec_digits d -> d_len d <= DECIMAL_BUFF_LENGTH ->
  In result [E_DEC_OK; E_DEC_TRUNCATED; E_DEC_OVERFLOW; E_DEC_DIV_ZERO; E_DEC_BAD_NUM; E_DEC_OOM] ->
  exists conditions, check_result d mask result = Some conditions /\ (Z.land result mask = 0 <-> conditions = []).
Proof.
  intros Hd Hl Hr. unfold check_result. destruct (Z.eqb_spec (Z.land result mask) 0) as [E|E]; [by exists []|].
  destruct (condition_text_spec d Hd Hl) as [text ->].
  destruct Hr as [<-|Hr]; [by destruct E|]. repeat (destruct Hr as [<-|Hr]; [eexists; by split|]). by destruct Hr.
Qed.

(** ** Integers *)

(** A decimal without a fraction. *)
Lemma integer_decimal d n : dec_wf d -> d_frac d <= 0 -> (dec_Q d == inject_Z n)%Q -> int_part d = n /\ int_error d = E_DEC_OK.
Proof.
  intros Hd Hf E. pose proof (wf_frac d Hd). assert (d_frac d = 0) as Ef by lia. unfold int_part, int_error.
  rewrite Ef. change (ROUND_UP 0) with 0. rewrite Z.pow_0_r, Z.quot_1_r, Z.mod_1_r. split; [|done].
  unfold dec_Q, Qeq in E. cbn [Qnum Qden inject_Z] in E. rewrite Ef in E. change (Z.to_pos (DIG_BASE ^ ROUND_UP 0)) with 1%positive in E. lia.
Qed.

Lemma clamp_range lo hi n : lo <= hi ->
  clamp lo hi n E_DEC_OK = (Z.max lo (Z.min hi n), if (lo <=? n) && (n <=? hi) then E_DEC_OK else E_DEC_OVERFLOW).
Proof. intros H. unfold clamp. zcases; f_equal; lia. Qed.

(** C19: [my_decimal2int] gives the number rounded half up, or the bound of the 64-bit
    type it is beyond, signed or unsigned; beyond the type it reports an overflow,
    within it nothing. *)
Theorem my_decimal2int_rounds d rounded mask : dec_wf d -> dec_nz d -> d_len d = DECIMAL_BUFF_LENGTH ->
  ROUND_UP (d_intg d) < DECIMAL_BUFF_LENGTH -> dec_room rounded -> d_len rounded = DECIMAL_BUFF_LENGTH ->
  let n := round_to_int HALF_UP (dec_Q d) in
  (exists conditions, my_decimal2int mask d false rounded =
     Some (Z.max LLONG_MIN (Z.min LLONG_MAX n), if (LLONG_MIN <=? n) && (n <=? LLONG_MAX) then E_DEC_OK else E_DEC_OVERFLOW, conditions) /\
     (LLONG_MIN <= n <= LLONG_MAX -> conditions = [])) /\
  (exists conditions, my_decimal2int mask d true rounded =
     Some (wraps 64 (Z.max 0 (Z.min ULLONG_MAX n)), if (0 <=? n) && (n <=? ULLONG_MAX) then E_DEC_OK else E_DEC_OVERFLOW, conditions) /\
     (0 <= n <= ULLONG_MAX -> conditions = [])).
Proof.
  intros Hd Hnz Hlen Hi Hr Hrl n.
  destruct (decimal_round_spec d (Some rounded) 0 HALF_UP) as (to' & Er & W & _ & Ff & Hn & Q); [done|by rewrite Hrl|by left; rewrite Hlen; change (ROUND_UP (Z.max 0 0)) with 0; lia|done|].
  assert (dec_Q to' == inject_Z n)%Q as EQ.
  { rewrite Q. unfold round_Q, n. change (Q10 (- 0)) with 1%Q. change (Q10 0) with 1%Q. rewrite !Qmult_1_r. done. }
  destruct (integer_decimal to' n W Ff EQ) as [Ep Ee].
  assert (d_sign to' = true -> n < 0) as Hneg.
  { intros Hs. pose proof (Hn Hnz Hs). pose proof (dec_val_nonneg to' W). rewrite <- Ep. unfold int_part, dec_sval.
    pose proof (wf_frac to' W). assert (d_frac to' = 0) as -> by lia. rewrite Hs. change (ROUND_UP 0) with 0. rewrite Z.pow_0_r, Z.quot_1_r. lia. }
  assert (forall result, result = E_DEC_OK \/ result = E_DEC_OVERFLOW ->
    exists conditions, check_result d mask result = Some conditions /\ (result = E_DEC_OK -> conditions = [])) as Hcheck.
  { intros result Hres. destruct (check_result_some d mask result) as (conditions & E & Hc).
    - split; [apply Hd|by left].
    - by rewrite Hlen.
    - destruct Hres as [-> | ->]; simpl; auto.
    - exists conditions. split; [done|]. intros ->. by apply Hc. }
  unfold my_decimal2int. rewrite Er. cbn [mbind option_bind]. rewrite decimal2longlong_spec, decimal2ulonglong_spec, Ep, Ee by done.
  rewrite !clamp_range by done. split.
  - destruct (Hcheck (if (LLONG_MIN <=? n) && (n <=? LLONG_MAX) then E_DEC_OK else E_DEC_OVERFLOW)) as (conditions & E & Hc); [destruct (_ && _); auto|].
    cbn [mbind option_bind]. rewrite E. exists conditions. split; [done|]. intros Hin. apply Hc.
    by rewrite (proj2 (Z.leb_le LLONG_MIN n)), (proj2 (Z.leb_le n LLONG_MAX)) by lia.
  - destruct (Hcheck (if (0 <=? n) && (n <=? ULLONG_MAX) then E_DEC_OK else E_DEC_OVERFLOW)) as (conditions & E & Hc); [destruct (_ && _); auto|].
    exists conditions. split; [|intros Hin; apply Hc; by rewrite (proj2 (Z.leb_le 0 n)), (proj2 (Z.leb_le n ULLONG_MAX)) by lia].
    destruct (d_sign to'); cbn [mbind option_bind]; [|by rewrite E].
    specialize (Hneg eq_refl). rewrite (proj2 (Z.leb_gt 0 n)) in E |- * by done. cbn [andb] in E |- *. rewrite E. do 3 f_equal. rewrite Z.max_l by lia. done.
Qed.

(** ** Errors of the operations *)

Lemma decimal_is_zero_digits d : dec_digits d -> decimal_is_zero d = Some (dec_val d =? 0).
Proof.
  intros [Hr [Hd|[Ei Ef]]]; [by apply decimal_is_zero_spec|]. unfold decimal_is_zero, dec_val, dec_words. rewrite Ei, Ef.
  change (ROUND_UP 0 + ROUND_UP 0) with 0. unfold words. destruct (d_buf d); zcases.
Qed.

Lemma with_sign_digits d sign : dec_digits d -> dec_digits (with_sign d sign).
Proof.
  intros [Hr [Hd|H0]]; (split; [done|]); [left|by right].
  destruct Hd. by split.
Qed.

(** The number that stands for an overflow. *)
Lemma max_internal_decimal_spec d : dec_room d -> d_len d = DECIMAL_BUFF_LENGTH ->
  exists m, max_internal_decimal d = Some m /\ dec_wf m /\ d_len m = d_len d /\ d_frac m = 0 /\ dec_val m = 10 ^ 65 - 1.
Proof.
  intros [Hl Hb] Hlen. unfold max_internal_decimal, max_my_decimal, max_decimal.
  change (max_decimal_words DECIMAL_MAX_PRECISION 0) with (99 :: replicate 7 DIG_MAX). set (ws := 99 :: replicate 7 DIG_MAX).
  assert (length ws = 8%nat) as Lw by done.
  rewrite store_front by (rewrite Lw; unfold DECIMAL_BUFF_LENGTH in *; lia). cbn [mbind option_bind]. eexists. split; [done|].
  assert (dval ws = 10 ^ 65 - 1) as Vw by (vm_compute; reflexivity).
  destruct (mk_decimal_wf 65 0 (d_len d) false ws (drop (length ws) (d_buf d))) as [W V].
  - lia.
  - lia.
  - lia.
  - rewrite Lw. reflexivity.
  - rewrite length_app, length_drop, Lw. unfold DECIMAL_BUFF_LENGTH in *. lia.
  - unfold ws. constructor; [unfold word_ok, DIG_BASE; lia|]. apply Forall_replicate. unfold word_ok, DIG_MAX, DIG_BASE. lia.
  - rewrite Vw. change (65 + 9 * ROUND_UP 0) with 65. generalize (10 ^ 65). lia.
  - apply Z.divide_1_l.
  - change (DECIMAL_MAX_PRECISION - 0) with 65. rewrite <- Vw. split_and!; done.
Qed.

Lemma check_result_and_overflow_spec mask result val : dec_digits val -> d_len val = DECIMAL_BUFF_LENGTH ->
  In result [E_DEC_OK; E_DEC_TRUNCATED; E_DEC_OVERFLOW] ->
  exists val' conditions, check_result_and_overflow mask result val = Some (val', result, conditions) /\
    dec_digits val' /\ d_len val' = d_len val /\ dec_nz val' /\ (conditions = [] <-> Z.land result mask = 0) /\
    (if result =? E_DEC_OVERFLOW then (dec_Q val' == inject_Z (sg (d_sign val) * (10 ^ 65 - 1)))%Q
     else d_frac val' = d_frac val /\ (dec_Q val' == dec_Q val)%Q).
Proof.
  intros Hd Hlen Hr. destruct (check_result_some val mask result) as (conditions & E & Hc); [done|by rewrite Hlen| |].
  { simpl in *. intuition. }
  unfold check_result_and_overflow. rewrite E. cbn [mbind option_bind].
  assert (exists v, (if Z.land result E_DEC_OVERFLOW =? 0 then Some val else max ← max_internal_decimal val; Some (with_sign max (d_sign val))) = Some v /\
    dec_digits v /\ d_len v = d_len val /\
    (if result =? E_DEC_OVERFLOW then (dec_Q v == inject_Z (sg (d_sign val) * (10 ^ 65 - 1)))%Q else v = val)) as (v & -> & Hv & Lv & Qv).
  { destruct Hr as [<-|[<-|[<-|[]]]]; [by exists val..|]. cbv [E_DEC_OVERFLOW Z.land Z.eqb Pos.land].
    destruct (max_internal_decimal_spec val (proj1 Hd) Hlen) as (m & -> & W & Lm & Fm & Vm). cbn [mbind option_bind].
    eexists. split; [done|]. split; [apply with_sign_digits; split; [apply W|by left]|]. split; [done|].
    unfold dec_Q, dec_sval, sg. change (dec_val (with_sign m (d_sign val))) with (dec_val m). rewrite Vm. cbn [with_sign d_frac d_sign]. rewrite Fm.
    unfold Qeq, inject_Z. cbn [Qnum Qden]. change (Z.to_pos (DIG_BASE ^ ROUND_UP 0)) with 1%positive. generalize (10 ^ 65). intros x. change (2 =? 2)%positive with true. cbv match. destruct (d_sign val); lia. }
  assert ((result =? E_DEC_DIV_ZERO) = false) as -> by by destruct Hr as [<-|[<-|[<-|[]]]].
  cbn [mbind option_bind negb andb]. rewrite decimal_is_zero_digits by done.
  exists (if d_sign v then if dec_val v =? 0 then with_sign v false else v else v), conditions.
  assert ((result =? E_DEC_OVERFLOW) = false -> v = val) as Hval by (intros E0; by rewrite E0 in Qv).
  split_and!.
  - destruct (d_sign v); [|done]. by destruct (dec_val v =? 0).
  - destruct (d_sign v); [|done]. destruct (dec_val v =? 0); [by apply with_sign_digits|done].
  - destruct (d_sign v); [|done]. by destruct (dec_val v =? 0).
  - unfold dec_nz. destruct (d_sign v) eqn:Es; [|by rewrite Es]. by destruct (Z.eqb_spec (dec_val v) 0).
  - by symmetry.
  - assert (forall x, (dec_Q v == x)%Q -> (dec_Q (if d_sign v then if dec_val v =? 0 then with_sign v false else v else v) == x)%Q) as Hq.
    { intros x Hx. destruct (d_sign v); [|done]. destruct (Z.eqb_spec (dec_val v) 0) as [E0|]; [|done].
      rewrite <- Hx, (dec_Q_zero v E0). by apply dec_Q_zero. }
    destruct (result =? E_DEC_OVERFLOW); [by apply Hq|]. rewrite <- (Hval eq_refl). split; [|by apply Hq].
    destruct (d_sign v); [|done]. by destruct (dec_val v =? 0).
Qed.

(** C18: [my_decimal_div] of two numbers of the server.  A divisor of zero is reported
    and leaves the result alone.  Otherwise the result is never a negative zero:
    without an overflow it is the quotient cut to the digits it has, and with one it
    is the greatest number of 65 digits with the sign of the quotient, which is then
    at least half of what nine words hold.  A condition is pushed exactly when the caller's mask
    has the error. *)
Theorem my_decimal_div_correct mask res a b div_scale_inc : dec_wf a -> dec_wf b -> dec_room res -> d_len res = DECIMAL_BUFF_LENGTH ->
  let q := (dec_Q a / dec_Q b)%Q in
  exists res' error conditions, my_decimal_div mask res a b div_scale_inc = Some (res', error, conditions) /\
    (conditions = [] <-> Z.land error mask = 0) /\
    ((dec_Q b == 0)%Q -> error = E_DEC_DIV_ZERO /\ res' = res) /\
    (~ (dec_Q b == 0)%Q -> dec_digits res' /\ d_len res' = d_len res /\ dec_nz res' /\
      ((error = E_DEC_OK /\ (d_frac a + d_frac b + div_scale_inc <= d_frac res' \/ (dec_Q a == 0)%Q) \/ error = E_DEC_TRUNCATED) /\
        (dec_Q res' == round_Q TRUNCATE q (d_frac res'))%Q \/
       error = E_DEC_OVERFLOW /\ (inject_Z (10 ^ 81) < 2 * Qabs q)%Q /\
        (dec_Q res' == inject_Z (sg (xorb (d_sign a) (d_sign b)) * (10 ^ 65 - 1)))%Q)).
Proof.
  intros Ha Hb Hr Hlen q. destruct (decimal_div_spec a b res div_scale_inc Ha Hb Hr) as (to' & error & E & Hz & Hn). fold q in Hn.
  unfold my_decimal_div. rewrite E. cbn [mbind option_bind]. destruct (Qeq_bool (dec_Q b) 0) eqn:Eb.
  - apply Qeq_bool_iff in Eb. destruct (Hz Eb) as [-> ->]. exists res, E_DEC_DIV_ZERO.
    unfold check_result_and_overflow, check_result. destruct (Z.eqb_spec (Z.land E_DEC_DIV_ZERO mask) 0) as [Em|Em]; eexists; (split; [reflexivity|]);
      (split; [done|]); by split.
  - apply Qeq_bool_neq in Eb. destruct (Hn Eb) as (Dg & Ln & Hc).
    destruct (check_result_and_overflow_spec mask error to') as (v & conditions & Ev & Dv & Lv & Nv & Cv & Qv); [done|by rewrite Ln| |].
    { destruct Hc as [(_ & _ & [[-> _]|[-> _]])|[-> _]]; simpl; auto. }
    exists v, error, conditions. split; [done|]. split; [done|]. split; [done|]. intros _.
    split; [done|]. split; [by rewrite Lv|]. split; [done|].
    destruct Hc as [(_ & Hq & He)|(-> & Hq & Hs)]; [left|right].
    + assert ((error =? E_DEC_OVERFLOW) = false) as E0 by (by destruct He as [[-> _]|[-> _]]). rewrite E0 in Qv. destruct Qv as [Ef Qv].
      rewrite Ef. split; [|by rewrite Qv]. destruct He as [He|[He _]]; [by left|by right].
    + change (E_DEC_OVERFLOW =? E_DEC_OVERFLOW) with true in Qv. cbv match in Qv. rewrite Hs in Qv. split; [done|]. split; [|done].
      rewrite Hlen in Hq. exact Hq.
Qed.

(** ** Dates and times *)

Lemma ull2dec_words n sign to d e : ull2dec n sign to = Some (d, e) -> 3 <= d_len to ->
  exists j, 1 <= j <= 3 /\ d_intg d = j * 9 /\ d_len d = d_len to /\ (0 <= n < DIG_BASE * DIG_BASE -> j <= 2).
Proof.
  unfold ull2dec. intros E Hl. set (j := if n =? 0 then 1 else count_words 3 n) in E.
  assert (0 <= n < DIG_BASE * DIG_BASE -> j <= 2) as Hj2.
  { intros Hn. unfold j. cbn [count_words]. rewrite (Z.div_div n) by done. rewrite (Z.div_small n (DIG_BASE * DIG_BASE)) by done.
    destruct (n =? 0); [lia|]. destruct (n / DIG_BASE =? 0); simpl; lia. }
  assert (1 <= j <= 3) as Hj.
  { unfold j. cbn [count_words]. destruct (n =? 0); [lia|]. destruct (n / DIG_BASE =? 0); [lia|].
    destruct (n / DIG_BASE / DIG_BASE =? 0); [lia|]. destruct (n / DIG_BASE / DIG_BASE / DIG_BASE =? 0); lia. }
  rewrite (proj2 (Z.ltb_ge (d_len to) j)) in E by lia. destruct (store_down _ _ _); [|done]. injection E as <- <-.
  exists j. done.
Qed.

(** A word stored after the integer words, as six digits of a fraction. *)
Lemma store_micros d j rem : dec_wf d -> d_frac d = 0 -> d_intg d = j * 9 -> 1 <= j < d_len d -> d_sign d = false ->
  0 <= rem < DIG_BASE -> (1000 | rem) ->
  exists d1, (if rem =? 0 then Some d
              else buf ← wr (d_buf d) (Z.quot (d_intg d - 1) 9 + 1) (wraps 32 rem); Some (mk_decimal (d_intg d) 6 (d_len d) (d_sign d) buf)) = Some d1 /\
    dec_wf d1 /\ d_sign d1 = false /\ (dec_Q d1 == Qmake (dec_val d * DIG_BASE + rem) (Z.to_pos DIG_BASE))%Q /\
    d_intg d1 = d_intg d /\ 0 <= d_frac d1 <= 9.
Proof.
  intros Hd Hf Hi Hj Hs Hr Hdiv. destruct (Z.eqb_spec rem 0) as [->|Hne].
  - exists d. split_and!; try done; try lia. unfold dec_Q, dec_sval, Qeq. rewrite Hs, Hf. cbn [Qnum Qden].
    change (Z.to_pos (DIG_BASE ^ ROUND_UP 0)) with 1%positive. rewrite Z2Pos.id by done. lia.
  - pose proof (dec_words_length d Hd) as L. rewrite Hf, Hi, ROUND_UP_mul9 in L by lia. change (ROUND_UP 0) with 0 in L.
    pose proof (dec_buf_words d) as Eb. destruct (wf_room d Hd) as [Hl Hlen]. set (ws := dec_words d) in *.
    destruct (drop (length ws) (d_buf d)) as [|x rest] eqn:Ed; [rewrite Eb, app_nil_r in Hlen; lia|].
    rewrite Hi, Eb, (wr_middle ws x rest) by (Z.to_euclidean_division_equations; lia). cbn [mbind option_bind].
    rewrite wraps_id by (unfold in_s, DIG_BASE in *; lia). eexists. split; [done|].
    assert (ws ++ rem :: rest = (ws ++ [rem]) ++ rest) as -> by by rewrite <- app_assoc.
    pose proof (wf_words d Hd) as Fw. fold ws in Fw. pose proof (dval_bounds ws Fw) as Bw.
    assert (dval (ws ++ [rem]) = dec_val d * DIG_BASE + rem) as Ev by (rewrite dval_snoc; done).
    assert (Forall word_ok (ws ++ [rem])) as Fr by (apply Forall_app; split; [done|]; apply Forall_singleton; done).
    assert (dval (ws ++ [rem]) < 10 ^ (j * 9 + 9 * ROUND_UP 6)) as Ht.
    { pose proof (dval_bounds (ws ++ [rem])) as B. rewrite length_app, Nat2Z.inj_add, L, DIG_BASE_pow in B by lia. change (ROUND_UP 6) with 1.
      replace (j * 9 + 9 * 1) with (9 * (j + 0 + Z.of_nat (length [rem]))) by (simpl length; lia). by apply B. }
    destruct (mk_decimal_wf (j * 9) 6 (d_len d) (d_sign d) (ws ++ [rem]) rest) as [W V]; try done; try lia.
    + rewrite length_app, ROUND_UP_mul9 by lia. change (ROUND_UP 6) with 1. simpl length. lia.
    + rewrite <- app_assoc. simpl app. rewrite Hlen, Eb, !length_app. done.
    + rewrite Ev. change (10 ^ (9 * ROUND_UP 6 - 6)) with 1000. apply Z.divide_add_r; [|done]. apply Z.divide_mul_r. by exists 1000000.
    + split_and!; try done. unfold dec_Q, dec_sval. rewrite V, Ev. cbn [d_sign d_frac]. rewrite Hs. done.
Qed.

(** A number and nine digits after the point, the last three of which are zeroes. *)
Lemma lldiv_t2my_decimal_spec quot rem neg dec : dec_room dec -> d_len dec = DECIMAL_BUFF_LENGTH ->
  0 <= quot <= LLONG_MAX -> 0 <= rem < DIG_BASE -> (1000 | rem) ->
  exists d, lldiv_t2my_decimal quot rem neg dec = Some (d, []) /\ dec_wf d /\ dec_nz d /\
    (dec_Q d == Qmake (sg neg * (quot * DIG_BASE + rem)) (Z.to_pos DIG_BASE))%Q /\
    (quot < DIG_BASE * DIG_BASE -> d_intg d <= 18) /\ 0 <= d_frac d <= 9.
Proof.
  intros Hr Hlen Hq Hm Hdiv. unfold lldiv_t2my_decimal, int2my_decimal, longlong2decimal.
  rewrite (proj2 (Z.ltb_ge quot 0)), wrapu_id by (unfold in_u, LLONG_MAX in *; lia).
  destruct (ull2dec_spec quot false dec Hr) as (d & E & W & S & F & V); [unfold LLONG_MAX in Hq; lia|].
  assert (quot < DIG_BASE ^ d_len dec) as Hlt by (rewrite Hlen; unfold LLONG_MAX in Hq; apply Z.le_lt_trans with (2 ^ 63 - 1); [lia|done]).
  rewrite (proj2 (Z.ltb_lt _ _) Hlt) in E. rewrite Z.mod_small in V by (split; [apply Hq|done]).
  destruct (ull2dec_words _ _ _ _ _ E) as (j & Hj & Ei & Ld & Hj2); [rewrite Hlen; done|].
  assert (quot < DIG_BASE * DIG_BASE -> d_intg d <= 18) as Hi by (intros; lia).
  rewrite E. cbn [mbind option_bind]. unfold check_result. change (Z.land E_DEC_OK E_DEC_FATAL_ERROR =? 0) with true. cbv match. cbn [mbind option_bind].
  change (negb (E_DEC_OK =? 0)) with false. cbv match.
  destruct (store_micros d j rem W F Ei) as (d1 & -> & W1 & S1 & Q1 & I1 & F1); [rewrite Ld, Hlen; unfold DECIMAL_BUFF_LENGTH; lia|done..|].
  rewrite V in Q1. rewrite <- I1 in Hi.
  cbn [mbind option_bind]. destruct neg.
  - unfold my_decimal_neg. rewrite decimal_is_zero_spec by done. cbn [mbind option_bind]. rewrite S1.
    assert (dec_wf (with_sign d1 (if dec_val d1 =? 0 then false else negb false))) as W2 by (destruct W1; by split).
    eexists. split; [done|]. split; [done|]. destruct (Z.eqb_spec (dec_val d1) 0) as [E0|E0].
    + split; [done|]. split; [|done]. pose proof (dec_Q_zero d1 E0) as Q0. rewrite dec_Q_zero by done. rewrite Q1 in Q0. unfold Qeq in Q0 |- *. cbn [Qnum Qden] in *. unfold sg. lia.
    + split; [by intros _|]. split; [|done]. unfold dec_Q, dec_sval in Q1 |- *. rewrite S1 in Q1. cbn [with_sign d_sign d_frac negb]. change (dec_val (with_sign d1 true)) with (dec_val d1).
      unfold Qeq in Q1 |- *. cbn [Qnum Qden] in *. unfold sg. lia.
  - exists d1. split; [done|]. split; [done|]. split; [unfold dec_nz; by rewrite S1|]. split; [|done]. rewrite Q1. unfold sg. by rewrite Z.mul_1_l.
Qed.

(** The fields of a date or a time are in their ranges. *)
Definition time_ok (t : MYSQL_TIME) : Prop :=
  0 <= year t <= 9999 /\ 0 <= month t <= 12 /\ 0 <= day t <= 31 /\ 0 <= hour t <= 838 /\ 0 <= minute t <= 59 /\ 0 <= second t <= 59 /\
  0 <= second_part t <= 999999.

Lemma micros_Q neg n micros : (Qmake (sg neg * (n * DIG_BASE + micros * 1000)) (Z.to_pos DIG_BASE) ==
  inject_Z (sg neg) * (inject_Z n + Qmake micros 1000000))%Q.
Proof. unfold Qeq, Qmult, Qplus, inject_Z, DIG_BASE. simpl. lia. Qed.

(** A date with its time is the number YYYYMMDDhhmmss.ffffff, a date YYYYMMDD.ffffff
    and a time hhmmss.ffffff, with the sign of the time: no sum or product wraps, and
    no condition is pushed. *)
Theorem date_time_decimal t dec : time_ok t -> dec_room dec -> d_len dec = DECIMAL_BUFF_LENGTH ->
  let date := year t * 10000 + month t * 100 + day t in
  let time := hour t * 10000 + minute t * 100 + second t in
  let micros := Qmake (second_part t) 1000000 in
  (exists d, date2my_decimal t dec = Some (d, []) /\ dec_wf d /\ dec_nz d /\
     (dec_Q d == inject_Z (sg (neg t)) * (inject_Z (if has_time t then date * 1000000 + time else date) + micros))%Q) /\
  (exists d, time2my_decimal t dec = Some (d, []) /\ dec_wf d /\ dec_nz d /\
     (dec_Q d == inject_Z (sg (neg t)) * (inject_Z time + micros))%Q).
Proof.
  intros (Hy & Hmo & Hda & Hh & Hmi & Hse & Hsp) Hr Hlen date time micros.
  assert (0 <= date < 2 ^ 31 /\ 0 <= time < 2 ^ 31) as [Bd Bt] by (unfold date, time; lia).
  assert (wraps 64 (second_part t * 1000) = second_part t * 1000) as Em by (apply wraps_id; [done|unfold in_s; lia]).
  assert (TIME_to_ulonglong_date t = date) as Ed by (unfold TIME_to_ulonglong_date; fold date; apply wrapu_id; unfold in_u; lia).
  assert (TIME_to_ulonglong_time t = time) as Et by (unfold TIME_to_ulonglong_time; fold time; apply wrapu_id; unfold in_u; lia).
  assert (TIME_to_ulonglong_datetime t = date * 1000000 + time) as Edt.
  { unfold TIME_to_ulonglong_datetime, TIME_to_ulonglong_date, TIME_to_ulonglong_time in *. rewrite Ed, Et. apply wrapu_id. unfold in_u. lia. }
  assert (forall n, 0 <= n < 2 ^ 62 -> exists d, lldiv_t2my_decimal (wraps 64 n) (second_part t * 1000) (neg t) dec = Some (d, []) /\ dec_wf d /\ dec_nz d /\
    (dec_Q d == inject_Z (sg (neg t)) * (inject_Z n + micros))%Q) as H.
  { intros n Hn. rewrite wraps_id by (try done; unfold in_s; lia).
    destruct (lldiv_t2my_decimal_spec n (second_part t * 1000) (neg t) dec) as (d & E & W & N & Q & _); try done.
    - unfold LLONG_MAX. lia.
    - unfold DIG_BASE. lia.
    - apply Z.divide_factor_r.
    - exists d. split_and!; try done. rewrite Q. apply micros_Q. }
  unfold date2my_decimal, time2my_decimal. rewrite Em, Ed, Et, Edt. split; apply H; [destruct (has_time t)|]; lia.
Qed.

(** 2023-12-31 23:59:58.000007, with the sign set *)
Lemma date_time_decimal_witness :
  let t := mk_time 2023 12 31 23 59 58 7 true MYSQL_TIMESTAMP_DATETIME in
  exists d, date2my_decimal t (mk_decimal 0 0 9 false (replicate 9 0)) = Some (d, []) /\ (dec_Q d == - (20231231235958000007 # 1000000))%Q.
Proof.
  intros t. destruct (date_time_decimal t (mk_decimal 0 0 9 false (replicate 9 0))) as [(d & E & _ & _ & Q) _];
    [unfold time_ok; simpl; lia|done|done|].
  exists d. split; [exact E|]. rewrite Q. vm_compute. reflexivity.
Defined.

(** 1234.565, which a DECIMAL(6, 2) column takes as 1234.57 and an integer as 1235 *)
Definition ex_my_decimal : decimal_t := mk_decimal 4 3 9 false (1234 :: 565000000 :: replicate 7 0).

(** 64 digits before the point, which fill the array, and the largest precision *)
Lemma my_decimal_column_rounds_witness :
  let d := mk_decimal 64 2 9 false [1; 0; 0; 0; 0; 0; 0; 0; 160000000] in
  let to := mk_decimal 0 0 9 false (replicate 9 0) in
  exists bytes to', my_decimal2binary E_DEC_FATAL_ERROR d 65 1 = Some (bytes, E_DEC_TRUNCATED, []) /\
    binary2my_decimal E_DEC_FATAL_ERROR bytes to 65 1 = Some (to', E_DEC_OK, []) /\
    (dec_Q to' == inject_Z (10 ^ 63) + (2 # 10))%Q.
Proof.
  intros d to. destruct (my_decimal_column_rounds d to 65 1 E_DEC_FATAL_ERROR E_DEC_FATAL_ERROR)
    as (bytes & error & to' & E & _ & He & E' & _ & _ & Q); [by apply dec_wfb_wf|done|done|lia|lia|done|done|done|done|done|vm_compute; reflexivity|].
  destruct He as [[He Hq]|[He _]]; [exfalso; vm_compute in Hq; discriminate Hq|]. rewrite He in E.
  exists bytes, to'. split; [exact E|]. split; [exact E'|]. rewrite Q. vm_compute. reflexivity.
Defined.

Lemma my_decimal2int_rounds_witness :
  exists conditions, my_decimal2int E_DEC_FATAL_ERROR ex_my_decimal false (mk_decimal 0 0 9 false (replicate 9 0)) = Some (1235, E_DEC_OK, conditions).
Proof.
  destruct (my_decimal2int_rounds ex_my_decimal (mk_decimal 0 0 9 false (replicate 9 0)) E_DEC_FATAL_ERROR) as [(conditions & E & _) _];
    [by apply dec_wfb_wf|done|done|done|done|done|].
  exists conditions. exact E.
Defined.

(** -1 divided by zero *)
Lemma my_decimal_div_correct_witness :
  let one := mk_decimal 1 0 9 true (1 :: replicate 8 0) in
  let zero := mk_decimal 1 0 9 false (replicate 9 0) in
  exists res conditions, my_decimal_div E_DEC_FATAL_ERROR zero one zero 4 = Some (res, E_DEC_DIV_ZERO, conditions) /\ res = zero /\ conditions <> [].
Proof.
  intros one zero. destruct (my_decimal_div_correct E_DEC_FATAL_ERROR zero one zero 4) as (res & error & conditions & E & Hc & Hz & _);
    [by apply dec_wfb_wf|by apply dec_wfb_wf|done|done|].
  destruct Hz as [He Hr]; [vm_compute; reflexivity|]. rewrite He in E, Hc. exists res, conditions. split; [exact E|]. split; [exact Hr|].
  intros Hn. apply Hc in Hn. discriminate Hn.
Defined.
