(* ===== verification/SqlTime.v ===== *)
(** * Dates and times of the SQL layer

    [sql/sql_time.cc] and [sql/sql_time.h]: weekdays and weeks, the date of a day
    number, the addition of intervals, differences, rounding to a number of digits
    of the second, and the conversions between times and numbers.

    A function that changes the structure it is given returns the new one.  [None]
    is an assertion that fails or an access outside of a table. *)

From Stdlib Require Import ZArith Lia.
From stdpp Require Import base numbers option tactics list.
From S2P Require Import Prelude Decimal MyTime DecimalInt MyDecimal.

#[local] Open Scope Z_scope.

Definition WEEK_MONDAY_FIRST : Z := 1.
Definition WEEK_YEAR : Z := 2.
Definition WEEK_FIRST_WEEKDAY : Z := 4.

(** ** Days and weeks *)

Definition calc_weekday (daynr : Z) (sunday_first_day_of_week : bool) : Z :=
  Z.rem (daynr + 5 + (if sunday_first_day_of_week then 1 else 0)) 7.

(** The week, and the year it belongs to. *)
Definition calc_week (l_time : MYSQL_TIME) (week_behaviour : Z) : Z * Z :=
  let daynr := wrapu 64 (calc_daynr (year l_time) (month l_time) (day l_time)) in
  let first_daynr := wrapu 64 (calc_daynr (year l_time) 1 1) in
  let monday_first := flag week_behaviour WEEK_MONDAY_FIRST in
  let week_year := flag week_behaviour WEEK_YEAR in
  let first_weekday := flag week_behaviour WEEK_FIRST_WEEKDAY in
  let weekday := wrapu 32 (calc_weekday (wraps 64 first_daynr) (negb monday_first)) in
  let not_first weekday := (first_weekday && negb (weekday =? 0)) || (negb first_weekday && (4 <=? weekday)) in
  let rest first_daynr weekday year (week_year : bool) :=
    let days := if not_first weekday then wrapu 32 (daynr - (first_daynr + (7 - weekday))) else wrapu 32 (daynr - (first_daynr - weekday)) in
    let weekday := wrapu 32 (weekday + calc_days_in_year year) mod 7 in
    if week_year && (52 * 7 <=? days) && ((negb first_weekday && (weekday <? 4)) || (first_weekday && (weekday =? 0)))
    then (1, wrapu 32 (year + 1))
    else (days / 7 + 1, year) in
  if (month l_time =? 1) && (day l_time <=? wrapu 32 (7 - weekday)) then
    if negb week_year && not_first weekday then (0, year l_time)
    else
      let year := wrapu 32 (year l_time - 1) in
      let days := calc_days_in_year year in
      rest (wrapu 64 (first_daynr - days)) (wrapu 32 (weekday + 53 * 7 - days) mod 7) year true
  else rest first_daynr weekday (year l_time) week_year.

(** The loop over the years; [fuel] bounds the days that are left. *)
Fixpoint find_year (fuel : nat) (year day_of_year : Z) : option (Z * Z) :=
  match fuel with
  | O => None
  | S fuel =>
      let days_in_year := calc_days_in_year year in
      if days_in_year <? day_of_year then find_year fuel (wrapu 32 (year + 1)) (wrapu 32 (day_of_year - days_in_year))
      else Some (year, day_of_year)
  end.

(** The loop over the months. *)
Fixpoint find_month (month_pos : list Z) (ret_month day_of_year : Z) : option (Z * Z) :=
  match month_pos with
  | [] => None
  | days :: month_pos =>
      if days <? day_of_year then find_month month_pos (ret_month + 1) (wrapu 32 (day_of_year - days))
      else Some (ret_month, day_of_year)
  end.

Definition get_date_from_daynr (daynr : Z) : option (Z * Z * Z) :=
  if (daynr <=? 365) || (3652500 <=? daynr) then Some (0, 0, 0)
  else
    let year := wrapu 32 (Z.quot (daynr * 100) 36525) in
    let temp := wrapu 32 ((wrapu 32 (year - 1) / 100 + 1) * 3) / 4 in
    let day_of_year := wrapu 32 (wrapu 32 (daynr - year * 365) - wrapu 32 (year - 1) / 4 + temp) in
    '(year, day_of_year) ← find_year (Z.to_nat day_of_year) year day_of_year;
    let '(day_of_year, leap_day) :=
      if (calc_days_in_year year =? 366) && (31 + 28 <? day_of_year) then
        (day_of_year - 1, if day_of_year - 1 =? 31 + 28 then 1 else 0)
      else (day_of_year, 0) in
    '(month, day) ← find_month days_in_month 1 day_of_year;
    Some (year, month, day + leap_day).

Definition convert_period_to_month (period : Z) : Z :=
  if period =? 0 then 0
  else
    let a := period / 100 in
    let a := if a <? YY_PART_YEAR then a + 2000 else if a <? 100 then a + 1900 else a in
    let b := period mod 100 in
    wrapu 64 (a * 12 + b - 1).

Definition convert_month_to_period (month : Z) : Z :=
  if month =? 0 then 0
  else
    let year := month / 12 in
    let year := if year <? 100 then year + (if year <? YY_PART_YEAR then 2000 else 1900) else year in
    wrapu 64 (year * 100 + month mod 12 + 1).

(** ** Intervals *)

Record Interval := mk_interval {
  i_year : Z; i_month : Z; i_day : Z; i_hour : Z;
  i_minute : Z; i_second : Z; i_second_part : Z;
  i_neg : bool
}.

Inductive interval_type :=
| INTERVAL_YEAR | INTERVAL_QUARTER | INTERVAL_MONTH | INTERVAL_WEEK | INTERVAL_DAY
| INTERVAL_HOUR | INTERVAL_MINUTE | INTERVAL_SECOND | INTERVAL_MICROSECOND
| INTERVAL_YEAR_MONTH | INTERVAL_DAY_HOUR | INTERVAL_DAY_MINUTE
| INTERVAL_DAY_SECOND | INTERVAL_HOUR_MINUTE | INTERVAL_HOUR_SECOND
| INTERVAL_MINUTE_SECOND | INTERVAL_DAY_MICROSECOND | INTERVAL_HOUR_MICROSECOND
| INTERVAL_MINUTE_MICROSECOND | INTERVAL_SECOND_MICROSECOND | INTERVAL_LAST.

Definition MAX_DAY_NUMBER : Z := 3652424.

(** [Invalid_date] pushes ER_DATETIME_FUNCTION_OVERFLOW, [Null_date] nothing. *)
Inductive add_status := Date_ok | Invalid_date | Null_date.

(** The units below a day. *)
Definition add_seconds (ltime : MYSQL_TIME) (interval : Interval) (sign : Z) : option (MYSQL_TIME * add_status) :=
  let ltime := set_time_type ltime MYSQL_TIMESTAMP_DATETIME in
  let microseconds := wraps 64 (second_part ltime + sign * i_second_part interval) in
  let extra_sec := Z.quot microseconds 1000000 in
  let microseconds := Z.rem microseconds 1000000 in
  let sec := wraps 64 (wrapu 32 (wrapu 32 (day ltime - 1) * 3600) * 24 + wrapu 32 (hour ltime * 3600) + wrapu 32 (minute ltime * 60) + second ltime +
                       sign * wraps 64 (i_day interval * 3600 * 24 + i_hour interval * 3600 + i_minute interval * 60 + i_second interval) +
                       extra_sec) in
  let '(microseconds, sec) := if microseconds <? 0 then (microseconds + 1000000, wraps 64 (sec - 1)) else (microseconds, sec) in
  let days := Z.quot sec (3600 * 24) in
  let sec := sec - days * 3600 * 24 in
  let '(days, sec) := if sec <? 0 then (days - 1, sec + 3600 * 24) else (days, sec) in
  let ltime := set_clock (set_second_part ltime microseconds) (Z.quot sec 3600) (Z.rem (Z.quot sec 60) 60) (Z.rem sec 60) in
  let daynr := calc_daynr (year ltime) (month ltime) 1 + days in
  if MAX_DAY_NUMBER <? wrapu 64 daynr then Some (ltime, Invalid_date)
  else '(y, m, d) ← get_date_from_daynr daynr; Some (set_date ltime y m d, Date_ok).

Definition add_days (ltime : MYSQL_TIME) (interval : Interval) (sign : Z) : option (MYSQL_TIME * add_status) :=
  let period := wraps 64 (calc_daynr (year ltime) (month ltime) (day ltime) + sign * wraps 64 (i_day interval)) in
  if MAX_DAY_NUMBER <? wrapu 64 period then Some (ltime, Invalid_date)
  else '(y, m, d) ← get_date_from_daynr period; Some (set_date ltime y m d, Date_ok).

Definition add_years (ltime : MYSQL_TIME) (interval : Interval) (sign : Z) : option (MYSQL_TIME * add_status) :=
  let ltime := set_date ltime (wrapu 32 (year ltime + sign * wraps 64 (i_year interval))) (month ltime) (day ltime) in
  if 10000 <=? year ltime then Some (ltime, Invalid_date)
  else if (month ltime =? 2) && (day ltime =? 29) && negb (calc_days_in_year (year ltime) =? 366)
  then Some (set_date ltime (year ltime) (month ltime) 28, Date_ok)
  else Some (ltime, Date_ok).

Definition add_months (ltime : MYSQL_TIME) (interval : Interval) (sign : Z) : option (MYSQL_TIME * add_status) :=
  let period := wraps 64 (wrapu 32 (year ltime * 12) + sign * wraps 64 (i_year interval) * 12 + month ltime - 1 + sign * wraps 64 (i_month interval)) in
  if 120000 <=? wrapu 64 period then Some (ltime, Invalid_date)
  else
    let ltime := set_date ltime (Z.quot period 12) (Z.rem period 12 + 1) (day ltime) in
    days ← days_in_month !! Z.to_nat (month ltime - 1);
    let day :=
      if days <? day ltime then days + (if (month ltime =? 2) && (calc_days_in_year (year ltime) =? 366) then 1 else 0) else day ltime in
    Some (set_date ltime (year ltime) (month ltime) day, Date_ok).

Definition date_add_interval (ltime : MYSQL_TIME) (int_type : interval_type) (interval : Interval) : option (MYSQL_TIME * add_status) :=
  let ltime := set_neg ltime false in
  let sign := if i_neg interval then -1 else 1 in
  match int_type with
  | INTERVAL_SECOND | INTERVAL_SECOND_MICROSECOND | INTERVAL_MICROSECOND | INTERVAL_MINUTE | INTERVAL_HOUR | INTERVAL_MINUTE_MICROSECOND
  | INTERVAL_MINUTE_SECOND | INTERVAL_HOUR_MICROSECOND | INTERVAL_HOUR_SECOND | INTERVAL_HOUR_MINUTE | INTERVAL_DAY_MICROSECOND
  | INTERVAL_DAY_SECOND | INTERVAL_DAY_MINUTE | INTERVAL_DAY_HOUR => add_seconds ltime interval sign
  | INTERVAL_DAY | INTERVAL_WEEK => add_days ltime interval sign
  | INTERVAL_YEAR => add_years ltime interval sign
  | INTERVAL_YEAR_MONTH | INTERVAL_QUARTER | INTERVAL_MONTH => add_months ltime interval sign
  | INTERVAL_LAST => Some (ltime, Null_date)
  end.

(** ** Differences and comparisons *)

(** The sign, the seconds and the microseconds. *)
Definition calc_time_diff (l_time1 l_time2 : MYSQL_TIME) (l_sign : Z) : bool * Z * Z :=
  let days :=
    if bool_decide (time_type l_time1 = MYSQL_TIMESTAMP_TIME) then day l_time1 - l_sign * day l_time2
    else calc_daynr (year l_time1) (month l_time1) (day l_time1) -
         l_sign * (if bool_decide (time_type l_time2 = MYSQL_TIMESTAMP_TIME) then day l_time2
                   else calc_daynr (year l_time2) (month l_time2) (day l_time2)) in
  let microseconds :=
    wraps 64 ((days * SECONDS_IN_24H + (hour l_time1 * 3600 + minute l_time1 * 60 + second l_time1) -
               l_sign * (hour l_time2 * 3600 + minute l_time2 * 60 + second l_time2)) * 1000000 +
              second_part l_time1 - l_sign * second_part l_time2) in
  let neg := microseconds <? 0 in
  let microseconds := if neg then wraps 64 (- microseconds) else microseconds in
  (neg, Z.quot microseconds 1000000, Z.rem microseconds 1000000).

Definition my_time_compare (a b : MYSQL_TIME) : Z :=
  let a_t := TIME_to_ulonglong_datetime a in
  let b_t := TIME_to_ulonglong_datetime b in
  if a_t <? b_t then -1 else if b_t <? a_t then 1
  else if second_part a <? second_part b then -1 else if second_part b <? second_part a then 1
  else 0.

Definition calc_time_from_sec (to : MYSQL_TIME) (seconds microseconds : Z) : MYSQL_TIME :=
  let t_seconds := Z.rem seconds 3600 in
  set_second_part (set_clock (set_date (set_time_type to MYSQL_TIMESTAMP_TIME) 0 0 0)
                     (wrapu 32 (Z.quot seconds 3600)) (wrapu 32 (Z.quot t_seconds 60)) (wrapu 32 (Z.rem t_seconds 60)))
    (wrapu 64 microseconds).

Definition mix_date_and_time (ldate ltime : MYSQL_TIME) : option MYSQL_TIME :=
  if negb (neg ltime) && (hour ltime <? 24) then
    Some (set_time_type (set_second_part (set_clock ldate (hour ltime) (minute ltime) (second ltime)) (second_part ltime)) MYSQL_TIMESTAMP_DATETIME)
  else
    let sign := if neg ltime then 1 else -1 in
    let '(neg, seconds, useconds) := calc_time_diff ldate ltime sign in
    if neg then None
    else
      let days := Z.quot seconds SECONDS_IN_24H in
      '(y, m, d) ← get_date_from_daynr days;
      Some (set_time_type (set_date (calc_time_from_sec (set_neg ldate neg) (Z.rem seconds SECONDS_IN_24H) useconds) y m d) MYSQL_TIMESTAMP_DATETIME).

(** ** Rounding *)

Definition non_zero_date (ltime : MYSQL_TIME) : bool := negb (year ltime =? 0) || negb (month ltime =? 0) || negb (day ltime =? 0).
Definition non_zero_time (ltime : MYSQL_TIME) : bool :=
  negb (hour ltime =? 0) || negb (minute ltime =? 0) || negb (second ltime =? 0) || negb (second_part ltime =? 0).

(** The carry from the microseconds. *)
Definition carry_second (ltime : MYSQL_TIME) : MYSQL_TIME :=
  if second ltime <? 59 then set_clock ltime (hour ltime) (minute ltime) (second ltime + 1)
  else if minute ltime <? 59 then set_clock ltime (hour ltime) (minute ltime + 1) 0
  else set_clock ltime (wrapu 32 (hour ltime + 1)) 0 0.

(** The time and the warnings; there is no error. *)
Definition time_add_nanoseconds_with_round (ltime : MYSQL_TIME) (nanoseconds warnings : Z) : MYSQL_TIME * Z :=
  if nanoseconds <? 500 then (ltime, warnings)
  else
    let us := second_part ltime + (nanoseconds + 500) / 1000 in
    if us <? 1000000 then adjust_time_range (set_second_part ltime us) warnings
    else adjust_time_range (carry_second (set_second_part ltime (us mod 1000000))) warnings.

(** The result, the time and the warnings. *)
Definition datetime_add_nanoseconds_with_round (ltime : MYSQL_TIME) (nanoseconds warnings : Z) : option (bool * MYSQL_TIME * Z) :=
  if nanoseconds <? 500 then Some (false, ltime, warnings)
  else
    let us := second_part ltime + (nanoseconds + 500) / 1000 in
    if us <? 1000000 then Some (false, set_second_part ltime us, warnings)
    else
      let ltime := set_second_part ltime (us mod 1000000) in
      let interval := mk_interval 0 0 0 0 0 1 0 false in
      '(bad, warnings) ← check_date ltime (non_zero_date ltime) (Z.lor TIME_NO_ZERO_IN_DATE TIME_NO_ZERO_DATE) warnings;
      if (bad : bool) then Some (true, ltime, warnings)
      else
        '(ltime, r) ← date_add_interval ltime INTERVAL_SECOND interval;
        match r with
        | Date_ok => Some (false, ltime, warnings)
        | _ => Some (true, ltime, Z.lor warnings MYSQL_TIME_WARN_OUT_OF_RANGE)
        end.

Definition msec_round_add_table : list Z := [500000000; 50000000; 5000000; 500000; 50000; 5000; 0].
Definition msec_round_add (dec : Z) : option Z := msec_round_add_table !! Z.to_nat dec.

Definition my_time_fraction_remainder (nr decimals : Z) : Z := Z.rem nr (log_10_int (DATETIME_MAX_DECIMALS - decimals)).
Definition my_time_trunc (ltime : MYSQL_TIME) (decimals : Z) : MYSQL_TIME :=
  set_second_part ltime (second_part ltime - my_time_fraction_remainder (second_part ltime) decimals).

Definition my_time_round (ltime : MYSQL_TIME) (dec : Z) : option MYSQL_TIME :=
  ns ← msec_round_add dec; Some (my_time_trunc (time_add_nanoseconds_with_round ltime ns 0).1 dec).

Definition my_datetime_round (ltime : MYSQL_TIME) (dec warnings : Z) : option (bool * MYSQL_TIME * Z) :=
  ns ← msec_round_add dec;
  '(rc, ltime, warnings) ← datetime_add_nanoseconds_with_round ltime ns warnings;
  Some (rc, my_time_trunc ltime dec, warnings).

(** [TIMESTAMP_MAX_VALUE] and [TIMESTAMP_MIN_VALUE] bound what a timestamp may be. *)
Definition IS_TIME_T_VALID_FOR_TIMESTAMP (x : Z) : bool := (x <=? 2 ^ 31 - 1) && (1 <=? x).

Definition my_timeval_trunc (tv : Z * Z) (decimals : Z) : Z * Z := (tv.1, tv.2 - my_time_fraction_remainder tv.2 decimals).

(** The result, and the [struct timeval]. *)
Definition my_timeval_round (tv : Z * Z) (decimals : Z) : option (bool * (Z * Z)) :=
  nanoseconds ← msec_round_add decimals;
  let '(tv_sec, tv_usec) := tv in
  let tv_usec := tv_usec + (nanoseconds + 500) / 1000 in
  if tv_usec <? 1000000 then Some (false, my_timeval_trunc (tv_sec, tv_usec) decimals)
  else if IS_TIME_T_VALID_FOR_TIMESTAMP (tv_sec + 1) then Some (false, my_timeval_trunc (tv_sec + 1, 0) decimals)
  else Some (true, (2 ^ 31 - 1, 0)).

Definition TIME_to_ulonglong_datetime_round (ltime : MYSQL_TIME) : option Z :=
  if second_part ltime <? 500000 then Some (TIME_to_ulonglong_datetime ltime)
  else if second ltime <? 59 then Some (wrapu 64 (TIME_to_ulonglong_datetime ltime + 1))
  else '(_, tmp, _) ← my_datetime_round ltime 0 0; Some (TIME_to_ulonglong_datetime tmp).

Definition TIME_to_ulonglong_time_round (ltime : MYSQL_TIME) : option Z :=
  if second_part ltime <? 500000 then Some (TIME_to_ulonglong_time ltime)
  else if second ltime <? 59 then Some (wrapu 64 (TIME_to_ulonglong_time ltime + 1))
  else tmp ← my_time_round ltime 0; Some (TIME_to_ulonglong_time tmp).

Definition TIME_to_ulonglong_round (ltime : MYSQL_TIME) : option Z :=
  match time_type ltime with
  | MYSQL_TIMESTAMP_TIME => TIME_to_ulonglong_time_round ltime
  | MYSQL_TIMESTAMP_DATETIME => TIME_to_ulonglong_datetime_round ltime
  | MYSQL_TIMESTAMP_DATE => Some (TIME_to_ulonglong_date ltime)
  | _ => None
  end.

(** ** From numbers *)

(** The result, the time and the warnings. *)
Definition lldiv_t_to_datetime (quot rem : Z) (ltime : MYSQL_TIME) (flags warnings : Z) : option (bool * MYSQL_TIME * Z) :=
  '(nr, ltime, warnings) ← (if rem <? 0 then Some (-1, ltime, warnings) else number_to_datetime quot flags);
  if nr =? -1 then
    Some (true, set_zero_time MYSQL_TIMESTAMP_ERROR, if warnings =? 0 then Z.lor warnings MYSQL_TIME_WARN_TRUNCATED else warnings)
  else if bool_decide (time_type ltime = MYSQL_TIMESTAMP_DATE) then
    Some (false, ltime, if negb (rem =? 0) && negb (flag flags TIME_NO_DATE_FRAC_WARN) then Z.lor warnings MYSQL_TIME_WARN_TRUNCATED else warnings)
  else if negb (flag flags TIME_NO_NSEC_ROUNDING) then
    datetime_add_nanoseconds_with_round (set_second_part ltime (Z.quot rem 1000)) (Z.rem rem 1000) warnings
  else Some (false, ltime, warnings).

Definition lldiv_t_to_time (quot rem : Z) (ltime : MYSQL_TIME) (warnings : Z) : option (bool * MYSQL_TIME * Z) :=
  '(bad, ltime, warnings) ← number_to_time quot ltime warnings;
  if (bad : bool) then Some (true, ltime, warnings)
  else
    let ltime := set_neg ltime (neg ltime || (rem <? 0)) in
    let rem := if neg ltime then - rem else rem in
    let '(ltime, warnings) := time_add_nanoseconds_with_round (set_second_part ltime (wrapu 64 (Z.quot rem 1000))) (wrapu 32 (Z.rem rem 1000)) warnings in
    Some (false, ltime, warnings).

(** The result, the time, and whether the warning of a truncated value is made. *)
Definition my_decimal_to_datetime_with_warn (decimal : decimal_t) (ltime : MYSQL_TIME) (flags : Z) : option (bool * MYSQL_TIME * bool) :=
  '(quot, rem, rc, _) ← my_decimal2lldiv_t 0 decimal;
  '(rc, ltime, warnings) ← (if negb (rc =? 0) then Some (true, set_zero_time MYSQL_TIMESTAMP_NONE, MYSQL_TIME_WARN_TRUNCATED)
                            else lldiv_t_to_datetime quot rem ltime flags 0);
  Some (rc, ltime, negb (warnings =? 0)).

Definition my_decimal_to_time_with_warn (decimal : decimal_t) (ltime : MYSQL_TIME) : option (bool * MYSQL_TIME * bool) :=
  '(quot, rem, rc, _) ← my_decimal2lldiv_t 0 decimal;
  '(rc, ltime, warnings) ← (if negb (rc =? 0) then Some (true, set_zero_time MYSQL_TIMESTAMP_TIME, MYSQL_TIME_WARN_TRUNCATED)
                            else lldiv_t_to_time quot rem ltime 0);
  Some (rc, ltime, negb (warnings =? 0)).

Definition my_longlong_to_datetime_with_warn (nr flags : Z) : option (bool * MYSQL_TIME * bool) :=
  '(n, ltime, warnings) ← number_to_datetime nr flags; Some (n =? -1, ltime, negb (warnings =? 0)).

Definition my_longlong_to_time_with_warn (nr : Z) (ltime : MYSQL_TIME) : option (bool * MYSQL_TIME * bool) :=
  '(rc, ltime, warnings) ← number_to_time nr ltime 0; Some (rc, ltime, negb (warnings =? 0)).
