(* ===== verification/Calendar.v ===== *)
(** * Dates and times: the calendar

    Day numbers count the days of the Gregorian calendar, the date of a day number
    is the inverse, and weeks are numbered as ISO 8601 or the other modes of
    [calc_week] ask for. *)

From Stdlib Require Import ZArith Lia.
From stdpp Require Import base numbers option tactics list.
From S2P Require Import Prelude MyTime SqlTime.

#[local] Open Scope Z_scope.

(** ** The calendar *)

(** The days of the years before a year. *)
Fixpoint days_before (n : nat) : Z :=
  match n with
  | O => 0
  | S n => days_before n + calc_days_in_year (Z.of_nat n)
  end.

Definition year_start (y : Z) : Z := days_before (Z.to_nat y).

Definition month_days (y m : Z) : Z :=
  days_in_month !!! Z.to_nat (m - 1) + (if (m =? 2) && (calc_days_in_year y =? 366) then 1 else 0).

(** The days of the months before a month. *)
Definition month_start (y m : Z) : Z := zsum (month_days y) (map Z.of_nat (seq 1 (Z.to_nat (m - 1)))).

Definition date_ok (y m d : Z) : Prop := 1 <= m <= 12 /\ 1 <= d <= month_days y m.

Lemma year_start_succ y : 0 <= y -> year_start (y + 1) = year_start y + calc_days_in_year y.
Proof. intros Hy. unfold year_start. replace (Z.to_nat (y + 1)) with (S (Z.to_nat y)) by lia. simpl. by rewrite Z2Nat.id by lia. Qed.

Lemma days_in_year_cases y : 0 <= y ->
  calc_days_in_year y = 365 + (if (y mod 4 =? 0) && (negb (y mod 100 =? 0) || ((y mod 400 =? 0) && negb (y =? 0))) then 1 else 0).
Proof.
  intros Hy. unfold calc_days_in_year. change 3 with (Z.ones 2). rewrite Z.land_ones by lia. change (2 ^ 2) with 4. by destruct (_ && _).
Qed.

Lemma days_in_year_range y : 365 <= calc_days_in_year y <= 366.
Proof. unfold calc_days_in_year. destruct (_ && _); lia. Qed.

(** The number of leap days, in closed form. *)
Lemma year_start_closed y : 1 <= y -> year_start y = 365 * y + (y - 1) / 4 - (y - 1) / 100 + (y - 1) / 400.
Proof.
  intros Hy. pattern y. apply Z.le_ind with (n := 1); [intros ? ? ->; done|done| |done].
  intros z Hz IH. change (Z.succ z) with (z + 1). rewrite year_start_succ, IH, days_in_year_cases by lia. clear IH.
  replace (z + 1 - 1) with z by lia. zcases; Z.to_euclidean_division_equations; lia.
Qed.

Lemma twelve_months m : 1 <= m <= 12 ->
  m = 1 \/ m = 2 \/ m = 3 \/ m = 4 \/ m = 5 \/ m = 6 \/ m = 7 \/ m = 8 \/ m = 9 \/ m = 10 \/ m = 11 \/ m = 12.
Proof. lia. Qed.

Ltac months H := apply twelve_months in H; repeat (destruct H as [H|H]); subst.

Lemma leap_or_not y : calc_days_in_year y = 365 \/ calc_days_in_year y = 366.
Proof. pose proof (days_in_year_range y). lia. Qed.

Lemma month_start_closed y m : 1 <= m <= 12 ->
  month_start y m = 31 * (m - 1) - (if m <=? 2 then 0 else (4 * m + 23) / 10 - (calc_days_in_year y - 365)).
Proof. intros Hm. unfold month_start, month_days. destruct (leap_or_not y) as [-> | ->]; months Hm; vm_compute; done. Qed.

Lemma month_days_range y m : 1 <= m <= 12 -> 28 <= month_days y m <= 31.
Proof. intros Hm. unfold month_days. destruct (leap_or_not y) as [-> | ->]; months Hm; vm_compute; split; intros [=]. Qed.

Lemma month_start_succ y m : 1 <= m -> month_start y (m + 1) = month_start y m + month_days y m.
Proof.
  intros Hm. unfold month_start. replace (Z.to_nat (m + 1 - 1)) with (Z.to_nat (m - 1) + 1)%nat by lia.
  rewrite seq_app, map_app, zsum_app. f_equal. simpl. rewrite Z.add_0_r. f_equal. lia.
Qed.

Lemma date_ok_range y m d : date_ok y m d -> 1 <= m <= 12 /\ 1 <= d <= 31.
Proof. intros [Hm Hd]. pose proof (month_days_range y m Hm). lia. Qed.

(** The day of the year is within the year. *)
Lemma day_of_year_range y m d : date_ok y m d -> 1 <= month_start y m + d <= calc_days_in_year y.
Proof.
  intros [Hm Hd]. revert Hd. rewrite month_start_closed by done. unfold month_days.
  destruct (leap_or_not y) as [-> | ->]; months Hm; set (days := days_in_month !!! _); vm_compute in days; subst days; simpl; Z.div_mod_to_equations; lia.
Qed.

Lemma calc_daynr_plain y m d : 0 <= y <= 10000 -> 1 <= m <= 12 -> 0 <= d <= 31 ->
  calc_daynr y m d =
    let y' := if m <=? 2 then y - 1 else y in
    365 * y + 31 * (m - 1) + d - (if m <=? 2 then 0 else (m * 4 + 23) / 10) + Z.quot y' 4 - (Z.quot y' 100 + 1) * 3 / 4.
Proof.
  intros Hy Hm Hd. unfold calc_daynr. rewrite (wraps_id 32 y), (wraps_id 32 m), (wraps_id 32 d) by (try done; unfold in_s; lia).
  rewrite wraps_id by (try done; unfold in_s; lia).
  rewrite (proj2 (Z.eqb_neq m 0)) by lia. rewrite andb_false_r.
  destruct (Z.leb_spec m 2); simpl; Z.to_euclidean_division_equations; lia.
Qed.

(** [calc_daynr] with the first day of the year and of the month. *)
Lemma calc_daynr_spec y m d : 0 <= y <= 10000 -> 1 <= m <= 12 -> 0 <= d <= 31 ->
  calc_daynr y m d = year_start y + month_start y m + d.
Proof.
  intros Hy Hm Hd. rewrite calc_daynr_plain, month_start_closed by done. destruct (Z.eq_dec y 0) as [->|Hn].
  { change (year_start 0) with 0. change (calc_days_in_year 0) with 365. 
    cbv zeta. destruct (Z.leb_spec m 2); Z.to_euclidean_division_equations; lia. }
  rewrite year_start_closed, days_in_year_cases by lia. cbv zeta.
  destruct (Z.leb_spec m 2); zcases; rewrite ?(Z.mul_comm 4 m); Z.to_euclidean_division_equations; lia.
Qed.

(** ** The date of a day number *)

Lemma year_start_mono y1 y2 : 0 <= y1 <= y2 -> year_start y1 <= year_start y2.
Proof.
  intros [H1 H2]. pattern y2. apply Z.le_ind with (n := y1); [intros ? ? ->; done|done| |done].
  intros z Hz IH. change (Z.succ z) with (z + 1). rewrite year_start_succ by lia. pose proof (days_in_year_range z). lia.
Qed.

(** A day number has one year. *)
Lemma year_unique y1 d1 y2 d2 : 0 <= y1 -> 0 <= y2 -> 1 <= d1 <= calc_days_in_year y1 -> 1 <= d2 <= calc_days_in_year y2 ->
  year_start y1 + d1 = year_start y2 + d2 -> y1 = y2 /\ d1 = d2.
Proof.
  intros P1 P2 H1 H2 E. assert (y1 = y2) as <-; [|lia].
  destruct (Z.lt_trichotomy y1 y2) as [L|[?|L]]; [exfalso|done|exfalso].
  - pose proof (year_start_mono (y1 + 1) y2 ltac:(lia)) as M. rewrite year_start_succ in M by lia. lia.
  - pose proof (year_start_mono (y2 + 1) y1 ltac:(lia)) as M. rewrite year_start_succ in M by lia. lia.
Qed.

Lemma find_year_spec fuel y d : 0 <= y -> 1 <= d <= Z.of_nat fuel -> y + d < 2 ^ 32 ->
  exists y' d', find_year fuel y d = Some (y', d') /\ 0 <= y' /\ year_start y' + d' = year_start y + d /\ 1 <= d' <= calc_days_in_year y'.
Proof.
  revert y d. induction fuel as [|fuel IH]; intros y d Hy Hd Hw; [lia|]. simpl.
  pose proof (days_in_year_range y). destruct (Z.ltb_spec (calc_days_in_year y) d); [|exists y, d; split_and!; try done; lia].
  rewrite !wrapu_id by (unfold in_u; lia). destruct (IH (y + 1) (d - calc_days_in_year y)) as (y' & d' & E & P & Q & R); [lia..|].
  exists y', d'. split_and!; try done; rewrite ?Q, ?year_start_succ; lia.
Qed.

(** The last part of [get_date_from_daynr], for a year of 365 or 366 days. *)
Definition month_of (days_in_year day_of_year : Z) : option (Z * Z) :=
  let '(day_of_year, leap_day) :=
    if (days_in_year =? 366) && (31 + 28 <? day_of_year) then (day_of_year - 1, if day_of_year - 1 =? 31 + 28 then 1 else 0)
    else (day_of_year, 0) in
  '(month, day) ← find_month days_in_month 1 day_of_year; Some (month, day + leap_day).

Lemma all_upto (P : Z -> bool) n d : forallb (fun k => P (Z.of_nat k)) (seq 1 n) = true -> 1 <= d <= Z.of_nat n -> P d = true.
Proof. intros H Hd. rewrite forallb_forall in H. rewrite <- (Z2Nat.id d) by lia. apply H, in_seq. lia. Qed.

Lemma month_of_spec y m d : date_ok y m d -> month_of (calc_days_in_year y) (month_start y m + d) = Some (m, d).
Proof.
  intros [Hm Hd]. rewrite month_start_closed by done. revert Hd. unfold month_days.
  set (found := fun diy k d => match month_of diy (k + d) with Some (m', d') => (m' =? m) && (d' =? d) | None => false end).
  assert (forall diy n k, forallb (fun d => found diy k (Z.of_nat d)) (seq 1 (Z.to_nat n)) = true ->
    1 <= d <= n -> month_of diy (k + d) = Some (m, d)) as H.
  { intros diy n k H Hd. apply (all_upto (found diy k) _ d) in H; [|lia]. unfold found in H.
    destruct (month_of diy (k + d)) as [[m' d']|]; [|done]. apply andb_prop in H as [->%Z.eqb_eq ->%Z.eqb_eq]. done. }
  destruct (leap_or_not y) as [-> | ->]; months Hm; apply H; vm_compute; reflexivity.
Qed.

(** The estimate of the year is not beyond the year. *)
Lemma year_estimate n : 365 < n < 3652500 -> let y := n * 100 / 36525 in 1 <= y <= 10000 /\ year_start y < n.
Proof. intros Hn y. assert (1 <= y <= 10000) by (unfold y; Z.to_euclidean_division_equations; lia). split; [done|].
  rewrite year_start_closed by lia. unfold y in *. Z.to_euclidean_division_equations. lia. Qed.

Lemma century_words c : 0 <= c -> (c + 1) * 3 / 4 = c - c / 4.
Proof. intros Hc. Z.div_mod_to_equations. lia. Qed.

Lemma day_of_year_words n y : 1 <= y <= 10000 /\ year_start y < n -> n < 3652500 ->
  wrapu 32 (wrapu 32 (n - y * 365) - (y - 1) / 4 + wrapu 32 (((y - 1) / 100 + 1) * 3) / 4) = n - year_start y.
Proof.
  intros [Hy Hs] Hn. rewrite year_start_closed in Hs |- * by lia.
  assert (0 <= (y - 1) / 100 <= 100) by (Z.div_mod_to_equations; lia). assert (0 <= (y - 1) / 4 <= 2500) by (Z.div_mod_to_equations; lia).
  assert ((y - 1) / 100 <= (y - 1) / 4) by (apply Z.div_le_compat_l; lia).
  assert ((y - 1) / 400 = (y - 1) / 100 / 4) as E by (rewrite Z.div_div by lia; done). assert (0 <= (y - 1) / 400) by (apply Z.div_pos; lia).
  rewrite (wrapu_id 32 (_ * 3)) by (unfold in_u; lia). rewrite century_words, <- E by lia.
  rewrite (wrapu_id 32 (n - _)) by (unfold in_u; lia). rewrite wrapu_id by (unfold in_u; lia). lia.
Qed.

Lemma get_date_from_daynr_spec y m d : 1 <= y <= 9999 -> date_ok y m d ->
  get_date_from_daynr (year_start y + month_start y m + d) = Some (y, m, d).
Proof.
  intros Hy Hd. pose proof (day_of_year_range y m d Hd) as R. set (n := year_start y + month_start y m + d).
  assert (365 < n < 3652500) as Hn.
  { pose proof (year_start_mono 1 y ltac:(lia)) as M1. pose proof (year_start_mono (y + 1) 10000 ltac:(lia)) as M2.
    rewrite year_start_succ in M2 by lia. rewrite (year_start_closed 1) in M1 by lia. rewrite (year_start_closed 10000) in M2 by lia.
    unfold n. Z.div_mod_to_equations. lia. }
  unfold get_date_from_daynr. rewrite (proj2 (Z.leb_gt _ _)), (proj2 (Z.leb_gt _ _)) by lia. simpl orb.
  destruct (year_estimate n Hn) as [Hy0 Hs]. rewrite Z.quot_div_nonneg by lia. set (y0 := n * 100 / 36525) in *.
  assert (wrapu 32 (wrapu 32 (n - wrapu 32 y0 * 365) - wrapu 32 (wrapu 32 y0 - 1) / 4 + wrapu 32 ((wrapu 32 (wrapu 32 y0 - 1) / 100 + 1) * 3) / 4) =
    n - year_start y0) as ->.
  { rewrite (wrapu_id 32 y0), (wrapu_id 32 (y0 - 1)) by (unfold in_u; lia). apply day_of_year_words; [done|lia]. }
  rewrite (wrapu_id 32 y0) by (unfold in_u; lia).
  destruct (find_year_spec (Z.to_nat (n - year_start y0)) y0 (n - year_start y0)) as (y' & d' & E & P & Q & R'); [lia..| |].
  { pose proof (year_start_mono 0 y0 ltac:(lia)) as M. change (year_start 0) with 0 in M. lia. }
  destruct (year_unique y' d' y (month_start y m + d)) as [-> ->]; [lia..|done|done|unfold n in Q; lia|].
  rewrite E. pose proof (month_of_spec y m d Hd) as M. unfold month_of in M. cbn [mbind option_bind] in *.
  clear -M. revert M. generalize (month_start y m + d). intros k M. destruct (if _ && _ then _ else _) as [k' leap].
  destruct (find_month days_in_month 1 k') as [[m' d']|]; cbn [mbind option_bind] in *; [|discriminate M]. by injection M as -> ->.
Qed.

Lemma year_length y : month_start y 13 = calc_days_in_year y.
Proof. unfold month_start, month_days. by destruct (leap_or_not y) as [-> | ->]. Qed.

(** Every day of a year is a date. *)
Lemma month_exists y k : 1 <= k <= calc_days_in_year y -> exists m d, date_ok y m d /\ k = month_start y m + d.
Proof.
  intros Hk. assert (forall n : nat, (n <= 12)%nat -> k <= month_start y (Z.of_nat n + 1) ->
    exists m, 1 <= m <= 12 /\ month_start y m < k <= month_start y (m + 1)) as H.
  { induction n as [|n IH]; intros Hn Hm; [change (month_start y (Z.of_nat 0 + 1)) with 0 in Hm; lia|].
    destruct (Z.le_gt_cases k (month_start y (Z.of_nat n + 1))); [apply IH; [lia|done]|].
    exists (Z.of_nat n + 1). replace (Z.of_nat (S n) + 1) with (Z.of_nat n + 1 + 1) in Hm by lia. split; [lia|done]. }
  destruct (H 12%nat) as (m & Hm & Hr); [lia|change (Z.of_nat 12 + 1) with 13; rewrite year_length; lia|].
  exists m, (k - month_start y m). rewrite month_start_succ in Hr by lia. split; [split|]; lia.
Qed.

Lemma year_exists n : 0 < n -> exists y k, 0 <= y /\ 1 <= k <= calc_days_in_year y /\ n = year_start y + k.
Proof.
  intros Hn. revert n Hn. apply (Z.lt_ind _ ltac:(intros ? ? ->; done) 0).
  - exists 0, 1. by change (calc_days_in_year 0) with 365.
  - intros n Hn (y & k & Hy & Hk & ->). change (Z.succ (year_start y + k)) with (year_start y + k + 1).
    destruct (Z.eq_dec k (calc_days_in_year y)) as [->|]; [|exists y, (k + 1); split_and!; lia].
    exists (y + 1), 1. pose proof (days_in_year_range (y + 1)). rewrite year_start_succ by done. lia.
Qed.

(** The date of a day number after year 0. *)
Lemma date_exists n : 365 < n <= MAX_DAY_NUMBER ->
  exists y m d, 1 <= y <= 9999 /\ date_ok y m d /\ n = year_start y + month_start y m + d.
Proof.
  intros Hn. unfold MAX_DAY_NUMBER in Hn. destruct (year_exists n) as (y & k & Hy & Hk & E); [lia|].
  destruct (month_exists y k Hk) as (m & d & Hd & ->). exists y, m, d. split_and!; [| |done|lia].
  - destruct (Z.eq_dec y 0) as [->|]; [|lia]. change (year_start 0) with 0 in E. change (calc_days_in_year 0) with 365 in Hk. lia.
  - destruct (Z.le_gt_cases y 9999) as [|L]; [done|]. pose proof (year_start_mono 10000 y ltac:(lia)) as M.
    rewrite (year_start_closed 10000) in M by lia. Z.div_mod_to_equations. lia.
Qed.

Lemma daynr_range y m d : 1 <= y <= 9999 -> date_ok y m d -> 365 < year_start y + month_start y m + d <= MAX_DAY_NUMBER.
Proof.
  intros Hy Hd. pose proof (day_of_year_range y m d Hd) as R.
  pose proof (year_start_mono 1 y ltac:(lia)) as M1. pose proof (year_start_mono (y + 1) 10000 ltac:(lia)) as M2.
  rewrite year_start_succ in M2 by lia. rewrite (year_start_closed 1) in M1 by lia. rewrite (year_start_closed 10000) in M2 by lia.
  unfold MAX_DAY_NUMBER. Z.div_mod_to_equations. lia.
Qed.

(** C20: [calc_daynr] counts the days: the days of the years before, by
    [calc_days_in_year], those of the months before and the day.  From the year 1 on
    [get_date_from_daynr] is its inverse on the dates of the calendar, which have
    exactly the numbers from 366 to [MAX_DAY_NUMBER]. *)
Theorem daynr_calendar :
  (forall y m d, 0 <= y <= 9999 -> date_ok y m d -> calc_daynr y m d = year_start y + month_start y m + d) /\
  (forall y m d, 1 <= y <= 9999 -> date_ok y m d ->
     365 < calc_daynr y m d <= MAX_DAY_NUMBER /\ get_date_from_daynr (calc_daynr y m d) = Some (y, m, d)) /\
  (forall n, 365 < n <= MAX_DAY_NUMBER ->
     exists y m d, get_date_from_daynr n = Some (y, m, d) /\ 1 <= y <= 9999 /\ date_ok y m d /\ calc_daynr y m d = n).
Proof.
  split_and!.
  - intros y m d Hy Hd. destruct (date_ok_range y m d Hd). apply calc_daynr_spec; lia.
  - intros y m d Hy Hd. destruct (date_ok_range y m d Hd). rewrite calc_daynr_spec by lia.
    split; [by apply daynr_range|by apply get_date_from_daynr_spec].
  - intros n Hn. destruct (date_exists n Hn) as (y & m & d & Hy & Hd & ->). destruct (date_ok_range y m d Hd).
    exists y, m, d. rewrite get_date_from_daynr_spec, calc_daynr_spec by (done || lia). done.
Qed.

(** The day after 28 February 1900, 2000 and 2024. *)
Lemma daynr_calendar_witness : calc_daynr 2024 2 29 = 739310 /\
  get_date_from_daynr (calc_daynr 1900 2 28 + 1) = Some (1900, 3, 1) /\ get_date_from_daynr (calc_daynr 2000 2 28 + 1) = Some (2000, 2, 29).
Proof.
  destruct daynr_calendar as (H1 & H2 & _). split_and!; [by rewrite H1; [vm_compute| |split; vm_compute; split]..| |].
  - change (calc_daynr 1900 2 28 + 1) with (calc_daynr 1900 3 1). apply H2; [lia|split; vm_compute; split; intros [=]].
  - change (calc_daynr 2000 2 28 + 1) with (calc_daynr 2000 2 29). apply H2; [lia|split; vm_compute; split; intros [=]].
Defined.

(** ** Weeks *)

(** The first day of the week of a day. *)
Definition week_start (monday_first : bool) (n : Z) : Z := n - (n + 5 + (if monday_first then 0 else 1)) mod 7.

(** The part of [calc_week] after the first days of a year, on numbers: the year
    starts after day [s] and has [l] days. *)
Definition week_in_year (first_weekday week_year : bool) (n s l w y : Z) : Z * Z :=
  let days := if (first_weekday && negb (w =? 0)) || (negb first_weekday && (4 <=? w)) then n - (s + 1 + (7 - w)) else n - (s + 1 - w) in
  let w := (w + l) mod 7 in
  if week_year && (52 * 7 <=? days) && ((negb first_weekday && (w <? 4)) || (first_weekday && (w =? 0))) then (1, y + 1)
  else (days / 7 + 1, y).

Lemma week_in_year_spec (first_weekday week_year monday_first : bool) n s l w y : 365 <= l <= 366 ->
  w = (s + 1 + 5 + (if monday_first then 0 else 1)) mod 7 ->
  (if first_weekday then s else s - 3) < week_start monday_first n <= s + l + 1 ->
  let a := week_start monday_first n + (if first_weekday then 0 else 3) in
  week_in_year first_weekday week_year n s l w y = if week_year && (s + l <? a) then (1, y + 1) else ((a - s - 1) / 7 + 1, y).
Proof.
  intros Hl Hw Hs a. unfold week_in_year, a, week_start in *.
  destruct first_weekday, week_year; simpl; zcases; try f_equal; Z.div_mod_to_equations; lia.
Qed.

(** [calc_week] on numbers. *)
Lemma calc_week_numbers t mode : 1 <= year t <= 9999 -> date_ok (year t) (month t) (day t) ->
  let s := year_start (year t) in let k := month_start (year t) (month t) + day t in
  let w := (s + 1 + 5 + (if flag mode WEEK_MONDAY_FIRST then 0 else 1)) mod 7 in
  let first_weekday := flag mode WEEK_FIRST_WEEKDAY in let l' := calc_days_in_year (year t - 1) in
  calc_week t mode =
    if k <=? 7 - w then
      if negb (flag mode WEEK_YEAR) && ((first_weekday && negb (w =? 0)) || (negb first_weekday && (4 <=? w))) then (0, year t)
      else week_in_year first_weekday true (s + k) (s - l') l' ((w + 53 * 7 - l') mod 7) (year t - 1)
    else week_in_year first_weekday (flag mode WEEK_YEAR) (s + k) s (calc_days_in_year (year t)) w (year t).
Proof.
  intros Hy Hd s k w fw l'. pose proof (day_of_year_range _ _ _ Hd) as R. destruct (date_ok_range _ _ _ Hd) as [Hm Hdd].
  pose proof (daynr_range _ _ _ Hy Hd) as N. unfold MAX_DAY_NUMBER in N.
  pose proof (days_in_year_range (year t)). pose proof (days_in_year_range (year t - 1)) as Hl'. fold l' in Hl'.
  assert (365 <= s) by (pose proof (year_start_mono 1 (year t) ltac:(lia)) as M; rewrite (year_start_closed 1) in M by lia; fold s in M; Z.div_mod_to_equations; lia).
  assert (0 <= w < 7) by (apply Z.mod_pos_bound; lia).
  unfold calc_week, calc_weekday. rewrite !calc_daynr_spec by lia. change (month_start (year t) 1) with 0. fold s. fold k in R.
  rewrite <- (Z.add_assoc s (month_start _ _)). fold k. fold s in N. rewrite <- (Z.add_assoc s (month_start _ _)) in N. fold k in N.
  rewrite !(wrapu_id 64), (wraps_id 64) by (try done; unfold in_u, in_s; lia).
  replace (Z.rem (s + 0 + 1 + 5 + (if negb (flag mode WEEK_MONDAY_FIRST) then 1 else 0)) 7) with w
    by (unfold w; destruct (flag _ _); simpl negb; cbv iota; rewrite Z.rem_mod_nonneg by lia; f_equal; lia).
  rewrite !(wrapu_id 32 w), !(wrapu_id 32 (7 - w)), (wrapu_id 32 (year t - 1)) by (unfold in_u; lia). fold l'.
  assert ((month t =? 1) && (day t <=? 7 - w) = (k <=? 7 - w)) as ->.
  { unfold k. rewrite month_start_closed by done. destruct (Z.eqb_spec (month t) 1) as [->|]; [done|]. simpl. symmetry. apply Z.leb_gt.
    zcases; Z.div_mod_to_equations; lia. }
  rewrite Z.add_0_r.
  unfold week_in_year. fold fw. clearbody fw k s w l'. destruct (Z.leb_spec k (7 - w)).
  - destruct (negb _ && _); [done|]. rewrite (wrapu_id 64 (s + 1 - l')), (wrapu_id 32 (w + 53 * 7 - l')) by (unfold in_u; lia).
    replace (s - l' + 1) with (s + 1 - l') by lia.
    assert (0 <= (w + 53 * 7 - l') mod 7 < 7) by (apply Z.mod_pos_bound; lia). set (w' := (w + 53 * 7 - l') mod 7) in *. clearbody w'.
    by rewrite !wrapu_id by (unfold in_u; lia).
  - by rewrite !wrapu_id by (unfold in_u; lia).
Qed.

Lemma week_start_first (mf : bool) s k w : w = (s + 1 + 5 + (if mf then 0 else 1)) mod 7 -> 1 <= k -> 0 <= w < 7 /\
  (k <= 7 - w -> week_start mf (s + k) = s + 1 - w) /\ (7 - w < k -> s + 8 - w <= week_start mf (s + k)) /\ s + k - 7 < week_start mf (s + k) <= s + k.
Proof. intros -> Hk. unfold week_start. destruct mf; split_and!; Z.div_mod_to_equations; lia. Qed.

Ltac week_arith Es S1 :=
  try match goal with |- context [?a <? ?b] => destruct (Z.ltb_spec a b) end; cbv beta iota;
  rewrite ?(Z.sub_add 1), ?S1, <- ?Es; split;
  try match goal with |- context [?a <=? ?b] => destruct (Z.leb_spec a b) end; try done; Z.div_mod_to_equations; lia.

(** C29: [calc_week] in all its modes.  The week starts on Monday or Sunday, and
    belongs to the year of its first day ([WEEK_FIRST_WEEKDAY]) or of its fourth day,
    as in ISO 8601; weeks are counted in that year.  With [WEEK_YEAR] the year of the
    week is returned; without, the weeks are those of the calendar year of the date,
    and the days before the first week are in week 0. *)
Theorem calc_week_correct t mode : 1 <= year t <= 9999 -> date_ok (year t) (month t) (day t) ->
  let n := calc_daynr (year t) (month t) (day t) in
  let a := week_start (flag mode WEEK_MONDAY_FIRST) n + (if flag mode WEEK_FIRST_WEEKDAY then 0 else 3) in
  let '(week, y) := calc_week t mode in
  if flag mode WEEK_YEAR then year_start y < a <= year_start (y + 1) /\ week = (a - year_start y - 1) / 7 + 1
  else y = year t /\ week = if a <=? year_start y then 0 else (a - year_start y - 1) / 7 + 1.
Proof.
  intros Hy Hd n a. destruct (date_ok_range _ _ _ Hd) as [Hm Hdd]. pose proof (day_of_year_range _ _ _ Hd) as R.
  rewrite calc_week_numbers by done. unfold a, n. rewrite calc_daynr_spec by lia. rewrite <- (Z.add_assoc _ (month_start _ _)).
  pose proof (year_start_succ (year t - 1) ltac:(lia)) as S0. pose proof (year_start_succ (year t) ltac:(lia)) as S1.
  replace (year t - 1 + 1) with (year t) in * by lia.
  pose proof (days_in_year_range (year t)). pose proof (days_in_year_range (year t - 1)).
  pose proof (year_start_succ (year t + 1) ltac:(lia)) as S2. pose proof (days_in_year_range (year t + 1)).
  remember (year_start (year t)) as s eqn:Es. set (k := month_start (year t) (month t) + day t) in *.
  cbv zeta. set (mf := flag mode WEEK_MONDAY_FIRST). set (w := (s + 1 + 5 + (if mf then 0 else 1)) mod 7).
  destruct (week_start_first mf s k w) as (Hw & W1 & W2 & W3); [done|lia|]. set (fw := flag mode WEEK_FIRST_WEEKDAY).
  set (p := week_start mf (s + k)) in *. set (l := calc_days_in_year (year t)) in *. set (l' := calc_days_in_year (year t - 1)) in *.
  destruct (Z.leb_spec k (7 - w)) as [Hk|Hk].
  - specialize (W1 Hk). destruct (negb _ && _) eqn:E0.
    + destruct (flag mode WEEK_YEAR), fw; try discriminate E0; simpl in E0; cbv beta iota; (split; [done|]); rewrite (proj2 (Z.leb_le _ _)); try done; rewrite <- Es; zcases.
    + rewrite week_in_year_spec with (monday_first := mf); [|lia|unfold w; destruct mf; Z.div_mod_to_equations; lia|fold p; destruct fw; lia]; fold p. replace (s - l' + l') with s by lia.
      clearbody p l l' w mf. destruct (flag mode WEEK_YEAR), fw; simpl in E0; simpl andb; week_arith Es S1.
  - rewrite week_in_year_spec with (monday_first := mf); [|lia|done|fold p; destruct fw; lia]. fold p.
    clearbody p l l' w mf. destruct (flag mode WEEK_YEAR), fw; simpl andb; week_arith Es S1.
Qed.

(** 30 December 2024 is a Monday, in the first week of 2025 by ISO 8601. *)
Lemma calc_week_correct_witness :
  let t := mk_time 2024 12 30 0 0 0 0 false MYSQL_TIMESTAMP_DATE in
  calc_week t (WEEK_MONDAY_FIRST + WEEK_YEAR) = (1, 2025) /\ year_start 2025 < week_start true (calc_daynr 2024 12 30) + 3 <= year_start 2026.
Proof.
  intros t. split; [reflexivity|].
  pose proof (calc_week_correct t (WEEK_MONDAY_FIRST + WEEK_YEAR) ltac:(simpl; lia) ltac:(split; vm_compute; split; intros [=])) as H.
  change (calc_week t (WEEK_MONDAY_FIRST + WEEK_YEAR)) with (1, 2025) in H. exact (proj1 H).
Defined.
