(* ===== verification/TimePacked.v ===== *)
(** * Dates and times: the packed formats

    A date or time in range is read back from its packed number, and packed
    numbers are ordered like the times; the bytes on disk are read back as the
    packed number, and compare like the numbers. *)

From Stdlib Require Import ZArith Lia.
From stdpp Require Import base numbers option tactics list.
From S2P Require Import Prelude Bytes DecimalBin MyTime SqlTime.

#[local] Open Scope Z_scope.

(** The members are unsigned. *)
Definition time_wf (t : MYSQL_TIME) : Prop :=
  0 <= year t /\ 0 <= month t /\ 0 <= day t /\ 0 <= hour t /\ 0 <= minute t /\ 0 <= second t /\ 0 <= second_part t.

Lemma check_datetime_range_spec t : time_wf t -> check_datetime_range t = false ->
  0 <= year t <= 9999 /\ 0 <= month t <= 12 /\ 0 <= day t <= 31 /\
  0 <= hour t <= (if bool_decide (time_type t = MYSQL_TIMESTAMP_TIME) then 838 else 23) /\
  0 <= minute t <= 59 /\ 0 <= second t <= 59 /\ 0 <= second_part t <= 999999.
Proof.
  intros W H. unfold time_wf in W. unfold check_datetime_range in H. rewrite !orb_false_iff, !Z.ltb_ge in H. unfold TIME_MAX_HOUR in H. lia.
Qed.

(** ** In memory *)

(** The number of seconds of a clock in bits, and a packed number. *)
Definition clock_bits (h m s : Z) : Z := h * 2 ^ 12 + m * 2 ^ 6 + s.

Lemma clock_bits_lor h m s : 0 <= h < 2 ^ 20 -> 0 <= m < 64 -> 0 <= s < 64 ->
  Z.lor (Z.lor (wrapu 32 (Z.shiftl h 12)) (wrapu 32 (Z.shiftl m 6))) s = clock_bits h m s.
Proof.
  intros Hh Hm Hs. rewrite !wrapu_id by (unfold in_u; rewrite Z.shiftl_mul_pow2 by lia; lia).
  rewrite lor_low by (rewrite ?Z.shiftl_mul_pow2 by lia; lia).
  replace (h * 2 ^ 12 + Z.shiftl m 6) with (Z.shiftl (h * 2 ^ 6 + m) 6) by (rewrite !Z.shiftl_mul_pow2 by lia; lia).
  rewrite lor_low by lia. unfold clock_bits. lia.
Qed.

Lemma clock_bits_range h m s H : 0 <= h < H -> 0 <= m < 64 -> 0 <= s < 64 -> 0 <= clock_bits h m s < H * 2 ^ 12.
Proof. unfold clock_bits. lia. Qed.

Definition date_bits (t : MYSQL_TIME) : Z := (year t * 13 + month t) * 2 ^ 5 + day t.

Lemma packed_ymd_bits t : 0 <= year t <= 9999 -> 0 <= month t <= 12 -> 0 <= day t <= 31 ->
  packed_ymd t = date_bits t /\ 0 <= date_bits t < 2 ^ 22.
Proof.
  intros Hy Hm Hd. unfold packed_ymd, date_bits. rewrite (wrapu_id 32 (_ + _)) by (unfold in_u; lia).
  rewrite wrapu_id by (unfold in_u; rewrite Z.shiftl_mul_pow2 by lia; lia). rewrite lor_low by lia. lia.
Qed.

Lemma packed_make i f : - 2 ^ 39 < i < 2 ^ 39 - 1 -> Z.abs f < 2 ^ 24 -> MY_PACKED_TIME_MAKE i f = i * 2 ^ 24 + f.
Proof. intros Hi Hf. unfold MY_PACKED_TIME_MAKE. rewrite Z.shiftl_mul_pow2 by lia. apply wraps_id; [done|]. unfold in_s. lia. Qed.

Lemma packed_make_nonneg i f : 0 <= i < 2 ^ 39 -> 0 <= f < 2 ^ 24 -> MY_PACKED_TIME_MAKE i f = i * 2 ^ 24 + f.
Proof. intros Hi Hf. unfold MY_PACKED_TIME_MAKE. rewrite Z.shiftl_mul_pow2 by lia. apply wraps_id; [done|]. unfold in_s. lia. Qed.

Lemma packed_parts i f : 0 <= i -> 0 <= f < 2 ^ 24 ->
  MY_PACKED_TIME_GET_INT_PART (i * 2 ^ 24 + f) = i /\ MY_PACKED_TIME_GET_FRAC_PART (i * 2 ^ 24 + f) = f.
Proof.
  intros Hi Hf. unfold MY_PACKED_TIME_GET_INT_PART, MY_PACKED_TIME_GET_FRAC_PART.
  rewrite Z.shiftr_div_pow2 by lia. change (Z.shiftl 1 24) with (2 ^ 24). rewrite Z.rem_mod_nonneg by lia.
  rewrite Z.div_add_l, Z.div_small, (Z.add_comm (i * _)), Z_mod_plus_full, Z.mod_small by lia. lia.
Qed.

(** The magnitudes that are packed. *)
Definition time_mag (t : MYSQL_TIME) : Z := clock_bits (hour t) (minute t) (second t) * 2 ^ 24 + second_part t.
Definition datetime_mag (t : MYSQL_TIME) : Z :=
  (date_bits t * 2 ^ 17 + clock_bits (hour t) (minute t) (second t)) * 2 ^ 24 + second_part t.

Definition signed (n : bool) (z : Z) : Z := if n then - z else z.

Lemma signed_wraps (n : bool) z : 0 <= z < 2 ^ 63 -> (if n then wraps 64 (- z) else z) = signed n z.
Proof. intros Hz. destruct n; [|done]. unfold signed. rewrite wraps_id; [done|done|]. unfold in_s. lia. Qed.

(** The magnitude of a packed number, and the sign of one that is not zero. *)
Lemma unsigned_packed n z : 0 <= z < 2 ^ 63 -> (n = true -> z <> 0) ->
  (signed n z <? 0) = n /\ (if signed n z <? 0 then wraps 64 (- signed n z) else signed n z) = z.
Proof.
  intros Hz Hn. destruct n; unfold signed.
  - specialize (Hn eq_refl). rewrite (proj2 (Z.ltb_lt _ _)) by lia. rewrite Z.opp_involutive, wraps_id; [done|done|]. unfold in_s. lia.
  - by rewrite (proj2 (Z.ltb_ge _ _)) by lia.
Qed.

Lemma time_packed_mag t : time_wf t -> check_datetime_range t = false -> time_type t = MYSQL_TIMESTAMP_TIME -> day t = 0 ->
  TIME_to_longlong_time_packed t = signed (neg t) (time_mag t) /\ 0 <= time_mag t < 2 ^ 46.
Proof.
  intros W H Ht Hd. apply check_datetime_range_spec in H as (_ & _ & _ & Hh & Hm & Hs & Hp); [|done].
  rewrite Ht in Hh. rewrite bool_decide_true in Hh by done. unfold TIME_to_longlong_time_packed. rewrite Hd.
  replace (if month t =? 0 then wrapu 32 (0 * 24) else 0) with 0 by by destruct (month t =? 0).
  rewrite Z.add_0_l, (wrapu_id 32 (hour t)) by (unfold in_u; lia). rewrite clock_bits_lor by lia.
  pose proof (clock_bits_range (hour t) (minute t) (second t) 1024 ltac:(lia) ltac:(lia) ltac:(lia)).
  rewrite packed_make by lia. fold (time_mag t). assert (0 <= time_mag t < 2 ^ 46) by (unfold time_mag; lia).
  split; [apply signed_wraps|]; lia.
Qed.

Lemma datetime_packed_mag t : time_wf t -> check_datetime_range t = false -> time_type t <> MYSQL_TIMESTAMP_TIME ->
  TIME_to_longlong_datetime_packed t = signed (neg t) (datetime_mag t) /\ 0 <= datetime_mag t < 2 ^ 63.
Proof.
  intros W H Ht. apply check_datetime_range_spec in H as (Hy & Hmo & Hd & Hh & Hm & Hs & Hp); [|done].
  rewrite bool_decide_false in Hh by done. unfold TIME_to_longlong_datetime_packed.
  destruct (packed_ymd_bits t) as [-> B]; [done..|]. rewrite clock_bits_lor by lia.
  pose proof (clock_bits_range (hour t) (minute t) (second t) 24 ltac:(lia) ltac:(lia) ltac:(lia)).
  rewrite lor_low by lia. rewrite packed_make by lia. fold (datetime_mag t).
  assert (0 <= datetime_mag t < 2 ^ 63) by (unfold datetime_mag; lia). split; [by apply signed_wraps|done].
Qed.

Lemma clock_of_bits h m s : 0 <= h < 1024 -> 0 <= m < 64 -> 0 <= s < 64 -> let c := clock_bits h m s in
  c / 2 ^ 12 = h /\ c / 2 ^ 6 mod 2 ^ 6 = m /\ c mod 2 ^ 6 = s.
Proof. intros Hh Hm Hs c. unfold c, clock_bits. Z.to_euclidean_division_equations. lia. Qed.

Lemma date_of_bits t : 0 <= year t -> 0 <= month t <= 12 -> 0 <= day t <= 31 ->
  date_bits t / 2 ^ 5 / 13 = year t /\ (date_bits t / 2 ^ 5) mod 13 = month t /\ date_bits t mod 2 ^ 5 = day t.
Proof.
  intros Hy Hm Hd. unfold date_bits. change (2 ^ 5) with 32. Z.to_euclidean_division_equations. lia.
Qed.

Lemma datetime_unpacked t : time_wf t -> check_datetime_range t = false -> time_type t <> MYSQL_TIMESTAMP_TIME ->
  (neg t = true -> datetime_mag t <> 0) ->
  TIME_from_longlong_datetime_packed (signed (neg t) (datetime_mag t)) = set_time_type t MYSQL_TIMESTAMP_DATETIME.
Proof.
  intros W H Ht Hn. destruct (datetime_packed_mag t W H Ht) as [_ M].
  apply check_datetime_range_spec in H as (Hy & Hmo & Hd & Hh & Hm & Hs & Hp); [|done]. rewrite bool_decide_false in Hh by done.
  unfold TIME_from_longlong_datetime_packed. destruct (unsigned_packed (neg t) (datetime_mag t) M Hn) as [E ->]. rewrite E.
  destruct (packed_ymd_bits t) as [_ B]; [done..|].
  pose proof (clock_bits_range (hour t) (minute t) (second t) 24 ltac:(lia) ltac:(lia) ltac:(lia)) as C.
  destruct (clock_of_bits (hour t) (minute t) (second t)) as (Eh & Em & Es); [lia..|].
  destruct (date_of_bits t) as (Ey & Emo & Ed); [lia..|].
  unfold datetime_mag. revert B C Eh Em Es Ey Emo Ed. generalize (date_bits t) (clock_bits (hour t) (minute t) (second t)). intros b c B C Eh Em Es Ey Emo Ed.
  destruct (packed_parts (b * 2 ^ 17 + c) (second_part t)) as [-> ->]; [lia..|].
  rewrite !Z.shiftr_div_pow2, !Z.shiftl_mul_pow2, !Z.mul_1_l by lia.
  rewrite Z.div_add_l, (Z.div_small c), Z.add_0_r, (Z.rem_mod_nonneg (b * _ + c)) by lia.
  rewrite (Z.add_comm (b * _) c), Z_mod_plus_full, (Z.mod_small c) by lia.
  assert (0 <= b / 2 ^ 5 /\ 0 <= c / 2 ^ 6) by (split; apply Z.div_pos; lia).
  rewrite Z.quot_div_nonneg, !Z.rem_mod_nonneg by lia.
  rewrite Eh, Em, Es, Ey, Emo, Ed, !wrapu_id by (unfold in_u; lia). done.
Qed.

Lemma time_unpacked t : time_wf t -> check_datetime_range t = false -> time_type t = MYSQL_TIMESTAMP_TIME -> day t = 0 ->
  (neg t = true -> time_mag t <> 0) ->
  TIME_from_longlong_time_packed (signed (neg t) (time_mag t)) = set_date t 0 0 0.
Proof.
  intros W H Ht Hd Hn. destruct (time_packed_mag t W H Ht Hd) as [_ M].
  apply check_datetime_range_spec in H as (_ & _ & _ & Hh & Hm & Hs & Hp); [|done]. rewrite bool_decide_true in Hh by done.
  unfold TIME_from_longlong_time_packed. destruct (unsigned_packed (neg t) (time_mag t)) as [E ->]; [lia|done|]. rewrite E.
  pose proof (clock_bits_range (hour t) (minute t) (second t) 1024 ltac:(lia) ltac:(lia) ltac:(lia)) as C.
  destruct (clock_of_bits (hour t) (minute t) (second t)) as (Eh & Em & Es); [lia..|].
  unfold time_mag. destruct (packed_parts (clock_bits (hour t) (minute t) (second t)) (second_part t)) as [-> ->]; [lia..|].
  rewrite !Z.shiftr_div_pow2, !Z.shiftl_mul_pow2, !Z.mul_1_l by lia. rewrite Eh.
  rewrite (wrapu_id 32 (_ / 2 ^ 6)) by (unfold in_u; split; [apply Z.div_pos|apply Z.div_lt_upper_bound]; lia).
  rewrite Em, (wrapu_id 32 (clock_bits _ _ _)), Es, !wrapu_id, Z.mod_small by (unfold in_u; lia). by rewrite <- Ht.
Qed.

Lemma date_packed_mag t : time_wf t -> check_datetime_range t = false -> hour t = 0 -> minute t = 0 -> second t = 0 -> second_part t = 0 ->
  TIME_to_longlong_date_packed t = datetime_mag t.
Proof.
  intros W H Hh Hm Hs Hp. apply check_datetime_range_spec in H as (Hy & Hmo & Hd & _); [|done].
  unfold TIME_to_longlong_date_packed, MY_PACKED_TIME_MAKE_INT, datetime_mag, clock_bits. rewrite Hh, Hm, Hs, Hp.
  destruct (packed_ymd_bits t) as [-> B]; [done..|]. rewrite !Z.shiftl_mul_pow2, wraps_id by (try unfold in_s; lia). lia.
Qed.

(** C22: A DATETIME or TIME in range is what its packed number is unpacked to, and a
    DATE without time likewise; the sign of a time is kept unless it is zero. *)
Theorem packed_roundtrip t : time_wf t -> check_datetime_range t = false ->
  (time_type t = MYSQL_TIMESTAMP_DATETIME -> (neg t = true -> TIME_to_longlong_datetime_packed t <> 0) ->
     TIME_from_longlong_datetime_packed (TIME_to_longlong_datetime_packed t) = t) /\
  (time_type t = MYSQL_TIMESTAMP_DATE -> neg t = false -> hour t = 0 -> minute t = 0 -> second t = 0 -> second_part t = 0 ->
     TIME_from_longlong_date_packed (TIME_to_longlong_date_packed t) = t) /\
  (time_type t = MYSQL_TIMESTAMP_TIME -> year t = 0 -> month t = 0 -> day t = 0 -> (neg t = true -> TIME_to_longlong_time_packed t <> 0) ->
     TIME_from_longlong_time_packed (TIME_to_longlong_time_packed t) = t).
Proof.
  intros W H. split_and!.
  - intros Ht Hn. assert (time_type t <> MYSQL_TIMESTAMP_TIME) as Hnt by by rewrite Ht. destruct (datetime_packed_mag t W H Hnt) as [E _]. rewrite E in *.
    rewrite datetime_unpacked by (try done; intros Hneg; specialize (Hn Hneg); rewrite Hneg in Hn; simpl in Hn; lia). rewrite <- Ht. by destruct t.
  - intros Ht Hneg Hh Hm Hs Hp. rewrite date_packed_mag by done.
    assert (time_type t <> MYSQL_TIMESTAMP_TIME) as Hnt by by rewrite Ht. unfold TIME_from_longlong_date_packed.
    pose proof (datetime_unpacked t W H Hnt) as E. rewrite Hneg in E. simpl signed in E. rewrite E by done. destruct t. simpl in *. by subst.
  - intros Ht Hy Hm Hd Hn. destruct (time_packed_mag t W H Ht Hd) as [E _]. rewrite E in *.
    rewrite time_unpacked by (try done; intros Hneg; specialize (Hn Hneg); rewrite Hneg in Hn; simpl in Hn; lia). destruct t. simpl in *. by subst.
Qed.

(** ** Order in memory *)

Definition sign_of (c : comparison) : Z := match c with Lt => -1 | Eq => 0 | Gt => 1 end.

(** The members of a clock and of a date, the most significant ones first. *)
Definition clock_compare (a b : MYSQL_TIME) : comparison :=
  then_compare (hour a ?= hour b) (then_compare (minute a ?= minute b) (second a ?= second b)).
Definition date_compare (a b : MYSQL_TIME) : comparison :=
  then_compare (year a ?= year b) (then_compare (month a ?= month b) (day a ?= day b)).

Lemma then_compare_assoc c d e : then_compare (then_compare c d) e = then_compare c (then_compare d e).
Proof. by destruct c. Qed.

(** Numbers made of three digits of any size. *)
Lemma compare_triple a1 a2 b1 b2 c1 c2 m n : 0 <= b1 < m -> 0 <= b2 < m -> 0 <= c1 < n -> 0 <= c2 < n ->
  ((a1 * m + b1) * n + c1 ?= (a2 * m + b2) * n + c2) = then_compare (a1 ?= a2) (then_compare (b1 ?= b2) (c1 ?= c2)).
Proof. intros. by rewrite !compare_pair, then_compare_assoc. Qed.

Section order.
Context (a b : MYSQL_TIME) (Wa : time_wf a) (Wb : time_wf b).
Context (Ra : check_datetime_range a = false) (Rb : check_datetime_range b = false).

Lemma clock_bits_compare :
  (clock_bits (hour a) (minute a) (second a) ?= clock_bits (hour b) (minute b) (second b)) = clock_compare a b.
Proof.
  apply check_datetime_range_spec in Ra as (_ & _ & _ & _ & ? & ? & _), Rb as (_ & _ & _ & _ & ? & ? & _); [|done..].
  unfold clock_compare. rewrite <- (compare_triple _ _ _ _ _ _ 64 64) by lia. unfold clock_bits. f_equal; lia.
Qed.

Lemma clock_digits_compare :
  (hour a * 10000 + minute a * 100 + second a ?= hour b * 10000 + minute b * 100 + second b) = clock_compare a b.
Proof.
  apply check_datetime_range_spec in Ra as (_ & _ & _ & _ & ? & ? & _), Rb as (_ & _ & _ & _ & ? & ? & _); [|done..].
  unfold clock_compare. rewrite <- (compare_triple _ _ _ _ _ _ 100 100) by lia. f_equal; lia.
Qed.

Lemma clock_seconds_compare :
  ((hour a * 60 + minute a) * 60 + second a ?= (hour b * 60 + minute b) * 60 + second b) = clock_compare a b.
Proof.
  apply check_datetime_range_spec in Ra as (_ & _ & _ & _ & ? & ? & _), Rb as (_ & _ & _ & _ & ? & ? & _); [|done..].
  apply compare_triple; lia.
Qed.

Lemma date_bits_compare : (date_bits a ?= date_bits b) = date_compare a b.
Proof.
  apply check_datetime_range_spec in Ra as (_ & ? & ? & _), Rb as (_ & ? & ? & _); [|done..]. apply compare_triple; lia.
Qed.

Lemma date_digits_compare :
  (year a * 10000 + month a * 100 + day a ?= year b * 10000 + month b * 100 + day b) = date_compare a b.
Proof.
  apply check_datetime_range_spec in Ra as (_ & ? & ? & _), Rb as (_ & ? & ? & _); [|done..].
  unfold date_compare. rewrite <- (compare_triple _ _ _ _ _ _ 100 100) by lia. f_equal; lia.
Qed.

Lemma second_part_range : 0 <= second_part a < 1000000 /\ 0 <= second_part b < 1000000.
Proof. apply check_datetime_range_spec in Ra, Rb; [|done..]. lia. Qed.

Lemma datetime_mag_compare : time_type a <> MYSQL_TIMESTAMP_TIME -> time_type b <> MYSQL_TIMESTAMP_TIME ->
  (datetime_mag a ?= datetime_mag b) = then_compare (date_compare a b) (then_compare (clock_compare a b) (second_part a ?= second_part b)).
Proof.
  intros Ta Tb. pose proof second_part_range. unfold datetime_mag.
  destruct (check_datetime_range_spec a Wa Ra) as (_ & _ & _ & Ha & ? & ? & _). destruct (check_datetime_range_spec b Wb Rb) as (_ & _ & _ & Hb & ? & ? & _).
  rewrite bool_decide_false in Ha, Hb by done.
  rewrite compare_triple; [by rewrite date_bits_compare, clock_bits_compare|..]; try (unfold clock_bits; lia); lia.
Qed.

Lemma time_mag_compare : (time_mag a ?= time_mag b) = then_compare (clock_compare a b) (second_part a ?= second_part b).
Proof. pose proof second_part_range. unfold time_mag. rewrite compare_pair by lia. by rewrite clock_bits_compare. Qed.

Lemma my_time_compare_spec : time_type a <> MYSQL_TIMESTAMP_TIME -> time_type b <> MYSQL_TIMESTAMP_TIME ->
  my_time_compare a b = sign_of (then_compare (date_compare a b) (then_compare (clock_compare a b) (second_part a ?= second_part b))).
Proof.
  intros Ta Tb. destruct (check_datetime_range_spec a Wa Ra) as (? & ? & ? & Ha & ? & ? & ?).
  destruct (check_datetime_range_spec b Wb Rb) as (? & ? & ? & Hb & ? & ? & ?). rewrite bool_decide_false in Ha, Hb by done.
  rewrite <- then_compare_assoc, <- date_digits_compare, <- clock_digits_compare, <- (compare_pair _ _ _ _ 1000000) by lia.
  unfold my_time_compare, TIME_to_ulonglong_datetime. rewrite !(wrapu_id 64 (_ * 10000 + _ + _)) by (unfold in_u; lia).
  rewrite !wrapu_id by (unfold in_u; lia). set (x := _ * 1000000 + _). set (y := _ * 1000000 + _).
  destruct (Z.compare_spec x y), (Z.compare_spec (second_part a) (second_part b)); simpl; zcases.
Qed.
End order.

(** Signed numbers are ordered like their magnitudes, which have the same zero. *)
Lemma signed_compare (m n : bool) x1 x2 y1 y2 : 0 <= x1 -> 0 <= x2 -> 0 <= y1 -> 0 <= y2 -> (x1 ?= x2) = (y1 ?= y2) ->
  (x1 = 0 <-> y1 = 0) -> (x2 = 0 <-> y2 = 0) -> (signed m x1 ?= signed n x2) = (signed m y1 ?= signed n y2).
Proof.
  intros. unfold signed. destruct m, n; simpl; try done.
  - rewrite !Z.compare_opp, (Z.compare_antisym x1), (Z.compare_antisym y1). by f_equal.
  - destruct (Z.compare_spec (- x1) x2), (Z.compare_spec (- y1) y2); try done; lia.
  - destruct (Z.compare_spec x1 (- x2)), (Z.compare_spec y1 (- y2)); try done; lia.
Qed.

(** The value of a time in microseconds. *)
Definition time_micros (t : MYSQL_TIME) : Z := signed (neg t) (((hour t * 60 + minute t) * 60 + second t) * 1000000 + second_part t).

(** C23: Packed numbers are ordered like what they stand for: DATETIMEs as
    [my_time_compare] compares them, TIMEs by their microseconds, with their sign. *)
Theorem packed_order a b : time_wf a -> time_wf b -> check_datetime_range a = false -> check_datetime_range b = false ->
  (time_type a = MYSQL_TIMESTAMP_DATETIME -> time_type b = MYSQL_TIMESTAMP_DATETIME -> neg a = false -> neg b = false ->
     sign_of (TIME_to_longlong_datetime_packed a ?= TIME_to_longlong_datetime_packed b) = my_time_compare a b) /\
  (time_type a = MYSQL_TIMESTAMP_TIME -> time_type b = MYSQL_TIMESTAMP_TIME -> day a = 0 -> day b = 0 ->
     (TIME_to_longlong_time_packed a ?= TIME_to_longlong_time_packed b) = (time_micros a ?= time_micros b)).
Proof.
  intros Wa Wb Ra Rb. split.
  - intros Ta Tb Na Nb. assert (time_type a <> MYSQL_TIMESTAMP_TIME /\ time_type b <> MYSQL_TIMESTAMP_TIME) as [Ta' Tb'] by by rewrite Ta, Tb.
    destruct (datetime_packed_mag a) as [-> _]; [done..|]. destruct (datetime_packed_mag b) as [-> _]; [done..|]. rewrite Na, Nb. simpl.
    by rewrite datetime_mag_compare, my_time_compare_spec.
  - intros Ta Tb Da Db. destruct (time_packed_mag a) as [-> Ma]; [done..|]. destruct (time_packed_mag b) as [-> Mb]; [done..|].
    pose proof (check_datetime_range_spec a Wa Ra). pose proof (check_datetime_range_spec b Wb Rb).
    apply signed_compare; try (unfold time_mag, clock_bits; lia).
    rewrite time_mag_compare, compare_pair by (done || lia). by rewrite clock_seconds_compare.
Qed.

(** ** On disk *)

Lemma mi_int_be x : mi_int2store x = be 2 x /\ mi_int3store x = be 3 x /\ mi_int4store x = be 4 x /\
  mi_int5store x = be 5 x /\ mi_int6store x = be 6 x /\ [uchar x] = be 1 x.
Proof.
  unfold mi_int2store, mi_int3store, mi_int4store, mi_int5store, mi_int6store, uchar. simpl.
  rewrite !Z.shiftr_div_pow2 by lia. rewrite !Z.div_div by lia. done.
Qed.

Lemma be_mod i x : be i (x mod 256 ^ Z.of_nat i) = be i x.
Proof.
  revert x. induction i as [|i IH]; intros x; [done|]. cbn [be]. rewrite Nat2Z.inj_succ, Z.pow_succ_r by lia.
  assert (0 < 256 ^ Z.of_nat i) by (apply Z.pow_pos_nonneg; lia).
  rewrite Z.rem_mul_r, (Z.mul_comm 256) by lia. rewrite Z.div_add, Z_mod_plus_full, Z.mod_mod by lia.
  rewrite (Z.div_small (x mod 256)) by (apply Z.mod_pos_bound; lia). by rewrite Z.add_0_l, IH.
Qed.

Lemma bytes_compare_be_mod i x y :
  bytes_compare (be i x) (be i y) = (x mod 256 ^ Z.of_nat i ?= y mod 256 ^ Z.of_nat i).
Proof.
  assert (0 < 256 ^ Z.of_nat i) by (apply Z.pow_pos_nonneg; lia).
  rewrite <- (be_mod i x), <- (be_mod i y). apply bytes_compare_be; apply Z.mod_pos_bound; lia.
Qed.

Ltac korr_arith := cbn [be app]; unfold wrapu; simpl lookup_total; rewrite ?Z.shiftl_mul_pow2 by lia; Z.div_mod_to_equations; lia.

Lemma mi_uint_be x r : (mi_uint2korr (be 2 x ++ r) = x mod 2 ^ 16 /\ mi_uint3korr (be 3 x ++ r) = x mod 2 ^ 24) /\
  mi_uint4korr (be 4 x ++ r) = x mod 2 ^ 32.
Proof. unfold mi_uint2korr, mi_uint3korr, mi_uint4korr. split_and!; korr_arith. Qed.
Lemma mi_uint5_be x r : mi_uint5korr (be 5 x ++ r) = x mod 2 ^ 40.
Proof. unfold mi_uint5korr. korr_arith. Qed.
Lemma mi_uint6_be x r : mi_uint6korr (be 6 x ++ r) = x mod 2 ^ 48.
Proof. unfold mi_uint6korr. korr_arith. Qed.

(** The microseconds are rounded to [dec] digits, which the functions assert. *)
Definition frac_rounded (f dec : Z) : Prop := 0 <= dec <= 6 /\ Z.abs f <= 999999 /\ Z.rem f (log_10_int (DATETIME_MAX_DECIMALS - dec)) = 0.

(** The unit of the stored fraction. *)
Definition frac_unit (dec : Z) : Z := match dec with 1 | 2 => 10000 | 3 | 4 => 100 | 5 | 6 => 1 | _ => 1000000 end.

Lemma seven_decimals dec : 0 <= dec <= 6 -> dec = 0 \/ dec = 1 \/ dec = 2 \/ dec = 3 \/ dec = 4 \/ dec = 5 \/ dec = 6.
Proof. lia. Qed.

Lemma frac_rounded_units f dec : frac_rounded f dec ->
  exists k, f = frac_unit dec * k /\ Z.quot f (frac_unit dec) = k /\ Z.abs k * frac_unit dec <= 999999.
Proof.
  intros (Hd & Hf & Hr). exists (Z.quot f (frac_unit dec)). apply seven_decimals in Hd.
  destruct Hd as [-> |[-> |[-> |[-> |[-> |[-> | ->]]]]]]; cbn [frac_unit];
    match type of Hr with context [log_10_int ?x] => let v := eval vm_compute in (log_10_int x) in change (log_10_int x) with v in Hr end;
    Z.to_euclidean_division_equations; lia.
Qed.

(** A packed number as its parts. *)
Lemma packed_split nr : nr = MY_PACKED_TIME_GET_INT_PART nr * 2 ^ 24 + nr mod 2 ^ 24 /\
  MY_PACKED_TIME_GET_FRAC_PART nr = if (nr <? 0) && negb (nr mod 2 ^ 24 =? 0) then nr mod 2 ^ 24 - 2 ^ 24 else nr mod 2 ^ 24.
Proof.
  unfold MY_PACKED_TIME_GET_INT_PART, MY_PACKED_TIME_GET_FRAC_PART. change (Z.shiftl 1 24) with (2 ^ 24). rewrite Z.shiftr_div_pow2 by lia.
  split; [pose proof (Z.div_mod nr (2 ^ 24)); lia|]. change (2 ^ 24) with 16777216. zcases; Z.to_euclidean_division_equations; lia.
Qed.

(** The fraction of a TIME as it is stored, [k] units of [u] modulo [B]. *)
Section time_fraction.
Context (u B : Z) (Hu : 0 < u) (HB : 0 < B).

Definition stored_frac (nr k : Z) : Prop := MY_PACKED_TIME_GET_FRAC_PART nr = u * k /\ Z.abs k < B.

Lemma stored_frac_cases nr k : stored_frac nr k ->
  0 <= MY_PACKED_TIME_GET_INT_PART nr /\ 0 <= k /\ k mod B = k /\ nr mod 2 ^ 24 = u * k \/
  MY_PACKED_TIME_GET_INT_PART nr < 0 /\ k = 0 /\ k mod B = 0 /\ nr mod 2 ^ 24 = 0 \/
  MY_PACKED_TIME_GET_INT_PART nr < 0 /\ k < 0 /\ k mod B = B + k /\ nr mod 2 ^ 24 = 2 ^ 24 + u * k /\ 0 < 2 ^ 24 + u * k.
Proof.
  intros [Hf Hk]. destruct (packed_split nr) as [E F]. rewrite F in Hf. clear F.
  assert (0 <= nr mod 2 ^ 24 < 2 ^ 24) as G by (by apply Z.mod_pos_bound). revert E G Hf.
  generalize (MY_PACKED_TIME_GET_INT_PART nr) (nr mod 2 ^ 24). change (2 ^ 24) with 16777216. intros i g E G Hf.
  destruct (Z.ltb_spec nr 0); simpl in Hf; [destruct (Z.eqb_spec g 0) as [->|]; simpl in Hf|].
  - right. left. assert (k = 0) as -> by nia. rewrite Z.mod_0_l by lia. lia.
  - right. right. assert (k < 0) by nia. rewrite <- (Z_mod_plus_full k 1 B), Z.mod_small by lia. lia.
  - left. assert (0 <= k) by nia. rewrite Z.mod_small by lia. lia.
Qed.

Lemma stored_frac_roundtrip nr k : stored_frac nr k -> let i := MY_PACKED_TIME_GET_INT_PART nr in let b := k mod B in
  (let '(i, b) := if (i <? 0) && negb (b =? 0) then (i + 1, b - B) else (i, b) in i * 2 ^ 24 + b * u) = nr.
Proof.
  intros S i b. destruct (packed_split nr) as [E _]. pose proof (proj2 S) as K. apply stored_frac_cases in S. fold i b in S. fold i in E.
  change (2 ^ 24) with 16777216 in *. clearbody i b. destruct S as [(Hi & Hk & -> & Hg)|[(Hi & Hk & -> & Hg)|(Hi & Hk & -> & Hg)]].
  - rewrite (proj2 (Z.ltb_ge _ _)) by done. simpl. lia.
  - rewrite andb_false_r. lia.
  - rewrite (proj2 (Z.ltb_lt _ _)), (proj2 (Z.eqb_neq _ _)) by lia. simpl. lia.
Qed.

Lemma stored_frac_compare nr1 nr2 k1 k2 : stored_frac nr1 k1 -> stored_frac nr2 k2 ->
  (nr1 ?= nr2) = then_compare (MY_PACKED_TIME_GET_INT_PART nr1 ?= MY_PACKED_TIME_GET_INT_PART nr2) (k1 mod B ?= k2 mod B).
Proof.
  intros S1 S2. assert (forall nr, nr / 2 ^ 24 = MY_PACKED_TIME_GET_INT_PART nr) as E
    by (intros; unfold MY_PACKED_TIME_GET_INT_PART; by rewrite Z.shiftr_div_pow2).
  pose proof (proj2 S1). pose proof (proj2 S2). apply stored_frac_cases in S1, S2. rewrite (compare_divmod nr1 nr2 (2 ^ 24)), !E by done.
  destruct (Z.compare_spec (MY_PACKED_TIME_GET_INT_PART nr1) (MY_PACKED_TIME_GET_INT_PART nr2)) as [Ei| |]; simpl; try done.
  assert ((u * k1 ?= u * k2) = (k1 ?= k2)) as HU by (symmetry; by apply Zmult_compare_compat_l, Z.lt_gt).
  destruct S1 as [(I1 & K1 & -> & ->)|[(I1 & -> & -> & ->)|(I1 & K1 & -> & -> & G1)]], S2 as [(I2 & K2 & -> & ->)|[(I2 & -> & -> & ->)|(I2 & K2 & -> & -> & G2)]];
    try lia; rewrite ?Z.add_compare_mono_l; try done; [|]; symmetry.
  - rewrite (proj2 (Z.compare_lt_iff 0 _) G2). by apply Z.compare_lt_iff; lia.
  - rewrite (proj2 (Z.compare_gt_iff _ 0) G1). by apply Z.compare_gt_iff; lia.
Qed.
End time_fraction.

Definition time_storable (nr dec : Z) : Prop := - 2 ^ 47 <= nr < 2 ^ 47 /\ frac_rounded (MY_PACKED_TIME_GET_FRAC_PART nr) dec.

Lemma time_int_part nr : - 2 ^ 47 <= nr < 2 ^ 47 -> 0 <= TIMEF_INT_OFS + MY_PACKED_TIME_GET_INT_PART nr < 2 ^ 24.
Proof.
  intros H. unfold MY_PACKED_TIME_GET_INT_PART, TIMEF_INT_OFS. rewrite Z.shiftr_div_pow2 by lia. change (2 ^ 24) with 16777216.
  Z.div_mod_to_equations. lia.
Qed.

Lemma frac_rounded_stored nr dec B : frac_rounded (MY_PACKED_TIME_GET_FRAC_PART nr) dec -> 1000000 <= B * frac_unit dec -> 0 < frac_unit dec ->
  let k := Z.quot (MY_PACKED_TIME_GET_FRAC_PART nr) (frac_unit dec) in stored_frac (frac_unit dec) B nr k.
Proof.
  intros H HB Hu. destruct (frac_rounded_units _ _ H) as (k & E & Eq & Hk). cbv zeta. rewrite Eq. split; [done|].
  apply (Z.mul_lt_mono_pos_r (frac_unit dec)); lia.
Qed.

(** The integer part in three bytes, which are compared first. *)
Lemma time_int3 nr r : - 2 ^ 47 <= nr < 2 ^ 47 ->
  mi_uint3korr (mi_int3store (TIMEF_INT_OFS + MY_PACKED_TIME_GET_INT_PART nr) ++ r) - TIMEF_INT_OFS = MY_PACKED_TIME_GET_INT_PART nr.
Proof.
  intros H. apply time_int_part in H. destruct (mi_int_be (TIMEF_INT_OFS + MY_PACKED_TIME_GET_INT_PART nr)) as (_ & -> & _).
  destruct (mi_uint_be (TIMEF_INT_OFS + MY_PACKED_TIME_GET_INT_PART nr) r) as ((_ & ->) & _). rewrite Z.mod_small by done. lia.
Qed.

Lemma time_int3_compare nr1 nr2 l1 l2 : - 2 ^ 47 <= nr1 < 2 ^ 47 -> - 2 ^ 47 <= nr2 < 2 ^ 47 ->
  bytes_compare (mi_int3store (TIMEF_INT_OFS + MY_PACKED_TIME_GET_INT_PART nr1) ++ l1) (mi_int3store (TIMEF_INT_OFS + MY_PACKED_TIME_GET_INT_PART nr2) ++ l2) =
  then_compare (MY_PACKED_TIME_GET_INT_PART nr1 ?= MY_PACKED_TIME_GET_INT_PART nr2) (bytes_compare l1 l2).
Proof.
  intros H1%time_int_part H2%time_int_part. rewrite bytes_compare_app by done.
  destruct (mi_int_be (TIMEF_INT_OFS + MY_PACKED_TIME_GET_INT_PART nr1)) as (_ & -> & _), (mi_int_be (TIMEF_INT_OFS + MY_PACKED_TIME_GET_INT_PART nr2)) as (_ & -> & _).
  by rewrite bytes_compare_be, Z.add_compare_mono_l.
Qed.

Lemma packed_make_time i f : - 2 ^ 23 <= i <= 2 ^ 23 -> Z.abs f < 2 ^ 24 -> MY_PACKED_TIME_MAKE i f = i * 2 ^ 24 + f.
Proof. intros Hi Hf. apply packed_make; lia. Qed.

(** Fractions that are stored in one or two bytes. *)
Lemma time_frac_read u B nr k : 0 < u -> 0 < B -> B * u < 2 ^ 24 -> - 2 ^ 47 <= nr < 2 ^ 47 -> stored_frac u B nr k ->
  (let '(intpart, frac) := if (MY_PACKED_TIME_GET_INT_PART nr <? 0) && negb (k mod B =? 0) then (MY_PACKED_TIME_GET_INT_PART nr + 1, k mod B - B)
                           else (MY_PACKED_TIME_GET_INT_PART nr, k mod B) in
   MY_PACKED_TIME_MAKE intpart (frac * u)) = nr.
Proof.
  intros Hu HB HBu Hn S. pose proof (time_int_part nr Hn) as Hi. unfold TIMEF_INT_OFS in Hi. change (2 ^ 24) with 16777216 in *.
  pose proof (Z.mod_pos_bound k B HB) as Hk. pose proof (Z.mul_le_mono_nonneg_r (k mod B) B u ltac:(lia) ltac:(lia)).
  pose proof (Z.mul_nonneg_nonneg (k mod B) u ltac:(lia) ltac:(lia)). assert (0 < B * u) by (apply Z.mul_pos_pos; lia).
  rewrite <- (stored_frac_roundtrip u B Hu HB nr k S) at 4. cbv zeta. destruct (_ && _).
  - apply packed_make_time; [lia|]. rewrite Z.mul_sub_distr_r. lia.
  - apply packed_make_time; lia.
Qed.

Lemma time_disk_read nr dec r : time_storable nr dec -> my_time_packed_from_binary (my_time_packed_to_binary nr dec ++ r) dec = nr.
Proof.
  intros [Hn Hf]. pose proof (time_int_part nr Hn) as Hi. unfold TIMEF_INT_OFS in Hi.
  pose proof (frac_rounded_stored nr dec) as HS. specialize (fun B => HS B Hf). pose proof (proj1 Hf) as Hd. apply seven_decimals in Hd.
  destruct (mi_int_be (nr + TIMEF_OFS)) as (_ & _ & _ & _ & E6 & _).
  destruct (mi_int_be (Z.quot (MY_PACKED_TIME_GET_FRAC_PART nr) 100)) as (E2 & _).
  destruct (mi_uint_be (Z.quot (MY_PACKED_TIME_GET_FRAC_PART nr) 100) r) as ((U2 & _) & _).
  assert (wraps 64 (mi_uint6korr (mi_int6store (nr + TIMEF_OFS) ++ r)) - TIMEF_OFS = nr) as H6.
  { rewrite E6, mi_uint6_be. unfold TIMEF_OFS. rewrite Z.mod_small, wraps_id by (try done; unfold in_s; lia). lia. }
  destruct Hd as [-> |[-> |[-> |[-> |[-> |[-> | ->]]]]]]; unfold my_time_packed_from_binary, my_time_packed_to_binary; rewrite <- ?app_assoc, ?time_int3 by done;
    try exact H6.
  - specialize (HS 1 ltac:(done) ltac:(done)). destruct HS as [E K]. cbn [frac_unit] in *. unfold MY_PACKED_TIME_MAKE_INT.
    destruct (packed_split nr) as [En Ef]. rewrite Z.shiftl_mul_pow2, wraps_id by (try done; unfold in_s; lia).
    rewrite E in Ef. revert Ef. replace (Z.quot _ _) with 0 by lia. destruct (_ && _) eqn:C; [|lia].
    pose proof (Z.mod_pos_bound nr (2 ^ 24) ltac:(done)). lia.
  - exact (time_frac_read 10000 256 nr _ ltac:(done) ltac:(done) ltac:(done) Hn (HS 256 ltac:(done) ltac:(done))).
  - exact (time_frac_read 10000 256 nr _ ltac:(done) ltac:(done) ltac:(done) Hn (HS 256 ltac:(done) ltac:(done))).
  - rewrite E2. change (drop 3 (mi_int3store _ ++ ?l)) with l. rewrite U2.
    exact (time_frac_read 100 65536 nr _ ltac:(done) ltac:(done) ltac:(done) Hn (HS 65536 ltac:(done) ltac:(done))).
  - rewrite E2. change (drop 3 (mi_int3store _ ++ ?l)) with l. rewrite U2.
    exact (time_frac_read 100 65536 nr _ ltac:(done) ltac:(done) ltac:(done) Hn (HS 65536 ltac:(done) ltac:(done))).
Qed.

Lemma time_disk_compare nr1 nr2 dec : time_storable nr1 dec -> time_storable nr2 dec ->
  bytes_compare (my_time_packed_to_binary nr1 dec) (my_time_packed_to_binary nr2 dec) = (nr1 ?= nr2).
Proof.
  intros [Hn1 Hf1] [Hn2 Hf2].
  assert (forall i B, (B = 256 ^ Z.of_nat i) -> 1000000 <= B * frac_unit dec -> 0 < frac_unit dec ->
    bytes_compare (mi_int3store (TIMEF_INT_OFS + MY_PACKED_TIME_GET_INT_PART nr1) ++ be i (Z.quot (MY_PACKED_TIME_GET_FRAC_PART nr1) (frac_unit dec)))
      (mi_int3store (TIMEF_INT_OFS + MY_PACKED_TIME_GET_INT_PART nr2) ++ be i (Z.quot (MY_PACKED_TIME_GET_FRAC_PART nr2) (frac_unit dec))) = (nr1 ?= nr2)) as H.
  { intros i B EB HB Hu. assert (0 < B) by (rewrite EB; apply Z.pow_pos_nonneg; lia). rewrite time_int3_compare, bytes_compare_be_mod, <- EB by done.
    symmetry. apply (stored_frac_compare (frac_unit dec)); [done|done|by apply frac_rounded_stored..]. }
  assert (bytes_compare (mi_int6store (nr1 + TIMEF_OFS)) (mi_int6store (nr2 + TIMEF_OFS)) = (nr1 ?= nr2)) as H6.
  { destruct (mi_int_be (nr1 + TIMEF_OFS)) as (_ & _ & _ & _ & -> & _), (mi_int_be (nr2 + TIMEF_OFS)) as (_ & _ & _ & _ & -> & _).
    rewrite bytes_compare_be by (unfold TIMEF_OFS; change (256 ^ Z.of_nat 6) with (2 ^ 48); lia).
    rewrite !(Z.add_comm _ TIMEF_OFS). apply Z.add_compare_mono_l. }
  pose proof (proj1 Hf1) as Hd. apply seven_decimals in Hd.
  destruct Hd as [-> |[-> |[-> |[-> |[-> |[-> | ->]]]]]]; cbn [frac_unit] in H; unfold my_time_packed_to_binary; try exact H6.
  - specialize (H 0%nat 1 eq_refl ltac:(done) ltac:(done)). by rewrite !app_nil_r in H.
  - exact (H 1%nat 256 eq_refl ltac:(done) ltac:(done)).
  - exact (H 1%nat 256 eq_refl ltac:(done) ltac:(done)).
  - pose proof (H 2%nat 65536 eq_refl ltac:(done) ltac:(done)) as H2. by rewrite <- !(proj1 (mi_int_be _)) in H2.
  - pose proof (H 2%nat 65536 eq_refl ltac:(done) ltac:(done)) as H2. by rewrite <- !(proj1 (mi_int_be _)) in H2.
Qed.

(** C24: The disk format of TIME columns: a packed time that is rounded to the
    precision of the column is read back, and the bytes compare as the times do,
    negative ones included. *)
Theorem time_disk_format nr nr' dec r : time_storable nr dec -> time_storable nr' dec ->
  my_time_packed_from_binary (my_time_packed_to_binary nr dec ++ r) dec = nr /\
  bytes_compare (my_time_packed_to_binary nr dec) (my_time_packed_to_binary nr' dec) = (nr ?= nr').
Proof. intros H H'. split; [by apply time_disk_read|by apply time_disk_compare]. Qed.

(** ** DATETIME and TIMESTAMP columns *)

Lemma mi_sint_be x r : (in_s 8 x -> wraps 8 ((be 1 x ++ r) !!! 0%nat) = x) /\
  (in_s 16 x -> mi_sint2korr (be 2 x ++ r) = x) /\ (in_s 24 x -> mi_sint3korr (be 3 x ++ r) = x).
Proof.
  split_and!; intros H.
  - pose proof (mi_korr_be 1 x r ltac:(lia) H) as E. unfold mi_korr in E. destruct (_ <? _); [done|]. by injection E.
  - pose proof (mi_korr_be 2 x r ltac:(lia) H) as E. unfold mi_korr in E. destruct (_ <? _); [done|]. by injection E.
  - pose proof (mi_korr_be 3 x r ltac:(lia) H) as E. unfold mi_korr in E. destruct (_ <? _); [done|]. by injection E.
Qed.

(** The fraction of a second in as many bytes as the precision needs. *)
Definition frac_bytes (dec : Z) : nat := match dec with 1 | 2 => 1%nat | 3 | 4 => 2%nat | 5 | 6 => 3%nat | _ => 0%nat end.

Lemma frac_bytes_fit f dec : 0 <= f -> frac_rounded f dec -> let k := Z.quot f (frac_unit dec) in
  f = frac_unit dec * k /\ 0 <= k < 256 ^ Z.of_nat (frac_bytes dec) /\ (dec = 0 -> k = 0) /\
  in_s (if bool_decide (frac_bytes dec = 1%nat) then 8 else if bool_decide (frac_bytes dec = 2%nat) then 16 else 24) k.
Proof.
  intros Hf H. destruct (frac_rounded_units f dec H) as (k & E & Eq & Hk). cbv zeta. rewrite Eq. split; [done|]. clear Eq.
  destruct H as (Hd & _ & _). apply seven_decimals in Hd. unfold in_s.
  destruct Hd as [-> |[-> |[-> |[-> |[-> |[-> | ->]]]]]]; cbn [frac_unit frac_bytes] in *; simpl; split_and!; intros; lia.
Qed.

Lemma frac_bytes_compare f1 f2 dec : 0 <= f1 -> 0 <= f2 -> frac_rounded f1 dec -> frac_rounded f2 dec ->
  bytes_compare (be (frac_bytes dec) (Z.quot f1 (frac_unit dec))) (be (frac_bytes dec) (Z.quot f2 (frac_unit dec))) = (f1 ?= f2).
Proof.
  intros H1 H2 F1 F2. destruct (frac_bytes_fit f1 dec H1 F1) as (E1 & K1 & _), (frac_bytes_fit f2 dec H2 F2) as (E2 & K2 & _).
  rewrite bytes_compare_be by done. rewrite E1 at 2. rewrite E2 at 2. apply Zmult_compare_compat_l.
  destruct F1 as (Hd & _). apply seven_decimals in Hd. destruct Hd as [-> |[-> |[-> |[-> |[-> |[-> | ->]]]]]]; done.
Qed.

Definition datetime_storable (nr dec : Z) : Prop := 0 <= nr < 2 ^ 63 /\ frac_rounded (MY_PACKED_TIME_GET_FRAC_PART nr) dec.

Lemma datetime_parts nr : 0 <= nr < 2 ^ 63 -> nr = MY_PACKED_TIME_GET_INT_PART nr * 2 ^ 24 + MY_PACKED_TIME_GET_FRAC_PART nr /\
  0 <= MY_PACKED_TIME_GET_INT_PART nr < 2 ^ 39 /\ 0 <= MY_PACKED_TIME_GET_FRAC_PART nr < 2 ^ 24.
Proof.
  intros H. destruct (packed_split nr) as [E ->]. rewrite (proj2 (Z.ltb_ge nr 0)) by lia. simpl.
  pose proof (Z.mod_pos_bound nr (2 ^ 24) ltac:(done)). split_and!; try lia.
Qed.

Lemma datetime_to_binary_be nr dec : 0 <= dec <= 6 -> my_datetime_packed_to_binary nr dec =
  be 5 (MY_PACKED_TIME_GET_INT_PART nr + DATETIMEF_INT_OFS) ++ be (frac_bytes dec) (Z.quot (MY_PACKED_TIME_GET_FRAC_PART nr) (frac_unit dec)).
Proof.
  intros Hd. unfold my_datetime_packed_to_binary.
  destruct (mi_int_be (MY_PACKED_TIME_GET_INT_PART nr + DATETIMEF_INT_OFS)) as (_ & _ & _ & -> & _). apply seven_decimals in Hd.
  destruct Hd as [-> |[-> |[-> |[-> |[-> |[-> | ->]]]]]]; cbn [frac_bytes frac_unit]; rewrite ?(proj1 (mi_int_be _)), ?Z.quot_1_r; try done; by rewrite (proj1 (proj2 (mi_int_be _))).
Qed.

Lemma datetime_disk_read nr dec r : datetime_storable nr dec -> my_datetime_packed_from_binary (my_datetime_packed_to_binary nr dec ++ r) dec = nr.
Proof.
  intros [Hn Hf]. destruct (datetime_parts nr Hn) as (En & Hi & Hfr). destruct (frac_bytes_fit _ dec (proj1 Hfr) Hf) as (Ef & _ & H0 & Hs).
  rewrite datetime_to_binary_be by apply Hf. unfold my_datetime_packed_from_binary. rewrite <- app_assoc, mi_uint5_be.
  set (i := MY_PACKED_TIME_GET_INT_PART nr) in *. set (k := Z.quot _ _) in *. set (f := MY_PACKED_TIME_GET_FRAC_PART nr) in *.
  rewrite (Z.mod_small (i + _)) by (unfold DATETIMEF_INT_OFS; lia). replace (i + DATETIMEF_INT_OFS - DATETIMEF_INT_OFS) with i by lia.
  rewrite (wraps_id 64 i) by (try done; unfold in_s; lia). destruct (mi_sint_be k r) as (S1 & S2 & S3).
  destruct Hf as (Hd & _). apply seven_decimals in Hd.
  change (drop 5 (be 5 (i + DATETIMEF_INT_OFS) ++ ?l)) with l. change ((be 5 (i + DATETIMEF_INT_OFS) ++ ?l) !!! 5%nat) with (l !!! 0%nat).
  destruct Hd as [-> |[-> |[-> |[-> |[-> |[-> | ->]]]]]]; cbn [frac_bytes frac_unit] in *; simpl in Hs; rewrite ?S1, ?S2, ?S3 by done;
    rewrite ?packed_make_nonneg by lia; try lia.
  specialize (H0 eq_refl). rewrite H0 in Ef. unfold MY_PACKED_TIME_MAKE_INT. rewrite Z.shiftl_mul_pow2, wraps_id by (try done; unfold in_s; lia). lia.
Qed.

Lemma datetime_disk_compare nr1 nr2 dec : datetime_storable nr1 dec -> datetime_storable nr2 dec ->
  bytes_compare (my_datetime_packed_to_binary nr1 dec) (my_datetime_packed_to_binary nr2 dec) = (nr1 ?= nr2).
Proof.
  intros [Hn1 Hf1] [Hn2 Hf2]. destruct (datetime_parts nr1 Hn1) as (E1 & I1 & F1), (datetime_parts nr2 Hn2) as (E2 & I2 & F2).
  rewrite !datetime_to_binary_be by apply Hf1. rewrite bytes_compare_app by by rewrite !be_length.
  rewrite bytes_compare_be by (unfold DATETIMEF_INT_OFS; change (256 ^ Z.of_nat 5) with (2 ^ 40); lia).
  rewrite frac_bytes_compare by (done || lia). rewrite !(Z.add_comm _ DATETIMEF_INT_OFS), Z.add_compare_mono_l.
  rewrite E1 at 3. rewrite E2 at 3. symmetry. by apply compare_pair.
Qed.

Lemma timestamp_to_binary_be s us dec : 0 <= dec <= 6 ->
  my_timestamp_to_binary (s, us) dec = be 4 s ++ be (frac_bytes dec) (Z.quot us (frac_unit dec)).
Proof.
  intros Hd. unfold my_timestamp_to_binary. destruct (mi_int_be s) as (_ & _ & -> & _). apply seven_decimals in Hd.
  destruct Hd as [-> |[-> |[-> |[-> |[-> |[-> | ->]]]]]]; cbn [frac_bytes frac_unit]; rewrite ?(proj1 (mi_int_be _)), ?Z.quot_1_r; try done; by rewrite (proj1 (proj2 (mi_int_be _))).
Qed.

Lemma timestamp_disk_read s us dec r : 0 <= s < 2 ^ 32 -> 0 <= us -> frac_rounded us dec ->
  my_timestamp_from_binary (my_timestamp_to_binary (s, us) dec ++ r) dec = (s, us).
Proof.
  intros Hs Hu Hf. destruct (frac_bytes_fit us dec Hu Hf) as (Ef & Hk & H0 & Hks). rewrite timestamp_to_binary_be by apply Hf.
  unfold my_timestamp_from_binary. rewrite <- app_assoc, (proj2 (mi_uint_be s _)), (Z.mod_small s) by done.
  set (k := Z.quot _ _) in *. destruct (mi_sint_be k r) as (_ & S2 & S3).
  change (drop 4 (be 4 s ++ ?l)) with l. change ((be 4 s ++ ?l) !!! 4%nat) with (l !!! 0%nat).
  destruct Hf as (Hd & _). apply seven_decimals in Hd.
  destruct Hd as [-> |[-> |[-> |[-> |[-> |[-> | ->]]]]]]; cbn [frac_bytes frac_unit] in *; simpl in Hks; rewrite ?S2, ?S3 by done; f_equal; try lia.
  - change ((be 1 k ++ r) !!! 0%nat) with (k mod 256). rewrite Z.mod_small by (simpl in Hk; lia). lia.
  - change ((be 1 k ++ r) !!! 0%nat) with (k mod 256). rewrite Z.mod_small by (simpl in Hk; lia). lia.
Qed.

(** C25: The disk formats of DATETIME and TIMESTAMP columns: what is rounded to the
    precision of the column is read back, and the bytes compare as the times do. *)
Theorem datetime_disk_format dec r : 0 <= dec <= 6 ->
  (forall nr nr', datetime_storable nr dec -> datetime_storable nr' dec ->
     my_datetime_packed_from_binary (my_datetime_packed_to_binary nr dec ++ r) dec = nr /\
     bytes_compare (my_datetime_packed_to_binary nr dec) (my_datetime_packed_to_binary nr' dec) = (nr ?= nr')) /\
  (forall s us s' us', 0 <= s < 2 ^ 32 -> 0 <= s' < 2 ^ 32 -> 0 <= us -> 0 <= us' -> frac_rounded us dec -> frac_rounded us' dec ->
     my_timestamp_from_binary (my_timestamp_to_binary (s, us) dec ++ r) dec = (s, us) /\
     bytes_compare (my_timestamp_to_binary (s, us) dec) (my_timestamp_to_binary (s', us') dec) = (s * 1000000 + us ?= s' * 1000000 + us')).
Proof.
  intros Hd. split.
  - intros nr nr' H H'. split; [by apply datetime_disk_read|by apply datetime_disk_compare].
  - intros s us s' us' Hs Hs' Hu Hu' F F'. split; [by apply timestamp_disk_read|].
    rewrite !timestamp_to_binary_be, bytes_compare_app, bytes_compare_be, frac_bytes_compare by (done || by rewrite !be_length).
    destruct F as (_ & F & _), F' as (_ & F' & _). symmetry. apply compare_pair; lia.
Qed.

(** ** Examples *)

Definition ex_datetime : MYSQL_TIME := mk_time 2024 2 29 23 59 58 123450 false MYSQL_TIMESTAMP_DATETIME.
Definition ex_time : MYSQL_TIME := mk_time 0 0 0 838 59 58 990000 true MYSQL_TIMESTAMP_TIME.
Definition ex_time_small : MYSQL_TIME := mk_time 0 0 0 0 0 0 10000 true MYSQL_TIMESTAMP_TIME.

Lemma packed_roundtrip_witness :
  TIME_from_longlong_datetime_packed (TIME_to_longlong_datetime_packed ex_datetime) = ex_datetime /\
  TIME_from_longlong_time_packed (TIME_to_longlong_time_packed ex_time) = ex_time.
Proof.
  split.
  - apply (packed_roundtrip ex_datetime); [unfold time_wf; simpl; lia|done|done|intros [=]].
  - apply (packed_roundtrip ex_time); [unfold time_wf; simpl; lia|done|done|done|done|done|vm_compute; intros _ [=]].
Defined.

Lemma packed_order_witness : TIME_to_longlong_time_packed ex_time < TIME_to_longlong_time_packed ex_time_small.
Proof.
  change ((TIME_to_longlong_time_packed ex_time ?= TIME_to_longlong_time_packed ex_time_small) = Lt).
  rewrite (proj2 (packed_order ex_time ex_time_small ltac:(unfold time_wf; simpl; lia) ltac:(unfold time_wf; simpl; lia) eq_refl eq_refl)) by done.
  reflexivity.
Defined.

(** -838:59:58.99 and -00:00:00.01 in a column of type TIME(2) *)
Lemma time_disk_format_witness :
  let nr := TIME_to_longlong_time_packed ex_time in let nr' := TIME_to_longlong_time_packed ex_time_small in
  my_time_packed_to_binary nr' 2 = [0x7f; 0xff; 0xff; 0xff] /\ my_time_packed_from_binary (my_time_packed_to_binary nr 2) 2 = nr /\
  bytes_compare (my_time_packed_to_binary nr 2) (my_time_packed_to_binary nr' 2) = Lt.
Proof.
  intros nr nr'. split; [reflexivity|].
  destruct (time_disk_format nr nr' 2 []) as [H1 H2]; [split; [vm_compute; split; [intros [=]|done]|split; [lia|split; [vm_compute; intros [=]|reflexivity]]]..|].
  rewrite app_nil_r in H1. split; [exact H1|]. rewrite H2. reflexivity.
Defined.

Lemma datetime_disk_format_witness :
  let nr := TIME_to_longlong_datetime_packed ex_datetime in
  my_datetime_packed_from_binary (my_datetime_packed_to_binary nr 5) 5 = nr /\
  my_timestamp_from_binary (my_timestamp_to_binary (4294967295, 999990) 5) 5 = (4294967295, 999990).
Proof.
  intros nr. destruct (datetime_disk_format 5 [] ltac:(lia)) as [H1 H2]. split.
  - rewrite <- (app_nil_r (my_datetime_packed_to_binary nr 5)).
    apply (H1 nr nr); (split; [vm_compute; split; [intros [=]|done]|split; [lia|split; [vm_compute; intros [=]|reflexivity]]]).
  - rewrite <- (app_nil_r (my_timestamp_to_binary _ 5)). apply (H2 _ _ 0 0); try lia; (split; [lia|split; [vm_compute; intros [=]|reflexivity]]).
Defined.
