(* ===== verification/SqlTimeSpec.v ===== *)
(** * Dates and times of the SQL layer: what the operations mean

    Intervals are added on the time line or in months, differences are those of
    the time line, rounding gives the nearest value of the precision, and numbers
    and decimals are read back as the times they were made from. *)

From Stdlib Require Import ZArith Lia QArith.
From stdpp Require Import base numbers option tactics list.
From S2P Require Import Prelude NumText Decimal DecimalInt DecimalShifting MyTime MyDecimal SqlTime Calendar MyDecimalSpec.

#[local] Open Scope Z_scope.

Definition DAY_MICROS : Z := 86400000000.

(** A clock of a day in range, in microseconds. *)
Definition clock_ok (t : MYSQL_TIME) : Prop :=
  0 <= hour t <= 23 /\ 0 <= minute t <= 59 /\ 0 <= second t <= 59 /\ 0 <= second_part t <= 999999.
Definition clock_micros (t : MYSQL_TIME) : Z := (hour t * 3600 + minute t * 60 + second t) * 1000000 + second_part t.

(** A point of the time line, in microseconds since the day before the year 0. *)
Definition datetime_ok (t : MYSQL_TIME) : Prop := 1 <= year t <= 9999 /\ date_ok (year t) (month t) (day t) /\ clock_ok t.
Definition datetime_micros (t : MYSQL_TIME) : Z := calc_daynr (year t) (month t) (day t) * DAY_MICROS + clock_micros t.

Lemma clock_micros_range t : clock_ok t -> 0 <= clock_micros t < DAY_MICROS.
Proof. unfold clock_ok, clock_micros, DAY_MICROS. lia. Qed.

(** ** Intervals *)

Definition interval_sign (i : Interval) : Z := if i_neg i then -1 else 1.

(** The seconds of an interval, and all of it in microseconds. *)
Definition interval_seconds (i : Interval) : Z := i_day i * 3600 * 24 + i_hour i * 3600 + i_minute i * 60 + i_second i.
Definition interval_micros (i : Interval) : Z := interval_seconds i * 1000000 + i_second_part i.

(** Bounds within which no sum or product of the addition wraps. *)
Definition interval_small (i : Interval) : Prop :=
  0 <= i_year i < 2 ^ 31 /\ 0 <= i_month i < 2 ^ 62 /\ 0 <= i_day i /\ 0 <= i_hour i /\ 0 <= i_minute i /\ 0 <= i_second i /\
  0 <= i_second_part i < 2 ^ 62 /\ interval_seconds i < 2 ^ 61.

(** The seconds of the clock, divided as [add_seconds] does it. *)
Lemma clock_of_seconds t s us : 0 <= s < 86400 -> 0 <= us < 1000000 ->
  let t' := set_clock (set_second_part t us) (Z.quot s 3600) (Z.rem (Z.quot s 60) 60) (Z.rem s 60) in
  clock_ok t' /\ clock_micros t' = s * 1000000 + us.
Proof.
  intros Hs Hu t'. unfold t', clock_ok, clock_micros. simpl. rewrite !Z.quot_div_nonneg, !Z.rem_mod_nonneg by (try apply Z.div_pos; lia).
  assert (s / 3600 = s / 60 / 60) as E by (by rewrite Z.div_div). Z.div_mod_to_equations. lia.
Qed.

(** Division with a remainder that is made nonnegative afterwards. *)
Lemma floor_by_quot x n : 0 < n -> (if x - Z.quot x n * n <? 0 then (Z.quot x n - 1, x - Z.quot x n * n + n) else (Z.quot x n, x - Z.quot x n * n)) =
  (x / n, x mod n).
Proof.
  intros Hn. pose proof (Z.quot_rem' x n) as Q. pose proof (Z.rem_bound_abs x n ltac:(lia)) as R.
  set (q := Z.quot x n) in *. set (r := Z.rem x n) in *. clearbody q r. replace (x - q * n) with r by lia.
  destruct (Z.ltb_spec r 0); f_equal.
  - apply (Z.div_unique x n _ (r + n)); lia.
  - apply (Z.mod_unique x n (q - 1)); lia.
  - apply (Z.div_unique x n _ r); lia.
  - apply (Z.mod_unique x n q); lia.
Qed.

(** What is stored when a day number of the calendar is reached, or not. *)
Lemma date_of_daynr n : 0 <= n <= MAX_DAY_NUMBER ->
  exists y m d, get_date_from_daynr n = Some (y, m, d) /\
    (if n <=? 365 then (y, m, d) = (0, 0, 0) else 1 <= y <= 9999 /\ date_ok y m d /\ calc_daynr y m d = n).
Proof.
  intros Hn. destruct (Z.leb_spec n 365) as [L|L].
  - exists 0, 0, 0. unfold get_date_from_daynr. by rewrite (proj2 (Z.leb_le n 365)).
  - destruct (date_exists n) as (y & m & d & Hy & Hd & ->); [lia|]. destruct (date_ok_range y m d Hd).
    exists y, m, d. rewrite get_date_from_daynr_spec, calc_daynr_spec by (done || lia). done.
Qed.

(** Whether a day number is one that the code rejects. *)
Lemma daynr_check n : - 2 ^ 63 <= n < 2 ^ 63 -> (MAX_DAY_NUMBER <? wrapu 64 n) = negb ((0 <=? n) && (n <=? MAX_DAY_NUMBER)).
Proof.
  intros Hn. unfold MAX_DAY_NUMBER. destruct (Z.leb_spec 0 n); simpl.
  - rewrite wrapu_id by (unfold in_u; lia). zcases.
  - unfold wrapu. rewrite <- (Z_mod_plus_full n 1), Z.mod_small by lia. apply Z.ltb_lt. lia.
Qed.

(** The carry from the microseconds to the seconds. *)
Lemma micros_carry sec u : - 2 ^ 63 <= sec + u / 1000000 < 2 ^ 63 -> - 2 ^ 63 <= sec + Z.quot u 1000000 < 2 ^ 63 ->
  (if Z.rem u 1000000 <? 0 then (Z.rem u 1000000 + 1000000, wraps 64 (sec + Z.quot u 1000000 - 1)) else (Z.rem u 1000000, sec + Z.quot u 1000000)) =
  (u mod 1000000, sec + u / 1000000).
Proof.
  intros H H'. pose proof (floor_by_quot u 1000000 ltac:(lia)) as F. replace (u - Z.quot u 1000000 * 1000000) with (Z.rem u 1000000) in F by (pose proof (Z.quot_rem' u 1000000); lia).
  destruct (Z.rem u 1000000 <? 0); injection F as E1 E2; rewrite E2; f_equal; rewrite ?wraps_id by (try done; unfold in_s; lia); lia.
Qed.

(** A number of microseconds in days, seconds and microseconds. *)
Lemma micros_split d sec us : 0 <= us < 1000000 -> let x := (d * 86400 + sec) * 1000000 + us in
  x / DAY_MICROS = d + sec / 86400 /\ x mod DAY_MICROS = sec mod 86400 * 1000000 + us.
Proof.
  intros Hu x. unfold x, DAY_MICROS. pose proof (Z.div_mod sec 86400 ltac:(lia)) as E. pose proof (Z.mod_pos_bound sec 86400 ltac:(lia)) as R.
  set (q := sec / 86400) in *. set (r := sec mod 86400) in *. split; symmetry.
  - apply (Z.div_unique _ _ _ (r * 1000000 + us)); lia.
  - apply (Z.mod_unique _ _ (d + q)); lia.
Qed.

Definition add_outcome (t' : MYSQL_TIME) (n : Z) (r : add_status) : Prop :=
  if (0 <=? n) && (n <=? MAX_DAY_NUMBER) then
    r = Date_ok /\ (if n <=? 365 then (year t', month t', day t') = (0, 0, 0)
                    else 1 <= year t' <= 9999 /\ date_ok (year t') (month t') (day t') /\ calc_daynr (year t') (month t') (day t') = n)
  else r = Invalid_date.

(** The end of the two ways to add days. *)
Lemma add_finish t n : - 2 ^ 63 <= n < 2 ^ 63 ->
  exists t' r, (if MAX_DAY_NUMBER <? wrapu 64 n then Some (t, Invalid_date)
                else '(y, m, d) ← get_date_from_daynr n; Some (set_date t y m d, Date_ok)) = Some (t', r) /\ add_outcome t' n r /\
    (hour t', minute t', second t', second_part t') = (hour t, minute t, second t, second_part t) /\ neg t' = neg t /\ time_type t' = time_type t.
Proof.
  intros Hn. rewrite daynr_check by done. unfold add_outcome. destruct ((0 <=? n) && (n <=? MAX_DAY_NUMBER)) eqn:C; cbn [negb].
  - apply andb_prop in C as [C1%Z.leb_le C2%Z.leb_le]. destruct (date_of_daynr n (conj C1 C2)) as (y & m & d & -> & H).
    exists (set_date t y m d), Date_ok. split_and!; done.
  - by exists t, Invalid_date.
Qed.

Lemma add_seconds_spec t i s : datetime_ok t -> interval_small i -> (s = 1 \/ s = -1) ->
  let x := datetime_micros t + s * interval_micros i in
  exists t' r, add_seconds t i s = Some (t', r) /\ add_outcome t' (x / DAY_MICROS) r /\ clock_ok t' /\ clock_micros t' = x mod DAY_MICROS /\
    neg t' = neg t /\ time_type t' = MYSQL_TIMESTAMP_DATETIME.
Proof.
  intros (Hy & Hd & Hc) Hi Hs x. destruct (date_ok_range _ _ _ Hd) as [Hm Hdd]. pose proof (daynr_range _ _ _ Hy Hd) as N. unfold MAX_DAY_NUMBER in N.
  destruct Hi as (_ & _ & Hid & Hih & Him & His & Hip & Hsec). unfold clock_ok in Hc.
  assert (0 <= interval_seconds i) by (unfold interval_seconds; lia).
  unfold add_seconds. cbn [second_part day hour minute second year month set_time_type]. fold (interval_seconds i).
  rewrite (wraps_id 64 (second_part t + _)) by (try done; unfold in_s; lia). set (u := second_part t + s * i_second_part i).
  rewrite (wrapu_id 32 (day t - 1)), !wrapu_id by (unfold in_u; lia). rewrite (wraps_id 64 (interval_seconds i)) by (try done; unfold in_s; lia).
  set (sec := (day t - 1) * 3600 * 24 + hour t * 3600 + minute t * 60 + second t + s * interval_seconds i).
  assert (- 2 ^ 62 <= u / 1000000 <= 2 ^ 62 /\ - 2 ^ 62 <= Z.quot u 1000000 <= 2 ^ 62) as [Bu Bq].
  { assert (- 2 ^ 63 < u < 2 ^ 63) by (unfold u; lia). Z.to_euclidean_division_equations. lia. }
  assert (- 2 ^ 62 < sec < 2 ^ 62) as Bs by (unfold sec; lia).
  rewrite (wraps_id 64 (sec + _)) by (try done; unfold in_s; lia). rewrite micros_carry by lia. set (sec' := sec + u / 1000000).
  rewrite <- !Z.mul_assoc. change (3600 * 24) with 86400. rewrite (floor_by_quot sec' 86400) by lia.
  pose proof (Z.mod_pos_bound u 1000000 ltac:(lia)) as Mu. pose proof (Z.mod_pos_bound sec' 86400 ltac:(lia)) as Ms.
  destruct (clock_of_seconds (set_time_type t MYSQL_TIMESTAMP_DATETIME) (sec' mod 86400) (u mod 1000000) Ms Mu) as [K1 K2].
  set (t1 := set_clock _ _ _ _) in *. change (year t1) with (year t). change (month t1) with (month t). rewrite calc_daynr_spec by lia.
  destruct (micros_split (year_start (year t) + month_start (year t) (month t) + 1) sec' (u mod 1000000) Mu) as [D1 D2].
  assert ((((year_start (year t) + month_start (year t) (month t) + 1) * 86400 + sec') * 1000000 + u mod 1000000) = x) as Ex.
  { unfold x, datetime_micros, clock_micros, interval_micros, DAY_MICROS. rewrite calc_daynr_spec by lia.
    pose proof (Z.div_mod u 1000000 ltac:(lia)). unfold sec', sec, u in *. lia. }
  rewrite Ex in D1, D2.
  destruct (add_finish t1 (x / DAY_MICROS)) as (t' & r & E & O & Ec & En & Et).
  { rewrite D1. pose proof (day_of_year_range _ _ _ Hd). assert (- 2 ^ 62 < sec' / 86400 < 2 ^ 62) by (unfold sec'; Z.div_mod_to_equations; lia). lia. }
  exists t', r. rewrite <- D1. split; [exact E|]. injection Ec as E1 E2 E3 E4. unfold clock_ok, clock_micros in *.
  rewrite E1, E2, E3, E4, En, Et. split; [exact O|]. split; [exact K1|]. split; [exact (eq_trans K2 (eq_sym D2))|done].
Qed.

(** The members below the day are kept. *)
Definition same_clock (t t' : MYSQL_TIME) : Prop :=
  (hour t', minute t', second t', second_part t') = (hour t, minute t, second t, second_part t) /\ neg t' = neg t /\ time_type t' = time_type t.

Lemma add_days_spec t i s : datetime_ok t -> interval_small i -> (s = 1 \/ s = -1) ->
  exists t' r, add_days t i s = Some (t', r) /\ add_outcome t' (calc_daynr (year t) (month t) (day t) + s * i_day i) r /\ same_clock t t'.
Proof.
  intros (Hy & Hd & _) Hi Hs. destruct (date_ok_range _ _ _ Hd) as [Hm Hdd]. pose proof (daynr_range _ _ _ Hy Hd) as N. unfold MAX_DAY_NUMBER in N.
  destruct Hi as (_ & _ & Hid & Hih & Him & His & _ & Hsec). unfold interval_seconds in Hsec. unfold add_days. rewrite calc_daynr_spec by lia.
  rewrite (wraps_id 64 (i_day i)) by (try done; unfold in_s; lia). rewrite wraps_id by (try done; unfold in_s; lia).
  destruct (add_finish t (year_start (year t) + month_start (year t) (month t) + day t + s * i_day i)) as (t' & r & E & O & H); [lia|].
  exists t', r. by split_and!.
Qed.

(** A date some months away, on the same day or the last one of its month. *)
Definition months_outcome (t t' : MYSQL_TIME) (p : Z) (r : add_status) : Prop :=
  if (0 <=? p) && (p <? 120000) then
    r = Date_ok /\ year t' = p / 12 /\ month t' = p mod 12 + 1 /\ day t' = Z.min (day t) (month_days (year t') (month t'))
  else r = Invalid_date.

Lemma add_months_spec t i s : datetime_ok t -> interval_small i -> (s = 1 \/ s = -1) ->
  exists t' r, add_months t i s = Some (t', r) /\
    months_outcome t t' (year t * 12 + month t - 1 + s * (i_year i * 12 + i_month i)) r /\ same_clock t t'.
Proof.
  intros (Hy & Hd & _) Hi Hs. destruct (date_ok_range _ _ _ Hd) as [Hm Hdd]. destruct Hi as (Hiy & Him & _).
  unfold add_months. rewrite (wrapu_id 32 (year t * 12)) by (unfold in_u; lia).
  rewrite (wraps_id 64 (i_year i)), (wraps_id 64 (i_month i)) by (try done; unfold in_s; lia).
  rewrite wraps_id by (try done; unfold in_s; destruct Hs as [-> | ->]; lia).
  set (p := year t * 12 + month t - 1 + s * (i_year i * 12 + i_month i)).
  replace (year t * 12 + s * i_year i * 12 + month t - 1 + s * i_month i) with p by (unfold p; lia).
  assert ((120000 <=? wrapu 64 p) = negb ((0 <=? p) && (p <? 120000))) as ->.
  { assert (- 2 ^ 63 < p < 2 ^ 63) by (unfold p; destruct Hs as [-> | ->]; lia). clearbody p. destruct (Z.leb_spec 0 p); simpl.
    - rewrite wrapu_id by (unfold in_u; lia). zcases.
    - unfold wrapu. rewrite <- (Z_mod_plus_full p 1), Z.mod_small by lia. apply Z.leb_le. lia. }
  unfold months_outcome. destruct ((0 <=? p) && (p <? 120000)) eqn:C; cbn [negb]; [|by exists t, Invalid_date].
  apply andb_prop in C as [C1%Z.leb_le C2%Z.ltb_lt]. rewrite Z.quot_div_nonneg, Z.rem_mod_nonneg by lia.
  cbn [month day year set_date]. pose proof (Z.mod_pos_bound p 12 ltac:(lia)) as M.
  destruct (lookup_lt_is_Some_2 days_in_month (Z.to_nat (p mod 12 + 1 - 1))) as [k Ek]; [change (length days_in_month) with 13%nat; lia|].
  rewrite Ek. cbn [mbind option_bind]. eexists _, _. split; [done|]. split; [|done]. cbn [month day year set_date].
  split_and!; try done. unfold month_days. rewrite (list_lookup_total_correct _ _ _ Ek).
  destruct (Z.eqb_spec (p mod 12 + 1) 2) as [E2|]; simpl.
  - rewrite E2 in Ek. injection Ek as <-. zcases.
  - zcases.
Qed.

Lemma add_years_spec t i s : datetime_ok t -> interval_small i -> (s = 1 \/ s = -1) ->
  exists t' r, add_years t i s = Some (t', r) /\ months_outcome t t' (year t * 12 + month t - 1 + s * (i_year i * 12)) r /\ same_clock t t'.
Proof.
  intros (Hy & Hd & _) Hi Hs. destruct (date_ok_range _ _ _ Hd) as [Hm Hdd]. destruct Hi as (Hiy & _).
  unfold add_years. cbn [month day year set_date]. rewrite (wraps_id 64 (i_year i)) by (try done; unfold in_s; lia).
  set (y := year t + s * i_year i).
  replace (year t * 12 + month t - 1 + s * (i_year i * 12)) with (y * 12 + (month t - 1)) by (unfold y; lia).
  assert (- 2 ^ 32 + 10000 <= y < 2 ^ 32) as By by (unfold y; destruct Hs as [-> | ->]; lia). clearbody y. unfold months_outcome.
  rewrite (Z.div_add_l y 12), (Z.div_small (month t - 1)), (Z.add_comm (y * 12)), Z_mod_plus_full, Z.mod_small by lia.
  assert ((10000 <=? wrapu 32 y) = negb ((0 <=? month t - 1 + y * 12) && (month t - 1 + y * 12 <? 120000))) as ->.
  { destruct (Z.leb_spec 0 y).
    - rewrite wrapu_id by (unfold in_u; lia). rewrite (proj2 (Z.leb_le 0 _)) by lia. zcases.
    - rewrite (proj2 (Z.leb_gt 0 _)) by lia. unfold wrapu. rewrite <- (Z_mod_plus_full y 1), Z.mod_small by lia. apply Z.leb_le. lia. }
  destruct ((0 <=? _) && _) eqn:C; cbn [negb]; [|by eexists _, Invalid_date].
  apply andb_prop in C as [C1%Z.leb_le C2%Z.ltb_lt]. rewrite (wrapu_id 32 y) by (unfold in_u; lia).
  destruct Hd as [_ Hd]. destruct ((month t =? 2) && (day t =? 29) && negb (calc_days_in_year y =? 366)) eqn:C; eexists _, _; (split; [done|]); (split; [|done]);
    cbn [month day year set_date]; (split_and!; [done|lia|lia|]); replace (month t - 1 + 1) with (month t) by lia.
  - rewrite !andb_true_iff, negb_true_iff, !Z.eqb_eq, Z.eqb_neq in C. destruct C as [[Em Ed] El]. rewrite Em, Ed. unfold month_days. simpl.
    rewrite (proj2 (Z.eqb_neq _ _) El). done.
  - symmetry. apply Z.min_l. unfold month_days in *. destruct (Z.eqb_spec (month t) 2) as [Em|]; simpl in *; [|lia]. rewrite Em in *.
    change (days_in_month !!! Z.to_nat (2 - 1)) with 28 in *. destruct (calc_days_in_year y =? 366); simpl in *; [|].
    + destruct (calc_days_in_year (year t) =? 366); lia.
    + destruct (Z.eqb_spec (day t) 29); simpl in C; [done|]. destruct (calc_days_in_year (year t) =? 366); lia.
Qed.

Lemma interval_sign_cases i : interval_sign i = 1 \/ interval_sign i = -1.
Proof. unfold interval_sign. destruct (i_neg i); lia. Qed.

Lemma datetime_micros_outcome t' x r : add_outcome t' (x / DAY_MICROS) r -> clock_ok t' -> clock_micros t' = x mod DAY_MICROS ->
  365 < x / DAY_MICROS <= MAX_DAY_NUMBER -> r = Date_ok /\ datetime_ok t' /\ datetime_micros t' = x.
Proof.
  unfold add_outcome. intros H Hc E Hx. rewrite (proj2 (Z.leb_le 0 _)), (proj2 (Z.leb_le _ MAX_DAY_NUMBER)), (proj2 (Z.leb_gt _ 365)) in H by lia.
  destruct H as (-> & Hy & Hd & En). split_and!; try done. unfold datetime_micros. rewrite En, E.
  pose proof (Z.div_mod x DAY_MICROS ltac:(done)). lia.
Qed.


(** 31 January 2023 23:59:59.999999, plus a month and minus a microsecond more than a day *)
Definition ex_end : MYSQL_TIME := mk_time 2023 1 31 23 59 59 999999 false MYSQL_TIMESTAMP_DATETIME.


(** C40: What [date_add_interval] makes of intervals beyond the width of its sums, for
    every date and interval: years count modulo 2^32 and hours, as seconds, modulo
    2^64, before anything is checked.  So a multiple of 2^32 years leaves every
    date of the calendar as it is, and is no error. *)
Theorem date_add_interval_wraps t sign k : 0 <= k ->
  (forall y, 0 <= y -> y + k * 2 ^ 32 < 2 ^ 63 ->
     date_add_interval t INTERVAL_YEAR (mk_interval (y + k * 2 ^ 32) 0 0 0 0 0 0 sign) =
     date_add_interval t INTERVAL_YEAR (mk_interval y 0 0 0 0 0 0 sign)) /\
  (forall h r, h * 3600 = k * 2 ^ 64 + r ->
     date_add_interval t INTERVAL_HOUR (mk_interval 0 0 0 h 0 0 0 sign) =
     date_add_interval t INTERVAL_SECOND (mk_interval 0 0 0 0 0 r 0 sign)) /\
  (datetime_ok t -> k < 2 ^ 31 ->
     date_add_interval t INTERVAL_YEAR (mk_interval (k * 2 ^ 32) 0 0 0 0 0 0 sign) = Some (set_neg t false, Date_ok)).
Proof.
  intros Hk. assert (HY : forall y, 0 <= y -> y + k * 2 ^ 32 < 2 ^ 63 ->
     date_add_interval t INTERVAL_YEAR (mk_interval (y + k * 2 ^ 32) 0 0 0 0 0 0 sign) =
     date_add_interval t INTERVAL_YEAR (mk_interval y 0 0 0 0 0 0 sign)).
  { intros y Hy Hb. unfold date_add_interval, add_years. cbn [i_year i_neg].
    rewrite !wraps_id by (unfold in_s; lia). set (a := year (set_neg t false)).
    assert (wrapu 32 (a + (if sign then -1 else 1) * (y + k * 2 ^ 32)) = wrapu 32 (a + (if sign then -1 else 1) * y)) as ->; [|done].
    unfold wrapu. rewrite <- (Z_mod_plus_full (a + _ * y) ((if sign then -1 else 1) * k)). f_equal. lia. }
  split_and!; [done| |].
  - intros h r E. unfold date_add_interval, add_seconds. cbn [i_day i_hour i_minute i_second i_second_part i_neg].
    assert (wraps 64 (0 * 3600 * 24 + h * 3600 + 0 * 60 + 0) = wraps 64 (0 * 3600 * 24 + 0 * 3600 + 0 * 60 + r)) as ->; [|done].
    rewrite E. unfold wraps. f_equal. rewrite <- (Z_mod_plus_full (0 * 3600 * 24 + 0 * 3600 + 0 * 60 + r + _) k). f_equal. lia.
  - intros Ht Hb. rewrite <- (Z.add_0_l (k * 2 ^ 32)), HY by lia. unfold date_add_interval, add_years. cbn [i_year i_neg].
    change (wraps 64 0) with 0. rewrite Z.mul_0_r, Z.add_0_r. change (year (set_neg t false)) with (year t).
    destruct Ht as (Hy & Hd & _). rewrite wrapu_id by (unfold in_u; lia).
    assert ((month t =? 2) && (day t =? 29) && negb (calc_days_in_year (year t) =? 366) = false) as E.
    { destruct (Z.eqb_spec (month t) 2) as [Em|]; [|done]. destruct (Z.eqb_spec (day t) 29) as [Ed|]; [|done]. simpl.
      destruct Hd as [_ Hd]. rewrite Em, Ed in Hd. unfold month_days in Hd. simpl in Hd. destruct (calc_days_in_year (year t) =? 366); [done|lia]. }
    destruct t. cbn in *. rewrite E. destruct (Z.leb_spec 10000 year); [lia|done].
Qed.

(** The year 2000 and 2^32 years; 5124095576030432 hours are 3584 seconds. *)
Lemma date_add_interval_wraps_witness :
  let t := mk_time 2000 1 1 0 0 0 0 false MYSQL_TIMESTAMP_DATETIME in
  date_add_interval t INTERVAL_YEAR (mk_interval (1 * 2 ^ 32) 0 0 0 0 0 0 false) = Some (t, Date_ok) /\
  date_add_interval t INTERVAL_HOUR (mk_interval 0 0 0 5124095576030432 0 0 0 false) =
    date_add_interval t INTERVAL_SECOND (mk_interval 0 0 0 0 0 3584 0 false).
Proof.
  intros t. destruct (date_add_interval_wraps t false 1) as (_ & H2 & H3); [done|]. split; [|by apply H2].
  apply H3; [|done]. split; [unfold t; simpl; lia|]. split; [split; vm_compute; split; intros [=]|unfold clock_ok, t; simpl; lia].
Defined.

(** ** Numbers *)

Lemma digit_pairs a b c : 0 <= a -> 0 <= b < 100 -> 0 <= c < 100 ->
  (a * 10000 + b * 100 + c) / 10000 = a /\ (a * 10000 + b * 100 + c) mod 10000 / 100 = b /\ (a * 10000 + b * 100 + c) mod 10000 mod 100 = c /\
  (a * 10000 + b * 100 + c) / 100 mod 100 = b /\ (a * 10000 + b * 100 + c) mod 100 = c.
Proof. intros. split_and!; Z.div_mod_to_equations; lia. Qed.

(** The digits of a date with its time. *)
Definition date_digits (t : MYSQL_TIME) : Z := year t * 10000 + month t * 100 + day t.
Definition clock_digits (t : MYSQL_TIME) : Z := hour t * 10000 + minute t * 100 + second t.

Lemma datetime_digits t : 0 <= date_digits t < 2 ^ 40 -> 0 <= clock_digits t < 2 ^ 40 ->
  TIME_to_ulonglong_date t = date_digits t /\ TIME_to_ulonglong_time t = clock_digits t /\
  TIME_to_ulonglong_datetime t = date_digits t * 1000000 + clock_digits t.
Proof.
  unfold TIME_to_ulonglong_date, TIME_to_ulonglong_time, TIME_to_ulonglong_datetime. fold (date_digits t) (clock_digits t). intros Hd Hc.
  rewrite !(wrapu_id 64 (date_digits t)), !(wrapu_id 64 (clock_digits t)) by (unfold in_u; lia). rewrite wrapu_id by (unfold in_u; lia). done.
Qed.

Lemma split_number_spec t ty : 0 <= year t -> 0 <= month t < 100 -> 0 <= day t < 100 -> 0 <= hour t < 100 -> 0 <= minute t < 100 -> 0 <= second t < 100 ->
  split_number (date_digits t * 1000000 + clock_digits t) ty = mk_time (year t) (month t) (day t) (hour t) (minute t) (second t) 0 false ty.
Proof.
  intros Hy Hm Hd Hh Hmi Hs. unfold split_number.
  destruct (digit_pairs (year t) (month t) (day t)) as (D1 & D2 & D3 & _); [lia..|]. fold (date_digits t) in *.
  destruct (digit_pairs (hour t) (minute t) (second t)) as (C1 & C2 & C3 & _); [lia..|]. fold (clock_digits t) in *.
  assert (0 <= date_digits t /\ 0 <= clock_digits t < 1000000) as [Bd Bc] by (unfold date_digits, clock_digits; lia).
  rewrite (Z.quot_div_nonneg (_ * 1000000 + _)), Z.div_add_l, (Z.div_small (clock_digits t)), Z.add_0_r by lia.
  replace (date_digits t * 1000000 + clock_digits t - date_digits t * 1000000) with (clock_digits t) by lia.
  pose proof (Z.mod_pos_bound (date_digits t) 10000 ltac:(lia)). pose proof (Z.mod_pos_bound (clock_digits t) 10000 ltac:(lia)).
  rewrite !(Z.rem_mod_nonneg _ 10000), !Z.quot_div_nonneg, !Z.rem_mod_nonneg by lia. by rewrite D1, D2, D3, C1, C2, C3.
Qed.

Lemma check_date_ok t flags w : date_ok (year t) (month t) (day t) -> check_date t true flags w = Some (false, w).
Proof.
  intros [Hm Hd]. unfold check_date. rewrite (proj2 (Z.eqb_neq (month t) 0)), (proj2 (Z.eqb_neq (day t) 0)) by lia. rewrite andb_false_r. simpl.
  destruct (negb (flag flags TIME_INVALID_DATES)); simpl; [|done].
  destruct (lookup_lt_is_Some_2 days_in_month (Z.to_nat (month t - 1))) as [k Ek]; [change (length days_in_month) with 13%nat; lia|].
  rewrite Ek. cbn [mbind option_bind]. unfold month_days in Hd. rewrite (list_lookup_total_correct _ _ _ Ek) in Hd.
  destruct (Z.ltb_spec k (day t)); simpl; [|done]. destruct (Z.eqb_spec (month t) 2) as [E2|]; simpl in *; [|lia].
  destruct (calc_days_in_year (year t) =? 366); simpl in *; [|lia]. rewrite E2 in Ek. injection Ek as <-.
  by rewrite (proj2 (Z.eqb_eq (day t) 29)) by lia.
Qed.

Lemma datetime_range_ok t ty : 0 <= year t <= 9999 -> date_ok (year t) (month t) (day t) -> clock_ok t ->
  check_datetime_range (mk_time (year t) (month t) (day t) (hour t) (minute t) (second t) 0 false ty) = false.
Proof.
  intros Hy Hd Hc. apply date_ok_range in Hd as [Hm Hd]. unfold clock_ok in Hc. unfold check_datetime_range. cbn [year month day hour minute second second_part time_type].
  rewrite !(proj2 (Z.ltb_ge _ _)) by (try destruct (bool_decide _); unfold TIME_MAX_HOUR; lia). done.
Qed.

(** Numbers of eight and of fourteen digits are complete. *)
Lemma complete_number_date nr flags : 10000101 <= nr <= 99991231 -> complete_number nr flags = (Some (nr * 1000000), MYSQL_TIMESTAMP_DATE).
Proof.
  intros H. unfold complete_number, YY_PART_YEAR. repeat match goal with
    | |- context [?a =? ?b] => destruct (Z.eqb_spec a b); [lia|]; simpl orb; cbv iota
    | |- context [?a <? ?b] => destruct (Z.ltb_spec a b); [lia|]; simpl andb; cbv iota
    | |- context [?a <=? ?b] => destruct (Z.leb_spec a b); first [lia|simpl orb; cbv iota]
    end. done.
Qed.

Lemma complete_number_datetime nr flags : 10000101000000 <= nr -> complete_number nr flags = (Some nr, MYSQL_TIMESTAMP_DATETIME).
Proof. intros H. unfold complete_number. by rewrite (proj2 (Z.leb_le 10000101000000 nr)), orb_true_r. Qed.

(** The number of a date, with or without time, is read as that date. *)
Lemma number_read t nr flags ty : 1 <= year t -> datetime_ok t -> complete_number nr flags = (Some (date_digits t * 1000000 + clock_digits t), ty) ->
  nr <= 99999999999999 ->
  number_to_datetime nr flags =
    Some (date_digits t * 1000000 + clock_digits t, mk_time (year t) (month t) (day t) (hour t) (minute t) (second t) 0 false ty, 0).
Proof.
  intros H1 (Hy & Hd & Hc) E Hn. destruct (date_ok_range _ _ _ Hd) as [Hm Hdd]. pose proof Hc as Hc'. unfold clock_ok in Hc'.
  assert (0 < date_digits t /\ 0 <= clock_digits t) as [Bd Bc] by (unfold date_digits, clock_digits; lia).
  unfold number_to_datetime. rewrite E, (proj2 (Z.ltb_ge 99999999999999 _)) by lia.
  rewrite split_number_spec, datetime_range_ok by (done || lia). rewrite (proj2 (Z.eqb_neq _ 0)) by lia. cbn [negb].
  rewrite check_date_ok by done. done.
Qed.

Lemma datetime_digits_range t : 1000 <= year t -> datetime_ok t -> 10000101 <= date_digits t <= 99991231 /\ 0 <= clock_digits t <= 235959.
Proof.
  intros H1000 (Hy & Hd & Hc). destruct (date_ok_range _ _ _ Hd) as [Hm Hdd]. unfold clock_ok in Hc. unfold date_digits, clock_digits. lia.
Qed.

(** ** Decimals *)

(** The two parts of a decimal that has at most nine digits after the point. *)
Lemma my_decimal2lldiv_t_parts d n q r : dec_wf d -> d_intg d <= 18 -> 0 <= d_frac d <= 9 -> 0 <= q -> 0 <= r < DIG_BASE ->
  (dec_Q d == Qmake (sg n * (q * DIG_BASE + r)) (Z.to_pos DIG_BASE))%Q ->
  my_decimal2lldiv_t 0 d = Some (sg n * q, sg n * r, E_DEC_OK, []).
Proof.
  intros W Hi Hf Hq Hr Q. pose proof (decimal2lldiv_t_spec d W) as H.
  assert (ROUND_UP (d_intg d) <= 2) as Hi2 by (unfold ROUND_UP, DIG_PER_DEC1; Z.to_euclidean_division_equations; lia).
  rewrite (proj2 (Z.ltb_ge 2 _)) in H by done. destruct H as (rem & E & Hrem & Er). unfold my_decimal2lldiv_t. rewrite E. cbn [mbind option_bind].
  assert (ROUND_UP (d_frac d) = 0 \/ ROUND_UP (d_frac d) = 1) as Hf2 by (unfold ROUND_UP, DIG_PER_DEC1; Z.to_euclidean_division_equations; lia).
  assert (sgn d * dec_cut 1 d = sg n * (q * DIG_BASE + r) /\ int_part d = sg n * q) as [Es Ei].
  { unfold int_part, dec_cut. unfold dec_Q, Qeq in Q. cbn [Qnum Qden] in Q. assert (dec_sval d = sgn d * dec_val d) as Ed by (unfold dec_sval, sgn; destruct (d_sign d); lia).
    rewrite (Z2Pos.id DIG_BASE) in Q by done. set (S := sg n * (q * DIG_BASE + r)) in *.
    destruct Hf2 as [Ef|Ef]; rewrite Ef in *; rewrite ?Z.pow_0_r, ?Z.pow_1_r in *.
    - rewrite Z2Pos.id, Z.mul_1_r in Q by done. rewrite Z.div_1_r, Z.quot_1_r. split; [lia|]. unfold S, sg, DIG_BASE in *. destruct n; lia.
    - rewrite Z2Pos.id in Q by done. rewrite Z.div_mul by done. assert (dec_sval d = S) as E1 by (unfold DIG_BASE in Q; lia).
      split; [lia|]. rewrite E1. assert (Z.quot (q * DIG_BASE + r) DIG_BASE = q) as Eq
        by (clear -Hq Hr; unfold DIG_BASE in *; rewrite Z.quot_div_nonneg, Z.div_add_l, Z.div_small by lia; lia).
      unfold S, sg. destruct n; [|by rewrite Z.mul_1_l, Eq, Z.mul_1_l].
      replace (-1 * (q * DIG_BASE + r)) with (- (q * DIG_BASE + r)) by lia. rewrite Z.quot_opp_l, Eq by done. lia. }
  rewrite Es, Ei in Er. rewrite Ei. replace rem with (sg n * r) by (unfold sg in *; destruct n; lia). done.
Qed.

(** A decimal that is made of the digits of a time and its microseconds. *)
Lemma lldiv_decimal quot us n dec : dec_room dec -> d_len dec = DECIMAL_BUFF_LENGTH -> 0 <= quot < DIG_BASE * DIG_BASE -> 0 <= us <= 999999 ->
  exists d, lldiv_t2my_decimal quot (us * 1000) n dec = Some (d, []) /\
    my_decimal2lldiv_t 0 d = Some (sg n * quot, sg n * (us * 1000), E_DEC_OK, []).
Proof.
  intros Hr Hl Hq Hu. destruct (lldiv_t2my_decimal_spec quot (us * 1000) n dec Hr Hl) as (d & E & W & _ & Q & Hi & Hf);
    [unfold DIG_BASE, LLONG_MAX in *; lia|unfold DIG_BASE; lia|apply Z.divide_factor_r|].
  exists d. split; [done|]. apply my_decimal2lldiv_t_parts; try done; [apply Hi|..]; unfold DIG_BASE in *; lia.
Qed.

(** A TIME without days and within its range. *)
Definition time_value_ok (t : MYSQL_TIME) : Prop :=
  year t = 0 /\ month t = 0 /\ day t = 0 /\ 0 <= hour t <= 838 /\ 0 <= minute t <= 59 /\ 0 <= second t <= 59 /\ 0 <= second_part t <= 999999 /\
  time_type t = MYSQL_TIMESTAMP_TIME.

Lemma number_to_time_digits t t0 n w : time_value_ok t ->
  number_to_time (sg n * clock_digits t) t0 w =
    Some (false, mk_time 0 0 0 (hour t) (minute t) (second t) 0 (sg n * clock_digits t <? 0) MYSQL_TIMESTAMP_TIME, w).
Proof.
  intros (_ & _ & _ & Hh & Hm & Hs & _). assert (0 <= clock_digits t <= TIME_MAX_VALUE) as B by (unfold clock_digits; change TIME_MAX_VALUE with 8385959; lia).
  destruct (digit_pairs (hour t) (minute t) (second t)) as (D1 & _ & _ & D2 & D3); [lia..|]. fold (clock_digits t) in *. change TIME_MAX_VALUE with 8385959 in *.
  unfold number_to_time. change TIME_MAX_VALUE with 8385959. rewrite !(proj2 (Z.ltb_ge _ _)) by (unfold sg; destruct n; lia).
  replace (if sg n * clock_digits t <? 0 then - (sg n * clock_digits t) else sg n * clock_digits t) with (clock_digits t)
    by (destruct (Z.ltb_spec (sg n * clock_digits t) 0); unfold sg in *; destruct n; lia).
  rewrite Z.quot_div_nonneg, !Z.rem_mod_nonneg by (try apply Z.div_pos; lia). rewrite D2, D3, !(proj2 (Z.leb_gt _ _)) by lia. simpl orb. cbv iota.
  unfold TIME_set_hhmmss. rewrite wrapu_id by (unfold in_u; lia). by rewrite D1, D2, D3.
Qed.

Lemma datetime_decimal t t0 dec flags : dec_room dec -> d_len dec = DECIMAL_BUFF_LENGTH ->
  1000 <= year t -> datetime_ok t -> neg t = false -> time_type t = MYSQL_TIMESTAMP_DATETIME -> flag flags TIME_NO_NSEC_ROUNDING = false ->
  exists d, date2my_decimal t dec = Some (d, []) /\ my_decimal_to_datetime_with_warn d t0 flags = Some (false, t, false).
Proof.
  intros Hr Hl H1 Ht Hn Ety Hfl. destruct (datetime_digits_range t H1 Ht) as [Bd Bc]. destruct (datetime_digits t) as (_ & _ & Ed); [lia..|].
  destruct Ht as (Hy & Hd & Hc). pose proof Hc as (_ & _ & _ & Hu). unfold date2my_decimal, has_time. rewrite Ety, Ed.
  rewrite !wraps_id by (try done; unfold in_s; lia).
  destruct (lldiv_decimal (date_digits t * 1000000 + clock_digits t) (second_part t) (neg t) dec Hr Hl) as (d & E & E'); [unfold DIG_BASE; lia|lia|].
  exists d. split; [done|]. rewrite Hn in E'. unfold my_decimal_to_datetime_with_warn. rewrite E'. cbn [mbind option_bind]. unfold sg. rewrite !Z.mul_1_l.
  unfold lldiv_t_to_datetime. simpl negb. cbv iota. rewrite (proj2 (Z.ltb_ge _ 0)) by lia.
  rewrite (number_read t _ flags MYSQL_TIMESTAMP_DATETIME) by (done || lia || (apply complete_number_datetime; lia)). cbn [mbind option_bind time_type].
  rewrite (proj2 (Z.eqb_neq _ (-1))) by lia. rewrite bool_decide_false by done. rewrite Hfl. simpl negb. cbv iota.
  rewrite Z.quot_mul, Z.rem_mul by lia. unfold datetime_add_nanoseconds_with_round. simpl. destruct t. simpl in *. by subst.
Qed.

Lemma date_decimal t t0 dec flags : dec_room dec -> d_len dec = DECIMAL_BUFF_LENGTH ->
  1000 <= year t -> datetime_ok t -> neg t = false -> time_type t = MYSQL_TIMESTAMP_DATE -> clock_micros t = 0 ->
  exists d, date2my_decimal t dec = Some (d, []) /\ my_decimal_to_datetime_with_warn d t0 flags = Some (false, t, false).
Proof.
  intros Hr Hl H1 Ht Hn Ety H0. destruct (datetime_digits_range t H1 Ht) as [Bd Bc]. destruct (datetime_digits t) as (Ed & _ & _); [lia..|].
  pose proof Ht as (_ & _ & Hc). unfold clock_ok in Hc. unfold clock_micros in H0.
  assert (hour t = 0 /\ minute t = 0 /\ second t = 0 /\ second_part t = 0) as (Eh & Em & Es & Eu) by lia.
  unfold date2my_decimal, has_time. rewrite Ety, Ed. rewrite !wraps_id by (try done; unfold in_s; lia).
  destruct (lldiv_decimal (date_digits t) (second_part t) (neg t) dec Hr Hl) as (d & E & E'); [unfold DIG_BASE; lia|lia|].
  exists d. split; [done|]. rewrite Hn in E'. unfold my_decimal_to_datetime_with_warn. rewrite E'. cbn [mbind option_bind]. unfold sg. rewrite !Z.mul_1_l, Eu.
  unfold lldiv_t_to_datetime. simpl negb. cbv iota. change (0 * 1000) with 0. change (0 <? 0) with false. cbv iota.
  assert (clock_digits t = 0) as Ec by (unfold clock_digits; lia).
  rewrite (number_read t _ flags MYSQL_TIMESTAMP_DATE) by (done || lia || (rewrite Ec, Z.add_0_r; by apply complete_number_date)).
  cbn [mbind option_bind time_type]. rewrite (proj2 (Z.eqb_neq _ (-1))) by lia. rewrite bool_decide_true by done. simpl. destruct t. simpl in *. by subst.
Qed.

Lemma time_decimal t t0 dec : dec_room dec -> d_len dec = DECIMAL_BUFF_LENGTH -> time_value_ok t -> (neg t = true -> clock_micros t <> 0) ->
  exists d, time2my_decimal t dec = Some (d, []) /\ my_decimal_to_time_with_warn d t0 = Some (false, t, false).
Proof.
  intros Hr Hl Ht Hz. pose proof Ht as (Ey & Emo & Ed & Hh & Hm & Hs & Hu & Ety).
  assert (0 <= clock_digits t <= 8385959) as Bc by (unfold clock_digits; lia).
  destruct (datetime_digits t) as (_ & Et & _); [unfold date_digits; lia|lia|]. unfold time2my_decimal. rewrite Et. rewrite !wraps_id by (try done; unfold in_s; lia).
  destruct (lldiv_decimal (clock_digits t) (second_part t) (neg t) dec Hr Hl) as (d & E & E'); [unfold DIG_BASE; lia|lia|].
  exists d. split; [done|]. unfold my_decimal_to_time_with_warn. rewrite E'. cbn [mbind option_bind]. simpl negb. cbv iota.
  unfold lldiv_t_to_time. rewrite number_to_time_digits by done. cbn [mbind option_bind]. unfold set_neg. cbn [year month day hour minute second second_part time_type MyTime.neg].
  assert ((sg (MyTime.neg t) * clock_digits t <? 0) || (sg (MyTime.neg t) * (second_part t * 1000) <? 0) = MyTime.neg t) as ->.
  { unfold clock_micros, clock_digits in *. destruct (MyTime.neg t); unfold sg; [specialize (Hz eq_refl)|].
    - apply orb_true_iff. rewrite !Z.ltb_lt. lia.
    - apply orb_false_iff. rewrite !Z.ltb_ge. lia. }
  replace (if MyTime.neg t then _ else _) with (second_part t * 1000) by (unfold sg; destruct (MyTime.neg t); lia).
  rewrite Z.quot_mul, Z.rem_mul, !wrapu_id by (unfold in_u; lia). unfold time_add_nanoseconds_with_round. simpl. destruct t. simpl in *. by subst.
Qed.

(** C28: Times survive the way through a decimal.  A DATETIME or DATE from the year
    1000 on and a TIME are what their decimal is converted back to, without an error
    or a warning, whatever the flags are (but for the one that drops fractions). *)
Theorem temporal_decimal_roundtrip t t0 dec flags : dec_room dec -> d_len dec = DECIMAL_BUFF_LENGTH ->
  (1000 <= year t -> datetime_ok t -> neg t = false -> time_type t = MYSQL_TIMESTAMP_DATETIME -> flag flags TIME_NO_NSEC_ROUNDING = false ->
     exists d, date2my_decimal t dec = Some (d, []) /\ my_decimal_to_datetime_with_warn d t0 flags = Some (false, t, false)) /\
  (1000 <= year t -> datetime_ok t -> neg t = false -> time_type t = MYSQL_TIMESTAMP_DATE -> clock_micros t = 0 ->
     exists d, date2my_decimal t dec = Some (d, []) /\ my_decimal_to_datetime_with_warn d t0 flags = Some (false, t, false)) /\
  (time_value_ok t -> (neg t = true -> clock_micros t <> 0) ->
     exists d, time2my_decimal t dec = Some (d, []) /\ my_decimal_to_time_with_warn d t0 = Some (false, t, false)).
Proof. intros Hr Hl. split_and!; intros; [by apply datetime_decimal|by apply date_decimal|by apply time_decimal]. Qed.

(** ** Rounding *)

(** The unit of the last digit, and a number rounded to it, a half upwards. *)
Definition dec_unit (dec : Z) : Z := 10 ^ (6 - dec).
Definition round_micros (dec v : Z) : Z := (v + dec_unit dec / 2) / dec_unit dec * dec_unit dec.
Definition TIME_MAX_MICROS : Z := ((838 * 60 + 59) * 60 + 59) * 1000000.

Lemma decimals_cases dec : 0 <= dec <= 6 ->
  log_10_int (DATETIME_MAX_DECIMALS - dec) = dec_unit dec /\ 0 < dec_unit dec /\ (dec_unit dec | 1000000) /\ 0 <= dec_unit dec / 2 <= 500000 /\
  exists ns, msec_round_add dec = Some ns /\ (ns + 500) / 1000 = dec_unit dec / 2 /\ (ns < 500 -> dec = 6) /\ (dec = 6 -> ns = 0).
Proof.
  intros H. assert (dec = 0 \/ dec = 1 \/ dec = 2 \/ dec = 3 \/ dec = 4 \/ dec = 5 \/ dec = 6) as C by lia.
  destruct C as [-> |[-> |[-> |[-> |[-> |[-> | ->]]]]]]; (split; [reflexivity|]); (split; [reflexivity|]);
    (split; [apply Z.mod_divide; done|]); (split; [vm_compute; split; intros [=]|]); (eexists; split; [reflexivity|]); (split; [reflexivity|]); split; intros; lia.
Qed.

(** Cutting the microseconds of a time cuts the time. *)
Lemma my_time_trunc_spec t dec k : 0 <= dec <= 6 -> 0 <= second_part t < 1000000 -> let v := k * 1000000 + second_part t in
  second_part (my_time_trunc t dec) = v / dec_unit dec * dec_unit dec - k * 1000000 /\ 0 <= second_part (my_time_trunc t dec) <= second_part t.
Proof.
  intros Hd Hs v. destruct (decimals_cases dec Hd) as (El & Hu & [q Eq] & _). unfold my_time_trunc, my_time_fraction_remainder. cbn [second_part set_second_part].
  rewrite El, Z.rem_mod_nonneg by lia. set (u := dec_unit dec) in *. unfold v. rewrite Eq. rewrite Z.mul_assoc, Z.div_add_l by lia.
  pose proof (Z.div_mod (second_part t) u ltac:(lia)) as D. pose proof (Z.mod_pos_bound (second_part t) u ltac:(lia)) as M.
  pose proof (Z.mod_le (second_part t) u ltac:(lia) ltac:(lia)). split; [|lia]. rewrite Z.mul_add_distr_r. lia.
Qed.

Lemma time_range_quick_spec t : day t = 0 -> 0 <= hour t -> 0 <= minute t <= 59 -> 0 <= second t <= 59 -> 0 <= second_part t <= 999999 ->
  check_time_range_quick t = (TIME_MAX_MICROS <? clock_micros t).
Proof.
  intros Hd Hh Hm Hs Hu. unfold check_time_range_quick, clock_micros, TIME_MAX_MICROS, TIME_MAX_HOUR, TIME_MAX_MINUTE, TIME_MAX_SECOND. rewrite Hd. zcases.
Qed.

Lemma carry_second_spec t : 0 <= hour t < 2 ^ 31 -> 0 <= minute t <= 59 -> 0 <= second t <= 59 -> let t' := carry_second t in
  0 <= hour t' /\ 0 <= minute t' <= 59 /\ 0 <= second t' <= 59 /\ clock_micros t' = clock_micros t + 1000000 /\
  second_part t' = second_part t /\ day t' = day t /\ year t' = year t /\ month t' = month t /\ neg t' = neg t /\ time_type t' = time_type t.
Proof.
  intros Hh Hm Hs. unfold carry_second, clock_micros. rewrite wrapu_id by (unfold in_u; lia).
  destruct (Z.ltb_spec (second t) 59); [|destruct (Z.ltb_spec (minute t) 59)]; cbn; split_and!; try done; lia.
Qed.

(** The parts of a TIME that rounding keeps. *)
Definition time_shape (t : MYSQL_TIME) : Prop :=
  year t = 0 /\ month t = 0 /\ day t = 0 /\ time_type t = MYSQL_TIMESTAMP_TIME /\
  0 <= hour t /\ 0 <= minute t <= 59 /\ 0 <= second t <= 59 /\ 0 <= second_part t <= 999999.

Lemma time_shape_ok t : time_shape t -> clock_micros t <= TIME_MAX_MICROS -> time_value_ok t.
Proof. intros (? & ? & ? & ? & ? & ? & ? & ?) Hv. unfold clock_micros, TIME_MAX_MICROS in Hv. unfold time_value_ok. split_and!; lia || done. Qed.

(** The sum before the range is checked. *)
Lemma time_added t h : time_value_ok t -> 0 <= h <= 500000 -> let us := second_part t + h in
  let t1 := if us <? 1000000 then set_second_part t us else carry_second (set_second_part t (us mod 1000000)) in
  time_shape t1 /\ clock_micros t1 = clock_micros t + h /\ neg t1 = neg t.
Proof.
  intros (Hy & Hmo & Hd & Hh & Hm & Hs & Hu & Ht) Hb us t1. unfold t1. destruct (Z.ltb_spec us 1000000) as [L|L].
  - unfold time_shape, clock_micros, us in *. cbn. split_and!; try done; lia.
  - assert (us mod 1000000 = us - 1000000) as -> by (symmetry; apply (Z.mod_unique _ _ 1); unfold us in *; lia).
    destruct (carry_second_spec (set_second_part t (us - 1000000))) as (H1 & H2 & H3 & E & Es & Ed & Ey & Emo & En & Ety); [cbn; lia..|].
    unfold time_shape. rewrite E, Es, Ed, Ey, Emo, En, Ety. unfold clock_micros, us in *. cbn in *. split_and!; try done; lia.
Qed.

Lemma time_add_spec t ns w : time_value_ok t -> clock_micros t <= TIME_MAX_MICROS -> 0 <= (ns + 500) / 1000 <= 500000 -> 0 <= ns ->
  exists t' w', time_add_nanoseconds_with_round t ns w = (t', w') /\ time_value_ok t' /\ neg t' = neg t /\
    clock_micros t' = Z.min (clock_micros t + (ns + 500) / 1000) TIME_MAX_MICROS.
Proof.
  intros Ht Hv Hh Hn. unfold time_add_nanoseconds_with_round. destruct (Z.ltb_spec ns 500).
  { exists t, w. split_and!; try done. rewrite (Z.div_small (ns + 500)) by lia. lia. }
  destruct (time_added t _ Ht Hh) as (Hs & Ec & En). cbv zeta in *. set (h := (ns + 500) / 1000) in *.
  set (t1 := if _ <? 1000000 then set_second_part t (second_part t + h) else _) in *.
  replace (if second_part t + h <? 1000000 then adjust_time_range _ w else _) with (adjust_time_range t1 w) by (unfold t1; by destruct (_ <? _)).
  pose proof Hs as (Hy & Hmo & Hd & Hty & Hho & Hm & Hse & Hu). unfold adjust_time_range. rewrite time_range_quick_spec by done. rewrite Ec in *.
  destruct (Z.ltb_spec TIME_MAX_MICROS (clock_micros t + h)).
  - eexists _, _. split; [done|]. rewrite Z.min_r by lia. unfold time_value_ok, clock_micros, TIME_MAX_MICROS, TIME_MAX_HOUR, TIME_MAX_MINUTE, TIME_MAX_SECOND. cbn.
    rewrite Hty, Hy, Hmo. split_and!; done.
  - exists t1, w. split; [done|]. split_and!; [apply time_shape_ok; [done|lia]|done|lia].
Qed.

(** C27: [my_time_round] gives the TIME with [dec] digits after the seconds that is
    nearest to the value, a half away from zero, and not beyond 838:59:59. *)
Theorem my_time_round_correct t dec : time_value_ok t -> clock_micros t <= TIME_MAX_MICROS -> 0 <= dec <= 6 ->
  exists t', my_time_round t dec = Some t' /\ time_value_ok t' /\ neg t' = neg t /\
    clock_micros t' = Z.min (round_micros dec (clock_micros t)) TIME_MAX_MICROS.
Proof.
  intros Ht Hv Hd. destruct (decimals_cases dec Hd) as (_ & Hu & [q Eq] & Hh & ns & En & Eh & H6 & H6').
  assert (0 <= ns) as Hns by (destruct (Z.lt_ge_cases ns 500); [rewrite H6' by auto; done|lia]).
  destruct (time_add_spec t ns 0 Ht Hv) as (t1 & w & E & H1 & N1 & C1); [by rewrite Eh|done|].
  unfold my_time_round. rewrite En. cbn [mbind option_bind]. rewrite E. cbn [fst]. rewrite Eh in C1. exists (my_time_trunc t1 dec). split; [done|].
  pose proof H1 as (Hy & Hmo & Hdy & Hho & Hm & Hs & Hus & Hty).
  destruct (my_time_trunc_spec t1 dec (hour t1 * 3600 + minute t1 * 60 + second t1) Hd) as [T1 T2]; [lia|].
  fold (clock_micros t1) in T1. split; [|split; [done|]].
  - unfold time_value_ok. change (year (my_time_trunc t1 dec)) with (year t1). cbn [my_time_trunc set_second_part year month day hour minute second time_type] in *.
    split_and!; try done; try lia; apply T2.
  - unfold clock_micros at 1. change (hour (my_time_trunc t1 dec)) with (hour t1). change (minute (my_time_trunc t1 dec)) with (minute t1).
    change (second (my_time_trunc t1 dec)) with (second t1). rewrite T1, C1. unfold round_micros. set (u := dec_unit dec) in *.
    assert (TIME_MAX_MICROS / u * u = TIME_MAX_MICROS) as Em.
    { change TIME_MAX_MICROS with (3020399 * 1000000). rewrite Eq, Z.mul_assoc, Z.div_mul by lia. done. }
    destruct (Z.min_spec (clock_micros t + u / 2) TIME_MAX_MICROS) as [[L ->]|[L ->]].
    + pose proof (Z.div_le_mono (clock_micros t + u / 2) TIME_MAX_MICROS u Hu ltac:(lia)) as M.
      pose proof (Z.mul_le_mono_nonneg_r _ _ u ltac:(lia) M). lia.
    + pose proof (Z.div_le_mono TIME_MAX_MICROS (clock_micros t + u / 2) u Hu ltac:(lia)) as M.
      pose proof (Z.mul_le_mono_nonneg_r _ _ u ltac:(lia) M). lia.
Qed.

(** A point of the time line moved on by less than a second. *)
Lemma datetime_add_spec t ns w : datetime_ok t -> 0 <= (ns + 500) / 1000 <= 500000 -> 0 <= ns -> neg t = false ->
  let x := datetime_micros t + (ns + 500) / 1000 in
  exists rc t' w', datetime_add_nanoseconds_with_round t ns w = Some (rc, t', w') /\
    if x / DAY_MICROS <=? MAX_DAY_NUMBER then rc = false /\ w' = w /\ datetime_ok t' /\ datetime_micros t' = x /\ neg t' = false
    else rc = true /\ w' = Z.lor w MYSQL_TIME_WARN_OUT_OF_RANGE.
Proof.
  intros Ht Hh Hn Hneg x. unfold datetime_add_nanoseconds_with_round. set (h := (ns + 500) / 1000) in *. pose proof Ht as (Hy & Hd & Hc).
  pose proof (daynr_range _ _ _ Hy Hd) as N. destruct (date_ok_range _ _ _ Hd) as [Hm Hdd]. rewrite <- calc_daynr_spec in N by lia.
  assert (0 < DAY_MICROS) as P by done.
  assert (clock_micros t + h < DAY_MICROS -> x / DAY_MICROS = calc_daynr (year t) (month t) (day t)) as Hx.
  { intros L. unfold x, datetime_micros. rewrite <- Z.add_assoc, Z.div_add_l, Z.div_small by (pose proof (clock_micros_range t Hc); lia). lia. }
  destruct (Z.ltb_spec ns 500).
  { exists false, t, w. split; [done|]. assert (h = 0) as E0 by (apply Z.div_small; lia). pose proof (clock_micros_range t Hc).
    rewrite Hx, (proj2 (Z.leb_le _ _)) by lia. split_and!; try done. unfold x. lia. }
  destruct (Z.ltb_spec (second_part t + h) 1000000) as [L|L].
  - exists false, (set_second_part t (second_part t + h)), w. split; [done|]. unfold clock_ok, clock_micros, DAY_MICROS in *.
    rewrite Hx, (proj2 (Z.leb_le _ _)) by lia. split_and!; try done; [split_and!; try done; unfold clock_ok; cbn; lia|].
    unfold x, datetime_micros, clock_micros. cbn. lia.
  - unfold clock_ok in Hc. replace ((second_part t + h) mod 1000000) with (second_part t + h - 1000000) by (apply (Z.mod_unique _ _ 1); lia).
    set (t1 := set_second_part t (second_part t + h - 1000000)). assert (datetime_ok t1) as Ht1 by (split_and!; try done; unfold clock_ok, t1; cbn; lia).
    assert (non_zero_date t1 = true) as -> by (unfold non_zero_date, t1; cbn; rewrite (proj2 (Z.eqb_neq (year t) 0)) by lia; done).
    rewrite check_date_ok by done. cbn [mbind option_bind].
    assert (interval_small (mk_interval 0 0 0 0 0 1 0 false)) as Hi by (unfold interval_small, interval_seconds; cbn [i_year i_month i_day i_hour i_minute i_second i_second_part]; lia).
    assert (set_neg t1 false = t1) as En by (unfold t1; destruct t; cbn in *; by subst). unfold date_add_interval. rewrite En. cbn [i_neg].
    destruct (add_seconds_spec t1 (mk_interval 0 0 0 0 0 1 0 false) 1 Ht1 Hi (or_introl eq_refl)) as (t' & r & E & O & C & M & N' & _). rewrite E. cbn [mbind option_bind].
    assert (datetime_micros t1 + 1 * interval_micros (mk_interval 0 0 0 0 0 1 0 false) = x) as Ex.
    { unfold x, datetime_micros, clock_micros, interval_micros, interval_seconds, t1. cbn. lia. }
    rewrite Ex in O, M. assert (365 < x / DAY_MICROS) as G.
    { apply Z.lt_le_trans with (calc_daynr (year t) (month t) (day t)); [lia|]. apply Z.div_le_lower_bound; [done|]. unfold x, datetime_micros, clock_micros. lia. }
    destruct (Z.leb_spec (x / DAY_MICROS) MAX_DAY_NUMBER).
    + destruct (datetime_micros_outcome t' x r O C M) as (-> & Ht' & Em); [lia|]. exists false, t', w. split_and!; try done. by rewrite N'.
    + unfold add_outcome in O. rewrite (proj2 (Z.leb_gt _ MAX_DAY_NUMBER)), andb_false_r in O by done. rewrite O. by exists true, t', (Z.lor w MYSQL_TIME_WARN_OUT_OF_RANGE).
Qed.

Lemma round_micros_day dec x : 0 <= dec <= 6 -> (x + dec_unit dec / 2) / DAY_MICROS = round_micros dec x / DAY_MICROS.
Proof.
  intros Hd. destruct (decimals_cases dec Hd) as (_ & Hu & [q Eq] & _). unfold round_micros. set (u := dec_unit dec) in *. set (y := x + u / 2).
  assert (DAY_MICROS = u * (86400 * q)) as -> by (unfold DAY_MICROS; lia). rewrite <- !Z.div_div by lia. by rewrite Z.div_mul by lia.
Qed.


(** ** Differences *)

(** The sign and the magnitude of a number of microseconds, in seconds and the rest. *)
Lemma diff_parts x : - 2 ^ 62 < x < 2 ^ 62 -> let m := if x <? 0 then wraps 64 (- x) else x in
  let n := x <? 0 in x = sg n * (Z.quot m 1000000 * 1000000 + Z.rem m 1000000) /\ 0 <= Z.quot m 1000000 /\ 0 <= Z.rem m 1000000 < 1000000.
Proof.
  intros Hx. cbv zeta. unfold sg. destruct (Z.ltb_spec x 0).
  - rewrite wraps_id by (try done; unfold in_s; lia). rewrite Z.quot_div_nonneg, Z.rem_mod_nonneg by lia.
    pose proof (Z.div_mod (- x) 1000000 ltac:(lia)). pose proof (Z.mod_pos_bound (- x) 1000000 ltac:(lia)). split_and!; try apply Z.div_pos; lia.
  - rewrite Z.quot_div_nonneg, Z.rem_mod_nonneg by lia.
    pose proof (Z.div_mod x 1000000 ltac:(lia)). pose proof (Z.mod_pos_bound x 1000000 ltac:(lia)). split_and!; try apply Z.div_pos; lia.
Qed.

(** The microseconds that [calc_time_diff] starts from: days or day numbers and clocks. *)
Definition diff_micros (a : MYSQL_TIME) : Z :=
  (if bool_decide (time_type a = MYSQL_TIMESTAMP_TIME) then day a else calc_daynr (year a) (month a) (day a)) * DAY_MICROS + clock_micros a.

Lemma calc_time_diff_spec a b s : (s = 1 \/ s = -1) -> 0 <= diff_micros a < 2 ^ 60 -> 0 <= diff_micros b < 2 ^ 60 ->
  (time_type a = MYSQL_TIMESTAMP_TIME -> time_type b = MYSQL_TIMESTAMP_TIME) ->
  let '(n, sec, us) := calc_time_diff a b s in
  diff_micros a - s * diff_micros b = sg n * (sec * 1000000 + us) /\ 0 <= sec /\ 0 <= us < 1000000 /\ n = (diff_micros a - s * diff_micros b <? 0).
Proof.
  intros Hs Ha Hb Hty. unfold calc_time_diff.
  set (x := diff_micros a - s * diff_micros b). set (y := (_ * SECONDS_IN_24H + _ - _) * 1000000 + _ - _).
  assert (y = x) as ->.
  { unfold y, x, diff_micros, clock_micros, DAY_MICROS, SECONDS_IN_24H. destruct (bool_decide_reflect (time_type a = MYSQL_TIMESTAMP_TIME)) as [E|E].
    - rewrite (bool_decide_true (time_type b = _)) by auto. lia.
    - destruct (bool_decide (time_type b = _)); lia. }
  assert (- 2 ^ 62 < x < 2 ^ 62) as Bx by (unfold x; destruct Hs as [-> | ->]; lia).
  rewrite (wraps_id 64 x) by (try done; unfold in_s; lia). destruct (diff_parts x Bx) as (E & H1 & H2). exact (conj E (conj H1 (conj H2 eq_refl))).
Qed.

(** The sum of a date and a time, which may be negative or longer than a day. *)
Lemma mix_date_and_time_spec ldate ltime : datetime_ok ldate -> clock_micros ldate = 0 -> neg ldate = false -> time_type ldate <> MYSQL_TIMESTAMP_TIME ->
  time_value_ok ltime -> let x := datetime_micros ldate + sg (neg ltime) * clock_micros ltime in 365 < x / DAY_MICROS <= MAX_DAY_NUMBER ->
  exists t', mix_date_and_time ldate ltime = Some t' /\ datetime_ok t' /\ datetime_micros t' = x /\ neg t' = false /\ time_type t' = MYSQL_TIMESTAMP_DATETIME.
Proof.
  intros Hl H0 Hn Hty Ht x Hx. pose proof Ht as (_ & _ & Hd0 & Hh & Hm & Hs & Hu & Htt). pose proof Hl as (Hy & Hd & Hc). unfold mix_date_and_time.
  destruct (negb (neg ltime) && (hour ltime <? 24)) eqn:C.
  - apply andb_prop in C as [C1%negb_true_iff C2%Z.ltb_lt]. eexists. split; [done|]. split; [|split; [|done]].
    + split; [exact Hy|]. split; [exact Hd|]. unfold clock_ok. cbn. lia.
    + unfold x. rewrite C1. unfold sg, datetime_micros, clock_micros in *. cbn. lia.
  - pose proof (daynr_range _ _ _ Hy Hd) as N. destruct (date_ok_range _ _ _ Hd). rewrite <- calc_daynr_spec in N by lia. unfold MAX_DAY_NUMBER in N.
    assert (diff_micros ldate = datetime_micros ldate) as E1 by (unfold diff_micros; by rewrite bool_decide_false).
    assert (diff_micros ltime = clock_micros ltime) as E2 by (unfold diff_micros; rewrite bool_decide_true, Hd0 by done; lia).
    assert (0 <= clock_micros ltime < 2 ^ 50) by (unfold clock_micros; lia).
    pose proof (calc_time_diff_spec ldate ltime (if neg ltime then 1 else -1)) as D. specialize (D ltac:(destruct (neg ltime); lia)).
    rewrite E1, E2 in D. replace (datetime_micros ldate - (if neg ltime then 1 else -1) * clock_micros ltime) with x in D by (unfold x, sg; destruct (neg ltime); lia).
    destruct (calc_time_diff ldate ltime _) as [[n sec] us]. destruct D as (Ex & Hsec & Hus & En); [unfold datetime_micros, DAY_MICROS; lia|lia|by intros|].
    assert (0 <= x) as Px by (pose proof (Z.div_mod x DAY_MICROS ltac:(done)); pose proof (Z.mod_pos_bound x DAY_MICROS ltac:(done)); unfold DAY_MICROS in *; lia).
    rewrite (proj2 (Z.ltb_ge x 0)) in En by done. subst n. unfold sg in Ex. rewrite Z.mul_1_l in Ex.
    destruct (micros_split 0 sec us Hus) as [D1 D2]. rewrite Z.mul_0_l, Z.add_0_l, <- Ex in D1, D2. change SECONDS_IN_24H with 86400.
    rewrite Z.quot_div_nonneg, Z.rem_mod_nonneg by lia. rewrite Z.add_0_l in D1. rewrite <- D1.
    destruct (date_of_daynr (x / DAY_MICROS)) as (y & m & d & -> & G); [lia|]. rewrite (proj2 (Z.leb_gt _ 365)) in G by lia. destruct G as (Gy & Gd & Gn).
    cbn [mbind option_bind]. eexists. split; [done|]. pose proof (Z.mod_pos_bound sec 86400 ltac:(lia)) as Ms. set (r := sec mod 86400) in *.
    pose proof (Z.mod_pos_bound r 3600 ltac:(lia)). unfold calc_time_from_sec. rewrite (Z.rem_mod_nonneg r), !Z.quot_div_nonneg, Z.rem_mod_nonneg by lia.
    assert (0 <= r / 3600 < 24 /\ 0 <= r mod 3600 / 60 < 60 /\ 0 <= r mod 3600 mod 60 < 60 /\ r = r / 3600 * 3600 + r mod 3600 / 60 * 60 + r mod 3600 mod 60) as R
      by (clear -Ms; clearbody r; Z.div_mod_to_equations; lia).
    rewrite (wrapu_id 32 (r / 3600)), (wrapu_id 32 (r mod 3600 / 60)), (wrapu_id 32 (r mod 3600 mod 60)), (wrapu_id 64 us) by (unfold in_u; lia).
    split; [|split; [|done]].
    + split; [exact Gy|]. split; [exact Gd|]. unfold clock_ok. cbn [hour minute second second_part set_time_type set_date set_second_part set_clock]. lia.
    + unfold datetime_micros, clock_micros. cbn [year month day hour minute second second_part set_time_type set_date set_second_part set_clock]. rewrite Gn.
      pose proof (Z.div_mod x DAY_MICROS ltac:(done)). lia.
Qed.

(** ** Examples *)

Definition ex_decimal_room : decimal_t := mk_decimal 0 0 9 false (replicate 9 0).

Lemma ex_end_ok : datetime_ok ex_end.
Proof. split; [unfold ex_end; simpl; lia|split; [split; vm_compute; split; intros [=]|unfold clock_ok, ex_end; simpl; lia]]. Qed.

(** -12:30:45.5 *)
Definition ex_clock : MYSQL_TIME := mk_time 0 0 0 12 30 45 500000 true MYSQL_TIMESTAMP_TIME.

Lemma temporal_decimal_roundtrip_witness :
  (exists d, date2my_decimal ex_end ex_decimal_room = Some (d, []) /\ my_decimal_to_datetime_with_warn d ex_clock 0 = Some (false, ex_end, false)) /\
  (exists d, time2my_decimal ex_clock ex_decimal_room = Some (d, []) /\ my_decimal_to_time_with_warn d ex_end = Some (false, ex_clock, false)).
Proof.
  split.
  - apply (proj1 (temporal_decimal_roundtrip ex_end ex_clock ex_decimal_room 0 ltac:(done) eq_refl)); [unfold ex_end; simpl; lia|apply ex_end_ok|done..].
  - apply (proj2 (proj2 (temporal_decimal_roundtrip ex_clock ex_end ex_decimal_room 0 ltac:(done) eq_refl)));
      [unfold time_value_ok, ex_clock; simpl; split_and!; done || lia|intros _; vm_compute; intros [=]].
Defined.

Lemma my_time_round_correct_witness : exists t', my_time_round ex_clock 0 = Some t' /\ clock_micros t' = 45046000000 /\ neg t' = true.
Proof.
  destruct (my_time_round_correct ex_clock 0) as (t' & E & _ & N & C);
    [unfold time_value_ok, ex_clock; simpl; split_and!; done || lia|vm_compute; intros [=]|lia|].
  exists t'. split; [exact E|]. split; [rewrite C; reflexivity|exact N].
Defined.

